(* ===== verification/_CoqProject ===== *)
-Q . S2P
Prelude.v
Lru.v
Instructions.v
Schedule.v
Evm.v
Memory.v
Stack.v
SharedCache.v
Gasometer.v
GasometerSpec.v
Interpreter.v
Words.v
StackSpec.v
CopySpec.v
InterpreterSpec.v
LoopSpec.v
Account.v
State.v
StateSpec.v
CheckpointSpec.v
StateInv.v
StorageSpec.v
StateMachine.v
CommitSpec.v
Executive.v
ExecutiveSpec.v
Block.v
BlockSpec.v
NativeStorage.v
NativeSpec.v
Codec.v
CodecSpec.v
ChainDb.v
Chain.v
Forward.v
ChainSpec.v
ChainInv.v
ChainReads.v
ChainLogs.v
ChainFilter.v
ChainIndex.v
ChainStep.v
SysConfig.v
Executor.v
Threads.v
Instance.v
ExecutorSpec.v
InstanceSpec.v
InstanceRun.v
AuthVerifier.v
AuthHandler.v
AuthDispatcher.v
AuthTheorems.v
Synchronizer.v
SyncTheorems.v
Network.v
NetworkTheorems.v
CacheManager.v
Polls.v
PollsSpec.v
Trace.v
Tracer.v
TracerSpec.v
TraceSpec.v
TraceDb.v
TraceDbSpec.v
TraceChain.v
Samples.v
AccountDb.v
Builtin.v
StateTheorems.v
EvmTheorems.v
ExecutiveTheorems.v
NativeTheorems.v
ChainSamples.v
ChainTheorems.v
TraceTheorems.v
PollsTheorems.v
ExecutorSamples.v
ExecutorTheorems.v
