(* ===== verification/Prelude.v ===== *)
(** * Verification of CITA: execution, tracing, chain, network, authentication

    ** The program

    CITA is a blockchain node made of services that exchange messages.
    - [cita-executor] executes blocks.  A virtual machine ([evm/]) runs
      contracts against a world state ([state/]) with checkpoints; the
      executive ([executive.rs]) runs transactions, [libexecutor/block.rs]
      blocks; [libexecutor/executor.rs] keeps headers, configuration and state
      in a database; [executor_instance.rs] and [main.rs] are two threads that
      receive blocks and proposals and execute them.  Tracers ([trace/])
      record the calls of a transaction, and a database of traces answers
      searches by address.
    - [cita-chain] stores executed blocks, their transactions and receipts
      ([libchain/chain.rs]), answers requests of clients ([forward.rs],
      [filters/]), and queues blocks from consensus and from peers.
    - [cita-auth] admits transactions: it verifies signatures and that a
      transaction is new, answers requests for proposed blocks, and keeps the
      pool ([verifier.rs], [handler.rs], [dispatcher.rs], [txwal.rs]).
    - [cita-network] carries messages between nodes in frames on streams
      ([citaprotocol.rs], [connection.rs], [netserver.rs]) and asks the peers
      for missing blocks ([synchronizer.rs]).

    ** The model

    Rust code becomes functions on explicit state.  A call returns [Ok], [Err]
    or [Panic] ([outcome]); [M E S A] is a computation with errors [E] on a
    state [S].  Machine integers are [Z] with their width written at each
    operation; plain arithmetic that overflows is [Panic], so that the absence
    of panics holds in debug and in release builds.  Maps are [gmap]; vectors,
    queues and channels are lists.  Code outside the repository (hashes, RLP
    and trie libraries, the key-value database, caches, signatures, the ABI
    decoder, the clock, the random generator) is a parameter: a type class
    with the operations, and one with the laws the proofs use ([UtilOk],
    [BackendOk], [LruCacheOk], [RlpLibOk], [RlpBytesOk], [KvDbOk],
    [StateStoreOk], [BloomChainOk], [TransientOk], [HashDBOk],
    [BuiltinLibOk]).  [Samples.v], [ChainSamples.v], [ExecutorSamples.v] and the
    files of theorems instantiate every one of them, so that the models run and
    each theorem is applied to a concrete case.

    The components, with the files of [src/] they model:
    - [Instructions], [Schedule], [Evm], [Memory], [Stack], [SharedCache],
      [Gasometer], [Interpreter]: the files of [evm/] and [evm/interpreter/]
      of the same names, one module for each with the operations of the source.
    - [Account], [State]: [state/account.rs], [state/mod.rs].  A state is a
      record of database, root, cache of accounts and checkpoints.
    - [AccountDb]: [account_db.rs], the databases of accounts in the common one.
      [Builtin]: [builtin.rs].
    - [Executive]: [substate.rs], [externalities.rs], [executive.rs].  [Block]:
      receipts and [libexecutor/block.rs].  [NativeStorage]:
      [native/storage.rs].
    - [SysConfig], [Executor]: [libexecutor/executor.rs], [genesis.rs] and the
      readers of the system contracts in [contracts/].  [Instance]:
      [executor_instance.rs] and the threads of [main.rs], on the model of
      threads in [Threads].
    - [Codec]: the RLP forms of stored data.  [ChainDb]: [db.rs] and
      [extras.rs].  [Chain]: [libchain/chain.rs].  [Forward]: [forward.rs].
      [CacheManager]: [cache_manager.rs] and the collection of cache entries.
    - [AuthVerifier], [AuthHandler], [AuthDispatcher]: the files of
      [cita-auth/src].  [Synchronizer]: [synchronizer.rs].
    - [Network]: the files of [cita-network/src] for frames, connections and
      the server; streams and sockets are byte buffers.
    - [Trace]: the records of [trace/types] with their RLP forms and blooms.
      [Tracer]: the traits of [trace/mod.rs] as classes, with the executive and
      the noop tracers as instances, run on the record of an execution: its
      calls, creations and instructions, with the stack before and the memory
      after each.  [TraceDb]: [trace/db.rs]; the bloom library asks for groups, so
      a search is a program of questions.
    - [Polls]: the requests of clients in [forward.rs], the files of [filters/],
      and the filters and block numbers of [jsonrpc_types].

    ** What is proved

    Machine ([EvmTheorems], from [GasometerSpec], [StackSpec], [Words],
    [CopySpec], [InterpreterSpec], [LoopSpec]): the loop ends and never panics
    on any code, the invariant of reachable machines, the jump analysis, and
    that the arithmetic instructions refine a reference semantics.  The
    interpreter is verified against the interface [Externalities]; the
    executive implements it ([ExecutiveSpec]).

    State ([StateTheorems], from [StateSpec], [CheckpointSpec], [StateInv],
    [StateMachine], [StorageSpec], [CommitSpec]): the state refines an abstract
    machine in which every account has a stack of values, answers included, so
    that a revert restores everything, where accounts are killed only without
    checkpoint and contracts are created only where no account is (the state
    does not undo the others); a commit makes the state durable.  [AccountDb]: every
    account has a database of its own, up to keys that meet.

    Transactions and blocks ([ExecutiveTheorems], from [ExecutiveSpec],
    [BlockSpec]): no transaction panics, calls and creations are atomic, the
    sender is charged what was used, and a block stays within the limits.
    [NativeTheorems]: native maps store what was written.  [Builtin]: the
    builtins are what the executive asks for, and write what they should.

    Executor ([ExecutorTheorems], [SysConfig], from [ExecutorSpec],
    [InstanceSpec], [InstanceRun]): under every interleaving
    of its two threads the store has a current header and the headers form a
    chain; executing a proposal ahead gives the header of direct execution;
    the queue of configurations equals the full history; [BLOCKHASH] is right
    while calls are at the current block; executor and chain agree on hashes.  Four theorems show where the code goes
    wrong: a lost block, a superseded proposal that is finalized, hashes
    spoiled by a call, and a raised delay that acts at once.

    Chain ([ChainTheorems], from [CodecSpec], [ChainSpec], [ChainInv],
    [ChainReads], [ChainLogs], [ChainFilter], [ChainIndex], [ChainStep]): every
    message keeps the invariant and the executed blocks; results extend the
    chain; lookups, receipts and log searches answer what is stored; a restart
    finds the chain again.  [CacheManager]: a collection gives up the oldest
    entries only; one theorem shows how the oldest entries are renewed.

    Authentication ([AuthTheorems]) and synchronization ([SyncTheorems]): a
    transaction is admitted once, a request is answered once, requests cover
    the missing heights, every message keeps the invariants.

    Network ([NetworkTheorems]): frames come back from a stream however it is
    cut, a broadcast reaches the connected peers, and the peers follow the configuration.  Two theorems show how a short write and a
    wrong frame spoil a stream.

    Traces ([TraceTheorems], from [TracerSpec], [TraceSpec], [TraceDbSpec],
    [TraceChain]): what the tracers return is the tree of the calls in depth
    first order with its addresses; stored traces come back; searches and
    lookups give exactly the traces of the imported blocks.  Two theorems show
    how a cached group of blooms hides traces, and how an empty copy beyond the
    memory makes the tracer of the machine panic.

    Replies and polling ([PollsTheorems], from [PollsSpec]): requests are
    answered from what is stored and change neither the chain nor the filters
    of others; a client that polls a block filter in time is told every
    executed block once and in order, and a log filter gives the matching logs.

    ** Bounds and fuel

    - [exec_loop] has one unit of fuel more than there is gas; every round that
      goes on costs gas ([EvmTheorems.exec_safe] proves that it suffices).
    - [executive] has one level more than the greatest call depth, 1024, which
      the machine checks ([ExecutiveTheorems.transact_total]).
    - [parse_addresses] has the length of the data; each address takes 32
      bytes, and data that is too short panics first ([parse_abi]).
    - [sync_loop] has one round more than the queue has blocks; each round
      removes one.
    - [prune_eras] takes its fuel as a parameter, and a [prune_ancient] that
      does not end is a panic: the loop of the source need not end, and no
      theorem assumes that it does.
    - Reading frames from a buffer has one unit more than the buffer has bytes;
      a frame takes some.  Removing peers has one unit more than there are
      addresses; a round removes one.
    - Loops over data, and the runs of tracers over the calls of a transaction,
      are structural recursion; no other fuel is used.
    - The bloom groups of traces are for block numbers below [2^32], as the
      library takes them; the theorems on searches say so.
    - A client polls a filter within the lifetime of filters, 60 seconds; the
      theorem on polling says what happens then.

    ** Not modelled

    - Statistics, logging, and the conversion to and from protobuf and JSON:
      they do not influence the modelled state.
    - [Executive] leaves out the calls of tracers, which are modelled apart, on
      the record of an execution; that the executive makes such a record is not
      proved.
    - Headers do not carry their memoised hash.  It is the hash of their RLP
      form, also for a header decoded from a database, since only encoded
      headers are stored ([CodecSpec.decoded_header_hash]).
    - Tries, [journaldb], cryptography, the proofs of the privacy contract and
      the bloom library are code outside the repository; they are parameters
      with laws.
    - The lookups of the chain do not note which cache entries they use: which
      entries go is arbitrary in the theorems on the chain.
    - The copies of [header.rs], [db.rs] and [cache_manager.rs] in the other
      service, which are the same code.
    - Requests of clients run one after the other with the messages of the
      chain; a block that another thread appends within a request is not.
    - Sockets, the watching of configuration files, HTTP and websocket servers,
      configuration files, command-line tools, and the start of threads and message queues.
    - [Threads] takes memory accesses to be sequentially consistent, as the
      code asks for ([Ordering::SeqCst], locks). *)

From Stdlib Require Import ZArith Lia.
From Corelib Require Export ssreflect.
From stdpp Require Import base list list_numbers strings.

(** ** Shared vocabulary

    Outcomes of Rust code, fixed-width integers, byte strings and slices, the
    weakest-precondition calculus used to reason about mutating code, and the
    tactics and hints of the development. *)
Declare Scope cita_scope.
Delimit Scope cita_scope with cita.
Open Scope Z_scope.
Open Scope cita_scope.

(** ** Outcomes

    A call of Rust code returns [Ok], returns [Err], or panics.  A panic is
    an explicit value: [panic!], a failed [assert!], an out-of-range slice
    index, [expect] on [None], and also the overflow of a plain [+], [-] or
    [*], which panics in a debug build and wraps in a release build.  A proof
    that a call never yields [Panic] therefore covers both build modes. *)
Inductive outcome (E A : Type) : Type :=
| Ok (a : A)
| Err (e : E)
| Panic.
Arguments Ok {E A} a.
Arguments Err {E A} e.
Arguments Panic {E A}.

(** The error type of code that returns no [Result]. *)
Inductive void : Type := .

Definition obind {E A B} (c : outcome E A) (k : A -> outcome E B) : outcome E B :=
  match c with
  | Ok a => k a
  | Err e => Err e
  | Panic => Panic
  end.

Definition omap_err {E F A} (f : E -> F) (c : outcome E A) : outcome F A :=
  match c with
  | Ok a => Ok a
  | Err e => Err (f e)
  | Panic => Panic
  end.

(** Code that returns no [Result], used where a [Result] is expected. *)
Definition total {E A} (c : outcome void A) : outcome E A :=
  omap_err (fun v : void => match v with end) c.

Notation "x <- c ;; k" := (obind c (fun x => k))
  (at level 100, c at next level, right associativity) : cita_scope.
Notation "'let*' p ':=' c 'in' k" := (obind c (fun x => match x with p => k end))
  (at level 10, p pattern, c at level 200, k at level 200) : cita_scope.

(** [assert!] and Rust's checked indexing. *)
Definition assert_ {E} (b : bool) : outcome E unit := if b then Ok tt else Panic.

(** [Option::expect]. *)
Definition expect {E A} (o : option A) : outcome E A :=
  match o with Some a => Ok a | None => Panic end.

Lemma obind_Ok {E A B} (c : outcome E A) (k : A -> outcome E B) b :
  obind c k = Ok b <-> exists a, c = Ok a /\ k a = Ok b.
Proof. split; [destruct c; try done; by eexists | by intros (? & -> & ?)]. Qed.

Lemma obind_assoc {E A B C} (c : outcome E A) (k : A -> outcome E B) (h : B -> outcome E C) :
  obind (obind c k) h = obind c (fun a => obind (k a) h).
Proof. by destruct c. Qed.

Definition no_panic {E A} (c : outcome E A) : Prop :=
  match c with Panic => False | _ => True end.

(** [owp c Q R]: [c] does not panic, its result satisfies [Q] and its error
    satisfies [R]. *)
Definition owp {E A} (c : outcome E A) (Q : A -> Prop) (R : E -> Prop) : Prop :=
  match c with Ok a => Q a | Err e => R e | Panic => False end.

Section owp_rules.
Context {E : Type}.

Lemma owp_bind {A B} (c : outcome E A) (k : A -> outcome E B) Q R :
  owp c (fun a => owp (k a) Q R) R -> owp (obind c k) Q R.
Proof. by destruct c. Qed.

Lemma owp_assert (b : bool) Q (R : E -> Prop) : b = true -> Q tt -> owp (assert_ b) Q R.
Proof. by intros ->. Qed.

Lemma owp_conseq {A} (c : outcome E A) (Q Q' : A -> Prop) (R R' : E -> Prop) :
  owp c Q R -> (forall a, Q a -> Q' a) -> (forall e, R e -> R' e) -> owp c Q' R'.
Proof. destruct c; naive_solver. Qed.
End owp_rules.

(** ** State and outcome

    A method that mutates its environment [S]: the environment is threaded
    and survives an error return, as the mutated objects do in Rust. *)
Definition M (E S A : Type) : Type := S -> outcome E A * S.

Definition sret {E S A} (a : A) : M E S A := fun s => (Ok a, s).
Definition sfail {E S A} (e : E) : M E S A := fun s => (Err e, s).
Definition sbind {E S A B} (c : M E S A) (k : A -> M E S B) : M E S B :=
  fun s => match c s with
           | (Ok a, s') => k a s'
           | (Err e, s') => (Err e, s')
           | (Panic, s') => (Panic, s')
           end.
Definition slift {E S A} (c : outcome E A) : M E S A := fun s => (c, s).
Definition sget {E S} : M E S S := fun s => (Ok s, s).
Definition sgets {E S A} (f : S -> A) : M E S A := fun s => (Ok (f s), s).
Definition smodify {E S} (f : S -> S) : M E S unit := fun s => (Ok tt, f s).
Definition smap_err {E F S A} (f : E -> F) (c : M E S A) : M F S A :=
  fun s => let '(r, s') := c s in (omap_err f r, s').
Definition stotal {E S A} (c : M void S A) : M E S A :=
  fun s => let '(r, s') := c s in (total r, s').

Notation "x <~ c ;; k" := (sbind c (fun x => k))
  (at level 100, c at next level, right associativity) : cita_scope.
Notation "'let!' p ':=' c 'in' k" := (sbind c (fun x => match x with p => k end))
  (at level 10, p pattern, c at level 200, k at level 200) : cita_scope.

(** [wp c Q R s]: running [c] from [s] does not panic, establishes [Q] on a
    normal return and [R] on an error return. *)
Definition wp {E S A} (c : M E S A) (Q : A -> S -> Prop) (R : E -> S -> Prop) (s : S) : Prop :=
  match c s with
  | (Ok a, s') => Q a s'
  | (Err e, s') => R e s'
  | (Panic, _) => False
  end.

Section wp_rules.
Context {E S : Type}.

Lemma wp_ret {A} (a : A) (Q : A -> S -> Prop) (R : E -> S -> Prop) s :
  Q a s -> wp (sret a) Q R s.
Proof. done. Qed.

Lemma wp_fail {A} (e : E) (Q : A -> S -> Prop) (R : E -> S -> Prop) s :
  R e s -> wp (sfail e) Q R s.
Proof. done. Qed.

Lemma wp_bind {A B} (c : M E S A) (k : A -> M E S B) Q R s :
  wp c (fun a s' => wp (k a) Q R s') R s -> wp (sbind c k) Q R s.
Proof. rw /wp /sbind. by destruct (c s) as [[] ]. Qed.

Lemma wp_bind_inv {A B} (c : M E S A) (k : A -> M E S B) Q R s :
  wp (sbind c k) Q R s -> wp c (fun a s' => wp (k a) Q R s') R s.
Proof. rw /wp /sbind. by destruct (c s) as [[] ]. Qed.

Lemma wp_lift {A} (c : outcome E A) (Q : A -> S -> Prop) (R : E -> S -> Prop) s :
  owp c (fun a => Q a s) (fun e => R e s) -> wp (slift c) Q R s.
Proof. by destruct c. Qed.

Lemma wp_get (Q : S -> S -> Prop) (R : E -> S -> Prop) s :
  Q s s -> wp sget Q R s.
Proof. done. Qed.

Lemma wp_gets {A} (f : S -> A) (Q : A -> S -> Prop) (R : E -> S -> Prop) s :
  Q (f s) s -> wp (sgets f) Q R s.
Proof. done. Qed.

Lemma wp_modify f (Q : unit -> S -> Prop) (R : E -> S -> Prop) s :
  Q tt (f s) -> wp (smodify f) Q R s.
Proof. done. Qed.

Lemma wp_conseq {A} (c : M E S A) (Q Q' : A -> S -> Prop) (R R' : E -> S -> Prop) s :
  wp c Q R s -> (forall a s', Q a s' -> Q' a s') -> (forall e s', R e s' -> R' e s') ->
  wp c Q' R' s.
Proof. rw /wp. destruct (c s) as [[] ]; naive_solver. Qed.

Lemma wp_no_panic {A} (c : M E S A) Q R s :
  wp c Q R s -> no_panic (c s).1.
Proof. rw /wp. by destruct (c s) as [[] ]. Qed.
End wp_rules.

(** [pwp c Q R s]: the same for the runs of [c] that do not panic. *)
Definition pwp {E S A} (c : M E S A) (Q : A -> S -> Prop) (R : E -> S -> Prop) (s : S) : Prop :=
  match c s with
  | (Ok a, s') => Q a s'
  | (Err e, s') => R e s'
  | (Panic, _) => True
  end.

Section pwp_rules.
Context {E S : Type}.

Lemma pwp_bind {A B} (c : M E S A) (k : A -> M E S B) Q R s :
  pwp c (fun a s' => pwp (k a) Q R s') R s -> pwp (sbind c k) Q R s.
Proof. rw /pwp /sbind. by destruct (c s) as [[] ]. Qed.

Lemma pwp_lift {A} (c : outcome E A) (Q : A -> S -> Prop) (R : E -> S -> Prop) s :
  (forall a, c = Ok a -> Q a s) -> (forall e, c = Err e -> R e s) -> pwp (slift c) Q R s.
Proof. destruct c; cbn; auto. Qed.

Lemma pwp_conseq {A} (c : M E S A) (Q Q' : A -> S -> Prop) (R R' : E -> S -> Prop) s :
  pwp c Q R s -> (forall a s', Q a s' -> Q' a s') -> (forall e s', R e s' -> R' e s') ->
  pwp c Q' R' s.
Proof. rw /pwp. destruct (c s) as [[] ]; naive_solver. Qed.

(** Total correctness in two steps. *)
Lemma wp_and_pwp {A} (c : M E S A) (Q Q' : A -> S -> Prop) (R R' : E -> S -> Prop) s :
  wp c Q R s -> pwp c Q' R' s ->
  wp c (fun a s' => Q a s' /\ Q' a s') (fun e s' => R e s' /\ R' e s') s.
Proof. rw /wp /pwp. by destruct (c s) as [[] ]. Qed.
End pwp_rules.

Lemma wp_map_err {E F S A} (f : E -> F) (c : M E S A) Q R s :
  wp c Q (fun e s' => R (f e) s') s -> wp (smap_err f c) Q R s.
Proof. rw /wp /smap_err. by destruct (c s) as [[] ]. Qed.

Lemma wp_total {E S A} (c : M void S A) Q (R : E -> S -> Prop) s :
  wp c Q (fun _ _ => True) s -> wp (stotal c) Q R s.
Proof. rw /wp /stotal. destruct (c s) as [[| [] |] ]; done. Qed.

(** ** Fixed-width integers

    A [w]-bit unsigned integer is a [Z] in [0, 2^w). *)
Definition fits (w x : Z) : Prop := 0 <= x < 2 ^ w.
Definition wrap (w x : Z) : Z := x mod 2 ^ w.

Definition overflowing_add (w a b : Z) : Z * bool := (wrap w (a + b), 2 ^ w <=? a + b).
Definition overflowing_sub (w a b : Z) : Z * bool := (wrap w (a - b), a <? b).
Definition overflowing_mul (w a b : Z) : Z * bool := (wrap w (a * b), 2 ^ w <=? a * b).

(** The plain operators: an overflow panics. *)
Definition add_ {E} (w a b : Z) : outcome E Z := if a + b <? 2 ^ w then Ok (a + b) else Panic.
Definition sub_ {E} (a b : Z) : outcome E Z := if b <=? a then Ok (a - b) else Panic.
Definition mul_ {E} (w a b : Z) : outcome E Z := if a * b <? 2 ^ w then Ok (a * b) else Panic.

(** [U256::low_u64]. *)
Definition low_u64 (x : Z) : Z := wrap 64 x.

(** [!x] on a [w]-bit word. *)
Definition not_ (w x : Z) : Z := 2 ^ w - 1 - x.

Global Arguments Z.pow : simpl never.
Global Arguments Z.modulo : simpl never.
Global Arguments Z.div : simpl never.

Lemma pow2_pos w : 0 <= w -> 0 < 2 ^ w.
Proof. intros. by apply Z.pow_pos_nonneg. Qed.

Lemma wrap_fits w x : 0 <= w -> fits w (wrap w x).
Proof. intros Hw. apply Z.mod_pos_bound. by apply pow2_pos. Qed.

Lemma wrap_small w x : fits w x -> wrap w x = x.
Proof. apply Z.mod_small. Qed.

Lemma fits_mono v w x : 0 <= v <= w -> fits v x -> fits w x.
Proof.
  intros Hvw [? Hx]. split; [done|]. eapply Z.lt_le_trans; [exact Hx|].
  apply Z.pow_le_mono_r; lia.
Qed.

Lemma overflowing_add_exact w a b :
  fits w a -> fits w b -> (overflowing_add w a b).2 = false ->
  (overflowing_add w a b).1 = a + b.
Proof.
  rw /overflowing_add /fits /= => ?? /Z.leb_gt ?. apply wrap_small. rw /fits; lia.
Qed.

Lemma overflowing_mul_exact w a b :
  fits w a -> fits w b -> (overflowing_mul w a b).2 = false ->
  (overflowing_mul w a b).1 = a * b.
Proof.
  rw /overflowing_mul /fits /= => ?? /Z.leb_gt ?. apply wrap_small. rw /fits; nia.
Qed.

Lemma add_ok {E} w a b : a + b < 2 ^ w -> add_ (E := E) w a b = Ok (a + b).
Proof. rw /add_ => /Z.ltb_lt -> //. Qed.
Lemma sub_ok {E} a b : b <= a -> sub_ (E := E) a b = Ok (a - b).
Proof. rw /sub_ => /Z.leb_le -> //. Qed.
Lemma mul_ok {E} w a b : a * b < 2 ^ w -> mul_ (E := E) w a b = Ok (a * b).
Proof. rw /mul_ => /Z.ltb_lt -> //. Qed.

Lemma mul_bound a A k K : 0 <= a <= A -> 0 <= k <= K -> 0 <= a * k <= A * K.
Proof. nia. Qed.

Lemma shiftr_div x k : 0 <= k -> Z.shiftr x k = x / 2 ^ k.
Proof. intros. by apply Z.shiftr_div_pow2. Qed.

Lemma low_u64_fits x : fits 64 (low_u64 x).
Proof. by apply wrap_fits. Qed.

Lemma low_u64_small x : fits 64 x -> low_u64 x = x.
Proof. apply wrap_small. Qed.

(** Exponentiation modulo [m] by squaring: what [overflowing_pow] returns,
    computable for 256-bit exponents. *)
Fixpoint powmod_pos (m b : Z) (e : positive) : Z :=
  match e with
  | xH => b mod m
  | xO e' => let r := powmod_pos m b e' in (r * r) mod m
  | xI e' => let r := powmod_pos m b e' in (((r * r) mod m) * b) mod m
  end.

Definition powmod (m b e : Z) : Z :=
  match e with
  | Zpos p => powmod_pos m b p
  | _ => 1 mod m
  end.

Lemma powmod_pos_spec m b e : 0 < m -> powmod_pos m b e = b ^ Zpos e mod m.
Proof.
  intros Hm. induction e as [e IH|e IH|]; simpl.
  - rw IH. rw -Z.mul_mod; [lia|]. rw Z.mul_mod_idemp_l; [lia|].
    f_equal. rw (_ : Z.pos e~1 = Z.pos e + Z.pos e + 1); [lia|].
    rw !Z.pow_add_r; lia.
  - rw IH. rw -Z.mul_mod; [lia|]. f_equal.
    rw (_ : Z.pos e~0 = Z.pos e + Z.pos e); [lia|]. by rw Z.pow_add_r.
  - by rw Z.pow_1_r.
Qed.

Lemma powmod_spec m b e : 0 < m -> 0 <= e -> powmod m b e = b ^ e mod m.
Proof.
  intros Hm He. destruct e as [|p|p]; [done| by apply powmod_pos_spec | lia].
Qed.

(** A 256-bit hash and a 160-bit address are bit strings, represented by the
    number they denote in big-endian order. *)
Abbreviation U256 := Z (only parsing).
Abbreviation H256 := Z (only parsing).
Abbreviation Address := Z (only parsing).

(** ** Byte strings and slices *)
Abbreviation bytes := (list Z).
Definition zlen {A} (l : list A) : Z := Z.of_nat (length l).
Definition byte_ok (b : Z) : Prop := fits 8 b.
Definition bytes_ok (l : bytes) : Prop := Forall byte_ok l.

(** A Rust vector is at most [isize::MAX] bytes long. *)
Definition vec_ok (v : bytes) : Prop := bytes_ok v /\ zlen v < 2 ^ 63.

(** [&v[a..b]]. *)
Definition slice {E A} (l : list A) (a b : Z) : outcome E (list A) :=
  if (0 <=? a) && (a <=? b) && (b <=? zlen l)
  then Ok (take (Z.to_nat (b - a)) (drop (Z.to_nat a) l))
  else Panic.

(** [v[i]]. *)
Definition index {E A} (l : list A) (i : Z) : outcome E A :=
  if 0 <=? i then expect (l !! Z.to_nat i) else Panic.

(** [v[a..a + s.len()].copy_from_slice(s)]. *)
Definition splice {E A} (l : list A) (a : Z) (s : list A) : outcome E (list A) :=
  if (0 <=? a) && (a + zlen s <=? zlen l)
  then Ok (take (Z.to_nat a) l ++ s ++ drop (Z.to_nat a + length s) l)
  else Panic.

(** Big-endian conversions: [U256::from(&[u8])] and [to_big_endian]. *)
Definition of_be (l : bytes) : Z := fold_left (fun acc b => acc * 256 + b) l 0.
Fixpoint to_be (n : nat) (x : Z) : bytes :=
  match n with
  | O => []
  | S n => to_be n (x / 256) ++ [x mod 256]
  end.

(** [slice::chunks], which asserts that the size is positive. *)
Fixpoint chunks_ {A} (fuel n : nat) (l : list A) : list (list A) :=
  match fuel, l with
  | S fuel, _ :: _ => take n l :: chunks_ fuel n (drop n l)
  | _, _ => []
  end.

Definition chunks {E A} (n : nat) (l : list A) : outcome E (list (list A)) :=
  _ <- assert_ (negb (Nat.eqb n 0)) ;; Ok (chunks_ (length l) n l).

Lemma zlen_nonneg {A} (l : list A) : 0 <= zlen l.
Proof. rw /zlen; lia. Qed.

Lemma zlen_app {A} (l k : list A) : zlen (l ++ k) = zlen l + zlen k.
Proof. rw /zlen length_app; lia. Qed.

Lemma zlen_cons {A} (x : A) l : zlen (x :: l) = 1 + zlen l.
Proof. rw /zlen /=; lia. Qed.

Lemma zlen_nil {A} : zlen ([] : list A) = 0.
Proof. done. Qed.

Lemma zlen_replicate {A} n (x : A) : zlen (replicate n x) = Z.of_nat n.
Proof. by rw /zlen length_replicate. Qed.

Lemma slice_ok {E A} (l : list A) a b :
  0 <= a -> a <= b -> b <= zlen l ->
  slice (E := E) l a b = Ok (take (Z.to_nat (b - a)) (drop (Z.to_nat a) l)).
Proof.
  intros. rw /slice. rw (_ : (_ && _ && _) = true);[|done].
  rw !andb_true_iff !Z.leb_le; lia.
Qed.

Lemma zlen_slice {A} (l : list A) a b :
  0 <= a -> a <= b -> b <= zlen l ->
  zlen (take (Z.to_nat (b - a)) (drop (Z.to_nat a) l)) = b - a.
Proof. rw /zlen => ???. rw length_take length_drop; lia. Qed.

Lemma splice_ok {E A} (l : list A) a s :
  0 <= a -> a + zlen s <= zlen l ->
  splice (E := E) l a s = Ok (take (Z.to_nat a) l ++ s ++ drop (Z.to_nat a + length s) l).
Proof.
  intros. rw /splice. rw (_ : (_ && _) = true);[|done].
  rw !andb_true_iff !Z.leb_le; lia.
Qed.

Lemma zlen_splice {A} (l : list A) a s :
  0 <= a -> a + zlen s <= zlen l ->
  zlen (take (Z.to_nat a) l ++ s ++ drop (Z.to_nat a + length s) l) = zlen l.
Proof. rw /zlen => ??. rw !length_app length_take length_drop; lia. Qed.

Lemma to_be_length n x : length (to_be n x) = n.
Proof.
  revert x. induction n as [|n IH]; intros x; [done|]. rw /= length_app IH /=. lia.
Qed.

Lemma to_be_ok n x : bytes_ok (to_be n x).
Proof.
  revert x. induction n as [|n IH]; intros x; [constructor|].
  apply Forall_app; split; [apply IH|]. constructor; [|done].
  by apply (wrap_fits 8).
Qed.

#[global] Arguments to_be : simpl never.
#[global] Arguments of_be : simpl never.

Lemma of_be_snoc l b : of_be (l ++ [b]) = of_be l * 256 + b.
Proof. by rw /of_be fold_left_app. Qed.

Lemma of_be_bound l : bytes_ok l -> 0 <= of_be l < 2 ^ (8 * zlen l).
Proof.
  induction l as [|b l IH] using rev_ind; intros Hl; [done|].
  apply Forall_app in Hl as [Hl [Hb _]%Forall_cons]. specialize (IH Hl).
  rw of_be_snoc zlen_app zlen_cons zlen_nil.
  rw (_ : 8 * (zlen l + (1 + 0)) = 8 * zlen l + 8); [lia|].
  pose proof (zlen_nonneg l). rw Z.pow_add_r; [lia..|].
  change (2 ^ 8) with 256. rw /byte_ok /fits in Hb. change (2 ^ 8) with 256 in Hb. nia.
Qed.

Lemma of_be_to_be n x : of_be (to_be n x) = x mod 2 ^ (8 * Z.of_nat n).
Proof.
  revert x. induction n as [|n IH]; intros x.
  - by rw Z.mod_1_r.
  - rw /to_be -/to_be of_be_snoc IH.
    rw (_ : 8 * Z.of_nat (S n) = 8 + 8 * Z.of_nat n); [lia|].
    rw Z.pow_add_r; [lia..|]. change (2 ^ 8) with 256.
    pose proof (pow2_pos (8 * Z.of_nat n)).
    rw Z.rem_mul_r; lia.
Qed.

Lemma to_be_inj n x y : fits (8 * Z.of_nat n) x -> fits (8 * Z.of_nat n) y -> to_be n x = to_be n y -> x = y.
Proof. intros Hx Hy H. apply (f_equal of_be) in H. rw !of_be_to_be in H. by rw !Z.mod_small in H. Qed.

Lemma concat_chunks_ {A} fuel n (l : list A) : (length l <= fuel)%nat -> n <> 0%nat -> concat (chunks_ fuel n l) = l.
Proof.
  revert l. induction fuel as [|fuel IH]; intros l Hl Hn; destruct l as [|x l]; [done|cbn in Hl; lia|done|].
  cbn [chunks_ concat]. rw IH; [|done|apply take_drop]. rw length_drop. cbn [length] in Hl |- *. lia.
Qed.

Lemma chunks_ok {E A} n (l : list A) : n <> 0%nat -> exists groups, chunks (E := E) n l = Ok groups /\ concat groups = l.
Proof.
  intros Hn. rw /chunks. destruct n; [done|]. eexists. split; [done|]. by apply concat_chunks_.
Qed.

Lemma to_be_of_be l : bytes_ok l -> to_be (length l) (of_be l) = l.
Proof.
  induction l as [|b l IH] using rev_ind; [done|]. intros [Hl Hb]%Forall_app.
  apply Forall_cons in Hb as [Hb _]. unfold byte_ok, fits in Hb. change (2 ^ 8) with 256 in Hb. rw length_app Nat.add_1_r of_be_snoc.
  rw /to_be -/to_be Z.div_add_l; [done|]. rw (Z.div_small b 256); [lia|]. rw Z.add_0_r IH; [done|].
  rw Z.add_comm Z.mod_add; [done|]. by rw Z.mod_small.
Qed.

(** ** Exhaustive checks over the 256 bytes *)
Lemma byte_forall (P : Z -> bool) :
  forallb P (seqZ 0 256) = true -> forall i, 0 <= i < 256 -> P i = true.
Proof.
  intros HP i Hi. eapply forallb_forall; [exact HP|].
  apply list_elem_of_In, elem_of_seqZ. lia.
Qed.

(** ** Automation *)
Create HintDb cita.
Create Rewrite HintDb cita.
#[export] Hint Resolve wrap_fits low_u64_fits zlen_nonneg to_be_ok : cita.
#[export] Hint Rewrite @zlen_app @zlen_cons @zlen_nil @zlen_replicate : cita.

(** Decide the boolean comparisons of the goal and the context. *)
Ltac zbool :=
  repeat match goal with
  | H : (_ <=? _) = true |- _ => apply Z.leb_le in H
  | H : (_ <=? _) = false |- _ => apply Z.leb_gt in H
  | H : (_ <? _) = true |- _ => apply Z.ltb_lt in H
  | H : (_ <? _) = false |- _ => apply Z.ltb_ge in H
  | H : (_ =? _) = true |- _ => apply Z.eqb_eq in H
  | H : (_ =? _) = false |- _ => apply Z.eqb_neq in H
  | H : _ && _ = true |- _ => apply andb_true_iff in H as [? ?]
  | H : _ || _ = false |- _ => apply orb_false_iff in H as [? ?]
  | H : negb _ = true |- _ => apply negb_true_iff in H
  | H : negb _ = false |- _ => apply negb_false_iff in H
  end.

(** One step of the weakest-precondition calculus. *)
Ltac owp_step :=
  lazymatch goal with
  | |- owp (obind _ _) _ _ => apply owp_bind
  | |- owp (Ok _) _ _ => cbn [owp]
  | |- owp (Err _) _ _ => cbn [owp]
  end.

Ltac wp_step :=
  lazymatch goal with
  | |- wp (sbind _ _) _ _ _ => apply wp_bind
  | |- wp (sret _) _ _ _ => apply wp_ret
  | |- wp (sfail _) _ _ _ => apply wp_fail
  | |- wp (slift _) _ _ _ => apply wp_lift
  | |- wp sget _ _ _ => apply wp_get
  | |- wp (sgets _) _ _ _ => apply wp_gets
  | |- wp (smodify _) _ _ _ => apply wp_modify
  | |- wp (smap_err _ _) _ _ _ => apply wp_map_err
  | |- wp (stotal _) _ _ _ => apply wp_total
  end.
