(* ===== verification/Lru.v ===== *)
(** * Bounded caches

    [lru_cache::LruCache], a library type the interpreter uses for jump
    destinations and the state for storage values: a map that forgets old
    entries when it is full.  The model is the interface below with the laws
    the clients rely on. *)

From S2P Require Import Prelude.
From stdpp Require Import base gmap list.
Local Open Scope Z_scope.

Class LruCache (V L : Type) : Type := {
  lru_empty : L;
  lru_get : Z -> L -> option V * L;
  lru_insert : Z -> V -> L -> L;
  lru_items : L -> list (Z * V);
}.

(** An entry may disappear at any time; an entry that is present is the last
    one inserted under its key. *)
Class LruCacheOk (V L : Type) {HL : LruCache V L} : Prop := {
  lru_items_empty : lru_items lru_empty = [];
  lru_get_some k l v : (lru_get k l).1 = Some v -> (k, v) ∈ lru_items l;
  lru_get_items k l e : e ∈ lru_items (lru_get k l).2 -> e ∈ lru_items l;
  lru_insert_items k v l k' v' :
    (k', v') ∈ lru_items (lru_insert k v l) -> (k' = k /\ v' = v) \/ (k' <> k /\ (k', v') ∈ lru_items l);
}.

(** A cache that never forgets, to run the models. *)
#[export] Instance LruCache_gmap V : LruCache V (gmap Z V) := {
  lru_empty := ∅;
  lru_get k l := (l !! k, l);
  lru_insert k v l := <[k := v]> l;
  lru_items l := map_to_list l;
}.

#[export] Instance LruCacheOk_gmap V : LruCacheOk V (gmap Z V).
Proof.
  split.
  - apply map_to_list_empty.
  - intros k l v Hv. by apply elem_of_map_to_list.
  - done.
  - intros k v l k' v'. cbn. rw !elem_of_map_to_list lookup_insert_Some. naive_solver.
Qed.
