(* ===== verification/Instructions.v ===== *)
(** * EVM instruction set

    [cita-executor/core/src/evm/instructions.rs]: the opcodes, their static
    description table and the helpers that decode an operand count from an
    opcode. *)

From S2P Require Import Prelude.
From stdpp Require Import base list strings.
Local Open Scope Z_scope.
Local Open Scope cita_scope.

(** An instruction is a [u8]. *)
Abbreviation Instruction := Z (only parsing).

(** The opcodes. *)
Module Op.
Definition STOP : Instruction := 0x00.
Definition ADD : Instruction := 0x01.
Definition MUL : Instruction := 0x02.
Definition SUB : Instruction := 0x03.
Definition DIV : Instruction := 0x04.
Definition SDIV : Instruction := 0x05.
Definition MOD : Instruction := 0x06.
Definition SMOD : Instruction := 0x07.
Definition ADDMOD : Instruction := 0x08.
Definition MULMOD : Instruction := 0x09.
Definition EXP : Instruction := 0x0a.
Definition SIGNEXTEND : Instruction := 0x0b.
Definition LT : Instruction := 0x10.
Definition GT : Instruction := 0x11.
Definition SLT : Instruction := 0x12.
Definition SGT : Instruction := 0x13.
Definition EQ : Instruction := 0x14.
Definition ISZERO : Instruction := 0x15.
Definition AND : Instruction := 0x16.
Definition OR : Instruction := 0x17.
Definition XOR : Instruction := 0x18.
Definition NOT : Instruction := 0x19.
Definition BYTE : Instruction := 0x1a.
Definition SHA3 : Instruction := 0x20.
Definition ADDRESS : Instruction := 0x30.
Definition BALANCE : Instruction := 0x31.
Definition ORIGIN : Instruction := 0x32.
Definition CALLER : Instruction := 0x33.
Definition CALLVALUE : Instruction := 0x34.
Definition CALLDATALOAD : Instruction := 0x35.
Definition CALLDATASIZE : Instruction := 0x36.
Definition CALLDATACOPY : Instruction := 0x37.
Definition CODESIZE : Instruction := 0x38.
Definition CODECOPY : Instruction := 0x39.
Definition GASPRICE : Instruction := 0x3a.
Definition EXTCODESIZE : Instruction := 0x3b.
Definition EXTCODECOPY : Instruction := 0x3c.
Definition BLOCKHASH : Instruction := 0x40.
Definition COINBASE : Instruction := 0x41.
Definition TIMESTAMP : Instruction := 0x42.
Definition NUMBER : Instruction := 0x43.
Definition DIFFICULTY : Instruction := 0x44.
Definition GASLIMIT : Instruction := 0x45.
Definition POP : Instruction := 0x50.
Definition MLOAD : Instruction := 0x51.
Definition MSTORE : Instruction := 0x52.
Definition MSTORE8 : Instruction := 0x53.
Definition SLOAD : Instruction := 0x54.
Definition SSTORE : Instruction := 0x55.
Definition JUMP : Instruction := 0x56.
Definition JUMPI : Instruction := 0x57.
Definition PC : Instruction := 0x58.
Definition MSIZE : Instruction := 0x59.
Definition GAS : Instruction := 0x5a.
Definition JUMPDEST : Instruction := 0x5b.
Definition PUSH1 : Instruction := 0x60.
Definition PUSH2 : Instruction := 0x61.
Definition PUSH3 : Instruction := 0x62.
Definition PUSH4 : Instruction := 0x63.
Definition PUSH5 : Instruction := 0x64.
Definition PUSH6 : Instruction := 0x65.
Definition PUSH7 : Instruction := 0x66.
Definition PUSH8 : Instruction := 0x67.
Definition PUSH9 : Instruction := 0x68.
Definition PUSH10 : Instruction := 0x69.
Definition PUSH11 : Instruction := 0x6a.
Definition PUSH12 : Instruction := 0x6b.
Definition PUSH13 : Instruction := 0x6c.
Definition PUSH14 : Instruction := 0x6d.
Definition PUSH15 : Instruction := 0x6e.
Definition PUSH16 : Instruction := 0x6f.
Definition PUSH17 : Instruction := 0x70.
Definition PUSH18 : Instruction := 0x71.
Definition PUSH19 : Instruction := 0x72.
Definition PUSH20 : Instruction := 0x73.
Definition PUSH21 : Instruction := 0x74.
Definition PUSH22 : Instruction := 0x75.
Definition PUSH23 : Instruction := 0x76.
Definition PUSH24 : Instruction := 0x77.
Definition PUSH25 : Instruction := 0x78.
Definition PUSH26 : Instruction := 0x79.
Definition PUSH27 : Instruction := 0x7a.
Definition PUSH28 : Instruction := 0x7b.
Definition PUSH29 : Instruction := 0x7c.
Definition PUSH30 : Instruction := 0x7d.
Definition PUSH31 : Instruction := 0x7e.
Definition PUSH32 : Instruction := 0x7f.
Definition DUP1 : Instruction := 0x80.
Definition DUP2 : Instruction := 0x81.
Definition DUP3 : Instruction := 0x82.
Definition DUP4 : Instruction := 0x83.
Definition DUP5 : Instruction := 0x84.
Definition DUP6 : Instruction := 0x85.
Definition DUP7 : Instruction := 0x86.
Definition DUP8 : Instruction := 0x87.
Definition DUP9 : Instruction := 0x88.
Definition DUP10 : Instruction := 0x89.
Definition DUP11 : Instruction := 0x8a.
Definition DUP12 : Instruction := 0x8b.
Definition DUP13 : Instruction := 0x8c.
Definition DUP14 : Instruction := 0x8d.
Definition DUP15 : Instruction := 0x8e.
Definition DUP16 : Instruction := 0x8f.
Definition SWAP1 : Instruction := 0x90.
Definition SWAP2 : Instruction := 0x91.
Definition SWAP3 : Instruction := 0x92.
Definition SWAP4 : Instruction := 0x93.
Definition SWAP5 : Instruction := 0x94.
Definition SWAP6 : Instruction := 0x95.
Definition SWAP7 : Instruction := 0x96.
Definition SWAP8 : Instruction := 0x97.
Definition SWAP9 : Instruction := 0x98.
Definition SWAP10 : Instruction := 0x99.
Definition SWAP11 : Instruction := 0x9a.
Definition SWAP12 : Instruction := 0x9b.
Definition SWAP13 : Instruction := 0x9c.
Definition SWAP14 : Instruction := 0x9d.
Definition SWAP15 : Instruction := 0x9e.
Definition SWAP16 : Instruction := 0x9f.
Definition LOG0 : Instruction := 0xa0.
Definition LOG1 : Instruction := 0xa1.
Definition LOG2 : Instruction := 0xa2.
Definition LOG3 : Instruction := 0xa3.
Definition LOG4 : Instruction := 0xa4.
Definition CREATE : Instruction := 0xf0.
Definition CALL : Instruction := 0xf1.
Definition CALLCODE : Instruction := 0xf2.
Definition RETURN : Instruction := 0xf3.
Definition DELEGATECALL : Instruction := 0xf4.
Definition SUICIDE : Instruction := 0xff.
(** The opcodes in the order of the source: operations, pushes and stack
    shuffles, logs and calls. *)
Definition operations : list Instruction :=
  [STOP; ADD; MUL; SUB; DIV; SDIV; MOD; SMOD; ADDMOD; MULMOD; EXP; SIGNEXTEND; LT; GT; SLT; SGT; EQ; ISZERO; AND;
   OR; XOR; NOT; BYTE; SHA3; ADDRESS; BALANCE; ORIGIN; CALLER; CALLVALUE; CALLDATALOAD; CALLDATASIZE; CALLDATACOPY;
   CODESIZE; CODECOPY; GASPRICE; EXTCODESIZE; EXTCODECOPY; BLOCKHASH; COINBASE; TIMESTAMP; NUMBER; DIFFICULTY;
   GASLIMIT; POP; MLOAD; MSTORE; MSTORE8; SLOAD; SSTORE; JUMP; JUMPI; PC; MSIZE; GAS; JUMPDEST].
Definition stack_operations : list Instruction :=
  [PUSH1; PUSH2; PUSH3; PUSH4; PUSH5; PUSH6; PUSH7; PUSH8; PUSH9; PUSH10; PUSH11; PUSH12; PUSH13; PUSH14; PUSH15;
   PUSH16; PUSH17; PUSH18; PUSH19; PUSH20; PUSH21; PUSH22; PUSH23; PUSH24; PUSH25; PUSH26; PUSH27; PUSH28; PUSH29;
   PUSH30; PUSH31; PUSH32; DUP1; DUP2; DUP3; DUP4; DUP5; DUP6; DUP7; DUP8; DUP9; DUP10; DUP11; DUP12; DUP13; DUP14;
   DUP15; DUP16; SWAP1; SWAP2; SWAP3; SWAP4; SWAP5; SWAP6; SWAP7; SWAP8; SWAP9; SWAP10; SWAP11; SWAP12; SWAP13;
   SWAP14; SWAP15; SWAP16].
Definition logs_and_calls : list Instruction :=
  [LOG0; LOG1; LOG2; LOG3; LOG4; CREATE; CALL; CALLCODE; RETURN; DELEGATECALL; SUICIDE].
Definition all : list Instruction := operations ++ stack_operations ++ logs_and_calls.

Lemma all_different : NoDup all.
Proof. apply (bool_decide_eq_true (NoDup all)). by vm_compute. Qed.
End Op.

(** Maximal number of topics for log instructions. *)
Definition MAX_NO_OF_TOPICS : Z := 4.

Definition is_push (i : Instruction) : bool := (Op.PUSH1 <=? i) && (i <=? Op.PUSH32).

Definition get_push_bytes {E} (i : Instruction) : outcome E Z :=
  _ <- assert_ (is_push i) ;;
  Ok (i - Op.PUSH1 + 1).

Definition get_dup_position {E} (i : Instruction) : outcome E Z :=
  _ <- assert_ ((Op.DUP1 <=? i) && (i <=? Op.DUP16)) ;;
  Ok (i - Op.DUP1).

Definition get_swap_position {E} (i : Instruction) : outcome E Z :=
  _ <- assert_ ((Op.SWAP1 <=? i) && (i <=? Op.SWAP16)) ;;
  Ok (i - Op.SWAP1 + 1).

Definition get_log_topics {E} (i : Instruction) : outcome E Z :=
  _ <- assert_ ((Op.LOG0 <=? i) && (i <=? Op.LOG4)) ;;
  Ok (i - Op.LOG0).

Module GasPriceTier.
Inductive t : Set :=
| Zero | Base | VeryLow | Low | Mid | High | Ext | Special | Invalid.

#[global] Instance t_eq_dec : EqDecision t.
Proof. solve_decision. Defined.

Definition default : t := Invalid.
End GasPriceTier.

(** Index of a tier in [Schedule::tier_step_gas]. *)
Definition get_tier_idx (tier : GasPriceTier.t) : Z :=
  match tier with
  | GasPriceTier.Zero => 0
  | GasPriceTier.Base => 1
  | GasPriceTier.VeryLow => 2
  | GasPriceTier.Low => 3
  | GasPriceTier.Mid => 4
  | GasPriceTier.High => 5
  | GasPriceTier.Ext => 6
  | GasPriceTier.Special => 7
  | GasPriceTier.Invalid => 8
  end.

Module InstructionInfo.
Record t : Set := new {
  name : string;
  additional : Z;
  args : Z;
  ret : Z;
  side_effects : bool;
  tier : GasPriceTier.t;
}.

Definition default : t := new "" 0 0 0 false GasPriceTier.default.
End InstructionInfo.
Import GasPriceTier.

(** The assignments [arr[OP as usize] = InstructionInfo::new(...)], in order. *)
Definition INSTRUCTIONS_entries : list (Instruction * InstructionInfo.t) := [
  (Op.STOP, InstructionInfo.new "STOP" 0 0 0 true Zero);
  (Op.ADD, InstructionInfo.new "ADD" 0 2 1 false VeryLow);
  (Op.SUB, InstructionInfo.new "SUB" 0 2 1 false VeryLow);
  (Op.MUL, InstructionInfo.new "MUL" 0 2 1 false Low);
  (Op.DIV, InstructionInfo.new "DIV" 0 2 1 false Low);
  (Op.SDIV, InstructionInfo.new "SDIV" 0 2 1 false Low);
  (Op.MOD, InstructionInfo.new "MOD" 0 2 1 false Low);
  (Op.SMOD, InstructionInfo.new "SMOD" 0 2 1 false Low);
  (Op.EXP, InstructionInfo.new "EXP" 0 2 1 false Special);
  (Op.NOT, InstructionInfo.new "NOT" 0 1 1 false VeryLow);
  (Op.LT, InstructionInfo.new "LT" 0 2 1 false VeryLow);
  (Op.GT, InstructionInfo.new "GT" 0 2 1 false VeryLow);
  (Op.SLT, InstructionInfo.new "SLT" 0 2 1 false VeryLow);
  (Op.SGT, InstructionInfo.new "SGT" 0 2 1 false VeryLow);
  (Op.EQ, InstructionInfo.new "EQ" 0 2 1 false VeryLow);
  (Op.ISZERO, InstructionInfo.new "ISZERO" 0 1 1 false VeryLow);
  (Op.AND, InstructionInfo.new "AND" 0 2 1 false VeryLow);
  (Op.OR, InstructionInfo.new "OR" 0 2 1 false VeryLow);
  (Op.XOR, InstructionInfo.new "XOR" 0 2 1 false VeryLow);
  (Op.BYTE, InstructionInfo.new "BYTE" 0 2 1 false VeryLow);
  (Op.ADDMOD, InstructionInfo.new "ADDMOD" 0 3 1 false Mid);
  (Op.MULMOD, InstructionInfo.new "MULMOD" 0 3 1 false Mid);
  (Op.SIGNEXTEND, InstructionInfo.new "SIGNEXTEND" 0 2 1 false Low);
  (Op.SHA3, InstructionInfo.new "SHA3" 0 2 1 false Special);
  (Op.ADDRESS, InstructionInfo.new "ADDRESS" 0 0 1 false Base);
  (Op.BALANCE, InstructionInfo.new "BALANCE" 0 1 1 false Special);
  (Op.ORIGIN, InstructionInfo.new "ORIGIN" 0 0 1 false Base);
  (Op.CALLER, InstructionInfo.new "CALLER" 0 0 1 false Base);
  (Op.CALLVALUE, InstructionInfo.new "CALLVALUE" 0 0 1 false Base);
  (Op.CALLDATALOAD, InstructionInfo.new "CALLDATALOAD" 0 1 1 false VeryLow);
  (Op.CALLDATASIZE, InstructionInfo.new "CALLDATASIZE" 0 0 1 false Base);
  (Op.CALLDATACOPY, InstructionInfo.new "CALLDATACOPY" 0 3 0 true VeryLow);
  (Op.CODESIZE, InstructionInfo.new "CODESIZE" 0 0 1 false Base);
  (Op.CODECOPY, InstructionInfo.new "CODECOPY" 0 3 0 true VeryLow);
  (Op.GASPRICE, InstructionInfo.new "GASPRICE" 0 0 1 false Base);
  (Op.EXTCODESIZE, InstructionInfo.new "EXTCODESIZE" 0 1 1 false Special);
  (Op.EXTCODECOPY, InstructionInfo.new "EXTCODECOPY" 0 4 0 true Special);
  (Op.BLOCKHASH, InstructionInfo.new "BLOCKHASH" 0 1 1 false Ext);
  (Op.COINBASE, InstructionInfo.new "COINBASE" 0 0 1 false Base);
  (Op.TIMESTAMP, InstructionInfo.new "TIMESTAMP" 0 0 1 false Base);
  (Op.NUMBER, InstructionInfo.new "NUMBER" 0 0 1 false Base);
  (Op.DIFFICULTY, InstructionInfo.new "DIFFICULTY" 0 0 1 false Base);
  (Op.GASLIMIT, InstructionInfo.new "GASLIMIT" 0 0 1 false Base);
  (Op.POP, InstructionInfo.new "POP" 0 1 0 false Base);
  (Op.MLOAD, InstructionInfo.new "MLOAD" 0 1 1 false VeryLow);
  (Op.MSTORE, InstructionInfo.new "MSTORE" 0 2 0 true VeryLow);
  (Op.MSTORE8, InstructionInfo.new "MSTORE8" 0 2 0 true VeryLow);
  (Op.SLOAD, InstructionInfo.new "SLOAD" 0 1 1 false Special);
  (Op.SSTORE, InstructionInfo.new "SSTORE" 0 2 0 true Special);
  (Op.JUMP, InstructionInfo.new "JUMP" 0 1 0 true Mid);
  (Op.JUMPI, InstructionInfo.new "JUMPI" 0 2 0 true High);
  (Op.PC, InstructionInfo.new "PC" 0 0 1 false Base);
  (Op.MSIZE, InstructionInfo.new "MSIZE" 0 0 1 false Base);
  (Op.GAS, InstructionInfo.new "GAS" 0 0 1 false Base);
  (Op.JUMPDEST, InstructionInfo.new "JUMPDEST" 0 0 0 true Special);
  (Op.PUSH1, InstructionInfo.new "PUSH1" 1 0 1 false VeryLow);
  (Op.PUSH2, InstructionInfo.new "PUSH2" 2 0 1 false VeryLow);
  (Op.PUSH3, InstructionInfo.new "PUSH3" 3 0 1 false VeryLow);
  (Op.PUSH4, InstructionInfo.new "PUSH4" 4 0 1 false VeryLow);
  (Op.PUSH5, InstructionInfo.new "PUSH5" 5 0 1 false VeryLow);
  (Op.PUSH6, InstructionInfo.new "PUSH6" 6 0 1 false VeryLow);
  (Op.PUSH7, InstructionInfo.new "PUSH7" 7 0 1 false VeryLow);
  (Op.PUSH8, InstructionInfo.new "PUSH8" 8 0 1 false VeryLow);
  (Op.PUSH9, InstructionInfo.new "PUSH9" 9 0 1 false VeryLow);
  (Op.PUSH10, InstructionInfo.new "PUSH10" 10 0 1 false VeryLow);
  (Op.PUSH11, InstructionInfo.new "PUSH11" 11 0 1 false VeryLow);
  (Op.PUSH12, InstructionInfo.new "PUSH12" 12 0 1 false VeryLow);
  (Op.PUSH13, InstructionInfo.new "PUSH13" 13 0 1 false VeryLow);
  (Op.PUSH14, InstructionInfo.new "PUSH14" 14 0 1 false VeryLow);
  (Op.PUSH15, InstructionInfo.new "PUSH15" 15 0 1 false VeryLow);
  (Op.PUSH16, InstructionInfo.new "PUSH16" 16 0 1 false VeryLow);
  (Op.PUSH17, InstructionInfo.new "PUSH17" 17 0 1 false VeryLow);
  (Op.PUSH18, InstructionInfo.new "PUSH18" 18 0 1 false VeryLow);
  (Op.PUSH19, InstructionInfo.new "PUSH19" 19 0 1 false VeryLow);
  (Op.PUSH20, InstructionInfo.new "PUSH20" 20 0 1 false VeryLow);
  (Op.PUSH21, InstructionInfo.new "PUSH21" 21 0 1 false VeryLow);
  (Op.PUSH22, InstructionInfo.new "PUSH22" 22 0 1 false VeryLow);
  (Op.PUSH23, InstructionInfo.new "PUSH23" 23 0 1 false VeryLow);
  (Op.PUSH24, InstructionInfo.new "PUSH24" 24 0 1 false VeryLow);
  (Op.PUSH25, InstructionInfo.new "PUSH25" 25 0 1 false VeryLow);
  (Op.PUSH26, InstructionInfo.new "PUSH26" 26 0 1 false VeryLow);
  (Op.PUSH27, InstructionInfo.new "PUSH27" 27 0 1 false VeryLow);
  (Op.PUSH28, InstructionInfo.new "PUSH28" 28 0 1 false VeryLow);
  (Op.PUSH29, InstructionInfo.new "PUSH29" 29 0 1 false VeryLow);
  (Op.PUSH30, InstructionInfo.new "PUSH30" 30 0 1 false VeryLow);
  (Op.PUSH31, InstructionInfo.new "PUSH31" 31 0 1 false VeryLow);
  (Op.PUSH32, InstructionInfo.new "PUSH32" 32 0 1 false VeryLow);
  (Op.DUP1, InstructionInfo.new "DUP1" 0 1 2 false VeryLow);
  (Op.DUP2, InstructionInfo.new "DUP2" 0 2 3 false VeryLow);
  (Op.DUP3, InstructionInfo.new "DUP3" 0 3 4 false VeryLow);
  (Op.DUP4, InstructionInfo.new "DUP4" 0 4 5 false VeryLow);
  (Op.DUP5, InstructionInfo.new "DUP5" 0 5 6 false VeryLow);
  (Op.DUP6, InstructionInfo.new "DUP6" 0 6 7 false VeryLow);
  (Op.DUP7, InstructionInfo.new "DUP7" 0 7 8 false VeryLow);
  (Op.DUP8, InstructionInfo.new "DUP8" 0 8 9 false VeryLow);
  (Op.DUP9, InstructionInfo.new "DUP9" 0 9 10 false VeryLow);
  (Op.DUP10, InstructionInfo.new "DUP10" 0 10 11 false VeryLow);
  (Op.DUP11, InstructionInfo.new "DUP11" 0 11 12 false VeryLow);
  (Op.DUP12, InstructionInfo.new "DUP12" 0 12 13 false VeryLow);
  (Op.DUP13, InstructionInfo.new "DUP13" 0 13 14 false VeryLow);
  (Op.DUP14, InstructionInfo.new "DUP14" 0 14 15 false VeryLow);
  (Op.DUP15, InstructionInfo.new "DUP15" 0 15 16 false VeryLow);
  (Op.DUP16, InstructionInfo.new "DUP16" 0 16 17 false VeryLow);
  (Op.SWAP1, InstructionInfo.new "SWAP1" 0 2 2 false VeryLow);
  (Op.SWAP2, InstructionInfo.new "SWAP2" 0 3 3 false VeryLow);
  (Op.SWAP3, InstructionInfo.new "SWAP3" 0 4 4 false VeryLow);
  (Op.SWAP4, InstructionInfo.new "SWAP4" 0 5 5 false VeryLow);
  (Op.SWAP5, InstructionInfo.new "SWAP5" 0 6 6 false VeryLow);
  (Op.SWAP6, InstructionInfo.new "SWAP6" 0 7 7 false VeryLow);
  (Op.SWAP7, InstructionInfo.new "SWAP7" 0 8 8 false VeryLow);
  (Op.SWAP8, InstructionInfo.new "SWAP8" 0 9 9 false VeryLow);
  (Op.SWAP9, InstructionInfo.new "SWAP9" 0 10 10 false VeryLow);
  (Op.SWAP10, InstructionInfo.new "SWAP10" 0 11 11 false VeryLow);
  (Op.SWAP11, InstructionInfo.new "SWAP11" 0 12 12 false VeryLow);
  (Op.SWAP12, InstructionInfo.new "SWAP12" 0 13 13 false VeryLow);
  (Op.SWAP13, InstructionInfo.new "SWAP13" 0 14 14 false VeryLow);
  (Op.SWAP14, InstructionInfo.new "SWAP14" 0 15 15 false VeryLow);
  (Op.SWAP15, InstructionInfo.new "SWAP15" 0 16 16 false VeryLow);
  (Op.SWAP16, InstructionInfo.new "SWAP16" 0 17 17 false VeryLow);
  (Op.LOG0, InstructionInfo.new "LOG0" 0 2 0 true Special);
  (Op.LOG1, InstructionInfo.new "LOG1" 0 3 0 true Special);
  (Op.LOG2, InstructionInfo.new "LOG2" 0 4 0 true Special);
  (Op.LOG3, InstructionInfo.new "LOG3" 0 5 0 true Special);
  (Op.LOG4, InstructionInfo.new "LOG4" 0 6 0 true Special);
  (Op.CREATE, InstructionInfo.new "CREATE" 0 3 1 true Special);
  (Op.CALL, InstructionInfo.new "CALL" 0 7 1 true Special);
  (Op.CALLCODE, InstructionInfo.new "CALLCODE" 0 7 1 true Special);
  (Op.RETURN, InstructionInfo.new "RETURN" 0 2 0 true Zero);
  (Op.DELEGATECALL, InstructionInfo.new "DELEGATECALL" 0 6 1 true Special);
  (Op.SUICIDE, InstructionInfo.new "SUICIDE" 0 1 0 true Special)
].

(** The entries are those of the opcodes. *)
Lemma entries_all : INSTRUCTIONS_entries.*1 ≡ₚ Op.all.
Proof.
  apply NoDup_Permutation; [apply (bool_decide_eq_true (NoDup (INSTRUCTIONS_entries.*1))); by vm_compute|apply Op.all_different|].
  intros i. split; revert i; apply (proj1 (Forall_forall _ _));
    [apply (bool_decide_eq_true (Forall (.∈ Op.all) (INSTRUCTIONS_entries.*1)))
    |apply (bool_decide_eq_true (Forall (.∈ INSTRUCTIONS_entries.*1) Op.all))]; by vm_compute.
Qed.

(** The table: 256 default entries overwritten by the assignments. *)
Definition INSTRUCTIONS : list InstructionInfo.t := Eval vm_compute in
  fold_left (fun arr e => <[Z.to_nat e.1 := e.2]> arr) INSTRUCTIONS_entries
    (replicate 256 InstructionInfo.default).

(** [&infos[instruction as usize]]; the table has an entry for every [u8]. *)
Definition info_of (i : Instruction) : InstructionInfo.t :=
  nth (Z.to_nat i) INSTRUCTIONS InstructionInfo.default.
#[global] Arguments info_of : simpl never.

(** Decide comparisons of opcodes. *)
Ltac op_eval :=
  repeat match goal with
  | |- context [?a =? ?b] =>
      let v := eval vm_compute in (a =? b) in
      lazymatch v with
      | true => change (a =? b) with true
      | false => change (a =? b) with false
      end
  | |- context [?a <=? ?b] =>
      let v := eval vm_compute in (a <=? b) in
      lazymatch v with
      | true => change (a <=? b) with true
      | false => change (a <=? b) with false
      end
  end; cbn [orb andb negb].

(** Evaluate the operand count of a concrete instruction in [H : n <= _]. *)
Ltac eval_args H :=
  lazymatch type of H with
  | ?n <= _ => let m := eval vm_compute in n in change n with m in H
  end.

(** Evaluate the table entry of a concrete instruction in the goal. *)
Ltac eval_info :=
  repeat match goal with
  | |- context [InstructionInfo.args (info_of ?o)] =>
      let m := eval vm_compute in (InstructionInfo.args (info_of o)) in
      change (InstructionInfo.args (info_of o)) with m
  | |- context [InstructionInfo.ret (info_of ?o)] =>
      let m := eval vm_compute in (InstructionInfo.ret (info_of o)) in
      change (InstructionInfo.ret (info_of o)) with m
  end.
