(* ===== verification/Schedule.v ===== *)
(** * Gas schedule

    [cita-executor/core/src/evm/schedule.rs]: the prices and limits of the
    virtual machine. *)

From S2P Require Import Prelude.
From stdpp Require Import base list.
Local Open Scope Z_scope.

Module Schedule.
Record t : Set := mk {
  exceptional_failed_code_deposit : bool;
  have_delegate_call : bool;
  stack_limit : Z;
  max_depth : Z;
  tier_step_gas : list Z;
  exp_gas : Z;
  exp_byte_gas : Z;
  sha3_gas : Z;
  sha3_word_gas : Z;
  sload_gas : Z;
  sstore_set_gas : Z;
  sstore_reset_gas : Z;
  sstore_refund_gas : Z;
  jumpdest_gas : Z;
  log_gas : Z;
  log_data_gas : Z;
  log_topic_gas : Z;
  create_gas : Z;
  call_gas : Z;
  call_stipend : Z;
  call_value_transfer_gas : Z;
  call_new_account_gas : Z;
  suicide_refund_gas : Z;
  memory_gas : Z;
  quad_coeff_div : Z;
  create_data_gas : Z;
  create_data_limit : Z;
  tx_gas : Z;
  tx_create_gas : Z;
  tx_data_zero_gas : Z;
  tx_data_non_zero_gas : Z;
  copy_gas : Z;
  extcodesize_gas : Z;
  extcodecopy_base_gas : Z;
  balance_gas : Z;
  suicide_gas : Z;
  suicide_to_new_account_cost : Z;
  sub_gas_cap_divisor : option Z;
  no_empty : bool;
  kill_empty : bool;
}.

(** The pre-EIP-150 schedules. *)
Definition new (efcd hdc : bool) (tcg : Z) : t :=
  {| exceptional_failed_code_deposit := efcd;
     have_delegate_call := hdc;
     stack_limit := 1024;
     max_depth := 1024;
     tier_step_gas := [0; 2; 3; 5; 8; 10; 20; 0];
     exp_gas := 10;
     exp_byte_gas := 10;
     sha3_gas := 30;
     sha3_word_gas := 6;
     sload_gas := 50;
     sstore_set_gas := 20000;
     sstore_reset_gas := 5000;
     sstore_refund_gas := 15000;
     jumpdest_gas := 1;
     log_gas := 375;
     log_data_gas := 8;
     log_topic_gas := 375;
     create_gas := 32000;
     call_gas := 40;
     call_stipend := 2300;
     call_value_transfer_gas := 9000;
     call_new_account_gas := 25000;
     suicide_refund_gas := 24000;
     memory_gas := 3;
     quad_coeff_div := 512;
     create_data_gas := 200;
     create_data_limit := 2 ^ 64 - 1;
     tx_gas := 21000;
     tx_create_gas := tcg;
     tx_data_zero_gas := 4;
     tx_data_non_zero_gas := 68;
     copy_gas := 3;
     extcodesize_gas := 20;
     extcodecopy_base_gas := 20;
     balance_gas := 20;
     suicide_gas := 0;
     suicide_to_new_account_cost := 0;
     sub_gas_cap_divisor := None;
     no_empty := false;
     kill_empty := false |}.

(** The schedule of the post-EIP-150 era. *)
Definition new_post_eip150 (max_code_size : Z) (fix_exp no_empty kill_empty : bool) : t :=
  {| exceptional_failed_code_deposit := true;
     have_delegate_call := true;
     stack_limit := 1024;
     max_depth := 1024;
     tier_step_gas := [0; 2; 3; 5; 8; 10; 20; 0];
     exp_gas := 10;
     exp_byte_gas := if fix_exp then 50 else 10;
     sha3_gas := 30;
     sha3_word_gas := 6;
     sload_gas := 200;
     sstore_set_gas := 20000;
     sstore_reset_gas := 5000;
     sstore_refund_gas := 15000;
     jumpdest_gas := 1;
     log_gas := 375;
     log_data_gas := 8;
     log_topic_gas := 375;
     create_gas := 32000;
     call_gas := 700;
     call_stipend := 2300;
     call_value_transfer_gas := 9000;
     call_new_account_gas := 25000;
     suicide_refund_gas := 24000;
     memory_gas := 3;
     quad_coeff_div := 512;
     create_data_gas := 200;
     create_data_limit := max_code_size;
     tx_gas := 21000;
     tx_create_gas := 53000;
     tx_data_zero_gas := 4;
     tx_data_non_zero_gas := 68;
     copy_gas := 3;
     extcodesize_gas := 700;
     extcodecopy_base_gas := 700;
     balance_gas := 400;
     suicide_gas := 5000;
     suicide_to_new_account_cost := 25000;
     sub_gas_cap_divisor := Some 64;
     no_empty := no_empty;
     kill_empty := kill_empty |}.

Definition new_frontier : t := new false false 21000.

Definition new_homestead : t := new true true 53000.

(** The prices charged by the gas meter, and those of instructions after
    which execution continues. *)
Definition prices (s : t) : list Z :=
  [exp_gas s; exp_byte_gas s; sha3_gas s; sha3_word_gas s; sload_gas s;
   sstore_set_gas s; sstore_reset_gas s; log_gas s; log_data_gas s; log_topic_gas s;
   create_gas s; call_gas s; call_stipend s; call_value_transfer_gas s;
   call_new_account_gas s; memory_gas s; copy_gas s; extcodesize_gas s;
   extcodecopy_base_gas s; balance_gas s; suicide_gas s; suicide_to_new_account_cost s;
   sstore_refund_gas s; suicide_refund_gas s; create_data_gas s].

Definition step_prices (s : t) : list Z :=
  [exp_gas s; sha3_gas s; sload_gas s; sstore_set_gas s; sstore_reset_gas s; log_gas s;
   create_gas s; call_gas s; extcodesize_gas s; extcodecopy_base_gas s; balance_gas s].

(** The facts about a schedule that the gas meter and the interpreter rely
    on: prices are small enough that no price computation overflows, a call
    stipend is paid for by the value-transfer surcharge, and no instruction
    that lets execution continue is free. *)
Record ok (s : t) : Prop := {
  ok_tiers : exists t0 t1 t2 t3 t4 t5 t6 t7,
    tier_step_gas s = [t0; t1; t2; t3; t4; t5; t6; t7] /\
    Forall (fun p => 0 <= p < 2 ^ 32) [t0; t1; t2; t3; t4; t5; t6; t7] /\
    Forall (fun p => 1 <= p) [t1; t2; t3; t4; t5; t6];
  ok_prices : Forall (fun p => 0 <= p < 2 ^ 32) (prices s);
  ok_positive : Forall (fun p => 1 <= p) (step_prices s);
  ok_word_prices : sha3_word_gas s <= 31 /\ copy_gas s <= 31;
  ok_stipend : call_stipend s < call_value_transfer_gas s;
  ok_quad : quad_coeff_div s = 512;
  ok_stack_limit : 0 <= stack_limit s < 2 ^ 32;
  ok_cap : match sub_gas_cap_divisor s with Some d => 1 <= d < 2 ^ 64 | None => True end;
}.

Ltac ok_solve :=
  split; [do 8 eexists; split_and!; [reflexivity|..]| | |..]; cbn;
  repeat match goal with |- Forall _ _ => constructor end; cbn; lia.

Lemma new_ok efcd hdc tcg : ok (new efcd hdc tcg).
Proof. ok_solve. Qed.

Lemma new_post_eip150_ok limit fix_exp no_empty kill_empty :
  ok (new_post_eip150 limit fix_exp no_empty kill_empty).
Proof. destruct fix_exp; ok_solve. Qed.

Lemma price_bound s p : ok s -> In p (prices s) -> 0 <= p < 2 ^ 32.
Proof. intros Hs Hp. pose proof (ok_prices s Hs) as H. by eapply List.Forall_forall in H. Qed.

Lemma step_price_pos s p : ok s -> In p (step_prices s) -> 1 <= p.
Proof. intros Hs Hp. pose proof (ok_positive s Hs) as H. by eapply List.Forall_forall in H. Qed.
End Schedule.

(** Put the bound of the price [p] of the schedule with [H : ok s] in the
    context. *)
Ltac price H p :=
  pose proof (Schedule.price_bound _ p H ltac:(cbv [Schedule.prices In]; tauto)).
Ltac step_price H p :=
  price H p; pose proof (Schedule.step_price_pos _ p H ltac:(cbv [Schedule.step_prices In]; tauto)).
