(* ===== verification/Evm.v ===== *)
(** * Virtual machine interface

    [cita-executor/core/src/evm/evm.rs] (errors, results, the cost types),
    [evm/ext.rs] (the externalities trait), [action_params.rs],
    [env_info.rs] and [executed.rs] (call types): what the interpreter
    exchanges with its environment. *)

From S2P Require Import Prelude Schedule.
From stdpp Require Import base list strings.
Local Open Scope Z_scope.
Local Open Scope cita_scope.

(** ** Errors *)
Inductive Error : Set :=
| OutOfGas
| BadJumpDestination (destination : Z)
| BadInstruction (instruction : Z)
| StackUnderflow (instruction : string) (wanted on_stack : Z)
| OutOfStack (instruction : string) (wanted limit : Z)
| Internal (msg : string).

#[export] Instance Error_eq_dec : EqDecision Error.
Proof. solve_decision. Defined.

(** [Box<TrieError>]: the machine only displays it. *)
Abbreviation TrieError := string (only parsing).

(** [impl From<Box<TrieError>> for Error]. *)
Definition Error_from (err : TrieError) : Error := Internal ("Internal error: " +:+ err).

(** [impl Display for Error]. *)
Definition Error_message (e : Error) : string :=
  match e with
  | OutOfGas => "Out of gas"
  | BadJumpDestination _ => "Bad jump destination"
  | BadInstruction _ => "Bad instruction"
  | StackUnderflow _ _ _ => "Stack underflow"
  | OutOfStack _ _ _ => "Out of stack"
  | Internal msg => msg
  end.

Inductive GasLeft : Set :=
| Known (gas : U256)
| NeedsReturn (gas : U256) (data : bytes).

(** ** Call descriptions *)
Module CallType.
Inductive t : Set := None | Call | CallCode | DelegateCall.
End CallType.

Inductive ActionValue : Set :=
| Transfer (val : U256)
| Apparent (val : U256).

Definition ActionValue_value (v : ActionValue) : U256 :=
  match v with Transfer x | Apparent x => x end.

Module ActionParams.
Record t : Set := mk {
  code_address : Address;
  code_hash : H256;
  address : Address;
  sender : Address;
  origin : Address;
  gas : U256;
  gas_price : U256;
  value : ActionValue;
  code : option bytes;
  data : option bytes;
  call_type : CallType.t;
}.

(** [HASH_EMPTY], the hash of the empty byte string, is a constant of the
    hash library. *)
Definition default (HASH_EMPTY : H256) : t :=
  {| code_address := 0; code_hash := HASH_EMPTY; address := 0; sender := 0; origin := 0;
     gas := 0; gas_price := 0; value := Transfer 0; code := None; data := None;
     call_type := CallType.None |}.
End ActionParams.

Module EnvInfo.
Record t : Set := mk {
  number : Z;
  author : Address;
  timestamp : Z;
  difficulty : U256;
  gas_limit : U256;
  last_hashes : list H256;
  gas_used : U256;
  account_gas_limit : U256;
}.

Definition default : t :=
  {| number := 0; author := 0; timestamp := 0; difficulty := 0; gas_limit := 2 ^ 64 - 1;
     last_hashes := []; gas_used := 0; account_gas_limit := 0 |}.

Record ok (e : t) : Prop := {
  ok_number : fits 64 (number e);
  ok_author : fits 160 (author e);
  ok_timestamp : fits 64 (timestamp e);
  ok_difficulty : fits 256 (difficulty e);
  ok_gas_limit : fits 256 (gas_limit e);
}.
End EnvInfo.

Inductive ContractCreateResult : Set :=
| Created (address : Address) (gas_left : U256)
| CreateFailed.

Inductive MessageCallResult : Set :=
| CallSuccess (gas_left : U256)
| CallFailed.

(** ** Cost types

    The interpreter is generic in the integer type it counts gas in.  A
    cost type is identified by its width: [usize] by 64 and [U256] by 256;
    both have the numbers below [2 ^ W] as values. *)
Class CostType (W : Z) : Type := {
  as_u256 : Z -> U256;
  from_u256 : U256 -> outcome Error Z;
  as_usize : Z -> outcome Error Z;
  overflow_add : Z -> Z -> Z * bool;
  overflow_mul : Z -> Z -> Z * bool;
  overflow_mul_shr : Z -> Z -> Z -> Z * bool;
}.
#[global] Arguments as_u256 W {_} _.
#[global] Arguments from_u256 W {_} _.
#[global] Arguments as_usize W {_} _.
#[global] Arguments overflow_add W {_} _ _.
#[global] Arguments overflow_mul W {_} _ _.
#[global] Arguments overflow_mul_shr W {_} _ _ _.

(** [impl CostType for U256].  [U256::as_u64] panics on a larger number. *)
#[export] Instance CostType_U256 : CostType 256 := {
  as_u256 x := x;
  from_u256 val := Ok val;
  as_usize x := if x <? 2 ^ 64 then Ok x else Panic;
  overflow_add := overflowing_add 256;
  overflow_mul := overflowing_mul 256;
  overflow_mul_shr a b shr :=
    let x := wrap 512 (a * b) in
    let overflow := 0 <? Z.shiftr x 256 in
    (wrap 256 (Z.shiftr x shr), overflow);
}.

(** [impl CostType for usize]. *)
#[export] Instance CostType_usize : CostType 64 := {
  as_u256 x := x;
  from_u256 val :=
    let res := low_u64 val in
    if negb (res =? val) then Err OutOfGas else Ok res;
  as_usize x := Ok x;
  overflow_add := overflowing_add 64;
  overflow_mul := overflowing_mul 64;
  overflow_mul_shr a b shr :=
    let '(c, o) := overflowing_mul 128 a b in
    let overflow := o || (0 <? Z.shiftr c 64) in
    let parts0 := wrap 64 (Z.shiftr c shr) in
    let result := parts0 in
    let overflow := overflow || (result <? parts0) in
    (result, overflow);
}.

(** What the gas meter relies on. *)
Class CostTypeOk (W : Z) {C : CostType W} : Prop := {
  cost_width : 64 <= W <= 256;
  as_u256_spec x : as_u256 W x = x;
  from_u256_spec v : fits 256 v ->
    from_u256 W v = if v <? 2 ^ W then Ok v else Err OutOfGas;
  as_usize_spec x : fits 64 x -> as_usize W x = Ok x;
  overflow_add_spec a b : overflow_add W a b = overflowing_add W a b;
  overflow_mul_spec a b : overflow_mul W a b = overflowing_mul W a b;
  overflow_mul_shr_spec a b k : fits W a -> fits W b -> 0 <= k ->
    overflow_mul_shr W a b k = (wrap W (Z.shiftr (a * b) k), 2 ^ W <=? a * b);
}.

Lemma mul_fits_double w a b : 0 <= w -> fits w a -> fits w b -> fits (2 * w) (a * b).
Proof.
  rw /fits => Hw ??. rw (_ : 2 * w = w + w); [lia|]. rw Z.pow_add_r; [lia..|]. nia.
Qed.

Lemma shiftr_pos_iff x k : 0 <= k -> 0 <= x -> (0 <? Z.shiftr x k) = (2 ^ k <=? x).
Proof.
  intros Hk Hx. rw shiftr_div; [done|]. pose proof (pow2_pos k Hk).
  apply eq_true_iff_eq. rw Z.ltb_lt Z.leb_le. split; intros.
  - destruct (Z.lt_ge_cases x (2 ^ k)); [|done]. rw Z.div_small in H0; lia.
  - apply Z.div_str_pos. lia.
Qed.

#[export] Instance CostTypeOk_U256 : CostTypeOk 256.
Proof.
  split; try done.
  - intros v [? ?]. rw /from_u256 /=. by rw (proj2 (Z.ltb_lt _ _)).
  - intros x [? ?]. rw /as_usize /=. by rw (proj2 (Z.ltb_lt _ _)).
  - intros a b k Ha Hb Hk. rw /overflow_mul_shr /=.
    pose proof (mul_fits_double 256 a b ltac:(lia) Ha Hb) as Hab.
    rw (wrap_small 512); [done|]. by rw shiftr_pos_iff; [lia|destruct Hab|].
Qed.

#[export] Instance CostTypeOk_usize : CostTypeOk 64.
Proof.
  split; try done.
  - intros v Hv. rw /from_u256 /= /low_u64. destruct (Z.ltb_spec v (2 ^ 64)).
    + rw wrap_small; [destruct Hv; split; lia|]. by rw Z.eqb_refl.
    + destruct (Z.eqb_spec (wrap 64 v) v) as [He|]; [|done].
      pose proof (wrap_fits 64 v ltac:(lia)) as [_ ?]. lia.
  - intros a b k Ha Hb Hk. rw /overflow_mul_shr /= /overflowing_mul.
    pose proof (mul_fits_double 64 a b ltac:(lia) Ha Hb) as Hab.
    rw (wrap_small 128); [done|]. destruct Hab as [? Hab].
    rw Z.ltb_irrefl orb_false_r. change (2 * 64) with 128 in Hab.
    rw (proj2 (Z.leb_gt _ _) Hab) /=. by rw shiftr_pos_iff.
Qed.

(** ** The externalities trait

    [X] is the type of the environment.  Methods that take [&self] may still
    update caches, so every method threads the environment. *)
Class Externalities (X : Type) : Type := {
  storage_at : H256 -> M TrieError X H256;
  set_storage : H256 -> H256 -> M TrieError X unit;
  exists_ : Address -> M TrieError X bool;
  exists_and_not_null : Address -> M TrieError X bool;
  origin_balance : M TrieError X U256;
  balance : Address -> M TrieError X U256;
  blockhash : U256 -> M void X H256;
  create : U256 -> U256 -> bytes -> M void X ContractCreateResult;
  (** [call gas sender receive value data code_address output call_type]:
      the new contents of [output] come back with the result. *)
  call : U256 -> Address -> Address -> option U256 -> bytes -> Address -> bytes ->
    CallType.t -> M void X (MessageCallResult * bytes);
  extcode : Address -> M TrieError X bytes;
  extcodesize : Address -> M TrieError X Z;
  log : list H256 -> bytes -> M void X unit;
  ret : U256 -> bytes -> M Error X U256;
  suicide : Address -> M TrieError X unit;
  schedule : X -> Schedule.t;
  env_info : X -> EnvInfo.t;
  depth : X -> Z;
  inc_sstore_clears : M void X unit;
  trace_prepare_execute : Z -> Z -> U256 -> M void X bool;
  trace_executed : U256 -> list U256 -> option (Z * bytes) -> option (U256 * U256) ->
    M void X unit;
}.

(** [Finalize::finalize]. *)
Definition finalize {X} `{Externalities X} (r : outcome Error GasLeft) : M Error X U256 :=
  match r with
  | Ok (Known gas) => sret gas
  | Ok (NeedsReturn gas ret_code) => ret gas ret_code
  | Err err => sfail err
  | Panic => slift Panic
  end.

(** What an environment promises to the interpreter.  The invariant [I n]
    says that the environment is well formed and that its counters (refunds,
    nonces) can absorb [n] more increments; every increment is paid for by at
    least one unit of gas.  In a state that satisfies the invariant no method
    panics, every method keeps the invariant, the schedule, the block
    environment and the call depth, results have their width, a call or create
    below the depth limit gives back at most the gas it was handed, and a call
    does not resize the output slice. *)
Definition ext_step {X} `{Externalities X} (I : X -> Prop) (x x' : X) : Prop :=
  I x' /\ schedule x' = schedule x /\ env_info x' = env_info x /\ depth x' = depth x.

Definition ext_method {X E A} `{Externalities X} (I : X -> Prop) (c : M E X A)
    (Q : A -> Prop) : Prop :=
  forall x, I x -> wp c (fun a x' => Q a /\ ext_step I x x') (fun _ x' => ext_step I x x') x.

Class ExternalitiesOk (X : Type) {HX : Externalities X} (I : Z -> X -> Prop) : Prop := {
  inv_mono m n x : 0 <= m <= n -> I n x -> I m x;
  storage_at_ok n k : ext_method (I n) (storage_at k) (fits 256);
  set_storage_ok n k v : fits 256 v -> ext_method (I n) (set_storage k v) (fun _ => True);
  exists_ok n a : ext_method (I n) (exists_ a) (fun _ => True);
  exists_and_not_null_ok n a : ext_method (I n) (exists_and_not_null a) (fun _ => True);
  origin_balance_ok n : ext_method (I n) origin_balance (fits 256);
  balance_ok n a : ext_method (I n) (balance a) (fits 256);
  blockhash_ok n number : fits 256 number -> ext_method (I n) (blockhash number) (fits 256);
  create_ok n gas value code x :
    0 <= n -> fits 64 gas -> fits 256 value -> vec_ok code ->
    depth x < Schedule.max_depth (schedule x) -> I (n + 1 + gas) x ->
    wp (create gas value code)
      (fun r x' => match r with
         | Created a g => fits 160 a /\ 0 <= g <= gas /\ ext_step (I (n + g)) x x'
         | CreateFailed => ext_step (I n) x x'
         end) (fun _ _ => True) x;
  call_ok n gas sender receive value data code_address output ct x :
    0 <= n -> fits 64 gas -> fits 160 sender -> fits 160 receive -> fits 160 code_address ->
    match value with Some v => fits 256 v | None => True end -> vec_ok data -> bytes_ok output ->
    depth x < Schedule.max_depth (schedule x) -> I (n + gas) x ->
    wp (call gas sender receive value data code_address output ct)
      (fun r x' => length r.2 = length output /\ bytes_ok r.2 /\
         match r.1 with
         | CallSuccess g => 0 <= g <= gas /\ ext_step (I (n + g)) x x'
         | CallFailed => ext_step (I n) x x'
         end) (fun _ _ => True) x;
  extcode_ok n a : ext_method (I n) (extcode a) vec_ok;
  extcodesize_ok n a : ext_method (I n) (extcodesize a) (fits 64);
  log_ok n topics data : ext_method (I n) (log topics data) (fun _ => True);
  suicide_ok n a : ext_method (I n) (suicide a) (fun _ => True);
  inc_sstore_clears_ok n x : 0 <= n -> I (n + 1) x ->
    wp inc_sstore_clears (fun _ x' => ext_step (I n) x x') (fun _ _ => True) x;
  trace_prepare_execute_ok n pc i g :
    ext_method (I n) (trace_prepare_execute pc i g) (fun _ => True);
  trace_executed_ok n g s m st :
    ext_method (I n) (trace_executed g s m st) (fun _ => True);
  schedule_ok n x : I n x -> Schedule.ok (schedule x);
  env_info_ok n x : I n x -> EnvInfo.ok (env_info x);
}.

Lemma ext_step_refl {X} `{Externalities X} (I : X -> Prop) x : I x -> ext_step I x x.
Proof. done. Qed.

Lemma ext_step_trans {X} `{Externalities X} (I J : X -> Prop) x y z :
  ext_step I x y -> ext_step J y z -> ext_step J x z.
Proof. intros (? & ? & ? & ?) (? & ? & ? & ?). repeat split; [done|congruence..]. Qed.

Lemma ext_step_mono {X} `{Externalities X} (I : Z -> X -> Prop) {HXok : ExternalitiesOk X I} m n x y :
  0 <= m <= n -> ext_step (I n) x y -> ext_step (I m) x y.
Proof. intros Hmn (? & ? & ? & ?). repeat split; [by eapply inv_mono|done..]. Qed.

#[export] Hint Resolve ext_step_refl : cita.
