(* ===== verification/Memory.v ===== *)
(** * Interpreter memory

    [cita-executor/core/src/evm/interpreter/memory.rs]: the byte-addressed
    scratch memory, a [Vec<u8>].  Offsets and sizes arrive as 256-bit words
    and are truncated to [usize]; accesses outside the vector panic. *)

From S2P Require Import Prelude.
From stdpp Require Import base list.
Local Open Scope Z_scope.
Local Open Scope cita_scope.

Module Memory.

(** ** Operations *)

(** Checks whether offset and size is valid memory range. *)
Definition is_valid_range (off size : Z) : bool :=
  let overflow := (overflowing_add 64 off size).2 in
  (0 <? size) && negb overflow.

Definition size (mem : bytes) : Z := zlen mem.

Definition read_slice {E} (mem : bytes) (init_off_u init_size_u : Z) : outcome E bytes :=
  let off := low_u64 init_off_u in
  let size := low_u64 init_size_u in
  if negb (is_valid_range off size) then slice mem 0 0 else slice mem off (off + size).

Definition read {E} (mem : bytes) (offset : Z) : outcome E Z :=
  let off := low_u64 offset in
  stop <- add_ 64 off 32 ;;
  word <- slice mem off stop ;;
  Ok (of_be word).

(** The mutable view [&mut self[off..off + s]], as its bounds. *)
Definition writeable_slice {E} (mem : bytes) (offset size : Z) : outcome E (Z * Z) :=
  let off := low_u64 offset in
  let s := low_u64 size in
  let view := if negb (is_valid_range off s) then (0, 0) else (off, off + s) in
  _ <- slice mem view.1 view.2 ;;
  Ok view.

Definition write_slice {E} (mem : bytes) (offset : Z) (s : bytes) : outcome E bytes :=
  match s with
  | [] => Ok mem
  | _ =>
      let off := low_u64 offset in
      _ <- add_ 64 off (zlen s) ;;
      splice mem off s
  end.

Definition write {E} (mem : bytes) (offset value : Z) : outcome E bytes :=
  let off := low_u64 offset in
  _ <- add_ 64 off 32 ;;
  splice mem off (to_be 32 value).

Definition write_byte {E} (mem : bytes) (offset value : Z) : outcome E bytes :=
  let off := low_u64 offset in
  let val := low_u64 value in
  splice mem off [wrap 8 val].

(** [Vec::resize(new_size, 0)] panics beyond [isize::MAX] bytes. *)
Definition resize {E} (mem : bytes) (new_size : Z) : outcome E bytes :=
  if new_size <? 2 ^ 63 then Ok (resize (Z.to_nat new_size) 0 mem) else Panic.

Definition expand {E} (mem : bytes) (size : Z) : outcome E bytes :=
  if zlen mem <? size then resize mem size else Ok mem.

(** ** Sizes and safety of accesses *)
Lemma expand_ok {E} mem n :
  0 <= n < 2 ^ 63 -> bytes_ok mem ->
  exists m, expand (E := E) mem n = Ok m /\ size m = Z.max (size mem) n /\ bytes_ok m.
Proof.
  rw /size /expand /resize => Hn Hm. destruct (Z.ltb_spec (zlen mem) n).
  - rw (proj2 (Z.ltb_lt _ _)); [lia|]. eexists. split; [done|].
    split; [unfold zlen in *; rw length_resize; lia|by apply Forall_resize].
  - exists mem. split; [done|]. split; [lia|done].
Qed.

(** The bytes already in memory survive an expansion, new ones are zero. *)
Lemma expand_lookup {E} mem n m (i : nat) :
  expand (E := E) mem n = Ok m ->
  m !! i = match mem !! i with
           | Some b => Some b
           | None => if Z.of_nat i <? n then Some 0 else None
           end.
Proof.
  rw /expand /resize. destruct (Z.ltb_spec (zlen mem) n) as [Hn|Hn].
  - destruct (n <? 2 ^ 63); [|done]. intros [= <-]. rw /zlen in Hn. rw resize_ge; [lia|].
    destruct (mem !! i) as [b|] eqn:Hi; [by apply lookup_app_l_Some|].
    apply lookup_ge_None in Hi. rw lookup_app_r; [done|].
    destruct (Z.ltb_spec (Z.of_nat i) n).
    + apply lookup_replicate_2. lia.
    + apply lookup_ge_None. rw length_replicate. lia.
  - intros [= <-]. destruct (mem !! i) eqn:Hi; [done|]. apply lookup_ge_None in Hi.
    rw /zlen in Hn. by rw (proj2 (Z.ltb_ge _ _)); [lia|].
Qed.

Lemma is_valid_range_true off size :
  fits 64 off -> fits 64 size -> 0 < size -> off + size < 2 ^ 64 ->
  is_valid_range off size = true.
Proof.
  intros. rw /is_valid_range /overflowing_add /=.
  rw (proj2 (Z.ltb_lt _ _)); [done|]. by rw (proj2 (Z.leb_gt _ _)).
Qed.

Section in_range.
Context {E : Type} (mem : bytes).
Hypothesis mem_fits : size mem < 2 ^ 64.

Lemma slice_empty : slice (E := E) mem 0 0 = Ok [].
Proof using. rw slice_ok; [done|done|apply zlen_nonneg|done]. Qed.

(** A slice that the memory covers is read without a panic. *)
Lemma read_slice_ok off n :
  0 <= off -> 0 <= n -> (n <> 0 -> off + n <= size mem) ->
  exists s, read_slice (E := E) mem off n = Ok s /\ zlen s = n /\
    (n <> 0 -> s = take (Z.to_nat n) (drop (Z.to_nat off) mem)).
Proof using mem_fits.
  intros Hoff Hn Hin. rw /read_slice. destruct (decide (n = 0)) as [->|Hne].
  { exists []. by rw /is_valid_range /= slice_empty. }
  specialize (Hin Hne). rw (low_u64_small off); [split; lia|].
  rw (low_u64_small n); [split; lia|].
  rw is_valid_range_true; [split; lia|split; lia|lia|lia|]. simpl.
  rw slice_ok; [lia|lia|done|]. eexists; split; [done|].
  rw zlen_slice; [lia|lia|done|]. split; [lia|]. intros _. by rw Z.add_simpl_l.
Qed.

Lemma writeable_slice_ok off n :
  0 <= off -> 0 <= n -> (n <> 0 -> off + n <= size mem) ->
  exists a, writeable_slice (E := E) mem off n = Ok (a, a + n) /\
    0 <= a /\ a + n <= size mem /\ (n <> 0 -> a = off).
Proof using mem_fits.
  intros Hoff Hn Hin. rw /writeable_slice. destruct (decide (n = 0)) as [->|Hne].
  { exists 0. rw /is_valid_range /= slice_empty /=. pose proof (zlen_nonneg mem).
    split_and!; [done|done|rw /size; lia|lia]. }
  specialize (Hin Hne). exists off. rw (low_u64_small off); [split; lia|].
  rw (low_u64_small n); [split; lia|].
  rw is_valid_range_true; [split; lia|split; lia|lia|lia|]. simpl.
  by rw slice_ok; [lia|lia|done|].
Qed.

Lemma read_ok off :
  0 <= off -> off + 32 <= size mem ->
  read (E := E) mem off = Ok (of_be (take 32 (drop (Z.to_nat off) mem))).
Proof using mem_fits.
  intros. rw /read low_u64_small; [split; lia|]. rw add_ok; [lia|]. simpl.
  rw slice_ok; [lia|lia|done|]. simpl. by rw Z.add_simpl_l.
Qed.

Lemma write_slice_ok off s :
  0 <= off -> (s <> [] -> off + zlen s <= size mem) ->
  exists m, write_slice (E := E) mem off s = Ok m /\ size m = size mem /\
    (s <> [] -> m = take (Z.to_nat off) mem ++ s ++ drop (Z.to_nat off + length s) mem).
Proof using mem_fits.
  intros Hoff Hin. rw /write_slice. destruct s as [|b s]; [by eexists|].
  specialize (Hin ltac:(done)). pose proof (zlen_nonneg (b :: s)).
  rw low_u64_small; [split; lia|]. rw add_ok; [lia|]. simpl obind.
  rw splice_ok; [lia|done|]. eexists; split; [done|]. by rw /size zlen_splice.
Qed.

Lemma write_ok off v :
  0 <= off -> off + 32 <= size mem ->
  write (E := E) mem off v =
    Ok (take (Z.to_nat off) mem ++ to_be 32 v ++ drop (Z.to_nat off + 32) mem).
Proof using mem_fits.
  intros. rw /write low_u64_small; [split; lia|]. rw add_ok; [lia|]. simpl obind.
  rw splice_ok; [lia|by rw /zlen to_be_length|]. by rw to_be_length.
Qed.

Lemma write_byte_ok off v :
  0 <= off -> off + 1 <= size mem ->
  write_byte (E := E) mem off v =
    Ok (take (Z.to_nat off) mem ++ [wrap 8 v] ++ drop (Z.to_nat off + 1) mem).
Proof using mem_fits.
  intros. rw /write_byte low_u64_small; [split; lia|]. rw splice_ok; [lia|done|].
  do 4 f_equal. rw /low_u64 /wrap. apply Z.mod_mod_divide. by exists (2 ^ 56).
Qed.
End in_range.

Lemma splice_parts_ok (mem s : bytes) n m :
  bytes_ok mem -> bytes_ok s -> bytes_ok (take n mem ++ s ++ drop m mem).
Proof.
  intros. rw /bytes_ok !Forall_app. split; [by apply Forall_take|]. split; [done|].
  by apply Forall_drop.
Qed.

Lemma take_drop_splice {A} (l s : list A) (n : nat) :
  (n + length s <= length l)%nat ->
  take (length s) (drop n (take n l ++ s ++ drop (n + length s) l)) = s.
Proof.
  intros. rw drop_app_length'; [rw length_take; lia|]. by rw take_app_length.
Qed.

End Memory.
