(* ===== verification/Stack.v ===== *)
(** * Interpreter stack

    [cita-executor/core/src/evm/interpreter/stack.rs]: the operand stack, a
    vector whose last element is the top, and a small buffer for log topics.
    The lemmas restate the operations on the list of the elements read from
    the top ([of_top]). *)

From S2P Require Import Prelude Instructions.
From stdpp Require Import base list.
Local Open Scope Z_scope.
Local Open Scope cita_scope.

Module VecStack.

(** ** Operations *)
Record t (A : Type) : Type := mk {
  stack : list A;
  logs : list A;
}.
Arguments mk {A} _ _.
Arguments stack {A} _.
Arguments logs {A} _.

Section ops.
  Context {A : Type}.

Definition with_capacity (capacity : Z) (zero : A) : t A :=
  {| stack := []; logs := replicate (Z.to_nat MAX_NO_OF_TOPICS) zero |}.

Definition size (s : t A) : Z := zlen (stack s).

Definition peek {E} (s : t A) (no_from_top : Z) : outcome E A :=
  i <- sub_ (size s) no_from_top ;;
  i <- sub_ i 1 ;;
  index (stack s) i.

(** [Vec::swap(i, j)]. *)
Definition vec_swap {E} (l : list A) (i j : Z) : outcome E (list A) :=
  x <- index l i ;;
  y <- index l j ;;
  Ok (<[Z.to_nat j := x]> (<[Z.to_nat i := y]> l)).

Definition swap_with_top {E} (s : t A) (no_from_top : Z) : outcome E (t A) :=
  let len := size s in
  i <- sub_ len no_from_top ;;
  i <- sub_ i 1 ;;
  j <- sub_ len 1 ;;
  l <- vec_swap (stack s) i j ;;
  Ok (mk l (logs s)).

Definition has (s : t A) (no_of_elems : Z) : bool := no_of_elems <=? size s.

Definition pop_back {E} (s : t A) : outcome E (A * t A) :=
  match last (stack s) with
  | Some x => Ok (x, mk (take (length (stack s) - 1) (stack s)) (logs s))
  | None => Panic
  end.

(** The loop [for i in 0..no_of_elems]: [n] rounds from index [i]. *)
Fixpoint pop_n_loop {E} (n : nat) (i : Z) (s : t A) : outcome E (t A) :=
  match n with
  | O => Ok s
  | S n =>
      let* (x, s) := pop_back s in
      logs' <- splice (logs s) i [x] ;;
      pop_n_loop n (i + 1) (mk (stack s) logs')
  end.

Definition pop_n {E} (s : t A) (no_of_elems : Z) : outcome E (list A * t A) :=
  _ <- assert_ (no_of_elems <=? MAX_NO_OF_TOPICS) ;;
  s <- pop_n_loop (Z.to_nat no_of_elems) 0 s ;;
  topics <- slice (logs s) 0 no_of_elems ;;
  Ok (topics, s).

Definition push (s : t A) (elem : A) : t A := mk (stack s ++ [elem]) (logs s).

Definition peek_top {E} (s : t A) (no_from_top : Z) : outcome E (list A) :=
  _ <- assert_ (no_from_top <=? size s) ;;
  slice (stack s) (size s - no_from_top) (size s).
End ops.

(** ** The stack read from the top *)
Section top.
  Context {A E : Type}.

Definition of_top (l g : list A) : t A := mk (reverse l) g.

Lemma of_top_eta (s : t A) : s = of_top (reverse (stack s)) (logs s).
Proof. destruct s. by rw /of_top /= reverse_involutive. Qed.

Lemma size_of_top (l g : list A) : size (of_top l g) = zlen l.
Proof. by rw /size /zlen /= length_reverse. Qed.

Lemma push_of_top (l g : list A) x : push (of_top l g) x = of_top (x :: l) g.
Proof. by rw /push /of_top /= reverse_cons. Qed.

Lemma pop_back_of_top (l g : list A) x :
  pop_back (E := E) (of_top (x :: l) g) = Ok (x, of_top l g).
Proof.
  rw /pop_back /of_top /= reverse_cons last_snoc. do 3 f_equal.
  rw length_app /= take_app_le; [lia|]. by rw Nat.add_sub firstn_all.
Qed.

Lemma pop_back_nil (g : list A) : pop_back (E := E) (of_top [] g) = Panic.
Proof. done. Qed.

Lemma index_of_top (l : list A) (i : Z) x :
  0 <= i -> l !! Z.to_nat i = Some x ->
  index (E := E) (reverse l) (zlen l - i - 1) = Ok x.
Proof.
  intros Hi Hx. pose proof (lookup_lt_Some _ _ _ Hx). rw /index /zlen.
  rw (proj2 (Z.leb_le _ _)); [lia|].
  rw (_ : Z.to_nat _ = (length l - S (Z.to_nat i))%nat); [lia|].
  rw reverse_lookup; [lia|].
  rw (_ : (length l - S (length l - S (Z.to_nat i)))%nat = Z.to_nat i); [lia|]. by rw Hx.
Qed.

Lemma peek_of_top (l g : list A) i x :
  0 <= i -> l !! Z.to_nat i = Some x -> peek (E := E) (of_top l g) i = Ok x.
Proof.
  intros Hi Hx. pose proof (lookup_lt_Some _ _ _ Hx). rw /peek size_of_top.
  rw sub_ok; [rw /zlen; lia|]. simpl. rw sub_ok; [rw /zlen; lia|]. simpl.
  by apply index_of_top.
Qed.

Lemma peek_is_Ok (l g : list A) i :
  0 <= i < zlen l -> exists x, l !! Z.to_nat i = Some x /\ peek (E := E) (of_top l g) i = Ok x.
Proof.
  rw /zlen => Hi. destruct (lookup_lt_is_Some_2 l (Z.to_nat i)) as [x Hx]; [lia|].
  exists x. split; [done|]. apply peek_of_top; [lia|done].
Qed.

Lemma swap_with_top_of_top (m r g : list A) x y :
  swap_with_top (E := E) (of_top (x :: m ++ y :: r) g) (1 + zlen m) =
  Ok (of_top (y :: m ++ x :: r) g).
Proof.
  set (l := x :: m ++ y :: r). pose proof (zlen_nonneg m).
  assert (Hl : zlen l = 2 + zlen m + zlen r) by (rw /l zlen_cons zlen_app zlen_cons; lia).
  pose proof (zlen_nonneg r). rw /swap_with_top size_of_top.
  rw sub_ok; [lia|]. simpl obind. rw sub_ok; [lia|]. simpl obind. rw sub_ok; [lia|]. simpl obind.
  rw /vec_swap /=. rw (index_of_top l (1 + zlen m) y); [lia| |].
  { rw /l /zlen. rw (_ : Z.to_nat _ = S (length m)); [lia|]. by rw /= list_lookup_middle. }
  simpl obind. rw (_ : zlen l - 1 = zlen l - 0 - 1); [lia|]. rw (index_of_top l 0 x); [lia|done|].
  simpl obind. do 2 f_equal. rw /of_top. f_equal.
  rw (_ : Z.to_nat (zlen l - (1 + zlen m) - 1) = length (reverse r)).
  { rw Hl length_reverse /zlen. lia. }
  rw (_ : Z.to_nat (zlen l - 0 - 1) = (length (reverse r) + S (length (reverse m)))%nat).
  { rw Hl !length_reverse /zlen. lia. }
  rw /l !reverse_cons !reverse_app !reverse_cons -!app_assoc /=.
  rw insert_app_r_alt; [done|]. rw Nat.sub_diag /=.
  rw insert_app_r. rw /= insert_app_r_alt; [done|]. by rw Nat.sub_diag.
Qed.

Lemma pop_n_loop_of_top (u g1 g2 r : list A) :
  length u = length g2 ->
  forall g3, pop_n_loop (E := E) (length u) (zlen g1) (of_top (u ++ r) (g1 ++ g2 ++ g3)) =
    Ok (of_top r (g1 ++ u ++ g3)).
Proof.
  revert g1 g2. induction u as [|x u IH]; intros g1 g2 Hlen g3.
  { by destruct g2. }
  destruct g2 as [|y g2]; [done|]. injection Hlen as Hlen.
  cbn [length app pop_n_loop]. rw pop_back_of_top. cbn [obind].
  rw splice_ok; [apply zlen_nonneg| |].
  { simpl. rw zlen_app !zlen_cons zlen_nil. pose proof (zlen_nonneg (g2 ++ g3)). lia. }
  simpl obind. rw /zlen Nat2Z.id take_app_length.
  rw (_ : drop _ _ = g2 ++ g3).
  { rw drop_app_ge; [lia|]. by rw (_ : (_ - _)%nat = 1%nat); [lia|]. }
  specialize (IH (g1 ++ [x]) g2 Hlen g3).
  rw zlen_app zlen_cons zlen_nil /zlen in IH.
  rw -!app_assoc /= in IH. rw /of_top /= in IH.
  by rw (_ : Z.of_nat (length g1) + 1 = Z.of_nat (length g1) + (1 + 0)); [lia|].
Qed.

Lemma pop_n_of_top (u r g : list A) :
  length g = Z.to_nat MAX_NO_OF_TOPICS -> zlen u <= MAX_NO_OF_TOPICS ->
  exists g', length g' = length g /\
    pop_n (E := E) (of_top (u ++ r) g) (zlen u) = Ok (u, of_top r g').
Proof.
  intros Hg Hu. exists (u ++ drop (length u) g). rw /zlen in Hu.
  split. { rw length_app length_drop. lia. }
  rw /pop_n (proj2 (Z.leb_le _ _)); [done|]. simpl obind.
  rw -{1}(take_drop (length u) g) {1}/zlen Nat2Z.id.
  pose proof (pop_n_loop_of_top u [] (take (length u) g) r) as Hloop.
  rw Hloop; [rw length_take; lia|]. simpl obind.
  rw slice_ok; [lia|apply zlen_nonneg| |].
  { rw /= zlen_app. pose proof (zlen_nonneg (drop (length u) g)). lia. }
  simpl obind. by rw Z.sub_0_r /zlen Nat2Z.id /= take_app_length.
Qed.

Lemma peek_top_of_top (l g : list A) n :
  0 <= n <= zlen l -> peek_top (E := E) (of_top l g) n = Ok (reverse (take (Z.to_nat n) l)).
Proof.
  intros Hn. rw /peek_top size_of_top (proj2 (Z.leb_le _ _)); [lia|]. simpl obind.
  rw slice_ok; [lia|lia|by rw /zlen /= length_reverse|].
  f_equal. rw /= /zlen. rw /zlen in Hn.
  rw (_ : reverse l = reverse (drop (Z.to_nat n) l) ++ reverse (take (Z.to_nat n) l)).
  { by rw -reverse_app take_drop. }
  rw drop_app_length'. { rw length_reverse length_drop. lia. }
  apply take_ge. rw length_reverse length_take. lia.
Qed.
End top.

End VecStack.

(** ** Naming operands *)
Lemma zlen_ge_cons {A} n (l : list A) :
  n <= zlen l -> 1 <= n -> exists x l', l = x :: l' /\ n - 1 <= zlen l'.
Proof.
  destruct l as [|x l]; rw ?zlen_nil ?zlen_cons => ??; [lia|]. exists x, l. split; [done|lia].
Qed.

(** Name the operands that [H : n <= zlen l], with [n] a numeral, announces. *)
Ltac operands H :=
  repeat lazymatch type of H with
  | 0 <= _ => fail
  | ?n <= zlen ?l =>
      let x := fresh "x" in let l' := fresh "l" in let H' := fresh in
      destruct (zlen_ge_cons n l H) as (x & l' & -> & H'); [lia|];
      let m := eval vm_compute in (n - 1) in
      change (m <= zlen l') in H'; clear H; rename H' into H
  end.

(** Split the widths of named operands. *)
Ltac operand_widths H :=
  repeat lazymatch type of H with
  | Forall _ (_ :: _) => let H' := fresh in apply Forall_cons in H as [H' H]
  end.

#[export] Hint Rewrite @VecStack.push_of_top @VecStack.size_of_top : cita.
