(* ===== verification/SharedCache.v ===== *)
(** * Jump destination analysis and its cache

    [cita-executor/core/src/evm/interpreter/shared_cache.rs]: the scan of a
    contract's code for the positions a jump may target, and the cache of
    scan results keyed by code hash. *)

From S2P Require Import Prelude Lru Instructions Evm.
From stdpp Require Import base gmap list.
Local Open Scope Z_scope.
Local Open Scope cita_scope.

(** [BitSet]. *)
Abbreviation BitSet := (gset Z).

Module SharedCache.

(** ** The scan *)

(** The loop [while position < code.len()]; every round advances
    [position], so [length code] rounds are enough. *)
Fixpoint find_loop {E} (fuel : nat) (code : bytes) (position : Z) (jump_dests : BitSet)
    : outcome E BitSet :=
  if position <? zlen code then
    match fuel with
    | O => Panic
    | S fuel =>
        instruction <- index code position ;;
        let* (position, jump_dests) :=
          if instruction =? Op.JUMPDEST then Ok (position, {[position]} ∪ jump_dests)
          else if is_push instruction then
            n <- get_push_bytes instruction ;;
            position <- add_ 64 position n ;;
            Ok (position, jump_dests)
          else Ok (position, jump_dests) in
        position <- add_ 64 position 1 ;;
        find_loop fuel code position jump_dests
    end
  else Ok jump_dests.

Definition find_jump_destinations {E} (code : bytes) : outcome E BitSet :=
  find_loop (length code) code 0 ∅.

(** ** Specification of the scan

    [instr_start code p]: [p] is where an instruction begins when [code] is
    read from its first byte, skipping the immediate bytes of pushes. *)
Definition next_position (i p : Z) : Z :=
  p + 1 + (if is_push i then i - Op.PUSH1 + 1 else 0).

Inductive instr_start (code : bytes) : Z -> Prop :=
| start_first : instr_start code 0
| start_next p i :
    instr_start code p -> code !! Z.to_nat p = Some i -> instr_start code (next_position i p).

(** [p] is a start at or after [q], reading on from [q]. *)
Inductive starts_from (code : bytes) (q : Z) : Z -> Prop :=
| from_here : starts_from code q q
| from_next p i :
    starts_from code q p -> code !! Z.to_nat p = Some i ->
    starts_from code q (next_position i p).

Definition jump_target (code : bytes) (p : Z) : Prop :=
  instr_start code p /\ code !! Z.to_nat p = Some Op.JUMPDEST.

Lemma next_position_gt i p : p < next_position i p <= p + 33.
Proof.
  rw /next_position. destruct (is_push i) eqn:Hp; [|lia].
  rw /is_push in Hp. zbool. rw /Op.PUSH1 /Op.PUSH32 in H H0 |- *. lia.
Qed.

Lemma starts_from_ge code q p : starts_from code q p -> q <= p.
Proof. induction 1 as [|p i _ IH _]; [lia|]. pose proof (next_position_gt i p). lia. Qed.

Lemma starts_from_start code q p : instr_start code q -> starts_from code q p -> instr_start code p.
Proof. intros Hq. by induction 1; [|econstructor]. Qed.

Lemma starts_from_step code q i p :
  code !! Z.to_nat q = Some i -> starts_from code q p ->
  p = q \/ starts_from code (next_position i q) p.
Proof.
  intros Hi. induction 1 as [|p j _ IH Hj]; [by left|]. right.
  destruct IH as [->|IH]; [|by econstructor].
  replace j with i by congruence. constructor.
Qed.

Lemma starts_from_0 code p : instr_start code p <-> starts_from code 0 p.
Proof. split; induction 1; by econstructor. Qed.

Lemma next_position_start code i q p :
  code !! Z.to_nat q = Some i -> starts_from code (next_position i q) p -> starts_from code q p.
Proof.
  intros Hi. induction 1; [|by econstructor]. by apply (from_next code q q i); [constructor|].
Qed.

(** The body of the loop adds the current position if it is a target and
    moves to the next instruction. *)
Lemma find_loop_step {E} fuel code q d i :
  zlen code < 2 ^ 63 -> 0 <= q -> code !! Z.to_nat q = Some i ->
  find_loop (E := E) (S fuel) code q d =
  find_loop fuel code (next_position i q) (if i =? Op.JUMPDEST then {[q]} ∪ d else d).
Proof.
  intros Hlen Hq Hi. pose proof (lookup_lt_Some _ _ _ Hi).
  assert (q < zlen code) by (rw /zlen; lia).
  cbn [find_loop]. rw (proj2 (Z.ltb_lt _ _)); [done|].
  rw /index (proj2 (Z.leb_le _ _)); [done|]. rw Hi. cbn [obind expect].
  pose proof (next_position_gt i q) as Hnext.
  destruct (Z.eqb_spec i Op.JUMPDEST) as [->|Hne].
  - cbn [obind]. rw add_ok; [lia|]. cbn [obind]. rw /next_position.
    rw (_ : is_push Op.JUMPDEST = false); [done|]. by rw Z.add_0_r.
  - rw /get_push_bytes. rw /next_position in Hnext |- *. destruct (is_push i); cbn [obind assert_].
    + rw add_ok; [lia|]. cbn [obind]. rw add_ok; [lia|]. cbn [obind]. f_equal. lia.
    + rw add_ok; [lia|]. cbn [obind]. by rw Z.add_0_r.
Qed.

Lemma find_loop_done {E} fuel code q d :
  zlen code <= q -> find_loop (E := E) fuel code q d = Ok d.
Proof. intros. destruct fuel; cbn [find_loop]; by rw (proj2 (Z.ltb_ge _ _)). Qed.

(** With [fuel] at least the remaining length, the loop ends and adds
    exactly the targets from [q] on. *)
Lemma find_loop_spec {E} fuel code q d :
  zlen code < 2 ^ 63 -> 0 <= q -> zlen code - q <= Z.of_nat fuel ->
  exists d', find_loop (E := E) fuel code q d = Ok d' /\
    forall p, p ∈ d' <-> p ∈ d \/ (starts_from code q p /\ code !! Z.to_nat p = Some Op.JUMPDEST).
Proof.
  intros Hlen. revert q d. induction fuel as [|fuel IH]; intros q d Hq Hf.
  all: destruct (Z.lt_ge_cases q (zlen code)) as [Hlt|Hge]; [|exists d; split;
    [by apply find_loop_done|]; intros p; split; [by left|]; intros [?|[Hs Hp]]; [done|];
    apply starts_from_ge in Hs; apply lookup_lt_Some in Hp; unfold zlen in *; lia].
  { lia. }
  destruct (lookup_lt_is_Some_2 code (Z.to_nat q)) as [i Hi]; [unfold zlen in *; lia|].
  pose proof (next_position_gt i q). rw (find_loop_step _ _ _ _ i); [done..|].
  destruct (IH (next_position i q) (if i =? Op.JUMPDEST then {[q]} ∪ d else d))
    as (d' & -> & Hd'); [lia|lia|].
  exists d'. split; [done|]. intros p. rw Hd'. clear Hd' IH. split.
  - intros [Hp|[Hs Hp]]; [|right; split; [by eapply next_position_start|done]].
    destruct (Z.eqb_spec i Op.JUMPDEST) as [->|]; [|by left].
    apply elem_of_union in Hp as [->%elem_of_singleton|]; [|by left].
    right. split; [constructor|done].
  - intros [Hp|[Hs Hp]].
    + left. destruct (i =? Op.JUMPDEST); [|done]. set_solver.
    + destruct (starts_from_step _ _ i _ Hi Hs) as [->|]; [|by right].
      left. replace i with Op.JUMPDEST by congruence. rw Z.eqb_refl. set_solver.
Qed.

Lemma find_jump_destinations_total {E} code :
  zlen code < 2 ^ 63 -> exists d, find_jump_destinations (E := E) code = Ok d /\
    forall p, p ∈ d <-> jump_target code p.
Proof.
  intros Hlen. destruct (find_loop_spec (E := E) (length code) code 0 ∅) as (d & Hd & Hp);
    [done|done|rw /zlen; lia|].
  exists d. split; [done|]. intros p. rw Hp /jump_target starts_from_0. set_solver.
Qed.

(** ** The cache *)
Section cache.
  Context {L : Type} {HL : LruCache BitSet L} {HLok : LruCacheOk BitSet L}.
  (** The code hash function, and the hash of the empty byte string. *)
  Context (crypt_hash : bytes -> H256) (HASH_EMPTY : H256).

Definition jump_destinations (code_hash : H256) (code : bytes) (cache : L)
    : outcome Error BitSet * L :=
  if code_hash =? HASH_EMPTY then (find_jump_destinations code, cache)
  else
    match lru_get code_hash cache with
    | (Some d, cache) => (Ok d, cache)
    | (None, cache) =>
        match find_jump_destinations code with
        | Ok d => (Ok d, lru_insert code_hash d cache)
        | r => (r, cache)
        end
    end.

(** Every entry is the scan result of some code with that hash. *)
Definition cache_ok (cache : L) : Prop :=
  forall h d, (h, d) ∈ lru_items cache ->
    exists code, crypt_hash code = h /\ zlen code < 2 ^ 63 /\
      find_jump_destinations (E := Error) code = Ok d.

(** Looking up through a coherent cache gives a scan result and keeps the
    cache coherent. *)
Lemma jump_destinations_total code cache :
  cache_ok cache -> zlen code < 2 ^ 63 ->
  exists d cache' code', jump_destinations (crypt_hash code) code cache = (Ok d, cache') /\
    cache_ok cache' /\ crypt_hash code' = crypt_hash code /\ zlen code' < 2 ^ 63 /\
    find_jump_destinations (E := Error) code' = Ok d.
Proof using HLok.
  intros Hc Hlen. destruct (find_jump_destinations_total (E := Error) code Hlen) as (d & Hd & _).
  rw /jump_destinations. destruct (crypt_hash code =? HASH_EMPTY).
  { exists d, cache, code. by rw Hd. }
  pose proof (lru_get_some (crypt_hash code) cache) as Hsome.
  pose proof (lru_get_items (crypt_hash code) cache) as Hitems.
  destruct (lru_get (crypt_hash code) cache) as [[e|] c']; cbn [fst snd] in *.
  - destruct (Hc _ _ (Hsome e eq_refl)) as (code' & Hh & Hl & Hf).
    exists e, c', code'. split; [done|]. split; [|done]. intros h d' Hin. by apply Hc, Hitems.
  - rw Hd. exists d, (lru_insert (crypt_hash code) d c'), code. split; [done|]. split; [|done].
    intros h d' [[-> ->]|[_ Hin]]%lru_insert_items; [by exists code|]. by apply Hc, Hitems.
Qed.
End cache.

End SharedCache.
