(* ===== verification/Gasometer.v ===== *)
(** * Gas metering

    [cita-executor/core/src/evm/interpreter/gasometer.rs]: the price of each
    instruction and the memory growth it needs, computed before the
    instruction runs. *)

From S2P Require Import Prelude Instructions Schedule Evm Stack.
From stdpp Require Import base list strings.
Local Open Scope Z_scope.
Local Open Scope cita_scope.

(** The macro [overflowing!]. *)
Definition overflowing_ (x : Z * bool) : outcome Error Z :=
  let '(v, overflow) := x in if overflow then Err OutOfGas else Ok v.

(** [u256_to_address]: the last 20 bytes of the word. *)
Definition u256_to_address (value : Z) : Address := wrap 160 value.

(** [U256::bits]. *)
Definition bits (x : Z) : Z := if x =? 0 then 0 else Z.log2 x + 1.

Inductive Request : Set :=
| RGas (gas : Z)
| RGasMem (gas mem_size : Z)
| RGasMemProvide (gas mem_size : Z) (requested : option U256)
| RGasMemCopy (gas mem_size copy : Z).

Record InstructionRequirements : Set := {
  gas_cost : Z;
  provide_gas : option Z;
  memory_total_gas : Z;
  memory_required_size : Z;
}.

Module Gasometer.
Record t : Set := mk {
  current_gas : Z;
  current_mem_gas : Z;
}.

Section metering.
  Context (W : Z) {HC : CostType W} {X : Type} {HX : Externalities X}.

Definition new (current_gas : Z) : t := {| current_gas := current_gas; current_mem_gas := 0 |}.

Definition verify_gas (g : t) (gas_cost : Z) : outcome Error unit :=
  if current_gas g <? gas_cost then Err OutOfGas else Ok tt.

Definition gas_provided (g : t) (schedule : Schedule.t) (needed : Z) (requested : option U256)
    : outcome Error Z :=
  let requested := from_u256 W <$> requested in
  let otherwise :=
    match requested with
    | Some r => r
    | None => if needed <=? current_gas g then sub_ (current_gas g) needed else Ok 0
    end in
  match Schedule.sub_gas_cap_divisor schedule with
  | Some cap_divisor =>
      if needed <=? current_gas g then
        gas_remaining <- sub_ (current_gas g) needed ;;
        max_gas_provided <-
          (if cap_divisor =? 64 then sub_ gas_remaining (Z.shiftr gas_remaining 6)
           else _ <- assert_ (negb (cap_divisor =? 0)) ;;
                sub_ gas_remaining (gas_remaining / cap_divisor)) ;;
        match requested with
        | Some (Ok r) => Ok (Z.min r max_gas_provided)
        | _ => Ok max_gas_provided
        end
      else otherwise
  | None => otherwise
  end.

Definition mem_needed_const (mem add : Z) : outcome Error Z :=
  v <- overflowing_ (overflowing_add 256 mem add) ;;
  from_u256 W v.

Definition mem_needed (offset size : Z) : outcome Error Z :=
  if size =? 0 then Ok 0
  else
    v <- overflowing_ (overflowing_add 256 offset size) ;;
    from_u256 W v.

Definition add_gas_usize (value num : Z) : Z * bool := overflow_add W value num.

(** The closure [gas_for_mem] of [mem_gas_cost]. *)
Definition gas_for_mem (schedule : Schedule.t) (mem_size : Z) : outcome Error Z :=
  let s := Z.shiftr mem_size 5 in
  a <- overflowing_ (overflow_mul W s (Schedule.memory_gas schedule)) ;;
  _ <- assert_ (Schedule.quad_coeff_div schedule =? 512) ;;
  b <- overflowing_ (overflow_mul_shr W s s 9) ;;
  overflowing_ (overflow_add W a b).

Definition mem_gas_cost (g : t) (schedule : Schedule.t) (current_mem_size mem_size : Z)
    : outcome Error (Z * Z * Z) :=
  r <- overflowing_ (overflow_add W mem_size 31) ;;
  let req_mem_size_rounded := wrap W (Z.shiftl (Z.shiftr r 5) 5) in
  let* (mem_gas_cost, new_mem_gas) :=
    if current_mem_size <? req_mem_size_rounded then
      new_mem_gas <- gas_for_mem schedule req_mem_size_rounded ;;
      cost <- sub_ new_mem_gas (current_mem_gas g) ;;
      Ok (cost, new_mem_gas)
    else Ok (0, current_mem_gas g) in
  size <- as_usize W req_mem_size_rounded ;;
  Ok (mem_gas_cost, new_mem_gas, size).

(** The first half of [requirements]: what the instruction asks for. *)
Definition request (instruction : Instruction) (default_gas : Z) (stack : VecStack.t Z)
    : M Error X Request :=
  schedule <~ sgets schedule ;;
  let peek n := slift (VecStack.peek stack n) in
  if instruction =? Op.JUMPDEST then sret (RGas 1)
  else if instruction =? Op.SSTORE then
    address <~ peek 0 ;;
    newval <~ peek 1 ;;
    val <~ smap_err Error_from (storage_at address) ;;
    sret (RGas (if (val =? 0) && negb (newval =? 0)
                then Schedule.sstore_set_gas schedule
                else Schedule.sstore_reset_gas schedule))
  else if instruction =? Op.SLOAD then sret (RGas (Schedule.sload_gas schedule))
  else if instruction =? Op.BALANCE then sret (RGas (Schedule.balance_gas schedule))
  else if instruction =? Op.EXTCODESIZE then sret (RGas (Schedule.extcodesize_gas schedule))
  else if instruction =? Op.SUICIDE then
    let gas := Schedule.suicide_gas schedule in
    balance <~ smap_err Error_from origin_balance ;;
    let is_value_transfer := negb (balance =? 0) in
    address <~ peek 0 ;;
    let address := u256_to_address address in
    creates <~
      (if negb (Schedule.no_empty schedule)
       then e <~ smap_err Error_from (exists_ address) ;; sret (negb e)
       else if is_value_transfer
       then e <~ smap_err Error_from (exists_and_not_null address) ;; sret (negb e)
       else sret false) ;;
    gas <~ (if creates
            then slift (overflowing_ (overflow_add W gas (Schedule.suicide_to_new_account_cost schedule)))
            else sret gas) ;;
    sret (RGas gas)
  else if (instruction =? Op.MSTORE) || (instruction =? Op.MLOAD) then
    offset <~ peek 0 ;;
    mem <~ slift (mem_needed_const offset 32) ;;
    sret (RGasMem default_gas mem)
  else if instruction =? Op.MSTORE8 then
    offset <~ peek 0 ;;
    mem <~ slift (mem_needed_const offset 1) ;;
    sret (RGasMem default_gas mem)
  else if instruction =? Op.RETURN then
    offset <~ peek 0 ;;
    size <~ peek 1 ;;
    mem <~ slift (mem_needed offset size) ;;
    sret (RGasMem default_gas mem)
  else if instruction =? Op.SHA3 then
    offset <~ peek 0 ;;
    size <~ peek 1 ;;
    n <~ slift (from_u256 W size) ;;
    w <~ slift (overflowing_ (add_gas_usize n 31)) ;;
    let words := Z.shiftr w 5 in
    word_gas <~ slift (mul_ W (Schedule.sha3_word_gas schedule) words) ;;
    gas <~ slift (add_ W (Schedule.sha3_gas schedule) word_gas) ;;
    mem <~ slift (mem_needed offset size) ;;
    sret (RGasMem gas mem)
  else if (instruction =? Op.CALLDATACOPY) || (instruction =? Op.CODECOPY) then
    offset <~ peek 0 ;;
    size <~ peek 2 ;;
    mem <~ slift (mem_needed offset size) ;;
    copy <~ slift (from_u256 W size) ;;
    sret (RGasMemCopy default_gas mem copy)
  else if instruction =? Op.EXTCODECOPY then
    offset <~ peek 1 ;;
    size <~ peek 3 ;;
    mem <~ slift (mem_needed offset size) ;;
    copy <~ slift (from_u256 W size) ;;
    sret (RGasMemCopy (Schedule.extcodecopy_base_gas schedule) mem copy)
  else if (Op.LOG0 <=? instruction) && (instruction <=? Op.LOG4) then
    no_of_topics <~ slift (get_log_topics instruction) ;;
    topics_gas <~ slift (mul_ 64 (Schedule.log_topic_gas schedule) no_of_topics) ;;
    log_gas <~ slift (add_ 64 (Schedule.log_gas schedule) topics_gas) ;;
    offset <~ peek 0 ;;
    size <~ peek 1 ;;
    n <~ slift (from_u256 W size) ;;
    data_gas <~ slift (overflowing_ (overflow_mul W n (Schedule.log_data_gas schedule))) ;;
    gas <~ slift (overflowing_ (overflow_add W data_gas log_gas)) ;;
    mem <~ slift (mem_needed offset size) ;;
    sret (RGasMem gas mem)
  else if (instruction =? Op.CALL) || (instruction =? Op.CALLCODE) then
    let gas := Schedule.call_gas schedule in
    out_off <~ peek 5 ;;
    out_size <~ peek 6 ;;
    out_mem <~ slift (mem_needed out_off out_size) ;;
    in_off <~ peek 3 ;;
    in_size <~ peek 4 ;;
    in_mem <~ slift (mem_needed in_off in_size) ;;
    let mem := Z.max out_mem in_mem in
    address <~ peek 1 ;;
    let address := u256_to_address address in
    value <~ peek 2 ;;
    let is_value_transfer := negb (value =? 0) in
    creates <~
      (if instruction =? Op.CALL then
         if negb (Schedule.no_empty schedule)
         then e <~ smap_err Error_from (exists_ address) ;; sret (negb e)
         else if is_value_transfer
         then e <~ smap_err Error_from (exists_and_not_null address) ;; sret (negb e)
         else sret false
       else sret false) ;;
    gas <~ (if creates
            then slift (overflowing_ (overflow_add W gas (Schedule.call_new_account_gas schedule)))
            else sret gas) ;;
    gas <~ (if is_value_transfer
            then slift (overflowing_ (overflow_add W gas (Schedule.call_value_transfer_gas schedule)))
            else sret gas) ;;
    requested <~ peek 0 ;;
    sret (RGasMemProvide gas mem (Some requested))
  else if instruction =? Op.DELEGATECALL then
    let gas := Schedule.call_gas schedule in
    out_off <~ peek 4 ;;
    out_size <~ peek 5 ;;
    out_mem <~ slift (mem_needed out_off out_size) ;;
    in_off <~ peek 2 ;;
    in_size <~ peek 3 ;;
    in_mem <~ slift (mem_needed in_off in_size) ;;
    let mem := Z.max out_mem in_mem in
    requested <~ peek 0 ;;
    sret (RGasMemProvide gas mem (Some requested))
  else if instruction =? Op.CREATE then
    let gas := Schedule.create_gas schedule in
    offset <~ peek 1 ;;
    size <~ peek 2 ;;
    mem <~ slift (mem_needed offset size) ;;
    sret (RGasMemProvide gas mem None)
  else if instruction =? Op.EXP then
    expon <~ peek 1 ;;
    let bytes := (bits expon + 7) / 8 in
    byte_gas <~ slift (mul_ 64 (Schedule.exp_byte_gas schedule) bytes) ;;
    gas <~ slift (add_ 64 (Schedule.exp_gas schedule) byte_gas) ;;
    sret (RGas gas)
  else sret (RGas default_gas).

(** The second half: the request together with the cost of the memory. *)
Definition settle (g : t) (schedule : Schedule.t) (current_mem_size : Z) (cost : Request)
    : outcome Error InstructionRequirements :=
  match cost with
  | RGas gas =>
      Ok {| gas_cost := gas; provide_gas := None; memory_required_size := 0;
            memory_total_gas := current_mem_gas g |}
  | RGasMem gas mem_size =>
      let* (mem_gas_cost, new_mem_gas, new_mem_size) :=
        mem_gas_cost g schedule current_mem_size mem_size in
      gas <- overflowing_ (overflow_add W gas mem_gas_cost) ;;
      Ok {| gas_cost := gas; provide_gas := None; memory_required_size := new_mem_size;
            memory_total_gas := new_mem_gas |}
  | RGasMemProvide gas mem_size requested =>
      let* (mem_gas_cost, new_mem_gas, new_mem_size) :=
        mem_gas_cost g schedule current_mem_size mem_size in
      gas <- overflowing_ (overflow_add W gas mem_gas_cost) ;;
      provided <- gas_provided g schedule gas requested ;;
      total_gas <- overflowing_ (overflow_add W gas provided) ;;
      Ok {| gas_cost := total_gas; provide_gas := Some provided;
            memory_required_size := new_mem_size; memory_total_gas := new_mem_gas |}
  | RGasMemCopy gas mem_size copy =>
      let* (mem_gas_cost, new_mem_gas, new_mem_size) :=
        mem_gas_cost g schedule current_mem_size mem_size in
      c <- overflowing_ (add_gas_usize copy 31) ;;
      let copy := Z.shiftr c 5 in
      copy_gas <- mul_ W (Schedule.copy_gas schedule) copy ;;
      gas <- overflowing_ (overflow_add W gas copy_gas) ;;
      gas <- overflowing_ (overflow_add W gas mem_gas_cost) ;;
      Ok {| gas_cost := gas; provide_gas := None; memory_required_size := new_mem_size;
            memory_total_gas := new_mem_gas |}
  end.

Definition requirements (g : t) (instruction : Instruction) (info : InstructionInfo.t)
    (stack : VecStack.t Z) (current_mem_size : Z) : M Error X InstructionRequirements :=
  schedule <~ sgets schedule ;;
  let tier := get_tier_idx (InstructionInfo.tier info) in
  default_gas <~ slift (index (Schedule.tier_step_gas schedule) tier) ;;
  cost <~ request instruction default_gas stack ;;
  slift (settle g schedule current_mem_size cost).
End metering.
End Gasometer.
