(* ===== verification/GasometerSpec.v ===== *)
(** * What gas metering guarantees

    The price of memory in closed form, the ranges of memory each
    instruction touches, and the specification of
    [Gasometer::requirements]. *)

From S2P Require Import Prelude Instructions Schedule Evm Stack Gasometer.
From stdpp Require Import base list strings.
Local Open Scope Z_scope.
Local Open Scope cita_scope.
Import Gasometer.

(** ** Specification vocabulary *)

(** Total price of a memory of [n] bytes. *)
Definition mem_fee (s : Schedule.t) (n : Z) : Z :=
  (n / 32) * Schedule.memory_gas s + (n / 32) * (n / 32) / 512.

(** The [n]-th operand, counted from the top of the stack. *)
Definition arg (l : list Z) (n : nat) : Z := nth n l 0.

(** The memory ranges (offset, length) the instruction reads or writes. *)
Definition accesses (i : Instruction) (l : list Z) : list (Z * Z) :=
  if (i =? Op.MSTORE) || (i =? Op.MLOAD) then [(arg l 0, 32)]
  else if i =? Op.MSTORE8 then [(arg l 0, 1)]
  else if (i =? Op.RETURN) || (i =? Op.SHA3) || ((Op.LOG0 <=? i) && (i <=? Op.LOG4))
  then [(arg l 0, arg l 1)]
  else if (i =? Op.CALLDATACOPY) || (i =? Op.CODECOPY) then [(arg l 0, arg l 2)]
  else if i =? Op.EXTCODECOPY then [(arg l 1, arg l 3)]
  else if (i =? Op.CALL) || (i =? Op.CALLCODE) then [(arg l 5, arg l 6); (arg l 3, arg l 4)]
  else if i =? Op.DELEGATECALL then [(arg l 4, arg l 5); (arg l 2, arg l 3)]
  else if i =? Op.CREATE then [(arg l 1, arg l 2)]
  else [].

Definition covers (i : Instruction) (l : list Z) (m : Z) : Prop :=
  Forall (fun a => a.2 <> 0 -> a.1 + a.2 <= m) (accesses i l).

(** Instructions that hand gas to another execution. *)
Definition gives_gas (i : Instruction) : bool :=
  (i =? Op.CALL) || (i =? Op.CALLCODE) || (i =? Op.DELEGATECALL) || (i =? Op.CREATE).

(** Instructions after which the loop does not continue. *)
Definition halts (i : Instruction) : bool :=
  (i =? Op.STOP) || (i =? Op.RETURN) || (i =? Op.SUICIDE).

(** A lower bound on the price, not counting the gas handed on. *)
Definition min_cost (s : Schedule.t) (i : Instruction) (l : list Z) : Z :=
  if halts i then 0
  else if ((i =? Op.CALL) || (i =? Op.CALLCODE)) && negb (arg l 2 =? 0)
  then Schedule.call_value_transfer_gas s + 1
  else 1.

Lemma min_cost_nonneg s i l : Schedule.ok s -> 0 <= min_cost s i l.
Proof.
  intros Hs. price Hs (Schedule.call_value_transfer_gas s). rw /min_cost. repeat case_match; lia.
Qed.

Lemma min_cost_pos s i l : Schedule.ok s -> halts i = false -> 1 <= min_cost s i l.
Proof.
  intros Hs Hh. price Hs (Schedule.call_value_transfer_gas s). rw /min_cost Hh. case_match; lia.
Qed.

(** The static table: an instruction priced by its tier alone is not free
    unless it stops the machine. *)
Definition special_price (i : Instruction) : bool :=
  existsb (Z.eqb i)
    [Op.JUMPDEST; Op.SSTORE; Op.SLOAD; Op.BALANCE; Op.EXTCODESIZE; Op.SUICIDE; Op.SHA3;
     Op.EXTCODECOPY; Op.LOG0; Op.LOG1; Op.LOG2; Op.LOG3; Op.LOG4; Op.CALL; Op.CALLCODE;
     Op.DELEGATECALL; Op.CREATE; Op.EXP].

Definition tier_ok (i : Instruction) : bool :=
  match InstructionInfo.tier (info_of i) with
  | GasPriceTier.Special => special_price i
  | GasPriceTier.Zero => halts i
  | _ => true
  end.

Lemma table_tiers i : 0 <= i < 256 -> tier_ok i = true.
Proof. apply byte_forall. by vm_compute. Qed.

Lemma fits_0 w : 0 <= w -> fits w 0.
Proof. intros. split; [done|]. by apply pow2_pos. Qed.

Lemma mem_fee_mono s a b :
  0 <= Schedule.memory_gas s -> 0 <= a <= b -> mem_fee s a <= mem_fee s b.
Proof.
  intros Hm Hab. rw /mem_fee. assert (0 <= a / 32 <= b / 32) as Hd.
  { split; [apply Z.div_pos; lia|apply Z.div_le_mono; lia]. }
  apply Z.add_le_mono; [nia|]. apply Z.div_le_mono; [lia|nia].
Qed.

(** Memory that has been paid for with 64-bit gas is small. *)
Lemma mem_fee_bound s c : Schedule.ok s -> 0 <= c -> mem_fee s c < 2 ^ 64 -> c < 2 ^ 42.
Proof.
  intros Hs Hc Hfee. price Hs (Schedule.memory_gas s). destruct (Z.lt_ge_cases c (2 ^ 42)); [done|].
  assert (Hd : 2 ^ 37 <= c / 32) by (apply Z.div_le_lower_bound; lia).
  assert (Hq : 2 ^ 65 <= c / 32 * (c / 32) / 512) by (apply Z.div_le_lower_bound; nia).
  rw /mem_fee in Hfee. nia.
Qed.

Section spec.
  Context (W : Z) {HC : CostType W} {HCok : CostTypeOk W}.

(** ** Arithmetic of the gas meter *)
Lemma width_pow : 2 ^ 64 <= 2 ^ W.
Proof using HCok. apply Z.pow_le_mono_r; [lia|]. apply cost_width. Qed.

Lemma owp_overflow_add a b Q (R : Error -> Prop) :
  0 <= a + b -> (a + b < 2 ^ W -> Q (a + b)) -> R OutOfGas ->
  owp (overflowing_ (overflow_add W a b)) Q R.
Proof using HCok.
  intros Hab HQ HR. rw overflow_add_spec /overflowing_add /overflowing_.
  destruct (Z.leb_spec (2 ^ W) (a + b)); [done|]. rw /owp wrap_small; [done|]. by apply HQ.
Qed.

Lemma owp_overflow_mul a b Q (R : Error -> Prop) :
  0 <= a * b -> (a * b < 2 ^ W -> Q (a * b)) -> R OutOfGas ->
  owp (overflowing_ (overflow_mul W a b)) Q R.
Proof using HCok.
  intros Hab HQ HR. rw overflow_mul_spec /overflowing_mul /overflowing_.
  destruct (Z.leb_spec (2 ^ W) (a * b)); [done|]. rw /owp wrap_small; [done|]. by apply HQ.
Qed.

Lemma owp_from_u256 v (Q : Z -> Prop) (R : Error -> Prop) :
  fits 256 v -> (fits W v -> Q v) -> R OutOfGas -> owp (from_u256 W v) Q R.
Proof using HCok.
  intros Hv HQ HR. rw from_u256_spec; [done|]. destruct (Z.ltb_spec v (2 ^ W)); [|done].
  apply HQ. by destruct Hv.
Qed.

Lemma owp_mem_needed off n (Q : Z -> Prop) (R : Error -> Prop) :
  fits 256 off -> fits 256 n ->
  (forall m, fits W m -> (n <> 0 -> off + n <= m) -> Q m) -> R OutOfGas ->
  owp (mem_needed W off n) Q R.
Proof using HCok.
  intros [Ho1 Ho2] [Hn1 Hn2] HQ HR. rw /mem_needed. destruct (Z.eqb_spec n 0) as [->|].
  { apply HQ; [|lia]. apply fits_0. pose proof cost_width. lia. }
  apply owp_bind. rw /overflowing_add /overflowing_.
  destruct (Z.leb_spec (2 ^ 256) (off + n)); [done|]. cbn [owp].
  rw wrap_small; [split; lia|]. apply owp_from_u256; [split; lia| |done].
  intros. by apply HQ.
Qed.

Lemma owp_mem_needed_const off k (Q : Z -> Prop) (R : Error -> Prop) :
  fits 256 off -> 0 <= k < 2 ^ 32 ->
  (forall m, fits W m -> off + k <= m -> Q m) -> R OutOfGas ->
  owp (mem_needed_const W off k) Q R.
Proof using HCok.
  intros [Ho1 Ho2] Hk HQ HR. rw /mem_needed_const.
  apply owp_bind. rw /overflowing_add /overflowing_.
  destruct (Z.leb_spec (2 ^ 256) (off + k)); [done|]. cbn [owp].
  rw wrap_small; [split; lia|]. apply owp_from_u256; [split; lia| |done].
  intros. by apply HQ.
Qed.

(** [gas_for_mem] is [mem_fee], or reports exhaustion. *)
Lemma owp_gas_for_mem s n (Q : Z -> Prop) (R : Error -> Prop) :
  Schedule.ok s -> fits W n ->
  (mem_fee s n < 2 ^ W -> Q (mem_fee s n)) -> R OutOfGas ->
  owp (gas_for_mem W s n) Q R.
Proof using HCok.
  intros Hs [Hn1 Hn2] HQ HR. rw /gas_for_mem shiftr_div; [done|]. change (2 ^ 5) with 32.
  assert (0 <= n / 32 <= n) as Hd.
  { split; [apply Z.div_pos; lia|]. apply Z.div_le_upper_bound; lia. }
  price Hs (Schedule.memory_gas s).
  apply owp_bind, owp_overflow_mul; [nia| |done]. intros Hm.
  apply owp_bind, owp_assert. { apply Z.eqb_eq. apply (Schedule.ok_quad s Hs). }
  apply owp_bind. rw overflow_mul_shr_spec; [split; lia|split; lia|done|].
  rw /overflowing_. destruct (Z.leb_spec (2 ^ W) (n / 32 * (n / 32))) as [|Hq]; [done|].
  cbn [owp]. rw shiftr_div; [done|]. change (2 ^ 9) with 512.
  assert (0 <= n / 32 * (n / 32) / 512 <= n / 32 * (n / 32)).
  { split; [apply Z.div_pos; nia|]. apply Z.div_le_upper_bound; nia. }
  rw wrap_small; [split; lia|]. apply owp_overflow_add; [nia|done|done].
Qed.

(** The meter is in step with a memory of [c] bytes. *)
Definition meter_ok (s : Schedule.t) (g : t) (c : Z) : Prop :=
  fits W (current_gas g) /\ current_mem_gas g = mem_fee s c /\ c mod 32 = 0 /\ fits 64 c /\
  mem_fee s c < 2 ^ W.

Lemma round_up_32 m : 0 <= m -> (m + 31) / 32 * 32 mod 32 = 0 /\ m <= (m + 31) / 32 * 32 <= m + 31.
Proof using.
  intros. split; [by apply Z.mod_mul|]. pose proof (Z.div_mod (m + 31) 32 ltac:(lia)).
  pose proof (Z.mod_pos_bound (m + 31) 32 ltac:(lia)). lia.
Qed.

(** The price of growing memory is the difference of the fees. *)
Lemma owp_mem_gas_cost s g c m (Q : Z * Z * Z -> Prop) (R : Error -> Prop) :
  Schedule.ok s -> meter_ok s g c -> fits W m -> (forall x, fits W x -> as_usize W x = Ok x) ->
  (forall size, size = (m + 31) / 32 * 32 -> size mod 32 = 0 -> m <= size < 2 ^ W ->
    mem_fee s (Z.max c size) < 2 ^ W -> mem_fee s (Z.max c size) - mem_fee s c < 2 ^ W ->
    Q (mem_fee s (Z.max c size) - mem_fee s c, mem_fee s (Z.max c size), size)) ->
  R OutOfGas -> owp (mem_gas_cost W g s c m) Q R.
Proof using HCok.
  intros Hs (Hg & Hfee & Hc & Hc64 & Hcfee) [Hm1 Hm2] Hnarrow HQ HR. rw /mem_gas_cost.
  apply owp_bind, owp_overflow_add; [lia| |done]. intros Hr. rw shiftr_div; [done|].
  rw Z.shiftl_mul_pow2; [done|]. change (2 ^ 5) with 32.
  destruct (round_up_32 m Hm1) as [Hmod Hup]. rw wrap_small; [split; lia|].
  set (size := (m + 31) / 32 * 32) in *. price Hs (Schedule.memory_gas s). apply owp_bind.
  destruct (Z.ltb_spec c size) as [Hlt|Hge].
  - apply owp_bind, owp_gas_for_mem; [done|split; lia| |done]. intros Hfit.
    pose proof (mem_fee_mono s c size ltac:(lia) ltac:(destruct Hc64; lia)).
    rw Hfee sub_ok; [lia|]. cbn [obind owp]. apply owp_bind.
    rw Hnarrow; [split; lia|]. cbn [owp]. specialize (HQ size eq_refl Hmod).
    rw Z.max_r in HQ; [lia|]. apply HQ; [lia|done|].
    assert (0 <= mem_fee s c); [|lia].
    rw /mem_fee. destruct Hc64. apply Z.add_nonneg_nonneg.
    + apply Z.mul_nonneg_nonneg; [apply Z.div_pos; lia|lia].
    + apply Z.div_pos; [|lia]. nia.
  - cbn [owp]. apply owp_bind. rw Hnarrow; [split; lia|]. cbn [owp].
    specialize (HQ size eq_refl Hmod). rw Z.max_l in HQ; [lia|]. rw Z.sub_diag -Hfee in HQ.
    apply HQ; [lia|by rw Hfee|]. apply pow2_pos. pose proof cost_width. lia.
Qed.

Lemma owp_gas_provided s g needed rq (Q : Z -> Prop) (R : Error -> Prop) :
  Schedule.ok s -> fits W (current_gas g) -> 0 <= needed ->
  match rq with Some r => fits 256 r | None => True end ->
  (forall p, fits W p -> Q p) -> R OutOfGas -> owp (gas_provided W g s needed rq) Q R.
Proof using HCok.
  intros Hs [Hg1 Hg2] Hn Hrq HQ HR. rw /gas_provided.
  assert (Hother : owp match from_u256 W <$> rq with
    | Some r => r
    | None => if needed <=? current_gas g then sub_ (current_gas g) needed else Ok 0 end Q R).
  { destruct rq as [r|]; simpl; [by apply owp_from_u256; [|intros; apply HQ|]|].
    destruct (Z.leb_spec needed (current_gas g)); [rw sub_ok; [done|]|]; apply HQ.
    - split; lia.
    - apply fits_0. pose proof cost_width. lia. }
  pose proof (Schedule.ok_cap s Hs) as Hcap.
  destruct (Schedule.sub_gas_cap_divisor s) as [d|]; [|done].
  destruct (Z.leb_spec needed (current_gas g)); [|done]. clear Hother.
  rw sub_ok; [done|]. cbn [obind]. set (rem := current_gas g - needed).
  assert (0 <= rem) by lia.
  assert (Hmax : owp (if d =? 64 then sub_ rem (Z.shiftr rem 6)
           else _ <- assert_ (negb (d =? 0)) ;; sub_ rem (rem / d)) (fits W) R).
  { destruct (Z.eqb_spec d 64) as [->|].
    - rw shiftr_div; [done|]. assert (0 <= rem / 2 ^ 6 <= rem).
      { split; [apply Z.div_pos; lia|]. apply Z.div_le_upper_bound; lia. }
      rw sub_ok; [lia|]. split; lia.
    - apply owp_bind, owp_assert. { apply negb_true_iff, Z.eqb_neq. lia. }
      assert (0 <= rem / d <= rem).
      { split; [apply Z.div_pos; lia|]. apply Z.div_le_upper_bound; nia. }
      rw sub_ok; [lia|]. split; lia. }
  apply owp_bind. eapply owp_conseq; [exact Hmax| |done]. intros p [Hp1 Hp2].
  destruct rq as [r|]; simpl; [|apply HQ; split; lia]. rw from_u256_spec; [done|].
  destruct Hrq. destruct (r <? 2 ^ W); apply HQ; split; lia.
Qed.

(** ** The two halves of [requirements] *)

(** What a request must satisfy for the instruction [i] on operands [l]. *)
Definition request_ok (s : Schedule.t) (i : Instruction) (l : list Z) (r : Request) : Prop :=
  match r with
  | RGas gas => fits W gas /\ min_cost s i l <= gas /\ accesses i l = [] /\ gives_gas i = false
  | RGasMem gas m =>
      fits W gas /\ fits W m /\ min_cost s i l <= gas /\ covers i l m /\ gives_gas i = false
  | RGasMemProvide gas m rq =>
      fits W gas /\ fits W m /\ min_cost s i l <= gas /\ covers i l m /\ gives_gas i = true /\
      match rq with Some r => fits 256 r | None => True end
  | RGasMemCopy gas m copy =>
      fits W gas /\ fits W m /\ min_cost s i l <= gas /\ covers i l m /\ gives_gas i = false /\
      fits W copy
  end.

(** What the interpreter may rely on. *)
Record requirements_ok (s : Schedule.t) (c : Z) (i : Instruction) (l : list Z)
    (r : InstructionRequirements) : Prop := {
  req_gas : fits W (gas_cost r);
  req_size : memory_required_size r mod 32 = 0 /\ fits W (memory_required_size r);
  req_total : memory_total_gas r = mem_fee s (Z.max c (memory_required_size r));
  req_fee : mem_fee s (Z.max c (memory_required_size r)) < 2 ^ W;
  req_covers : covers i l (memory_required_size r);
  req_provide :
    match provide_gas r with
    | Some p => gives_gas i = true /\ fits W p /\ min_cost s i l + p <= gas_cost r
    | None => gives_gas i = false /\ min_cost s i l <= gas_cost r
    end;
  (** the fee of the memory growth is part of the price *)
  req_growth : mem_fee s (Z.max c (memory_required_size r)) - mem_fee s c <= gas_cost r;
}.

Lemma covers_mono i l m n : m <= n -> covers i l m -> covers i l n.
Proof using.
  intros ? Hc. eapply Forall_impl; [exact Hc|]. intros a Ha ?. specialize (Ha ltac:(done)). lia.
Qed.

Lemma mem_fee_growth_nonneg s c n :
  Schedule.ok s -> 0 <= c -> 0 <= mem_fee s (Z.max c n) - mem_fee s c.
Proof using.
  intros Hs Hc. price Hs (Schedule.memory_gas s).
  pose proof (mem_fee_mono s c (Z.max c n) ltac:(lia) ltac:(lia)). lia.
Qed.

Lemma owp_settle s g c i l r (R : Error -> Prop) :
  Schedule.ok s -> meter_ok s g c -> (forall x, fits W x -> as_usize W x = Ok x) ->
  request_ok s i l r -> R OutOfGas ->
  owp (settle W g s c r) (requirements_ok s c i l) R.
Proof using HCok.
  intros Hs Hg Hnarrow Hr HR. pose proof Hg as (Hgas & Hfee & Hc & [Hc1 Hc2] & Hcfee).
  pose proof cost_width as Hw. assert (0 <= min_cost s i l).
  { price Hs (Schedule.call_value_transfer_gas s). rw /min_cost. repeat case_match; lia. }
  destruct r as [gas|gas m|gas m rq|gas m copy]; cbn [settle].
  - destruct Hr as (Hgas' & Hmin & Hacc & Hgives). cbn [owp]. split; simpl; try done.
    + split; [done|]. apply fits_0. lia.
    + by rw Z.max_l.
    + by rw Z.max_l.
    + rw /covers Hacc. constructor.
    + rw Z.max_l; [done|]. lia.
  - destruct Hr as ([Hgas1 Hgas2] & Hm & Hmin & Hcov & Hgives). apply owp_bind.
    apply owp_mem_gas_cost; [done..| |done]. intros size _ Hmod Hsize Hfit Hgrow.
    pose proof (mem_fee_growth_nonneg s c size Hs Hc1).
    apply owp_bind, owp_overflow_add; [lia| |done]. intros Hsum. cbn [owp].
    split; simpl; [split; lia|by split; [|destruct Hm; split; lia]|done|done| |split; [done|lia]|lia].
    apply (covers_mono i l m); [lia|done].
  - destruct Hr as ([Hgas1 Hgas2] & Hm & Hmin & Hcov & Hgives & Hrq). apply owp_bind.
    apply owp_mem_gas_cost; [done..| |done]. intros size _ Hmod Hsize Hfit Hgrow.
    pose proof (mem_fee_growth_nonneg s c size Hs Hc1).
    apply owp_bind, owp_overflow_add; [lia| |done]. intros Hsum.
    apply owp_bind, owp_gas_provided; [done|done|lia|done| |done]. intros p [Hp1 Hp2].
    apply owp_bind, owp_overflow_add; [lia| |done]. intros Hsum'. cbn [owp].
    split; simpl; [split; lia|by split; [|destruct Hm; split; lia]|done|done|
      |split; [done|split; [split; lia|lia]]|lia].
    apply (covers_mono i l m); [lia|done].
  - destruct Hr as ([Hgas1 Hgas2] & Hm & Hmin & Hcov & Hgives & [Hcopy1 Hcopy2]). apply owp_bind.
    apply owp_mem_gas_cost; [done..| |done]. intros size _ Hmod Hsize Hfit Hgrow.
    pose proof (mem_fee_growth_nonneg s c size Hs Hc1).
    apply owp_bind, owp_overflow_add; [lia| |done]. intros Hsum.
    rw shiftr_div; [done|]. change (2 ^ 5) with 32. price Hs (Schedule.copy_gas s).
    pose proof (Schedule.ok_word_prices s Hs).
    assert (0 <= (copy + 31) / 32 /\ 32 * ((copy + 31) / 32) <= copy + 31).
    { split; [apply Z.div_pos; lia|apply Z.mul_div_le; lia]. }
    generalize dependent ((copy + 31) / 32). intros w [Hw1 Hw2].
    pose proof (mul_bound (Schedule.copy_gas s) 31 w w ltac:(lia) ltac:(lia)).
    apply owp_bind. rw mul_ok; [lia|]. cbn [owp].
    apply owp_bind, owp_overflow_add; [lia| |done]. intros Hsum'.
    apply owp_bind, owp_overflow_add; [lia| |done]. intros Hsum''. cbn [owp].
    split; simpl; [split; lia|by split; [|destruct Hm; split; lia]|done|done| |split; [done|lia]|lia].
    apply (covers_mono i l m); [lia|done].
Qed.
End spec.

(** ** Operands on the stack *)
Section peek.
Context {X : Type}.

Lemma wp_peek (l g : list Z) k v (Q : Z -> X -> Prop) (R : Error -> X -> Prop) x :
  0 <= k -> l !! Z.to_nat k = Some v -> Q v x ->
  wp (slift (VecStack.peek (VecStack.of_top l g) k)) Q R x.
Proof. intros. rw (VecStack.peek_of_top l g k v); done. Qed.
End peek.

Section request.
  Context (W : Z) {HC : CostType W} {HCok : CostTypeOk W}.
  Context {X : Type} {HX : Externalities X} (I : Z -> X -> Prop) {HXok : ExternalitiesOk X I}.
  (** What is left of the environment's budget does not matter here. *)
  Context (bud : Z).

Lemma wp_ext {E A B} (c : M E X A) (P : A -> Prop) (f : E -> Error) (k : A -> M Error X B)
    (Q : B -> X -> Prop) (R : Error -> X -> Prop) x0 x :
  ext_method (I bud) c P -> ext_step (I bud) x0 x ->
  (forall a x', P a -> ext_step (I bud) x0 x' -> wp (k a) Q R x') ->
  (forall e x', ext_step (I bud) x0 x' -> R (f e) x') ->
  wp (sbind (smap_err f c) k) Q R x.
Proof using.
  intros Hc Hx HQ HR. apply wp_bind, wp_map_err. eapply wp_conseq; [apply Hc; apply Hx| |].
  - intros a x' [? ?]. apply HQ; [done|]. by eapply ext_step_trans.
  - intros e x' ?. apply HR. by eapply ext_step_trans.
Qed.

(** The specification of [request] for one instruction. *)
Definition request_spec (i : Instruction) : Prop :=
  forall s l g d x, I bud x -> schedule x = s -> Schedule.ok s -> Forall (fits 256) l ->
  InstructionInfo.args (info_of i) <= zlen l -> fits W d ->
  (special_price i = false -> halts i = false -> 1 <= d) ->
  wp (request W i d (VecStack.of_top l g))
    (fun r x' => request_ok W s i l r /\ ext_step (I bud) x x') (fun _ x' => ext_step (I bud) x x') x.

(** Enter the branch of a concrete instruction with named operands. *)
Ltac rq_open :=
  let s := fresh "s" in let l := fresh "l" in let g := fresh "g" in let d := fresh "d" in
  let x := fresh "x" in let Hs := fresh "Hs" in let Hl := fresh "Hl" in
  let Hargs := fresh "Hargs" in
  intros s l g d x Hx Hs Hsok Hl Hargs Hd Hdpos;
  assert (Hstep : ext_step (I bud) x x) by done;
  pose proof (width_pow W) as Hwp;
  rw /request; apply wp_bind, wp_gets; rw Hs; clear Hs; op_eval;
  eval_args Hargs; operands Hargs; operand_widths Hl.

Ltac rq_step :=
  lazymatch goal with
  | |- wp (if ?b then _ else _) _ _ _ => destruct b eqn:?
  | |- wp (sbind (if ?b then _ else _) _) _ _ _ => destruct b eqn:?
  | |- wp (sbind (slift (VecStack.peek _ _)) _) _ _ _ =>
      apply wp_bind; eapply wp_peek; [lia|reflexivity|]
  | |- wp (sbind (smap_err _ (storage_at _)) _) _ _ _ =>
      eapply wp_ext; [apply storage_at_ok|eassumption| |done]; intros
  | |- wp (sbind (smap_err _ (exists_ _)) _) _ _ _ =>
      eapply wp_ext; [apply exists_ok|eassumption| |done]; intros
  | |- wp (sbind (smap_err _ (exists_and_not_null _)) _) _ _ _ =>
      eapply wp_ext; [apply exists_and_not_null_ok|eassumption| |done]; intros
  | |- wp (sbind (smap_err _ origin_balance) _) _ _ _ =>
      eapply wp_ext; [apply origin_balance_ok|eassumption| |done]; intros
  | |- wp (sbind (slift (mem_needed _ _ _)) _) _ _ _ =>
      apply wp_bind, wp_lift, owp_mem_needed; [done|done|done| |done]; intros
  | |- wp (sbind (slift (mem_needed_const _ _ _)) _) _ _ _ =>
      apply wp_bind, wp_lift, owp_mem_needed_const; [done|done|done| |done]; intros
  | |- wp (sbind (slift (from_u256 _ _)) _) _ _ _ =>
      apply wp_bind, wp_lift, owp_from_u256; [done|done| |done]; intros
  | |- wp (sbind (slift (overflowing_ (overflow_mul _ _ _))) _) _ _ _ =>
      apply wp_bind, wp_lift, owp_overflow_mul;
      [done|apply Z.mul_nonneg_nonneg; unfold fits in *; lia| |done]; intros
  | |- wp (sbind (slift (overflowing_ _)) _) _ _ _ =>
      apply wp_bind, wp_lift, owp_overflow_add; [done|unfold fits in *; lia| |done]; intros
  | |- wp (sbind (slift _) _) _ _ _ => apply wp_bind, wp_lift; cbn [owp]
  | |- wp (sbind (sbind _ _) _) _ _ _ => apply wp_bind
  | |- wp (sbind (sret _) _) _ _ _ => apply wp_bind, wp_ret
  | |- wp (sbind _ _) _ _ _ => apply wp_bind
  | |- wp (sret _) _ _ _ => apply wp_ret
  end.

(** Conclude: the request covers the accesses and the minimal price. *)
Ltac rq_finish :=
  split; [|assumption];
  rw /request_ok /min_cost /halts /gives_gas /covers /accesses /arg; op_eval; cbn [nth];
  repeat match goal with
  | |- _ /\ _ => split
  | |- Forall _ _ => constructor; cbn [fst snd]
  end; try done;
  try match goal with H : _ -> _ -> 1 <= _ |- 1 <= _ => apply H; reflexivity end;
  try (unfold fits in *; lia);
  try (repeat case_match; zbool; unfold fits in *; lia).

Lemma request_JUMPDEST : request_spec Op.JUMPDEST.
Proof using HCok HXok. rq_open. rq_step. rq_finish. Qed.

Lemma request_SSTORE : request_spec Op.SSTORE.
Proof using HCok HXok.
  rq_open. step_price Hsok (Schedule.sstore_set_gas s).
  step_price Hsok (Schedule.sstore_reset_gas s). repeat rq_step; rq_finish.
Qed.

Lemma request_SLOAD : request_spec Op.SLOAD.
Proof using HCok HXok. rq_open. step_price Hsok (Schedule.sload_gas s). rq_step. rq_finish. Qed.

Lemma request_BALANCE : request_spec Op.BALANCE.
Proof using HCok HXok. rq_open. step_price Hsok (Schedule.balance_gas s). rq_step. rq_finish. Qed.

Lemma request_EXTCODESIZE : request_spec Op.EXTCODESIZE.
Proof using HCok HXok.
  rq_open. step_price Hsok (Schedule.extcodesize_gas s). rq_step. rq_finish.
Qed.

Lemma request_SUICIDE : request_spec Op.SUICIDE.
Proof using HCok HXok.
  rq_open. price Hsok (Schedule.suicide_gas s).
  price Hsok (Schedule.suicide_to_new_account_cost s). repeat rq_step; rq_finish.
Qed.

Lemma request_memory i :
  i = Op.MSTORE \/ i = Op.MLOAD \/ i = Op.MSTORE8 \/ i = Op.RETURN \/
  i = Op.CALLDATACOPY \/ i = Op.CODECOPY -> request_spec i.
Proof using HCok HXok.
  intros [->|[->|[->|[->|[->| ->]]]]]; rq_open; repeat rq_step; rq_finish.
Qed.

Lemma request_EXTCODECOPY : request_spec Op.EXTCODECOPY.
Proof using HCok HXok.
  rq_open. step_price Hsok (Schedule.extcodecopy_base_gas s). repeat rq_step; rq_finish.
Qed.

Lemma words_bound n : fits W n -> 0 <= (n + 31) / 32 /\ 32 * ((n + 31) / 32) <= n + 31.
Proof using. intros [? ?]. split; [apply Z.div_pos; lia|apply Z.mul_div_le; lia]. Qed.

Lemma request_SHA3 : request_spec Op.SHA3.
Proof using HCok HXok.
  rq_open. step_price Hsok (Schedule.sha3_gas s). price Hsok (Schedule.sha3_word_gas s).
  pose proof (Schedule.ok_word_prices s Hsok). repeat rq_step.
  rw shiftr_div; [done|]. change (2 ^ 5) with 32.
  destruct (words_bound x1 ltac:(assumption)) as [Hw1 Hw2].
  generalize dependent ((x1 + 31) / 32). intros w Hw1 Hw2.
  pose proof (mul_bound (Schedule.sha3_word_gas s) 31 w w ltac:(lia) ltac:(lia)).
  rw mul_ok; [lia|]. cbn [owp]. apply wp_bind, wp_lift. rw add_ok; [lia|]. cbn [owp].
  repeat rq_step; rq_finish.
Qed.

Lemma request_LOG i : (Op.LOG0 <=? i) && (i <=? Op.LOG4) = true -> request_spec i.
Proof using HCok HXok.
  intros Hlog. assert (i = Op.LOG0 \/ i = Op.LOG1 \/ i = Op.LOG2 \/ i = Op.LOG3 \/ i = Op.LOG4)
    as [->|[->|[->|[->| ->]]]].
  { zbool. rw /Op.LOG0 /Op.LOG1 /Op.LOG2 /Op.LOG3 /Op.LOG4 in H H0 |- *. lia. }
  all: rq_open; step_price Hsok (Schedule.log_gas s); price Hsok (Schedule.log_topic_gas s);
    price Hsok (Schedule.log_data_gas s); apply wp_bind, wp_lift;
    lazymatch goal with |- owp ?c _ _ => let v := eval vm_compute in c in change c with v end;
    cbn [owp]; apply wp_bind, wp_lift; (rw mul_ok; [lia|]); cbn [owp];
    apply wp_bind, wp_lift; (rw add_ok; [lia|]); cbn [owp]; repeat rq_step; rq_finish.
Qed.

Lemma request_CALL i : i = Op.CALL \/ i = Op.CALLCODE -> request_spec i.
Proof using HCok HXok.
  intros [->| ->]; rq_open; step_price Hsok (Schedule.call_gas s);
    price Hsok (Schedule.call_new_account_gas s);
    price Hsok (Schedule.call_value_transfer_gas s); repeat rq_step; rq_finish.
Qed.

Lemma request_DELEGATECALL : request_spec Op.DELEGATECALL.
Proof using HCok HXok.
  rq_open. step_price Hsok (Schedule.call_gas s). repeat rq_step; rq_finish.
Qed.

Lemma request_CREATE : request_spec Op.CREATE.
Proof using HCok HXok.
  rq_open. step_price Hsok (Schedule.create_gas s). repeat rq_step; rq_finish.
Qed.

Lemma bits_bound v : fits 256 v -> 0 <= (bits v + 7) / 8 <= 32.
Proof using.
  intros [? Hv]. rw /bits. destruct (Z.eqb_spec v 0); [by vm_compute|].
  pose proof (Z.log2_nonneg v). apply Z.log2_lt_pow2 in Hv; [|lia].
  split; [apply Z.div_pos; lia|]. apply Z.lt_succ_r, Z.div_lt_upper_bound; lia.
Qed.

Lemma request_EXP : request_spec Op.EXP.
Proof using HCok HXok.
  rq_open. step_price Hsok (Schedule.exp_gas s). price Hsok (Schedule.exp_byte_gas s).
  repeat rq_step. pose proof (mul_bound (Schedule.exp_byte_gas s) (2 ^ 32) _ 32 ltac:(lia)
    (bits_bound x1 ltac:(assumption))).
  rw mul_ok; [lia|]. cbn [owp]. apply wp_bind, wp_lift. rw add_ok; [lia|]. cbn [owp].
  repeat rq_step; rq_finish.
Qed.

(** Every other instruction costs its tier and touches no memory. *)
Ltac others :=
  repeat match goal with H : (_ =? _) = false |- _ => rw ?H; clear H end; cbn [orb andb negb].

Lemma wp_request i : request_spec i.
Proof using HCok HXok.
Local Ltac by_op lem := apply lem; zbool; tauto.
  destruct (i =? Op.JUMPDEST) eqn:H1; [zbool; subst i; apply request_JUMPDEST|].
  destruct (i =? Op.SSTORE) eqn:H2; [zbool; subst i; apply request_SSTORE|].
  destruct (i =? Op.SLOAD) eqn:H3; [zbool; subst i; apply request_SLOAD|].
  destruct (i =? Op.BALANCE) eqn:H4; [zbool; subst i; apply request_BALANCE|].
  destruct (i =? Op.EXTCODESIZE) eqn:H5; [zbool; subst i; apply request_EXTCODESIZE|].
  destruct (i =? Op.SUICIDE) eqn:H6; [zbool; subst i; apply request_SUICIDE|].
  destruct (i =? Op.MSTORE) eqn:H7; [by_op request_memory|].
  destruct (i =? Op.MLOAD) eqn:H8; [by_op request_memory|].
  destruct (i =? Op.MSTORE8) eqn:H9; [by_op request_memory|].
  destruct (i =? Op.RETURN) eqn:H10; [by_op request_memory|].
  destruct (i =? Op.CALLDATACOPY) eqn:H11; [by_op request_memory|].
  destruct (i =? Op.CODECOPY) eqn:H12; [by_op request_memory|].
  destruct (i =? Op.EXTCODECOPY) eqn:H13; [zbool; subst i; apply request_EXTCODECOPY|].
  destruct (i =? Op.SHA3) eqn:H14; [zbool; subst i; apply request_SHA3|].
  destruct ((Op.LOG0 <=? i) && (i <=? Op.LOG4)) eqn:H15; [by apply request_LOG|].
  destruct (i =? Op.CALL) eqn:H16; [by_op request_CALL|].
  destruct (i =? Op.CALLCODE) eqn:H17; [by_op request_CALL|].
  destruct (i =? Op.DELEGATECALL) eqn:H18; [zbool; subst i; apply request_DELEGATECALL|].
  destruct (i =? Op.CREATE) eqn:H19; [zbool; subst i; apply request_CREATE|].
  destruct (i =? Op.EXP) eqn:H20; [zbool; subst i; apply request_EXP|].
  intros s l g d x Hx Hs Hsok Hl Hargs Hd Hdpos. rw /request. apply wp_bind, wp_gets.
  assert (Hcheap : halts i = false -> 1 <= d).
  { intros Hh. apply Hdpos; [|done]. rw /special_price. cbn [existsb].
    assert (forall o, (Op.LOG0 <=? o) && (o <=? Op.LOG4) = true -> (i =? o) = false) as Hlog.
    { intros o Ho. apply Z.eqb_neq. intros ->. by rw Ho in H15. }
    rw (Hlog Op.LOG0 eq_refl) (Hlog Op.LOG1 eq_refl) (Hlog Op.LOG2 eq_refl).
    rw (Hlog Op.LOG3 eq_refl) (Hlog Op.LOG4 eq_refl). others. done. }
  move: Hcheap. rw /request_ok /min_cost /accesses /gives_gas /halts H15. others.
  intros Hcheap. apply wp_ret. split; [|done]. split_and!; try done.
  destruct (i =? Op.STOP); cbn [orb] in *; [by destruct Hd|by apply Hcheap].
Qed.

(** The price of a tier. *)
Lemma tier_gas s i : Schedule.ok s -> 0 <= i < 256 ->
  InstructionInfo.tier (info_of i) <> GasPriceTier.Invalid ->
  exists d, index (E := Error) (Schedule.tier_step_gas s)
      (get_tier_idx (InstructionInfo.tier (info_of i))) = Ok d /\
    fits W d /\ (special_price i = false -> halts i = false -> 1 <= d).
Proof using HCok.
  intros Hs Hi Hinv. pose proof (table_tiers i Hi) as Ht. rw /tier_ok in Ht.
  pose proof (width_pow W) as Hw.
  destruct (Schedule.ok_tiers s Hs) as (t0&t1&t2&t3&t4&t5&t6&t7&->&Hf&Hp).
  repeat match goal with H : Forall _ (_ :: _) |- _ => apply Forall_cons in H as [? H] end.
  destruct (InstructionInfo.tier (info_of i)); cbn [get_tier_idx]; try done; rw /index;
    (eexists; split; [reflexivity|split; [split; lia|intros; try lia; congruence]]).
Qed.

(** The specification of [requirements]. *)
Lemma wp_requirements s g i l logs c x :
  I bud x -> schedule x = s -> Forall (fits 256) l -> 0 <= i < 256 ->
  InstructionInfo.tier (info_of i) <> GasPriceTier.Invalid ->
  InstructionInfo.args (info_of i) <= zlen l ->
  meter_ok W s g c -> (forall y, fits W y -> as_usize W y = Ok y) ->
  wp (requirements W g i (info_of i) (VecStack.of_top l logs) c)
    (fun r x' => requirements_ok W s c i l r /\ ext_step (I bud) x x')
    (fun _ x' => ext_step (I bud) x x') x.
Proof using HCok HXok.
  intros Hx Hs Hl Hi Hinv Hargs Hg Hnarrow.
  assert (Hsok : Schedule.ok s) by (rw -Hs; by apply (schedule_ok (I := I) bud)).
  rw /requirements. apply wp_bind, wp_gets. rw Hs.
  destruct (tier_gas s i Hsok Hi Hinv) as (d & Hd & Hdf & Hdpos).
  apply wp_bind, wp_lift. rw Hd. cbn [owp]. apply wp_bind.
  eapply wp_conseq; [apply (wp_request i s l logs d x); assumption| |done].
  intros r x' [Hr Hstep].
  apply wp_lift. eapply (owp_conseq _ _ _ (fun _ => True)); [by eapply owp_settle| |done]. done.
Qed.
End request.
