(* ===== verification/Interpreter.v ===== *)
(** * The bytecode interpreter

    [cita-executor/core/src/evm/interpreter/mod.rs] and the choice of the
    cost type in [evm/factory.rs].  The machine state is the memory, the
    position of the code reader, the operand stack and the environment; code
    and call parameters are read-only. *)

From S2P Require Import Prelude Lru Instructions Schedule Evm Memory Stack SharedCache Gasometer.
From stdpp Require Import base gmap list strings.
Local Open Scope Z_scope.
Local Open Scope cita_scope.

(** ** Machine state *)
Record machine (X : Type) : Type := Machine {
  mem : bytes;
  position : Z;
  stack : VecStack.t Z;
  ext : X;
}.
Arguments Machine {X} _ _ _ _.
Arguments mem {X} _.
Arguments position {X} _.
Arguments stack {X} _.
Arguments ext {X} _.

Inductive InstructionResult : Set :=
| IOk
| UnusedGas (gas : Z)
| JumpToPosition (position : U256)
| StopExecutionNeedsReturn (gas : Z) (init_off init_size : U256)
| StopExecution.

(** The interpreter and the environment it runs in share one cache of jump
    destinations ([Arc<SharedCache>]): it is a part of the environment. *)
Class CacheStore (X L : Type) : Type := {
  the_cache : X -> L;
  put_cache : L -> X -> X;
}.

(** ** Words *)
Definition address_to_u256 (value : Address) : U256 := value.

Definition is_zero (val : U256) : bool := val =? 0.

Definition bool_to_u256 (val : bool) : U256 := if val then 1 else 0.

Definition set_sign (value : U256) (sign : bool) : U256 :=
  if sign then (overflowing_add 256 (Z.lxor (not_ 256 0) value) 1).1 else value.

Definition get_and_reset_sign (value : U256) : U256 * bool :=
  let sign := Z.testbit value 255 in
  (set_sign value sign, sign).

(** [U256::from(U512)] panics on a larger number. *)
Definition u256_from_u512 {E} (x : Z) : outcome E U256 := if x <? 2 ^ 256 then Ok x else Panic.

(** ** Instructions on the stack alone *)
Section stack_instructions.
Let SM := M Error (VecStack.t Z).

Definition spop : SM U256 := fun s =>
  match VecStack.pop_back s with
  | Ok (v, s') => (Ok v, s')
  | Err e => (Err e, s)
  | Panic => (Panic, s)
  end.

Definition spush (v : U256) : SM unit := smodify (fun s => VecStack.push s v).

Definition div_ (a b : U256) : U256 :=
  if negb (is_zero b) then
    if b =? 1 then a
    else if b =? 2 then Z.shiftr a 1
    else if b =? 0x20 then Z.shiftr a 5
    else if b =? 0x100 then Z.shiftr a 8
    else if b =? 0x10000 then Z.shiftr a 16
    else if b =? 0x1000000 then Z.shiftr a 24
    else if b =? 2 ^ 64 then Z.shiftr a 64
    else if b =? 2 ^ 96 then Z.shiftr a 96
    else if b =? 2 ^ 224 then Z.shiftr a 224
    else if b =? 2 ^ 248 then Z.shiftr a 248
    else a / b
  else 0.

Definition sdiv (ua ub : U256) : outcome Error U256 :=
  let '(a, sign_a) := get_and_reset_sign ua in
  let '(b, sign_b) := get_and_reset_sign ub in
  min <- sub_ (wrap 256 (Z.shiftl 1 255)) 1 ;;
  Ok (if is_zero b then 0
      else if (a =? min) && (b =? not_ 256 0) then min
      else let c := a / b in set_sign c (xorb sign_a sign_b)).

Definition smod (ua ub : U256) : U256 :=
  let '(a, sign_a) := get_and_reset_sign ua in
  let b := (get_and_reset_sign ub).1 in
  if negb (is_zero b) then let c := a mod b in set_sign c sign_a else 0.

Definition slt (ua ub : U256) : U256 :=
  let '(a, neg_a) := get_and_reset_sign ua in
  let '(b, neg_b) := get_and_reset_sign ub in
  let is_positive_lt := (a <? b) && negb (neg_a || neg_b) in
  let is_negative_lt := (b <? a) && (neg_a && neg_b) in
  let has_different_signs := neg_a && negb neg_b in
  bool_to_u256 (is_positive_lt || is_negative_lt || has_different_signs).

Definition sgt (ua ub : U256) : U256 :=
  let '(a, neg_a) := get_and_reset_sign ua in
  let '(b, neg_b) := get_and_reset_sign ub in
  let is_positive_gt := (b <? a) && negb (neg_a || neg_b) in
  let is_negative_gt := (a <? b) && (neg_a && neg_b) in
  let has_different_signs := negb neg_a && neg_b in
  bool_to_u256 (is_positive_gt || is_negative_gt || has_different_signs).

Definition byte (word val : U256) : outcome Error U256 :=
  if word <? 32 then
    k <- sub_ 31 (low_u64 word) ;;
    Ok (Z.land (Z.shiftr val (8 * k)) 0xff)
  else Ok 0.

Definition addmod (a b c : U256) : outcome Error U256 :=
  if negb (is_zero c) then
    let res := (overflowing_add 512 a b).1 in
    u256_from_u512 (res mod c)
  else Ok 0.

Definition mulmod (a b c : U256) : outcome Error U256 :=
  if negb (is_zero c) then
    let res := (overflowing_mul 512 a b).1 in
    u256_from_u512 (res mod c)
  else Ok 0.

Definition signextend (bit number : U256) : outcome Error U256 :=
  let bit_position := low_u64 bit * 8 + 7 in
  let bit := Z.testbit number bit_position in
  mask <- sub_ (wrap 256 (Z.shiftl 1 bit_position)) 1 ;;
  Ok (if bit then Z.lor number (not_ 256 mask) else Z.land number mask).

(** Pop two operands (three for [ternary]) and push the result. *)
Definition binary (f : U256 -> U256 -> U256) : SM unit :=
  a <~ spop ;; b <~ spop ;; spush (f a b).
Definition binary_ (f : U256 -> U256 -> outcome Error U256) : SM unit :=
  a <~ spop ;; b <~ spop ;; v <~ slift (f a b) ;; spush v.
Definition ternary_ (f : U256 -> U256 -> U256 -> outcome Error U256) : SM unit :=
  a <~ spop ;; b <~ spop ;; c <~ spop ;; v <~ slift (f a b c) ;; spush v.

Definition exec_stack_instruction (instruction : Instruction) : SM unit :=
  if (Op.DUP1 <=? instruction) && (instruction <=? Op.DUP16) then
    position <~ slift (get_dup_position instruction) ;;
    stack <~ sget ;;
    val <~ slift (VecStack.peek stack position) ;;
    spush val
  else if (Op.SWAP1 <=? instruction) && (instruction <=? Op.SWAP16) then
    position <~ slift (get_swap_position instruction) ;;
    stack <~ sget ;;
    stack' <~ slift (VecStack.swap_with_top stack position) ;;
    smodify (fun _ => stack')
  else if instruction =? Op.POP then _ <~ spop ;; sret tt
  else if instruction =? Op.ADD then binary (fun a b => (overflowing_add 256 a b).1)
  else if instruction =? Op.MUL then binary (fun a b => (overflowing_mul 256 a b).1)
  else if instruction =? Op.SUB then binary (fun a b => (overflowing_sub 256 a b).1)
  else if instruction =? Op.DIV then binary div_
  else if instruction =? Op.MOD then
    binary (fun a b => if negb (is_zero b) then a mod b else 0)
  else if instruction =? Op.SDIV then binary_ sdiv
  else if instruction =? Op.SMOD then binary smod
  else if instruction =? Op.EXP then binary (powmod (2 ^ 256))
  else if instruction =? Op.NOT then a <~ spop ;; spush (not_ 256 a)
  else if instruction =? Op.LT then binary (fun a b => bool_to_u256 (a <? b))
  else if instruction =? Op.SLT then binary slt
  else if instruction =? Op.GT then binary (fun a b => bool_to_u256 (b <? a))
  else if instruction =? Op.SGT then binary sgt
  else if instruction =? Op.EQ then binary (fun a b => bool_to_u256 (a =? b))
  else if instruction =? Op.ISZERO then a <~ spop ;; spush (bool_to_u256 (is_zero a))
  else if instruction =? Op.AND then binary Z.land
  else if instruction =? Op.OR then binary Z.lor
  else if instruction =? Op.XOR then binary Z.lxor
  else if instruction =? Op.BYTE then binary_ byte
  else if instruction =? Op.ADDMOD then ternary_ addmod
  else if instruction =? Op.MULMOD then ternary_ mulmod
  else if instruction =? Op.SIGNEXTEND then
    bit <~ spop ;;
    if bit <? 32 then
      number <~ spop ;;
      v <~ slift (signextend bit number) ;;
      spush v
    else sret tt
  else sfail (BadInstruction instruction).
End stack_instructions.

(** ** Parts of the main loop *)
Section interpreter.
  (** The cost type, the environment, the jump-destination cache and the hash
      functions of the utility library. *)
  Context (W : Z) {HC : CostType W} {X : Type} {HX : Externalities X}.
  Context {L : Type} {HL : LruCache BitSet L} {HS : CacheStore X L}.
  Context (sha3 : bytes -> H256) (HASH_EMPTY : H256).
Let MM := M Error (machine X).

(** Run a method of the stack or of the environment. *)
Definition on_stack {A} (c : M Error (VecStack.t Z) A) : MM A := fun m =>
  let '(r, s) := c (stack m) in (r, Machine (mem m) (position m) s (ext m)).

Definition on_ext {A} (c : M Error X A) : MM A := fun m =>
  let '(r, x) := c (ext m) in (r, Machine (mem m) (position m) (stack m) x).

Definition on_mem (f : bytes -> outcome Error bytes) : MM unit := fun m =>
  match f (mem m) with
  | Ok b => (Ok tt, Machine b (position m) (stack m) (ext m))
  | Err e => (Err e, m)
  | Panic => (Panic, m)
  end.

Definition pop_back : MM U256 := on_stack spop.
Definition push (v : U256) : MM unit := on_stack (spush v).
Definition pop_n (n : Z) : MM (list U256) :=
  on_stack (fun s =>
    match VecStack.pop_n s n with
    | Ok (topics, s') => (Ok topics, s')
    | Err e => (Err e, s)
    | Panic => (Panic, s)
    end).
Definition read_slice (off size : U256) : MM bytes :=
  m <~ sget ;; slift (Memory.read_slice (mem m) off size).

(** A method of the environment that fails with a trie error ([?]). *)
Definition try_ext {A} (c : M TrieError X A) : MM A := on_ext (smap_err Error_from c).

(** [CodeReader::read]. *)
Definition read (code : bytes) (no_of_bytes : Z) : MM U256 :=
  m <~ sget ;;
  let pos := position m in
  pos' <~ slift (add_ 64 pos no_of_bytes) ;;
  _ <~ smodify (fun m => Machine (mem m) pos' (stack m) (ext m)) ;;
  let max := Z.min pos' (zlen code) in
  s <~ slift (slice code pos max) ;;
  sret (of_be s).

Definition verify_instruction (schedule : Schedule.t) (instruction : Instruction)
    (info : InstructionInfo.t) (stack : VecStack.t Z) : outcome Error unit :=
  if negb (Schedule.have_delegate_call schedule) && (instruction =? Op.DELEGATECALL)
  then Err (BadInstruction instruction)
  else if bool_decide (InstructionInfo.tier info = GasPriceTier.Invalid)
  then Err (BadInstruction instruction)
  else if negb (VecStack.has stack (InstructionInfo.args info))
  then Err (StackUnderflow (InstructionInfo.name info) (InstructionInfo.args info)
              (VecStack.size stack))
  else
    n <- sub_ (VecStack.size stack) (InstructionInfo.args info) ;;
    n <- add_ 64 n (InstructionInfo.ret info) ;;
    if Schedule.stack_limit schedule <? n then
      wanted <- sub_ (InstructionInfo.ret info) (InstructionInfo.args info) ;;
      Err (OutOfStack (InstructionInfo.name info) wanted (Schedule.stack_limit schedule))
    else Ok tt.

Definition mem_written (instruction : Instruction) (stack : VecStack.t Z)
    : outcome Error (option (Z * Z)) :=
  let range o s :=
    off <- VecStack.peek stack o ;;
    size <- VecStack.peek stack s ;;
    Ok (Some (low_u64 off, low_u64 size)) in
  if (instruction =? Op.MSTORE) || (instruction =? Op.MLOAD) then
    off <- VecStack.peek stack 0 ;; Ok (Some (low_u64 off, 32))
  else if instruction =? Op.MSTORE8 then
    off <- VecStack.peek stack 0 ;; Ok (Some (low_u64 off, 1))
  else if (instruction =? Op.CALLDATACOPY) || (instruction =? Op.CODECOPY) then range 0 2
  else if instruction =? Op.EXTCODECOPY then range 1 3
  else if (instruction =? Op.CALL) || (instruction =? Op.CALLCODE) then range 5 6
  else if instruction =? Op.DELEGATECALL then range 4 5
  else Ok None.

Definition store_written (instruction : Instruction) (stack : VecStack.t Z)
    : outcome Error (option (U256 * U256)) :=
  if instruction =? Op.SSTORE then
    k <- VecStack.peek stack 0 ;;
    v <- VecStack.peek stack 1 ;;
    Ok (Some (k, v))
  else Ok None.

(** [writeable_slice] filled with zeros. *)
Definition zero_slice (mem : bytes) (offset size : U256) : outcome Error bytes :=
  let* (a, b) := Memory.writeable_slice mem offset size in
  splice mem a (replicate (Z.to_nat (b - a)) 0).

Definition copy_data (mem source : bytes) (dest_offset source_offset size : U256)
    : outcome Error bytes :=
  let source_size := zlen source in
  past_end <- (if (source_size <? source_offset) || (source_size <? size) then Ok true
               else stop <- add_ 256 source_offset size ;; Ok (source_size <? stop)) ;;
  let* (mem, output_end) :=
    if past_end then
      mem <- (if source_size <? source_offset then zero_slice mem dest_offset size
              else
                off <- add_ 256 dest_offset source_size ;;
                off <- sub_ off source_offset ;;
                n <- add_ 256 source_offset size ;;
                n <- sub_ n source_size ;;
                zero_slice mem off n) ;;
      Ok (mem, source_size)
    else
      output_end <- add_ 64 (low_u64 size) (low_u64 source_offset) ;;
      Ok (mem, output_end) in
  if source_offset <? source_size then
    let output_begin := low_u64 source_offset in
    s <- slice source output_begin output_end ;;
    Memory.write_slice mem dest_offset s
  else Ok mem.

Definition copy_data_to_memory (source : bytes) : MM unit :=
  dest_offset <~ pop_back ;;
  source_offset <~ pop_back ;;
  size <~ pop_back ;;
  on_mem (fun mem => copy_data mem source dest_offset source_offset size).

Definition verify_jump (jump_u : U256) (valid_jump_destinations : BitSet) : outcome Error Z :=
  let jump := low_u64 jump_u in
  if bool_decide (jump ∈ valid_jump_destinations) && (jump =? jump_u)
  then Ok jump
  else Err (BadJumpDestination jump).

(** The word read by [CALLDATALOAD]. *)
Definition calldata_word (data : option bytes) (big_id : U256) : outcome Error U256 :=
  let id := low_u64 big_id in
  let max := wrap 64 (id + 32) in
  match data with
  | Some data =>
      let bound := Z.min (zlen data) max in
      if (id <? bound) && (big_id <? zlen data) then
        s <- slice data id bound ;;
        v <- splice (replicate 32 0) 0 s ;;
        Ok (of_be v)
      else Ok 0
  | None => Ok 0
  end.

(** Finish an instruction that has no special result. *)
Definition then_ok (c : MM unit) : MM InstructionResult := _ <~ c ;; sret IOk.

Definition exec_create (params : ActionParams.t) (provided : option Z) : MM InstructionResult :=
  endowment <~ pop_back ;;
  init_off <~ pop_back ;;
  init_size <~ pop_back ;;
  create_gas <~ slift (expect provided) ;;
  contract_code <~ read_slice init_off init_size ;;
  balance <~ try_ext (balance (ActionParams.address params)) ;;
  m <~ sget ;;
  let can_create := (endowment <=? balance) &&
    (depth (ext m) <? Schedule.max_depth (schedule (ext m))) in
  if negb can_create then
    _ <~ push 0 ;;
    sret (UnusedGas create_gas)
  else
    create_result <~ on_ext (stotal (create (as_u256 W create_gas) endowment contract_code)) ;;
    match create_result with
    | Created address gas_left =>
        _ <~ push (address_to_u256 address) ;;
        match from_u256 W gas_left with
        | Ok gas => sret (UnusedGas gas)
        | _ => slift Panic
        end
    | CreateFailed =>
        _ <~ push 0 ;;
        sret IOk
    end.

(** The sender, the receiver, whether the balance suffices, and the type of
    a call. *)
Definition call_target (params : ActionParams.t) (instruction : Instruction)
    (code_address : Address) (value : option U256)
    : MM (Address * Address * bool * CallType.t) :=
  if instruction =? Op.CALL then
    balance <~ try_ext (balance (ActionParams.address params)) ;;
    value <~ slift (expect value) ;;
    sret (ActionParams.address params, code_address, value <=? balance, CallType.Call)
  else if instruction =? Op.CALLCODE then
    balance <~ try_ext (balance (ActionParams.address params)) ;;
    value <~ slift (expect value) ;;
    sret (ActionParams.address params, ActionParams.address params, value <=? balance,
          CallType.CallCode)
  else if instruction =? Op.DELEGATECALL then
    sret (ActionParams.sender params, ActionParams.address params, true, CallType.DelegateCall)
  else slift Panic.

(** The memory slices of a call, the call, and its result on the stack. *)
Definition message_call (call_gas : Z) (sender_address receive_address : Address)
    (value : option U256) (code_address : Address) (call_type : CallType.t)
    (in_off in_size out_off out_size : U256) : MM InstructionResult :=
  m <~ sget ;;
  input <~ read_slice in_off in_size ;;
  let! (a, b) := slift (Memory.writeable_slice (mem m) out_off out_size) in
  output <~ slift (slice (mem m) a b) ;;
  let! (call_result, output) :=
    on_ext (stotal (call (as_u256 W call_gas) sender_address receive_address value input
                      code_address output call_type)) in
  _ <~ on_mem (fun mem => splice mem a output) ;;
  match call_result with
  | CallSuccess gas_left =>
      _ <~ push 1 ;;
      match from_u256 W gas_left with
      | Ok gas => sret (UnusedGas gas)
      | _ => slift Panic
      end
  | CallFailed =>
      _ <~ push 0 ;;
      sret IOk
  end.

Definition exec_call (params : ActionParams.t) (instruction : Instruction) (provided : option Z)
    : MM InstructionResult :=
  m <~ sget ;;
  let sched := schedule (ext m) in
  _ <~ slift (assert_ (Schedule.call_stipend sched <? Schedule.call_value_transfer_gas sched)) ;;
  _ <~ pop_back ;;
  call_gas <~ slift (expect provided) ;;
  code_address <~ pop_back ;;
  let code_address := u256_to_address code_address in
  value <~ (if instruction =? Op.DELEGATECALL then sret None
            else v <~ pop_back ;; sret (Some v)) ;;
  in_off <~ pop_back ;;
  in_size <~ pop_back ;;
  out_off <~ pop_back ;;
  out_size <~ pop_back ;;
  (* Add stipend (only CALL|CALLCODE when value > 0) *)
  let stipend :=
    match value with
    | None => 0
    | Some val => if is_zero val then 0 else Schedule.call_stipend sched
    end in
  call_gas <~ slift (add_ W call_gas stipend) ;;
  let! (sender_address, receive_address, has_balance, call_type) :=
    call_target params instruction code_address value in
  m <~ sget ;;
  let can_call := has_balance && (depth (ext m) <? Schedule.max_depth (schedule (ext m))) in
  if negb can_call then
    _ <~ push 0 ;;
    sret (UnusedGas call_gas)
  else
    message_call call_gas sender_address receive_address value code_address call_type
      in_off in_size out_off out_size.

Definition exec_log (instruction : Instruction) : MM unit :=
  no_of_topics <~ slift (get_log_topics instruction) ;;
  offset <~ pop_back ;;
  size <~ pop_back ;;
  topics <~ pop_n no_of_topics ;;
  data <~ read_slice offset size ;;
  on_ext (stotal (log topics data)).

Definition exec_sstore : MM unit :=
  address <~ pop_back ;;
  val <~ pop_back ;;
  current_val <~ try_ext (storage_at address) ;;
  _ <~ (if negb (is_zero current_val) && is_zero val
        then on_ext (stotal inc_sstore_clears) else sret tt) ;;
  try_ext (set_storage address val).

Definition exec_instruction (gas : Z) (params : ActionParams.t) (code : bytes)
    (instruction : Instruction) (provided : option Z) : MM InstructionResult :=
  if instruction =? Op.JUMP then jump <~ pop_back ;; sret (JumpToPosition jump)
  else if instruction =? Op.JUMPI then
    jump <~ pop_back ;;
    condition <~ pop_back ;;
    if negb (is_zero condition) then sret (JumpToPosition jump) else sret IOk
  else if instruction =? Op.JUMPDEST then sret IOk
  else if instruction =? Op.CREATE then exec_create params provided
  else if (instruction =? Op.CALL) || (instruction =? Op.CALLCODE) ||
          (instruction =? Op.DELEGATECALL) then exec_call params instruction provided
  else if instruction =? Op.RETURN then
    init_off <~ pop_back ;;
    init_size <~ pop_back ;;
    sret (StopExecutionNeedsReturn gas init_off init_size)
  else if instruction =? Op.STOP then sret StopExecution
  else if instruction =? Op.SUICIDE then
    address <~ pop_back ;;
    _ <~ try_ext (suicide (u256_to_address address)) ;;
    sret StopExecution
  else if (Op.LOG0 <=? instruction) && (instruction <=? Op.LOG4) then then_ok (exec_log instruction)
  else if (Op.PUSH1 <=? instruction) && (instruction <=? Op.PUSH32) then
    bytes <~ slift (get_push_bytes instruction) ;;
    val <~ read code bytes ;;
    then_ok (push val)
  else if instruction =? Op.MLOAD then
    offset <~ pop_back ;;
    m <~ sget ;;
    word <~ slift (Memory.read (mem m) offset) ;;
    then_ok (push word)
  else if instruction =? Op.MSTORE then
    offset <~ pop_back ;;
    word <~ pop_back ;;
    then_ok (on_mem (fun mem => Memory.write mem offset word))
  else if instruction =? Op.MSTORE8 then
    offset <~ pop_back ;;
    byte <~ pop_back ;;
    then_ok (on_mem (fun mem => Memory.write_byte mem offset byte))
  else if instruction =? Op.MSIZE then
    m <~ sget ;;
    then_ok (push (Memory.size (mem m)))
  else if instruction =? Op.SHA3 then
    offset <~ pop_back ;;
    size <~ pop_back ;;
    data <~ read_slice offset size ;;
    then_ok (push (sha3 data))
  else if instruction =? Op.SLOAD then
    key <~ pop_back ;;
    word <~ try_ext (storage_at key) ;;
    then_ok (push word)
  else if instruction =? Op.SSTORE then then_ok (exec_sstore)
  else if instruction =? Op.PC then
    m <~ sget ;;
    pc <~ slift (sub_ (position m) 1) ;;
    then_ok (push pc)
  else if instruction =? Op.GAS then then_ok (push (as_u256 W gas))
  else if instruction =? Op.ADDRESS then
    then_ok (push (address_to_u256 (ActionParams.address params)))
  else if instruction =? Op.ORIGIN then
    then_ok (push (address_to_u256 (ActionParams.origin params)))
  else if instruction =? Op.BALANCE then
    address <~ pop_back ;;
    balance <~ try_ext (balance (u256_to_address address)) ;;
    then_ok (push balance)
  else if instruction =? Op.CALLER then
    then_ok (push (address_to_u256 (ActionParams.sender params)))
  else if instruction =? Op.CALLVALUE then
    then_ok (push (ActionValue_value (ActionParams.value params)))
  else if instruction =? Op.CALLDATALOAD then
    big_id <~ pop_back ;;
    word <~ slift (calldata_word (ActionParams.data params) big_id) ;;
    then_ok (push word)
  else if instruction =? Op.CALLDATASIZE then
    then_ok (push (from_option zlen 0 (ActionParams.data params)))
  else if instruction =? Op.CODESIZE then then_ok (push (zlen code))
  else if instruction =? Op.EXTCODESIZE then
    address <~ pop_back ;;
    len <~ try_ext (extcodesize (u256_to_address address)) ;;
    then_ok (push len)
  else if instruction =? Op.CALLDATACOPY then
    then_ok (copy_data_to_memory (default [] (ActionParams.data params)))
  else if instruction =? Op.CODECOPY then
    then_ok (copy_data_to_memory (default [] (ActionParams.code params)))
  else if instruction =? Op.EXTCODECOPY then
    address <~ pop_back ;;
    code <~ try_ext (extcode (u256_to_address address)) ;;
    then_ok (copy_data_to_memory code)
  else if instruction =? Op.GASPRICE then then_ok (push (ActionParams.gas_price params))
  else if instruction =? Op.BLOCKHASH then
    block_number <~ pop_back ;;
    block_hash <~ on_ext (stotal (blockhash block_number)) ;;
    then_ok (push block_hash)
  else if instruction =? Op.COINBASE then
    m <~ sget ;;
    then_ok (push (address_to_u256 (EnvInfo.author (env_info (ext m)))))
  else if instruction =? Op.TIMESTAMP then
    m <~ sget ;;
    then_ok (push (EnvInfo.timestamp (env_info (ext m))))
  else if instruction =? Op.NUMBER then
    m <~ sget ;;
    then_ok (push (EnvInfo.number (env_info (ext m))))
  else if instruction =? Op.DIFFICULTY then
    m <~ sget ;;
    then_ok (push (EnvInfo.difficulty (env_info (ext m))))
  else if instruction =? Op.GASLIMIT then
    m <~ sget ;;
    then_ok (push (EnvInfo.gas_limit (env_info (ext m))))
  else then_ok (on_stack (exec_stack_instruction instruction)).

(** ** The main loop *)

(** How a round of the loop ends. *)
Inductive flow : Set :=
| Continue (g : Gasometer.t)
| Break (g : Gasometer.t)
| Return (r : GasLeft).

(** Unused gas goes back to the meter. *)
Definition refund_unused (g : Gasometer.t) (result : InstructionResult) : outcome Error Gasometer.t :=
  match result with
  | UnusedGas gas =>
      gas <- add_ W (Gasometer.current_gas g) gas ;;
      Ok (Gasometer.mk gas (Gasometer.current_mem_gas g))
  | _ => Ok g
  end.

(** Jump, return or stop, as the result says. *)
Definition advance (dests : BitSet) (g : Gasometer.t) (result : InstructionResult) : MM flow :=
  match result with
  | JumpToPosition position =>
      pos <~ slift (verify_jump position dests) ;;
      _ <~ smodify (fun m => Machine (mem m) pos (stack m) (ext m)) ;;
      sret (Continue g)
  | StopExecutionNeedsReturn gas off size =>
      data <~ read_slice off size ;;
      sret (Return (NeedsReturn (as_u256 W gas) data))
  | StopExecution => sret (Break g)
  | _ => sret (Continue g)
  end.

(** Everything of a round after the instruction has been paid for. *)
Definition run_paid (params : ActionParams.t) (code : bytes) (dests : BitSet)
    (instruction : Instruction) (provide_gas : option Z) (trace_executed_ : bool)
    (g : Gasometer.t) : MM flow :=
  let info := info_of instruction in
  m <~ sget ;;
  let! (written, stored) :=
    if trace_executed_ then
      w <~ slift (mem_written instruction (stack m)) ;;
      s <~ slift (store_written instruction (stack m)) ;;
      sret (w, s)
    else sret (None, None) in
  result <~ exec_instruction (Gasometer.current_gas g) params code instruction provide_gas ;;
  g <~ slift (refund_unused g result) ;;
  _ <~ (if trace_executed_ then
          m <~ sget ;;
          top <~ slift (VecStack.peek_top (stack m) (InstructionInfo.ret info)) ;;
          diff <~ match written with
                  | Some (o, s) =>
                      e <~ slift (add_ 64 o s) ;;
                      d <~ slift (slice (mem m) o e) ;;
                      sret (Some (o, d))
                  | None => sret None
                  end ;;
          on_ext (stotal (trace_executed (as_u256 W (Gasometer.current_gas g)) top diff stored))
        else sret tt) ;;
  advance dests g result.

(** One round of [while reader.position < code.len()]. *)
Definition exec_round (params : ActionParams.t) (code : bytes) (dests : BitSet) (g : Gasometer.t)
    : MM flow :=
  m <~ sget ;;
  instruction <~ slift (index code (position m)) ;;
  pos <~ slift (add_ 64 (position m) 1) ;;
  _ <~ smodify (fun m => Machine (mem m) pos (stack m) (ext m)) ;;
  let info := info_of instruction in
  _ <~ slift (verify_instruction (schedule (ext m)) instruction info (stack m)) ;;
  requirements <~ on_ext (Gasometer.requirements W g instruction info (stack m)
                            (Memory.size (mem m))) ;;
  trace <~ on_ext (stotal (trace_prepare_execute (pos - 1) instruction
                             (as_u256 W (gas_cost requirements)))) ;;
  _ <~ slift (Gasometer.verify_gas g (gas_cost requirements)) ;;
  _ <~ on_mem (fun mem => Memory.expand mem (memory_required_size requirements)) ;;
  current_gas <~ slift (sub_ (Gasometer.current_gas g) (gas_cost requirements)) ;;
  run_paid params code dests instruction (provide_gas requirements) trace
    (Gasometer.mk current_gas (memory_total_gas requirements)).

(** The loop.  Every round that continues costs gas, so the initial gas
    bounds the number of rounds; running out of fuel counts as a panic. *)
Fixpoint exec_loop (fuel : nat) (params : ActionParams.t) (code : bytes) (dests : BitSet)
    (g : Gasometer.t) : MM GasLeft := fun m =>
  if position m <? zlen code then
    match fuel with
    | O => (Panic, m)
    | S fuel =>
        sbind (exec_round params code dests g) (fun f =>
          match f with
          | Continue g => exec_loop fuel params code dests g
          | Break g => sret (Known (as_u256 W (Gasometer.current_gas g)))
          | Return r => sret r
          end) m
    end
  else (Ok (Known (as_u256 W (Gasometer.current_gas g))), m).

(** [Interpreter::exec]: the memory is cleared, so its earlier contents do
    not matter. *)
Definition exec (fuel : nat) (params : ActionParams.t) : M Error X GasLeft :=
  code <~ slift (expect (ActionParams.code params)) ;;
  dests <~ (fun x =>
    let '(d, c) := SharedCache.jump_destinations HASH_EMPTY (ActionParams.code_hash params) code
                     (the_cache x) in (d, put_cache c x)) ;;
  gas <~ slift (from_u256 W (ActionParams.gas params)) ;;
  fun x =>
    let stack := VecStack.with_capacity (Schedule.stack_limit (schedule x)) 0 in
    let '(r, m) := exec_loop fuel params code dests (Gasometer.new gas) (Machine [] 0 stack x) in
    (r, ext m).
End interpreter.

(** ** The factory *)
Definition can_fit_in_usize (gas : U256) : bool := gas =? low_u64 gas.

(** [Factory::create(gas).exec(params)]: the machine counts gas in [usize]
    when the gas fits, in [U256] otherwise. *)
Definition factory_exec {X} `{Externalities X} {L} `{LruCache BitSet L} `{CacheStore X L}
    (sha3 : bytes -> H256) (HASH_EMPTY : H256) (fuel : nat) (gas : U256) (params : ActionParams.t)
    : M Error X GasLeft :=
  if can_fit_in_usize gas then exec 64 sha3 HASH_EMPTY fuel params
  else exec 256 sha3 HASH_EMPTY fuel params.
