(* ===== verification/Words.v ===== *)
(** * Word arithmetic

    The 256-bit operations of [interpreter/mod.rs] against their meaning on
    mathematical integers, signed words being read in two's complement. *)

From S2P Require Import Prelude Instructions Evm Interpreter.
From stdpp Require Import base list.
Local Open Scope Z_scope.
Local Open Scope cita_scope.

(** The number an [n]-bit word denotes in two's complement. *)
Definition signed (n x : Z) : Z := if x <? 2 ^ (n - 1) then x else x - 2 ^ n.

(** ** Bits *)
Lemma testbit_top n v : 0 <= n -> fits (n + 1) v -> Z.testbit v n = (2 ^ n <=? v).
Proof.
  intros Hn [Hv1 Hv2]. rw Z.pow_add_r in Hv2; [lia..|]. change (2 ^ 1) with 2 in Hv2.
  apply Bool.eq_true_iff_eq. rw Z.testbit_true; [done|]. rw Z.leb_le.
  pose proof (pow2_pos n Hn). split.
  - intros Hb. destruct (Z.lt_ge_cases v (2 ^ n)); [|done].
    by rw Z.div_small in Hb.
  - intros. assert (Hq : v / 2 ^ n = 1); [|by rw Hq].
    symmetry. apply (Z.div_unique _ _ _ (v - 2 ^ n)); lia.
Qed.

Lemma not_ones n v : 0 <= n -> fits n v -> Z.lxor (Z.ones n) v = not_ n v.
Proof.
  intros Hn Hv. rw /not_. assert (Hl : Z.ldiff v (Z.ones n) = 0).
  { rw Z.ldiff_ones_r; [done|]. rw shiftr_div; [done|]. by rw Z.div_small; [|rw Z.shiftl_0_l]. }
  rw (_ : 2 ^ n - 1 - v = Z.ones n - v); [rw Z.ones_equiv; lia|].
  rw Z.sub_nocarry_ldiff; [done|]. apply Z.bits_inj'. intros i Hi.
  rw Z.lxor_spec Z.ldiff_spec. assert (Hb := f_equal (fun z => Z.testbit z i) Hl).
  cbn beta in Hb. rw Z.ldiff_spec Z.bits_0 in Hb.
  by destruct (Z.testbit v i), (Z.testbit (Z.ones n) i).
Qed.

Lemma not_fits n v : 0 <= n -> fits n v -> fits n (not_ n v).
Proof. rw /not_ /fits. lia. Qed.

Lemma land_fits n a b : 0 <= n -> fits n a -> fits n b -> fits n (Z.land a b).
Proof.
  intros Hn [Ha1 Ha2] [Hb1 Hb2]. split; [apply Z.land_nonneg; tauto|].
  rw -(Z.mod_small a (2 ^ n)); [done|]. rw -Z.land_ones; [done|].
  rw -Z.land_assoc (Z.land_comm _ b) Z.land_assoc Z.land_ones; [done|].
  apply Z.mod_pos_bound, pow2_pos. done.
Qed.

Lemma shift_fits n x : 0 <= n -> (fits n x <-> 0 <= x /\ Z.shiftr x n = 0).
Proof.
  intros Hn. rw shiftr_div; [done|]. pose proof (pow2_pos n Hn). split.
  - intros [? ?]. split; [done|]. by apply Z.div_small.
  - intros [? Hd]. split; [done|]. apply Z.div_small_iff in Hd; lia.
Qed.

Lemma lor_fits n a b : 0 <= n -> fits n a -> fits n b -> fits n (Z.lor a b).
Proof.
  intros Hn. rw !shift_fits; [done..|]. intros [? Ha] [? Hb].
  split; [by apply Z.lor_nonneg|]. by rw Z.shiftr_lor Ha Hb.
Qed.

Lemma lxor_fits n a b : 0 <= n -> fits n a -> fits n b -> fits n (Z.lxor a b).
Proof.
  intros Hn. rw !shift_fits; [done..|]. intros [? Ha] [? Hb].
  split; [by apply Z.lxor_nonneg|]. by rw Z.shiftr_lxor Ha Hb.
Qed.

(** ** Signs *)
Lemma set_sign_spec v b : fits 256 v -> set_sign v b = wrap 256 (if b then - v else v).
Proof.
  intros Hv. destruct b; rw /set_sign; [|by rw wrap_small].
  rw /overflowing_add /=. rw (_ : not_ 256 0 = Z.ones 256); [done|].
  rw not_ones; [done..|]. rw /not_ /wrap.
  rw (_ : 2 ^ 256 - 1 - v + 1 = - v + 1 * 2 ^ 256); [lia|]. by rw Z.mod_add.
Qed.

Lemma signed_range v : fits 256 v -> - 2 ^ 255 <= signed 256 v < 2 ^ 255.
Proof. rw /fits /signed. intros. destruct (Z.ltb_spec v (2 ^ (256 - 1))); lia. Qed.

Lemma get_and_reset_sign_spec v :
  fits 256 v -> get_and_reset_sign v = (Z.abs (signed 256 v), signed 256 v <? 0).
Proof.
  intros Hv. rw /get_and_reset_sign set_sign_spec; [done|].
  rw (testbit_top 255); [done|exact Hv|]. rw /signed. change (256 - 1) with 255.
  destruct Hv as [Hv1 Hv2]. destruct (Z.leb_spec (2 ^ 255) v).
  - rw (proj2 (Z.ltb_ge v (2 ^ 255))); [done|].
    rw (proj2 (Z.ltb_lt (v - 2 ^ 256) 0)); [lia|]. f_equal. rw /wrap.
    rw -(Z.mod_add _ 1); [lia|]. rw Z.mod_small; lia.
  - rw (proj2 (Z.ltb_lt v (2 ^ 255))); [done|].
    rw (proj2 (Z.ltb_ge v 0)); [done|]. f_equal. rw wrap_small; [split; lia|lia].
Qed.

Lemma wrap_opp_sgn x c : 0 <= c -> fits 256 c ->
  set_sign c (x <? 0) = wrap 256 (if x <? 0 then - c else c).
Proof. intros. by apply set_sign_spec. Qed.

(** ** The operations *)
Lemma div_spec a b : div_ a b = a / b.
Proof.
  rw /div_ /is_zero. destruct (Z.eqb_spec b 0) as [->|]; [by rw Z.div_0_r|]. cbn [negb].
  destruct (Z.eqb_spec b 1) as [->|]; [by rw Z.div_1_r|].
  repeat match goal with |- (if ?b =? ?k then _ else _) = _ =>
    destruct (Z.eqb_spec b k) as [->|]; [by rw shiftr_div|] end. done.
Qed.

Lemma sdiv_spec a b : fits 256 a -> fits 256 b ->
  sdiv a b = Ok (wrap 256 (Z.quot (signed 256 a) (signed 256 b))).
Proof.
  intros Ha Hb. rw /sdiv !get_and_reset_sign_spec; [done..|]. rw sub_ok; [by vm_compute|].
  cbn [obind]. f_equal. pose proof (signed_range a Ha). pose proof (signed_range b Hb).
  rw /is_zero. destruct (Z.eqb_spec (Z.abs (signed 256 b)) 0) as [Hz|Hz].
  { rw (_ : signed 256 b = 0); [lia|]. by destruct (signed 256 a). }
  rw (_ : (Z.abs (signed 256 b) =? not_ 256 0) = false).
  { apply Z.eqb_neq. rw /not_. lia. }
  rw andb_false_r Z.quot_div; [lia|]. set (x := signed 256 a) in *. set (y := signed 256 b) in *.
  assert (0 <= Z.abs x / Z.abs y <= 2 ^ 255) as Hq.
  { split; [apply Z.div_pos; lia|]. apply Z.div_le_upper_bound; nia. }
  rw set_sign_spec; [split; lia|]. f_equal.
  destruct (Z.ltb_spec x 0), (Z.ltb_spec y 0); cbn [xorb].
  - rw !Z.sgn_neg; lia.
  - rw (Z.sgn_neg x); [lia|]. rw (Z.sgn_pos y); lia.
  - rw (Z.sgn_neg y); [lia|]. destruct (Z.eq_dec x 0) as [->|].
    + rw Z.div_0_l; lia.
    + rw Z.sgn_pos; lia.
  - rw (Z.sgn_pos y); [lia|]. destruct (Z.eq_dec x 0) as [->|].
    + rw Z.div_0_l; lia.
    + rw Z.sgn_pos; lia.
Qed.

Lemma smod_spec a b : fits 256 a -> fits 256 b ->
  smod a b = if b =? 0 then 0 else wrap 256 (Z.rem (signed 256 a) (signed 256 b)).
Proof.
  intros Ha Hb. rw /smod !get_and_reset_sign_spec; [done..|]. cbn [fst].
  pose proof (signed_range a Ha). pose proof (signed_range b Hb).
  rw /is_zero. rw (_ : (Z.abs (signed 256 b) =? 0) = (b =? 0)).
  { apply Bool.eq_true_iff_eq. rw !Z.eqb_eq. destruct Hb. rw /signed.
    change (256 - 1) with 255. destruct (Z.ltb_spec b (2 ^ 255)); lia. }
  destruct (Z.eqb_spec b 0) as [|Hz]; [done|]. cbn [negb].
  assert (Hy : signed 256 b <> 0).
  { destruct Hb. rw /signed. change (256 - 1) with 255. destruct (Z.ltb_spec b (2 ^ 255)); lia. }
  set (x := signed 256 a) in *. set (y := signed 256 b) in *.
  rw Z.rem_mod; [done|]. pose proof (Z.mod_pos_bound (Z.abs x) (Z.abs y) ltac:(lia)).
  rw set_sign_spec; [split; lia|]. f_equal. destruct (Z.ltb_spec x 0).
  - rw Z.sgn_neg; lia.
  - destruct (Z.eq_dec x 0) as [->|]; [by rw Z.mod_0_l; [lia|]|]. rw Z.sgn_pos; lia.
Qed.

Lemma slt_spec a b : fits 256 a -> fits 256 b ->
  slt a b = bool_to_u256 (signed 256 a <? signed 256 b).
Proof.
  intros Ha Hb. rw /slt !get_and_reset_sign_spec; [done..|]. f_equal.
  generalize (signed 256 a) (signed 256 b). intros x y. apply Bool.eq_true_iff_eq.
  rw !orb_true_iff !andb_true_iff !negb_true_iff orb_false_iff !Z.ltb_lt !Z.ltb_ge. lia.
Qed.

Lemma sgt_spec a b : fits 256 a -> fits 256 b ->
  sgt a b = bool_to_u256 (signed 256 b <? signed 256 a).
Proof.
  intros Ha Hb. rw /sgt !get_and_reset_sign_spec; [done..|]. f_equal.
  generalize (signed 256 a) (signed 256 b). intros x y. apply Bool.eq_true_iff_eq.
  rw !orb_true_iff !andb_true_iff !negb_true_iff orb_false_iff !Z.ltb_lt !Z.ltb_ge. lia.
Qed.

Lemma addmod_spec a b c : fits 256 a -> fits 256 b -> fits 256 c ->
  addmod a b c = Ok (if c =? 0 then 0 else (a + b) mod c).
Proof.
  intros [] [] []. rw /addmod /is_zero /u256_from_u512 /overflowing_add /=.
  destruct (Z.eqb_spec c 0); [done|]. cbn [negb]. rw wrap_small; [split; lia|].
  pose proof (Z.mod_pos_bound (a + b) c ltac:(lia)). rw (proj2 (Z.ltb_lt _ _)); [lia|done].
Qed.

Lemma mulmod_spec a b c : fits 256 a -> fits 256 b -> fits 256 c ->
  mulmod a b c = Ok (if c =? 0 then 0 else (a * b) mod c).
Proof.
  intros Ha Hb []. rw /mulmod /is_zero /u256_from_u512 /overflowing_mul /=.
  destruct (Z.eqb_spec c 0); [done|]. cbn [negb].
  rw wrap_small; [by apply (mul_fits_double 256)|].
  pose proof (Z.mod_pos_bound (a * b) c ltac:(lia)). rw (proj2 (Z.ltb_lt _ _)); [lia|done].
Qed.

Lemma to_be_lookup n x (i : nat) : (i < n)%nat ->
  to_be n x !! i = Some (x / 2 ^ (8 * Z.of_nat (n - 1 - i)) mod 256).
Proof.
  revert x i. induction n as [|n IH]; intros x i Hi; [lia|]. rw /to_be -/to_be.
  destruct (decide (i = n)) as [->|].
  - rw list_lookup_middle; [by rw to_be_length|]. rw (_ : (S n - 1 - n)%nat = 0%nat); [lia|].
    by rw Z.div_1_r.
  - rw lookup_app_l; [rw to_be_length; lia|]. rw IH; [lia|]. do 2 f_equal.
    rw (_ : 8 * Z.of_nat (S n - 1 - i) = 8 + 8 * Z.of_nat (n - 1 - i)); [lia|].
    rw Z.pow_add_r; [lia..|]. change (2 ^ 8) with 256.
    rw Z.div_div; [lia|apply pow2_pos; lia|done].
Qed.

(** The [i]-th byte of a word, from the most significant one. *)
Definition be_byte (i v : Z) : Z := nth (Z.to_nat i) (to_be 32 v) 0.

(** [BYTE] reads the big-endian representation from its most significant end. *)
Lemma byte_spec i v : fits 256 i -> byte i v = Ok (be_byte i v).
Proof.
  intros [Hi1 Hi2]. rw /byte /be_byte. destruct (Z.ltb_spec i 32).
  - rw low_u64_small; [split; lia|]. rw sub_ok; [lia|]. cbn [obind]. f_equal.
    symmetry. apply nth_lookup_Some. rw to_be_lookup; [lia|]. f_equal.
    rw shiftr_div; [lia|]. change 0xff with (Z.ones 8). rw Z.land_ones; [done|].
    change (2 ^ 8) with 256. do 3 f_equal. lia.
  - f_equal. symmetry. apply nth_overflow. rw to_be_length. lia.
Qed.

Lemma pow_split n : 0 <= n <= 256 -> 2 ^ 256 = 2 ^ n * 2 ^ (256 - n).
Proof. intros. rw -Z.pow_add_r; [lia..|]. f_equal. lia. Qed.

(** Setting every bit from [p] on. *)
Lemma lor_high p v : 0 <= p <= 256 -> fits 256 v ->
  Z.lor v (not_ 256 (2 ^ p - 1)) = v mod 2 ^ p + (2 ^ 256 - 2 ^ p).
Proof.
  intros Hp Hv. set (h := Z.shiftl (Z.ones (256 - p)) p).
  assert (Hh : not_ 256 (2 ^ p - 1) = h).
  { rw /h /not_ Z.shiftl_mul_pow2; [lia|]. rw Z.ones_equiv (pow_split p Hp). lia. }
  rw (_ : 2 ^ 256 - 2 ^ p = h); [rw -Hh /not_; lia|]. rw Hh.
  assert (Hbits : forall i, 0 <= i -> Z.testbit h i = (p <=? i) && (i <? 256)).
  { intros i Hi. rw /h Z.shiftl_spec; [done|]. destruct (Z.leb_spec p i).
    - rw Z.testbit_ones_nonneg; [lia..|]. apply Bool.eq_true_iff_eq. rw !Z.ltb_lt. lia.
    - by rw Z.testbit_neg_r; [lia|]. }
  assert (Hhigh : forall i, 256 <= i -> Z.testbit v i = false).
  { intros i Hi. rw -(Z.mod_small v (2 ^ 256)); [done|]. by rw Z.mod_pow2_bits_high; [lia|]. }
  assert (Hland : Z.land (v mod 2 ^ p) h = 0).
  { apply Z.bits_inj'. intros i Hi. rw Z.land_spec Hbits; [done|]. rw Z.bits_0.
    destruct (Z.leb_spec p i); [|by rw andb_false_r].
    by rw Z.mod_pow2_bits_high; [lia|]. }
  rw Z.add_nocarry_lxor; [done|]. rw Z.lxor_lor; [done|].
  apply Z.bits_inj'. intros i Hi. rw !Z.lor_spec !Hbits; [done..|].
  destruct (Z.leb_spec p i).
  - rw Z.mod_pow2_bits_high; [lia|]. destruct (Z.ltb_spec i 256); [by rw !orb_true_r|].
    by rw Hhigh; [lia|].
  - by rw Z.mod_pow2_bits_low; [lia|].
Qed.

(** [SIGNEXTEND] widens the low [8 (k + 1)] bits in two's complement. *)
Lemma signextend_spec k v : 0 <= k < 32 -> fits 256 v ->
  signextend k v = Ok (wrap 256 (signed (8 * k + 8) (v mod 2 ^ (8 * k + 8)))).
Proof.
  intros Hk Hv. rw /signextend low_u64_small; [split; lia|].
  set (p := k * 8 + 7). assert (Hp : 0 <= p <= 255) by lia.
  rw Z.shiftl_mul_pow2; [lia|]. rw Z.mul_1_l. pose proof (pow2_pos p ltac:(lia)).
  rw wrap_small. { split; [lia|]. apply Z.pow_lt_mono_r; lia. }
  rw sub_ok; [lia|]. cbn [obind]. f_equal. rw (_ : 8 * k + 8 = p + 1); [lia|].
  pose proof (Z.mod_pos_bound v (2 ^ (p + 1)) ltac:(apply pow2_pos; lia)) as Hm.
  rw -(Z.mod_pow2_bits_low v (p + 1) p); [lia|]. rw testbit_top; [lia|exact Hm|].
  rw /signed Z.add_simpl_r. set (m := v mod 2 ^ (p + 1)) in *.
  rw (_ : 2 ^ p - 1 = Z.ones p); [rw Z.ones_equiv; lia|].
  assert (Hlow : v mod 2 ^ p = m mod 2 ^ p).
  { rw /m Z.pow_add_r; [lia..|]. rw Z.rem_mul_r; [lia..|].
    rw (Z.mul_comm (2 ^ p)) Z.mod_add; [lia|]. by rw Z.mod_mod; [lia|]. }
  destruct (Z.leb_spec (2 ^ p) m) as [Hle|Hgt].
  - rw (proj2 (Z.ltb_ge _ _)); [done|]. rw Z.ones_equiv -Z.sub_1_r lor_high; [lia|done|].
    rw Hlow. assert (Hm' : m mod 2 ^ p = m - 2 ^ p).
    { symmetry. apply (Z.mod_unique _ _ 1); [|lia]. rw Z.pow_add_r in Hm; lia. }
    rw Hm' /wrap -(Z.mod_add _ 1); [done|]. rw Z.pow_add_r in Hm |- *; [lia..|].
    pose proof (Z.pow_le_mono_r 2 p 255 ltac:(lia) ltac:(lia)).
    rw Z.mod_small; lia.
  - rw (proj2 (Z.ltb_lt _ _)); [done|]. rw Z.land_ones; [lia|]. rw Hlow Z.mod_small; [lia|].
    rw wrap_small; [|done]. split; [lia|]. eapply Z.lt_trans; [exact Hgt|].
    apply Z.pow_lt_mono_r; lia.
Qed.
