(* ===== verification/StackSpec.v ===== *)
(** * Stack instructions against a reference semantics

    [alu] is the meaning of the arithmetic, comparison, bitwise and stack
    instructions on the list of operands read from the top of the stack;
    [exec_stack_instruction] refines it. *)

From S2P Require Import Prelude Instructions Evm Stack Interpreter Words.
From stdpp Require Import base list.
Local Open Scope Z_scope.
Local Open Scope cita_scope.

(** ** Reference semantics *)
Definition un (f : Z -> Z) (l : list Z) : option (list Z) :=
  match l with a :: r => Some (f a :: r) | _ => None end.
Definition bin (f : Z -> Z -> Z) (l : list Z) : option (list Z) :=
  match l with a :: b :: r => Some (f a b :: r) | _ => None end.
Definition ter (f : Z -> Z -> Z -> Z) (l : list Z) : option (list Z) :=
  match l with a :: b :: c :: r => Some (f a b c :: r) | _ => None end.

(** Exchange the top with the element [n] places below it. *)
Definition swap_top (n : nat) (l : list Z) : option (list Z) :=
  match l, l !! n with
  | x :: _, Some y => Some (<[n := x]> (<[0%nat := y]> l))
  | _, _ => None
  end.

Definition alu (i : Instruction) (l : list Z) : option (list Z) :=
  if (Op.DUP1 <=? i) && (i <=? Op.DUP16) then
    (fun v => v :: l) <$> l !! Z.to_nat (i - Op.DUP1)
  else if (Op.SWAP1 <=? i) && (i <=? Op.SWAP16) then swap_top (Z.to_nat (i - Op.SWAP1 + 1)) l
  else if i =? Op.POP then match l with _ :: r => Some r | [] => None end
  else if i =? Op.ADD then bin (fun a b => (a + b) mod 2 ^ 256) l
  else if i =? Op.MUL then bin (fun a b => (a * b) mod 2 ^ 256) l
  else if i =? Op.SUB then bin (fun a b => (a - b) mod 2 ^ 256) l
  else if i =? Op.DIV then bin (fun a b => if b =? 0 then 0 else a / b) l
  else if i =? Op.MOD then bin (fun a b => if b =? 0 then 0 else a mod b) l
  else if i =? Op.SDIV then
    bin (fun a b => if b =? 0 then 0 else Z.quot (signed 256 a) (signed 256 b) mod 2 ^ 256) l
  else if i =? Op.SMOD then
    bin (fun a b => if b =? 0 then 0 else Z.rem (signed 256 a) (signed 256 b) mod 2 ^ 256) l
  else if i =? Op.EXP then bin (fun a b => a ^ b mod 2 ^ 256) l
  else if i =? Op.NOT then un (fun a => 2 ^ 256 - 1 - a) l
  else if i =? Op.LT then bin (fun a b => if a <? b then 1 else 0) l
  else if i =? Op.SLT then bin (fun a b => if signed 256 a <? signed 256 b then 1 else 0) l
  else if i =? Op.GT then bin (fun a b => if b <? a then 1 else 0) l
  else if i =? Op.SGT then bin (fun a b => if signed 256 b <? signed 256 a then 1 else 0) l
  else if i =? Op.EQ then bin (fun a b => if a =? b then 1 else 0) l
  else if i =? Op.ISZERO then un (fun a => if a =? 0 then 1 else 0) l
  else if i =? Op.AND then bin Z.land l
  else if i =? Op.OR then bin Z.lor l
  else if i =? Op.XOR then bin Z.lxor l
  else if i =? Op.BYTE then bin be_byte l
  else if i =? Op.ADDMOD then ter (fun a b c => if c =? 0 then 0 else (a + b) mod c) l
  else if i =? Op.MULMOD then ter (fun a b c => if c =? 0 then 0 else (a * b) mod c) l
  else if i =? Op.SIGNEXTEND then
    bin (fun k v => if k <? 32 then signed (8 * k + 8) (v mod 2 ^ (8 * k + 8)) mod 2 ^ 256
                    else v) l
  else None.

(** ** Popping and pushing *)
Lemma spop_of_top x l g : spop (VecStack.of_top (x :: l) g) = (Ok x, VecStack.of_top l g).
Proof. by rw /spop VecStack.pop_back_of_top. Qed.

Lemma spush_of_top x l g : spush x (VecStack.of_top l g) = (Ok tt, VecStack.of_top (x :: l) g).
Proof. by rw /spush /smodify VecStack.push_of_top. Qed.

Lemma binary_of_top f a b l g :
  binary f (VecStack.of_top (a :: b :: l) g) = (Ok tt, VecStack.of_top (f a b :: l) g).
Proof. by rw /binary /sbind !spop_of_top spush_of_top. Qed.

Lemma binary__of_top f a b v l g : f a b = Ok v ->
  binary_ f (VecStack.of_top (a :: b :: l) g) = (Ok tt, VecStack.of_top (v :: l) g).
Proof. intros Hf. by rw /binary_ /sbind !spop_of_top /slift Hf spush_of_top. Qed.

Lemma ternary__of_top f a b c v l g : f a b c = Ok v ->
  ternary_ f (VecStack.of_top (a :: b :: c :: l) g) = (Ok tt, VecStack.of_top (v :: l) g).
Proof. intros Hf. by rw /ternary_ /sbind !spop_of_top /slift Hf spush_of_top. Qed.

Lemma swap_top_app x m y r : swap_top (S (length m)) (x :: m ++ y :: r) = Some (y :: m ++ x :: r).
Proof.
  rw /swap_top /= list_lookup_middle; [done|]. do 2 f_equal.
  rw insert_app_r_alt; [done|]. by rw Nat.sub_diag.
Qed.

Lemma swap_top_split n l l' : (0 < n)%nat -> swap_top n l = Some l' ->
  exists x m y r, n = S (length m) /\ l = x :: m ++ y :: r /\ l' = y :: m ++ x :: r.
Proof.
  intros Hn. rw /swap_top. destruct l as [|x l]; [done|]. destruct n as [|n]; [lia|].
  cbn [lookup list_lookup]. destruct (l !! n) as [y|] eqn:Hy; [|done].
  pose proof (take_drop_middle l n y Hy) as Hl.
  assert (Hn' : length (take n l) = n) by (apply lookup_lt_Some in Hy; rw length_take; lia).
  intros [= <-]. exists x, (take n l), y, (drop (S n) l). split; [by rw Hn'|].
  split; [by rw Hl|]. rw -{1}Hl /=. f_equal. rw insert_app_r_alt; [lia|]. by rw Hn' Nat.sub_diag.
Qed.

(** ** Refinement *)
Ltac alu_operands :=
  repeat match goal with
  | H : bin _ ?l = Some _ |- _ => destruct l as [|? [|? ?]]; [done|done|injection H as <-]
  | H : un _ ?l = Some _ |- _ => destruct l as [|? ?]; [done|injection H as <-]
  | H : ter _ ?l = Some _ |- _ =>
      destruct l as [|? [|? [|? ?]]]; [done|done|done|injection H as <-]
  | H : Forall _ (_ :: _) |- _ => apply Forall_cons in H as [? H]
  end.

Lemma exec_stack_instruction_alu i l l' g :
  Forall (fits 256) l -> alu i l = Some l' ->
  exec_stack_instruction i (VecStack.of_top l g) = (Ok tt, VecStack.of_top l' g).
Proof.
  intros Hl. rw /alu /exec_stack_instruction /get_dup_position /get_swap_position.
  destruct ((Op.DUP1 <=? i) && (i <=? Op.DUP16)) eqn:Hdup.
  { intros Ha. destruct (l !! Z.to_nat (i - Op.DUP1)) as [v|] eqn:Hv; [|done].
    injection Ha as <-. zbool. rw /sbind /slift /sget /=.
    rw (VecStack.peek_of_top l g _ v); [lia|done|]. apply spush_of_top. }
  destruct ((Op.SWAP1 <=? i) && (i <=? Op.SWAP16)) eqn:Hswap.
  { zbool. intros (x & m & y & r & Hn & -> & ->)%swap_top_split; [|lia].
    rw /sbind /slift /sget /=. rw (_ : i - Op.SWAP1 + 1 = 1 + zlen m); [rw /zlen; lia|].
    by rw VecStack.swap_with_top_of_top. }
  destruct (i =? Op.POP).
  { destruct l; [done|]. intros [= <-]. by rw /sbind spop_of_top. }
  repeat match goal with
  | |- context [if i =? ?o then _ else _] => destruct (i =? o)
  end; intros Ha; try done; alu_operands;
    rw ?binary_of_top /sbind ?spop_of_top ?spush_of_top; try done.
  - by rw div_spec; destruct (Z.eqb_spec z0 0) as [->|]; [rw Z.div_0_r|].
  - rw /is_zero. by destruct (Z.eqb_spec z0 0).
  - erewrite binary__of_top by by apply sdiv_spec. do 3 f_equal.
    destruct (Z.eqb_spec z0 0) as [->|]; [|done]. by destruct (signed 256 z).
  - by rw smod_spec.
  - rw powmod_spec; [done|by destruct H0|done].
  - by rw slt_spec.
  - by rw sgt_spec.
  - apply binary__of_top. by apply byte_spec.
  - apply ternary__of_top. by apply addmod_spec.
  - apply ternary__of_top. by apply mulmod_spec.
  - destruct (Z.ltb_spec z 32); [|done]. rw spop_of_top /slift signextend_spec;
      [by destruct H|done|]. apply spush_of_top.
Qed.

(** Results have the width of a word, and the stack changes as the
    instruction table announces. *)
Definition table_dup_swap (i : Instruction) : bool :=
  let info := info_of i in
  if (Op.DUP1 <=? i) && (i <=? Op.DUP16) then
    (InstructionInfo.args info =? i - Op.DUP1 + 1) &&
    (InstructionInfo.ret info =? InstructionInfo.args info + 1)
  else if (Op.SWAP1 <=? i) && (i <=? Op.SWAP16) then
    (InstructionInfo.args info =? i - Op.SWAP1 + 2) &&
    (InstructionInfo.ret info =? InstructionInfo.args info)
  else true.

Lemma table_dup_swap_ok i : 0 <= i < 256 -> table_dup_swap i = true.
Proof. apply byte_forall. by vm_compute. Qed.

Lemma bool_fits (b : bool) : fits 256 (if b then 1 else 0).
Proof. by destruct b. Qed.

Lemma div_fits a b : fits 256 a -> fits 256 b -> fits 256 (if b =? 0 then 0 else a / b).
Proof.
  intros [? ?] [? ?]. destruct (Z.eqb_spec b 0); [done|]. split; [apply Z.div_pos; lia|].
  apply Z.div_lt_upper_bound; nia.
Qed.

Lemma mod_fits a c : fits 256 c -> fits 256 (if c =? 0 then 0 else a mod c).
Proof.
  intros [? ?]. destruct (Z.eqb_spec c 0); [done|].
  pose proof (Z.mod_pos_bound a c ltac:(lia)). split; lia.
Qed.

Lemma be_byte_fits i v : fits 256 (be_byte i v).
Proof.
  rw /be_byte. destruct (nth_in_or_default (Z.to_nat i) (to_be 32 v) 0) as [Hin| ->]; [|done].
  apply list_elem_of_In in Hin. eapply Forall_forall in Hin; [|apply to_be_ok].
  by apply (fits_mono 8).
Qed.

Lemma alu_fits i l l' : Forall (fits 256) l -> alu i l = Some l' -> Forall (fits 256) l'.
Proof.
  intros Hl. rw /alu.
  destruct ((Op.DUP1 <=? i) && (i <=? Op.DUP16)).
  { intros (v & Hv & ->)%fmap_Some. constructor; [|done]. by eapply Forall_lookup_1. }
  destruct ((Op.SWAP1 <=? i) && (i <=? Op.SWAP16)) eqn:Hswap.
  { zbool. intros (x & m & y & r & Hn & -> & ->)%swap_top_split; [|lia].
    apply Forall_cons in Hl as [? [? [? ?]%Forall_cons]%Forall_app]. 
    constructor; [done|]. apply Forall_app. split; [done|]. by constructor. }
  destruct (i =? Op.POP).
  { destruct l; [done|]. intros [= <-]. by apply Forall_cons in Hl as [_ ?]. }
  repeat match goal with
  | |- context [if i =? ?o then _ else _] => destruct (i =? o)
  end; intros Ha; try done; alu_operands; (constructor; [|done]); try apply bool_fits;
    try by apply (wrap_fits 256).
  - by apply div_fits.
  - by apply mod_fits.
  - destruct (z0 =? 0); [done|]. by apply (wrap_fits 256).
  - destruct (z0 =? 0); [done|]. by apply (wrap_fits 256).
  - by apply (not_fits 256).
  - by apply land_fits.
  - by apply lor_fits.
  - by apply lxor_fits.
  - apply be_byte_fits.
  - by apply mod_fits.
  - by apply mod_fits.
  - destruct (z <? 32); [|done]. by apply (wrap_fits 256).
Qed.

(** The instructions of [exec_stack_instruction]. *)
Definition alu_ops : list Instruction :=
  [Op.POP; Op.ADD; Op.MUL; Op.SUB; Op.DIV; Op.MOD; Op.SDIV; Op.SMOD; Op.EXP; Op.NOT; Op.LT;
   Op.SLT; Op.GT; Op.SGT; Op.EQ; Op.ISZERO; Op.AND; Op.OR; Op.XOR; Op.BYTE; Op.ADDMOD;
   Op.MULMOD; Op.SIGNEXTEND].

Definition alu_op (i : Instruction) : bool :=
  ((Op.DUP1 <=? i) && (i <=? Op.DUP16)) || ((Op.SWAP1 <=? i) && (i <=? Op.SWAP16)) ||
  existsb (Z.eqb i) alu_ops.

Lemma alu_shape i l : 0 <= i < 256 -> alu_op i = true ->
  InstructionInfo.args (info_of i) <= zlen l ->
  exists l', alu i l = Some l' /\
    zlen l' = zlen l - InstructionInfo.args (info_of i) + InstructionInfo.ret (info_of i).
Proof.
  intros Hi Hop Hargs. pose proof (table_dup_swap_ok i Hi) as Ht. rw /table_dup_swap in Ht.
  move: Ht Hop. rw /alu /alu_op. destruct ((Op.DUP1 <=? i) && (i <=? Op.DUP16)) eqn:Hdup.
  { intros Ht _. zbool. destruct (lookup_lt_is_Some_2 l (Z.to_nat (i - Op.DUP1))) as [v ->];
      [rw /zlen in Hargs; lia|].
    eexists. split; [done|]. rw zlen_cons. lia. }
  destruct ((Op.SWAP1 <=? i) && (i <=? Op.SWAP16)) eqn:Hswap.
  { intros Ht _. zbool. rw /zlen in Hargs. destruct l as [|x l]; [cbn in Hargs; lia|].
    destruct (lookup_lt_is_Some_2 (x :: l) (Z.to_nat (i - Op.SWAP1 + 1))) as [v Hv]; [lia|].
    rw /swap_top Hv. eexists. split; [done|]. rw /zlen !length_insert. lia. }
  intros _ (o & Ho & <-%Z.eqb_eq)%existsb_exists. rw /alu_ops in Ho. cbn [In] in Ho.
  repeat (destruct Ho as [<-|Ho]; [op_eval; eval_args Hargs; operands Hargs;
    eexists; split; [reflexivity|]; rw !zlen_cons;
    eval_info; lia|]); done.
Qed.
