(* ===== verification/CopySpec.v ===== *)
(** * Copies into memory and reads of call data

    [copy_data_to_memory] and [CALLDATALOAD] read a byte string as if it were
    followed by zeros. *)

From S2P Require Import Prelude Evm Memory Interpreter.
From stdpp Require Import base gmap list.
Local Open Scope Z_scope.
Local Open Scope cita_scope.

(** [n] bytes of [src] from offset [s], zeros past its end. *)
Definition window (src : bytes) (s n : Z) : bytes :=
  take (Z.to_nat n) (drop (Z.to_nat s) src ++ replicate (Z.to_nat n) 0).

(** [mem] with the bytes from offset [d] replaced by [w]. *)
Definition patch (mem : bytes) (d : Z) (w : bytes) : bytes :=
  take (Z.to_nat d) mem ++ w ++ drop (Z.to_nat d + length w) mem.

Lemma window_length src s n : 0 <= n -> zlen (window src s n) = n.
Proof.
  intros. rw /zlen /window length_take length_app length_replicate. lia.
Qed.

Lemma window_ok src s n : bytes_ok src -> bytes_ok (window src s n).
Proof.
  intros. apply Forall_take, Forall_app. split; [by apply Forall_drop|].
  by apply Forall_replicate.
Qed.

Lemma patch_nil mem d : patch mem d [] = mem.
Proof. by rw /patch /= Nat.add_0_r take_drop. Qed.

Lemma patch_length mem d w : 0 <= d -> d + zlen w <= zlen mem -> zlen (patch mem d w) = zlen mem.
Proof. apply zlen_splice. Qed.

(** A suffix of zeros written first does not disturb the prefix. *)
Lemma patch_patch mem d w z :
  0 <= d -> d + zlen w + zlen z <= zlen mem ->
  patch (patch mem (d + zlen w) z) d w = patch mem d (w ++ z).
Proof.
  rw /patch /zlen length_app => Hd Hlen.
  rw (_ : Z.to_nat (d + Z.of_nat (length w)) = (Z.to_nat d + length w)%nat); [lia|].
  rw take_app_le; [rw length_take; lia|]. rw take_take Nat.min_l; [lia|].
  rw drop_app_length'; [rw length_take; lia|]. by rw -!app_assoc Nat.add_assoc.
Qed.

Lemma zero_slice_ok mem off n :
  zlen mem < 2 ^ 64 -> 0 <= off -> 0 <= n -> (n <> 0 -> off + n <= zlen mem) ->
  zero_slice mem off n = Ok (patch mem off (replicate (Z.to_nat n) 0)).
Proof.
  intros Hmem Hoff Hn Hin. rw /zero_slice.
  destruct (Memory.writeable_slice_ok (E := Error) mem Hmem off n) as (a & -> & Ha & Han & Heq);
    [done..|].
  cbn [obind]. rw Z.add_simpl_l. rw splice_ok; [done|rw zlen_replicate; rw /Memory.size in Han; lia|].
  f_equal. destruct (decide (n = 0)) as [->|Hne]; [by rw patch_nil /= Nat.add_0_r take_drop|].
  by rw (Heq Hne).
Qed.

Lemma window_inside src s n : 0 <= s -> 0 <= n -> s + n <= zlen src ->
  window src s n = take (Z.to_nat n) (drop (Z.to_nat s) src).
Proof.
  rw /zlen /window => ???. rw take_app_le; [rw length_drop; lia|done].
Qed.

Lemma window_past src s n : 0 <= s -> s <= zlen src -> zlen src <= s + n ->
  window src s n =
    drop (Z.to_nat s) src ++ replicate (Z.to_nat (s + n - zlen src)) 0.
Proof.
  rw /zlen /window => ???. rw take_app_ge; [rw length_drop; lia|]. f_equal.
  rw take_replicate length_drop. f_equal. lia.
Qed.

Lemma window_beyond src s n : zlen src <= s -> window src s n = replicate (Z.to_nat n) 0.
Proof.
  rw /zlen /window => ?. rw drop_ge; [lia|]. by rw take_replicate Nat.min_id.
Qed.

Lemma write_slice_patch mem off w :
  zlen mem < 2 ^ 64 -> 0 <= off -> (w <> [] -> off + zlen w <= zlen mem) ->
  Memory.write_slice (E := Error) mem off w = Ok (patch mem off w).
Proof.
  intros Hmem Hoff Hin. destruct (Memory.write_slice_ok (E := Error) mem Hmem off w)
    as (m & Hm & _ & Heq); [done..|].
  rw Hm. f_equal. destruct w; [by rw patch_nil; injection Hm|]. by apply Heq.
Qed.

(** The copy is exact: the destination range receives the window of the
    source and nothing else changes. *)
Lemma copy_data_spec mem src d s n :
  zlen mem < 2 ^ 64 -> zlen src < 2 ^ 63 -> fits 256 d -> fits 256 s -> fits 256 n ->
  (n <> 0 -> d + n <= zlen mem) ->
  copy_data mem src d s n = Ok (patch mem d (window src s n)).
Proof.
  intros Hmem Hsrc [Hd1 Hd2] [Hs1 Hs2] [Hn1 Hn2] Hin. pose proof (zlen_nonneg src) as Hlen.
  rw /copy_data. destruct (Z.ltb_spec (zlen src) s) as [Hbeyond|Hs].
  { cbn [orb obind]. rw zero_slice_ok; [done..|]. cbn [obind].
    rw (proj2 (Z.ltb_ge s _)); [lia|]. by rw window_beyond; [lia|]. }
  assert (Hend : (if false || (zlen src <? n) then Ok true
    else stop <- add_ 256 s n;; Ok (zlen src <? stop)) = Ok (E := Error) (zlen src <? s + n)).
  { cbn [orb]. destruct (Z.ltb_spec (zlen src) n).
    - rw (proj2 (Z.ltb_lt _ (s + n))); [lia|done].
    - by rw add_ok; [lia|]. }
  rw Hend. cbn [obind]. destruct (Z.ltb_spec (zlen src) (s + n)) as [Hpast|Hfit].
  - specialize (Hin ltac:(lia)). rw add_ok; [lia|]. cbn [obind]. rw sub_ok; [lia|]. cbn [obind].
    rw add_ok; [lia|]. cbn [obind]. rw sub_ok; [lia|]. cbn [obind].
    rw zero_slice_ok; [done|lia|lia|lia|]. cbn [obind]. rw window_past; [lia..|].
    destruct (Z.ltb_spec s (zlen src)) as [Hlt|Hge].
    + rw low_u64_small; [split; lia|]. rw slice_ok; [lia..|]. cbn [obind].
      rw (_ : take _ (drop (Z.to_nat s) src) = drop (Z.to_nat s) src).
      { apply take_ge. rw length_drop /zlen. lia. }
      set (w := drop (Z.to_nat s) src).
      assert (Hw : zlen w = zlen src - s) by (rw /w /zlen length_drop; unfold zlen in *; lia).
      rw (_ : d + zlen src - s = d + zlen w); [lia|]. set (z := replicate _ 0).
      assert (Hz : zlen z = s + n - zlen src) by (rw /z zlen_replicate; lia).
      rw write_slice_patch; [rw patch_length; lia|done|intros _; rw patch_length; lia|].
      f_equal. apply patch_patch; lia.
    + f_equal. rw (_ : s = zlen src); [lia|]. rw drop_ge; [rw /zlen; lia|].
      by rw Z.add_simpl_r.
  - rw add_ok. { rw !low_u64_small; [split; lia|split; lia|lia]. } cbn [obind].
    rw !low_u64_small; [split; lia|split; lia|]. rw window_inside; [done..|].
    destruct (Z.ltb_spec s (zlen src)) as [Hlt|Hge].
    + rw slice_ok; [lia..|]. cbn [obind]. rw Z.add_simpl_r.
      rw write_slice_patch; [done|done| |done]. intros Hne.
      assert (n <> 0) by (intros ->; done). specialize (Hin ltac:(done)).
      unfold zlen in *. rw length_take length_drop. lia.
    + f_equal. rw (_ : n = 0); [lia|]. by rw patch_nil.
Qed.

(** ** [CALLDATALOAD] *)
Lemma of_be_zeros n : of_be (replicate n 0) = 0.
Proof.
  induction n as [|n IH]; [done|]. rw replicate_S_end of_be_snoc IH. done.
Qed.

Lemma calldata_word_spec d id : zlen d < 2 ^ 63 -> fits 256 id ->
  calldata_word (Some d) id = Ok (of_be (window d id 32)).
Proof.
  intros Hd [Hi1 Hi2]. pose proof (zlen_nonneg d). rw /calldata_word.
  destruct (Z.ltb_spec id (zlen d)) as [Hlt|Hge].
  - rw low_u64_small; [split; lia|]. rw wrap_small; [split; lia|].
    rw (proj2 (Z.ltb_lt _ _)); [lia|]. cbn [andb].
    rw slice_ok; [lia..|]. cbn [obind].
    set (w := take _ _). assert (Hw : zlen w = Z.min (zlen d) (id + 32) - id).
    { rw /w. apply zlen_slice; lia. }
    rw splice_ok; [done|rw Hw zlen_replicate; lia|]. cbn [obind]. do 2 f_equal.
    change (Z.to_nat 0) with 0%nat. rw take_0 app_nil_l Nat.add_0_l drop_replicate. destruct (Z.le_gt_cases (zlen d) (id + 32)).
    + rw window_past; [lia..|]. f_equal.
      * rw /w. apply take_ge. rw length_drop. unfold zlen in *. lia.
      * f_equal. unfold zlen in *. lia.
    + rw window_inside; [lia..|].
      rw (_ : (32 - length w)%nat = 0%nat); [unfold zlen in *; lia|].
      rw app_nil_r /w Z.min_r; [lia|]. by rw Z.add_simpl_l.
  - rw andb_false_r. f_equal. by rw window_beyond // of_be_zeros.
Qed.

Lemma calldata_word_fits data id : (forall d, data = Some d -> bytes_ok d /\ zlen d < 2 ^ 63) ->
  fits 256 id -> exists w, calldata_word data id = Ok w /\ fits 256 w.
Proof.
  intros Hdata Hid. destruct data as [d|]; [|by exists 0].
  destruct (Hdata d eq_refl) as [Hd Hlen]. rw calldata_word_spec; [done..|]. eexists.
  split; [done|]. pose proof (of_be_bound _ (window_ok d id 32 Hd)) as Hb.
  rw window_length in Hb; [done|]. exact Hb.
Qed.
