(* ===== verification/InterpreterSpec.v ===== *)
(** * Correctness of single instructions

    An instruction that passed [verify_instruction] and was paid for runs
    without a panic: the stack changes as the instruction table announces,
    memory keeps its size, the environment keeps its invariant, and gas
    handed back is gas that was handed on. *)

From S2P Require Import Prelude Instructions Schedule Evm Memory Stack SharedCache Gasometer.
From S2P Require Import GasometerSpec Interpreter Words StackSpec CopySpec.
From stdpp Require Import base gmap list strings.
Local Open Scope Z_scope.
Local Open Scope cita_scope.

(** The widths of the call parameters. *)
Record params_ok (p : ActionParams.t) : Prop := {
  ok_address : fits 160 (ActionParams.address p);
  ok_sender : fits 160 (ActionParams.sender p);
  ok_origin : fits 160 (ActionParams.origin p);
  ok_gas : fits 256 (ActionParams.gas p);
  ok_gas_price : fits 256 (ActionParams.gas_price p);
  ok_value : fits 256 (ActionValue_value (ActionParams.value p));
  ok_code : match ActionParams.code p with Some c => vec_ok c | None => True end;
  ok_data : match ActionParams.data p with Some d => vec_ok d | None => True end;
}.

Section instruction.
  (** Gas is counted in [usize]. *)
Local Abbreviation W := 64.
  Context {X : Type} {HX : Externalities X} (I : Z -> X -> Prop) {HXok : ExternalitiesOk X I}.
  Context (sha3 : bytes -> H256) (sha3_fits : forall b, fits 256 (sha3 b)).
  Context (params : ActionParams.t) (Hparams : params_ok params).

(** ** Rules for the machine operations *)
Section rules.
  Context (b : bytes) (pos : Z) (x : X).

Lemma wp_pop v l g (Q : Z -> machine X -> Prop) (R : Error -> machine X -> Prop) :
  Q v (Machine b pos (VecStack.of_top l g) x) ->
  wp pop_back Q R (Machine b pos (VecStack.of_top (v :: l) g) x).
Proof using. by rw /wp /pop_back /on_stack /= spop_of_top. Qed.

Lemma wp_push v l g (Q : unit -> machine X -> Prop) (R : Error -> machine X -> Prop) :
  Q tt (Machine b pos (VecStack.of_top (v :: l) g) x) ->
  wp (push v) Q R (Machine b pos (VecStack.of_top l g) x).
Proof using. by rw /wp /push /on_stack spush_of_top. Qed.

Lemma wp_pop_n u l g (Q : list Z -> machine X -> Prop) (R : Error -> machine X -> Prop) :
  length g = 4%nat -> zlen u <= 4 ->
  (forall g', length g' = 4%nat -> Q u (Machine b pos (VecStack.of_top l g') x)) ->
  wp (pop_n (zlen u)) Q R (Machine b pos (VecStack.of_top (u ++ l) g) x).
Proof using.
  intros Hg Hu HQ. destruct (VecStack.pop_n_of_top (E := Error) u l g) as (g' & Hg' & Hpop);
    [done..|]. rw /wp /pop_n /on_stack /= Hpop. apply HQ. by rw Hg'.
Qed.

Lemma wp_then_ok (c : M Error (machine X) unit) Q (R : Error -> machine X -> Prop) m :
  wp c (fun _ m' => Q IOk m') R m -> wp (then_ok c) Q R m.
Proof using. intros. by apply wp_bind. Qed.

Lemma wp_push_ok v l g Q (R : Error -> machine X -> Prop) :
  Q IOk (Machine b pos (VecStack.of_top (v :: l) g) x) ->
  wp (then_ok (push v)) Q R (Machine b pos (VecStack.of_top l g) x).
Proof using. intros. by apply wp_then_ok, wp_push. Qed.

Lemma wp_on_mem f b' s (Q : unit -> machine X -> Prop) (R : Error -> machine X -> Prop) :
  f b = Ok b' -> Q tt (Machine b' pos s x) -> wp (on_mem f) Q R (Machine b pos s x).
Proof using. by rw /wp /on_mem /= => ->. Qed.

Lemma wp_read_slice off n s (Q : bytes -> machine X -> Prop) (R : Error -> machine X -> Prop) :
  fits 256 off -> fits 256 n -> bytes_ok b -> zlen b < 2 ^ 63 -> (n <> 0 -> off + n <= zlen b) ->
  (forall d, vec_ok d -> zlen d = n -> Q d (Machine b pos s x)) ->
  wp (read_slice off n) Q R (Machine b pos s x).
Proof using.
  intros [? ?] [? ?] Hb Hlen Hin HQ. apply wp_bind, wp_get, wp_lift. cbn [mem].
  destruct (Memory.read_slice_ok (E := Error) b ltac:(rw /Memory.size; lia) off n) as (d & -> & Hd & Heq); [done..|].
  cbn [owp]. apply HQ; [|done]. destruct (decide (n = 0)) as [->|Hn].
  - destruct d; [by split; [constructor|]|]. rw zlen_cons in Hd. pose proof (zlen_nonneg d). lia.
  - split; [|lia]. rw (Heq Hn). apply Forall_take. by apply Forall_drop.
Qed.

Lemma wp_on_ext {A} (c : M Error X A) s (Q : A -> machine X -> Prop)
    (R : Error -> machine X -> Prop) :
  wp c (fun a x' => Q a (Machine b pos s x')) (fun e x' => R e (Machine b pos s x')) x ->
  wp (on_ext c) Q R (Machine b pos s x).
Proof using. rw /wp /on_ext /=. by destruct (c x) as [[] ]. Qed.

Lemma wp_try_ext {A} n (c : M TrieError X A) (P : A -> Prop) s x0
    (Q : A -> machine X -> Prop) (R : Error -> machine X -> Prop) :
  ext_method (I n) c P -> ext_step (I n) x0 x ->
  (forall a x', P a -> ext_step (I n) x0 x' -> Q a (Machine b pos s x')) ->
  (forall e x', ext_step (I n) x0 x' -> R e (Machine b pos s x')) ->
  wp (try_ext c) Q R (Machine b pos s x).
Proof using.
  intros Hc Hx HQ HR. apply wp_on_ext, wp_map_err. eapply wp_conseq; [apply Hc; apply Hx| |].
  - intros a x' [? ?]. apply HQ; [done|]. by eapply ext_step_trans.
  - intros e x' ?. apply HR. by eapply ext_step_trans.
Qed.

Lemma wp_total_ext {A} n (c : M void X A) (P : A -> Prop) s x0
    (Q : A -> machine X -> Prop) (R : Error -> machine X -> Prop) :
  ext_method (I n) c P -> ext_step (I n) x0 x ->
  (forall a x', P a -> ext_step (I n) x0 x' -> Q a (Machine b pos s x')) ->
  wp (on_ext (stotal c)) Q R (Machine b pos s x).
Proof using.
  intros Hc Hx HQ. apply wp_on_ext, wp_total. eapply wp_conseq; [apply Hc; apply Hx| |done].
  intros a x' [? ?]. apply HQ; [done|]. by eapply ext_step_trans.
Qed.
End rules.

(** ** What an instruction guarantees *)
Definition provided_ok (s : Schedule.t) (i : Instruction) (l : list Z) (provided : option Z)
    : Prop :=
  match provided with
  | Some p => gives_gas i = true /\ 0 <= p /\ p + min_cost s i l < 2 ^ W
  | None => gives_gas i = false
  end.

Definition result_ok (s : Schedule.t) (i : Instruction) (l : list Z) (gas : Z)
    (provided : option Z) (r : InstructionResult) : Prop :=
  match r with
  | IOk | JumpToPosition _ => halts i = false
  | UnusedGas u => halts i = false /\
      match provided with Some p => 0 <= u < p + min_cost s i l | None => False end
  | StopExecutionNeedsReturn u off size =>
      u = gas /\ fits 256 off /\ fits 256 size /\ accesses i l = [(off, size)]
  | StopExecution => True
  end.

(** Gas that comes back with the result. *)
Definition returned (r : InstructionResult) : Z := match r with UnusedGas u => u | _ => 0 end.

Record instr_post (N : Z) (i : Instruction) (gas : Z) (provided : option Z) (b : bytes) (pos : Z)
    (l : list Z) (x : X) (r : InstructionResult) (m : machine X) : Prop := {
  post_stack : exists l' g', stack m = VecStack.of_top l' g' /\ length g' = 4%nat /\
    Forall (fits 256) l' /\
    zlen l' = zlen l - InstructionInfo.args (info_of i) + InstructionInfo.ret (info_of i);
  post_mem : zlen (mem m) = zlen b /\ bytes_ok (mem m);
  post_position : position m = SharedCache.next_position i (pos - 1);
  post_ext : ext_step (I (N + returned r)) x (ext m);
  post_result : result_ok (schedule x) i l gas provided r;
}.

Definition instr_spec (i : Instruction) : Prop :=
  forall B N gas code provided b pos l g x,
  I B x -> 0 <= N -> N + min_cost (schedule x) i l + default 0 provided <= B -> fits W gas -> vec_ok code -> provided_ok (schedule x) i l provided ->
  bytes_ok b -> zlen b < 2 ^ 63 -> 1 <= pos <= zlen code ->
  Forall (fits 256) l -> length g = 4%nat -> InstructionInfo.args (info_of i) <= zlen l ->
  covers i l (zlen b) ->
  wp (exec_instruction W sha3 gas params code i provided)
    (instr_post N i gas provided b pos l x) (fun _ m => ext_step (I N) x (ext m))
    (Machine b pos (VecStack.of_top l g) x).

Lemma provided_nonneg s i l provided : provided_ok s i l provided -> 0 <= default 0 provided.
Proof using. destruct provided; cbn; [tauto|lia]. Qed.

Lemma budget_le B N i l provided x :
  I B x -> provided_ok (schedule x) i l provided ->
  N + min_cost (schedule x) i l + default 0 provided <= B -> N <= B.
Proof using HXok.
  intros Hx Hp%provided_nonneg ?.
  pose proof (min_cost_nonneg _ i l (schedule_ok (I := I) B x Hx)). lia.
Qed.

(** Weaken the budget of an environment step to what the goal asks for. *)
Ltac weaken :=
  lazymatch goal with
  | |- ext_step (I _) _ _ => eapply (ext_step_mono I); [|eassumption]; cbn [returned]; lia
  end.

Ltac in_intros :=
  intros B N gas code provided b pos l g x Hx HN HB Hgas Hcode Hprov Hb Hblen Hpos Hl Hg Hargs Hcov;
  assert (Hstep : ext_step (I B) x x) by done;
  pose proof (budget_le _ _ _ _ _ _ Hx Hprov HB) as HNB.

Ltac in_open :=
  intros B N gas code provided b pos l g x Hx HN HB Hgas Hcode Hprov Hb Hblen Hpos Hl Hg Hargs Hcov;
  assert (Hstep : ext_step (I B) x x) by done;
  pose proof (budget_le _ _ _ _ _ _ Hx Hprov HB) as HNB;
  rw /exec_instruction; op_eval; eval_args Hargs; operands Hargs; operand_widths Hl;
  move: Hcov; rw /covers /accesses /arg; op_eval; cbn [nth]; intros Hcov;
  repeat match type of Hcov with
  | Forall _ (_ :: _) => let H := fresh "Hmem" in apply Forall_cons in Hcov as [H Hcov]; cbn in H
  end.

Ltac in_step :=
  lazymatch goal with
  | |- wp (if ?b then _ else _) _ _ _ => destruct b eqn:?
  | |- wp (sbind _ _) _ _ _ => apply wp_bind
  | |- wp pop_back _ _ _ => apply wp_pop
  | |- wp (push _) _ _ _ => apply wp_push
  | |- wp (then_ok (push _)) _ _ _ => apply wp_push_ok
  | |- wp (then_ok _) _ _ _ => apply wp_then_ok
  | |- wp sget _ _ _ => apply wp_get; cbn [mem position stack ext]
  | |- wp (sret _) _ _ _ => apply wp_ret
  | |- wp (read_slice _ _) _ _ _ => apply wp_read_slice; [assumption..|intros]
  | |- wp (try_ext (storage_at _)) _ _ _ =>
      eapply wp_try_ext; [apply storage_at_ok|eassumption|intros|intros; cbn [ext]; weaken]
  | |- wp (try_ext (set_storage _ _)) _ _ _ =>
      eapply wp_try_ext; [apply set_storage_ok; assumption|eassumption|intros|intros; cbn [ext]; weaken]
  | |- wp (try_ext (balance _)) _ _ _ =>
      eapply wp_try_ext; [apply balance_ok|eassumption|intros|intros; cbn [ext]; weaken]
  | |- wp (try_ext (extcodesize _)) _ _ _ =>
      eapply wp_try_ext; [apply extcodesize_ok|eassumption|intros|intros; cbn [ext]; weaken]
  | |- wp (try_ext (extcode _)) _ _ _ =>
      eapply wp_try_ext; [apply extcode_ok|eassumption|intros|intros; cbn [ext]; weaken]
  | |- wp (try_ext (suicide _)) _ _ _ =>
      eapply wp_try_ext; [apply suicide_ok|eassumption|intros|intros; cbn [ext]; weaken]
  | |- wp (on_ext (stotal (log _ _))) _ _ _ =>
      eapply wp_total_ext; [apply log_ok|eassumption|intros]
  | |- wp (on_ext (stotal (blockhash _))) _ _ _ =>
      eapply wp_total_ext; [apply blockhash_ok; assumption|eassumption|intros]
  end.

Lemma fits_zero : fits 256 0.
Proof using. done. Qed.
Lemma fits_one : fits 256 1.
Proof using. done. Qed.

(** Conclude: the new stack, memory and result. *)
Ltac in_finish :=
  split; cbn [stack mem position ext];
  [do 2 eexists; split; [reflexivity|]; split; [assumption|]; split;
     [repeat (apply Forall_cons; split); try assumption; try apply fits_zero; try apply fits_one
     |eval_info; rw ?zlen_cons; lia]
  |split; try reflexivity; try assumption
  |rw /SharedCache.next_position /is_push; op_eval; lia
  |cbn [ext]; try weaken
  |rw /result_ok /halts /accesses /arg; op_eval; cbn [nth]; try done].

Lemma instr_jumps i : i = Op.JUMP \/ i = Op.JUMPI \/ i = Op.JUMPDEST -> instr_spec i.
Proof using HXok. intros [->|[->| ->]]; in_open; repeat in_step; in_finish. Qed.

Lemma instr_stops i : i = Op.RETURN \/ i = Op.STOP \/ i = Op.SUICIDE -> instr_spec i.
Proof using HXok. intros [->|[->| ->]]; in_open; repeat in_step; in_finish. Qed.

(** Values with a smaller width. *)
Lemma fits_word n v : 0 <= n <= 256 -> fits n v -> fits 256 v.
Proof using. apply fits_mono. Qed.

Lemma length_fits (v : bytes) : zlen v < 2 ^ 64 -> fits 256 (zlen v).
Proof using. intros. apply (fits_word 64); [lia|]. split; [apply zlen_nonneg|done]. Qed.

Lemma instr_params i :
  i = Op.GAS \/ i = Op.ADDRESS \/ i = Op.ORIGIN \/ i = Op.CALLER \/ i = Op.CALLVALUE \/
  i = Op.GASPRICE -> instr_spec i.
Proof using HXok Hparams.
  pose proof (cost_width (W := W)). destruct Hparams.
  intros [->|[->|[->|[->|[->| ->]]]]]; in_open; repeat in_step; in_finish;
    rw ?as_u256_spec; try (by apply (fits_word 160)). apply (fits_word W); [lia|done].
Qed.

Lemma instr_sizes i :
  i = Op.MSIZE \/ i = Op.PC \/ i = Op.CALLDATASIZE \/ i = Op.CODESIZE -> instr_spec i.
Proof using HXok Hparams.
  destruct Hparams. intros [->|[->|[->| ->]]]; in_open; destruct Hcode as [Hcode1 Hcode2].
  - repeat in_step. in_finish. apply length_fits. lia.
  - repeat in_step. apply wp_lift. rw sub_ok; [lia|]. cbn [owp]. repeat in_step. in_finish.
    split; lia.
  - repeat in_step. in_finish. destruct (ActionParams.data params) as [d|]; [|done].
    destruct ok_data0. apply length_fits. lia.
  - repeat in_step. in_finish. apply length_fits. lia.
Qed.

Lemma instr_env i :
  i = Op.COINBASE \/ i = Op.TIMESTAMP \/ i = Op.NUMBER \/ i = Op.DIFFICULTY \/
  i = Op.GASLIMIT -> instr_spec i.
Proof using HXok.
  intros [->|[->|[->|[->| ->]]]]; in_open; destruct (env_info_ok (I := I) B x Hx); repeat in_step;
    in_finish; [by apply (fits_word 160)|by apply (fits_word 64)|by apply (fits_word 64)].
Qed.

Lemma instr_queries i :
  i = Op.BALANCE \/ i = Op.EXTCODESIZE \/ i = Op.BLOCKHASH \/ i = Op.SLOAD -> instr_spec i.
Proof using HXok.
  intros [->|[->|[->| ->]]]; in_open; repeat in_step; in_finish. by apply (fits_word 64).
Qed.

Lemma wp_inc_sstore_clears n b pos s x0 x (Q : unit -> machine X -> Prop) R :
  0 <= n -> ext_step (I (n + 1)) x0 x ->
  (forall x', ext_step (I n) x0 x' -> Q tt (Machine b pos s x')) ->
  wp (on_ext (stotal inc_sstore_clears)) Q R (Machine b pos s x).
Proof using HXok.
  intros Hn Hx HQ. apply wp_on_ext, wp_total.
  eapply wp_conseq; [by apply (inc_sstore_clears_ok (I := I) n); [|apply Hx]| |done].
  intros [] x' ?. apply HQ. by eapply ext_step_trans.
Qed.

(** The refund counter grows only when the instruction has been paid for. *)
Lemma instr_SSTORE : instr_spec Op.SSTORE.
Proof using HXok.
  in_open. rw /exec_sstore.
  pose proof (min_cost_pos _ Op.SSTORE (x0 :: x1 :: l) (schedule_ok (I := I) B x Hx) eq_refl).
  pose proof (provided_nonneg _ _ _ _ Hprov).
  repeat in_step.
  - apply (wp_inc_sstore_clears (B - 1) _ _ _ x); [lia|weaken|]. intros.
    repeat in_step. in_finish.
  - in_finish.
Qed.

Lemma instr_SHA3 : instr_spec Op.SHA3.
Proof using HXok sha3_fits. in_open. repeat in_step. in_finish. apply sha3_fits. Qed.

Lemma instr_MLOAD : instr_spec Op.MLOAD.
Proof using HXok.
  in_open. repeat in_step. apply wp_lift. specialize (Hmem ltac:(done)).
  rw Memory.read_ok; [rw /Memory.size; lia|by destruct H|done|]. cbn [owp]. repeat in_step. in_finish.
  assert (Hw : bytes_ok (take 32 (drop (Z.to_nat x0) b))) by (by apply Forall_take, Forall_drop).
  pose proof (of_be_bound _ Hw) as [? Hub]. split; [done|]. eapply Z.lt_le_trans; [exact Hub|].
  apply Z.pow_le_mono_r; [done|]. rw /zlen length_take. lia.
Qed.

Lemma instr_stores i : i = Op.MSTORE \/ i = Op.MSTORE8 -> instr_spec i.
Proof using HXok.
  intros [->| ->]; in_open; repeat in_step; specialize (Hmem ltac:(done));
    (eapply wp_on_mem; [first [apply Memory.write_ok|apply Memory.write_byte_ok];
       [rw /Memory.size; lia|by destruct H|done]|]); in_finish; destruct H.
  - rw -{2}(to_be_length 32 x1). apply zlen_splice; [done|]. by rw /zlen to_be_length.
  - apply Memory.splice_parts_ok; [done|apply to_be_ok].
  - by apply (zlen_splice b x0 [_]).
  - apply Memory.splice_parts_ok; [done|]. constructor; [|done]. by apply (wrap_fits 8).
Qed.

Lemma instr_alu i : 0 <= i < 256 -> alu_op i = true ->
  (forall gas code provided, exec_instruction W sha3 gas params code i provided =
     then_ok (X := X) (on_stack (exec_stack_instruction i))) ->
  halts i = false -> is_push i = false -> instr_spec i.
Proof using HXok.
  intros Hi Hop Hexec Hh Hnp. in_intros. rw Hexec. destruct (alu_shape i l Hi Hop Hargs) as (l' & Hl' & Hlen).
  apply wp_then_ok. rw /wp /on_stack /= (exec_stack_instruction_alu i l l' g Hl Hl').
  split; cbn [stack mem position ext]; [|done|rw /SharedCache.next_position Hnp; lia|weaken|done].
  exists l', g. split; [done|]. split; [done|]. split; [by eapply alu_fits|done].
Qed.

Lemma instr_CALLDATALOAD : instr_spec Op.CALLDATALOAD.
Proof using HXok Hparams.
  in_open. in_step. in_step. in_step. apply wp_lift.
  destruct (calldata_word_fits (ActionParams.data params) x0) as (w & -> & Hw); [|done|].
  { intros d Hd. pose proof (ok_data params Hparams) as Hok. by rw Hd in Hok. }
  cbn [owp]. in_step. in_finish.
Qed.

(** A copy keeps the size of memory. *)
Lemma wp_copy_data_to_memory src b pos d s n l g x (Q : unit -> machine X -> Prop)
    (R : Error -> machine X -> Prop) :
  bytes_ok b -> zlen b < 2 ^ 63 -> vec_ok src -> fits 256 d -> fits 256 s -> fits 256 n ->
  (n <> 0 -> d + n <= zlen b) ->
  (forall b', zlen b' = zlen b -> bytes_ok b' -> Q tt (Machine b' pos (VecStack.of_top l g) x)) ->
  wp (copy_data_to_memory src) Q R (Machine b pos (VecStack.of_top (d :: s :: n :: l) g) x).
Proof using.
  intros Hb Hlen [Hsrc Hsrclen] Hd Hs Hn Hin HQ. do 3 apply wp_bind, wp_pop.
  eapply wp_on_mem; [apply copy_data_spec; try done; lia|]. destruct Hd as [Hd ?], Hn as [Hn ?].
  pose proof (window_length src s n Hn) as Hw. apply HQ.
  - destruct (decide (n = 0)) as [->|Hne]; [by rw patch_nil|].
    apply patch_length; [done|]. rw Hw. by apply Hin.
  - apply Memory.splice_parts_ok; [done|]. by apply window_ok.
Qed.

Lemma default_vec_ok (o : option bytes) :
  match o with Some c => vec_ok c | None => True end -> vec_ok (default [] o).
Proof using. destruct o; [done|]. intros _. split; [constructor|done]. Qed.

Lemma instr_copies i : i = Op.CALLDATACOPY \/ i = Op.CODECOPY -> instr_spec i.
Proof using HXok Hparams.
  intros [->| ->]; in_open; in_step; (apply wp_copy_data_to_memory; [done|done| |done..|]);
    [apply default_vec_ok; by destruct Hparams|intros; in_finish
    |apply default_vec_ok; by destruct Hparams|intros; in_finish].
Qed.

Lemma instr_EXTCODECOPY : instr_spec Op.EXTCODECOPY.
Proof using HXok.
  in_open. repeat in_step.
  apply wp_copy_data_to_memory; [done..|]. intros. in_finish.
Qed.

(** The table entries of the pushes and logs. *)
Definition table_push_log (i : Instruction) : bool :=
  let info := info_of i in
  if is_push i then (InstructionInfo.args info =? 0) && (InstructionInfo.ret info =? 1)
  else if (Op.LOG0 <=? i) && (i <=? Op.LOG4) then
    (InstructionInfo.args info =? i - Op.LOG0 + 2) && (InstructionInfo.ret info =? 0)
  else true.

Lemma table_push_log_ok i : 0 <= i < 256 -> table_push_log i = true.
Proof using. apply byte_forall. by vm_compute. Qed.

Lemma wp_read code n b pos s x (Q : Z -> machine X -> Prop) (R : Error -> machine X -> Prop) :
  vec_ok code -> 0 <= n <= 32 -> 0 <= pos <= zlen code ->
  (forall v, fits 256 v -> Q v (Machine b (pos + n) s x)) ->
  wp (read code n) Q R (Machine b pos s x).
Proof using.
  intros [Hc Hlen] Hn Hpos HQ. apply wp_bind, wp_get, wp_bind, wp_lift. cbn [position].
  rw add_ok; [lia|]. cbn [owp]. apply wp_bind, wp_modify, wp_bind, wp_lift.
  rw slice_ok; [lia..|]. cbn [owp mem stack ext]. apply wp_ret, HQ.
  set (w := take _ _). assert (Hw : bytes_ok w) by (by apply Forall_take, Forall_drop).
  pose proof (of_be_bound w Hw) as [? Hub]. split; [done|]. eapply Z.lt_le_trans; [exact Hub|].
  apply Z.pow_le_mono_r; [done|]. rw /w zlen_slice; lia.
Qed.

Lemma instr_PUSH i : 0 <= i < 256 -> is_push i = true ->
  (forall gas code provided, exec_instruction W sha3 gas params code i provided =
     sbind (slift (get_push_bytes i)) (fun n => val <~ read code n ;; then_ok (push (X := X) val))) ->
  halts i = false -> instr_spec i.
Proof using HXok.
  intros Hi Hp Hexec Hh. in_intros. rw Hexec /get_push_bytes Hp. apply wp_bind, wp_lift. cbn [owp obind assert_].
  pose proof (table_push_log_ok i Hi) as Ht. rw /table_push_log Hp in Ht. zbool.
  assert (Hn : 0 <= i - Op.PUSH1 + 1 <= 32).
  { clear - Hp. rw /is_push /Op.PUSH1 /Op.PUSH32 in Hp |- *. zbool. lia. }
  apply wp_bind.
  apply wp_read; [done|lia|lia|]. intros v Hv. apply wp_push_ok.
  split; cbn [stack mem position ext]; [|done|rw /SharedCache.next_position Hp; lia|weaken|done].
  exists (v :: l), g. split; [done|]. split; [done|]. split; [by constructor|]. rw zlen_cons. lia.
Qed.

Lemma split_operands (l : list Z) n :
  0 <= n <= zlen l -> exists u r, l = u ++ r /\ zlen u = n.
Proof using.
  intros Hn. exists (take (Z.to_nat n) l), (drop (Z.to_nat n) l).
  split; [by rw take_drop|]. unfold zlen in *. rw length_take. lia.
Qed.

Lemma instr_LOG i : 0 <= i < 256 -> (Op.LOG0 <=? i) && (i <=? Op.LOG4) = true ->
  (forall gas code provided, exec_instruction W sha3 gas params code i provided =
     then_ok (X := X) (exec_log i)) ->
  halts i = false -> (forall l, accesses i l = [(arg l 0, arg l 1)]) -> instr_spec i.
Proof using HXok.
  intros Hi Hlog Hexec Hh Hacc. in_intros.
  pose proof (table_push_log_ok i Hi) as Ht. rw /table_push_log Hlog in Ht.
  assert (Hnp : is_push i = false).
  { clear - Hlog. rw /is_push. zbool. rw /Op.LOG0 in H. apply andb_false_iff. right. apply Z.leb_gt.
    rw /Op.PUSH32. lia. }
  rw Hnp in Ht. rw Hexec. apply wp_then_ok. rw /exec_log /get_log_topics Hlog.
  apply wp_bind, wp_lift. cbn [owp obind assert_].
  assert (Hn : 0 <= i - Op.LOG0 <= 4) by (clear - Hlog; zbool; rw /Op.LOG0 /Op.LOG4 in H H0 |- *; lia).
  zbool.
  destruct l as [|off [|n l]]; [rw zlen_nil in Hargs; lia|rw zlen_cons zlen_nil in Hargs; lia|].
  rw /covers Hacc /arg /= in Hcov. apply Forall_cons in Hcov as [Hmem _]. cbn in Hmem.
  operand_widths Hl. rw !zlen_cons in Hargs.
  destruct (split_operands l (i - Op.LOG0)) as (u & r & -> & Hu); [lia|].
  apply wp_bind, wp_pop, wp_bind, wp_pop, wp_bind.
  rw -Hu. apply wp_pop_n; [done|lia|]. intros g' Hg'. repeat in_step.
  split; cbn [stack mem position ext]; [|done|rw /SharedCache.next_position Hnp; lia|weaken|done].
  exists r, g'. split; [done|]. split; [done|]. rw !zlen_cons zlen_app.
  split; [by apply Forall_app in Hl as [_ ?]|lia].
Qed.

(** ** Calls and creations *)
Lemma wp_gas_back g (Q : InstructionResult -> machine X -> Prop) (R : Error -> machine X -> Prop) m :
  fits W g -> Q (UnusedGas g) m ->
  wp match from_u256 W g with Ok u => sret (UnusedGas u) | _ => slift Panic end Q R m.
Proof using.
  intros Hg HQ. rw from_u256_spec; [by apply (fits_word 64)|]. destruct Hg as [? Hg].
  by rw (proj2 (Z.ltb_lt _ _) Hg).
Qed.

Lemma wp_create_ext n gas value c b pos s x0 x (Q : ContractCreateResult -> machine X -> Prop) R :
  0 <= n -> fits W gas -> fits 256 value -> vec_ok c -> depth x < Schedule.max_depth (schedule x) ->
  ext_step (I (n + 1 + gas)) x0 x ->
  (forall a g x', fits 160 a -> 0 <= g <= gas -> ext_step (I (n + g)) x0 x' ->
    Q (Created a g) (Machine b pos s x')) ->
  (forall x', ext_step (I n) x0 x' -> Q CreateFailed (Machine b pos s x')) ->
  wp (on_ext (stotal (create gas value c))) Q R (Machine b pos s x).
Proof using HXok.
  intros Hn Hgas Hv Hc Hd Hx HQ1 HQ2. apply wp_on_ext, wp_total.
  eapply wp_conseq; [by apply (create_ok (I := I) n); [..|apply Hx]| |done].
  intros [a g|] x'.
  - intros (? & ? & ?). apply HQ1; [done|done|]. by eapply ext_step_trans.
  - intros. apply HQ2. by eapply ext_step_trans.
Qed.

Lemma instr_CREATE : instr_spec Op.CREATE.
Proof using HXok.
  in_open. rw /exec_create. destruct provided as [p|]; [|done]. cbn [default] in HB.
  destruct Hprov as (_ & Hp1 & Hp2). rw /min_cost /halts /= in Hp2 HB.
  repeat in_step. apply wp_lift. cbn [owp expect]. repeat in_step; zbool.
  - in_finish. rw /min_cost /halts. op_eval. split; [done|lia].
  - rw as_u256_spec. apply (wp_create_ext N _ _ _ _ _ _ x); try done; [split; lia|weaken| |].
    + intros addr u x'' Haddr Hu Hx''. repeat in_step. apply wp_gas_back; [split; lia|].
      in_finish; [by apply (fits_word 160)|]. rw /min_cost /halts. op_eval. split; [done|lia].
    + intros x'' Hx''. repeat in_step. in_finish.
Qed.

(** The output slice of a call, and writing it back. *)
Lemma wp_output off n b pos s x (Q : Z * Z -> machine X -> Prop) (R : Error -> machine X -> Prop) :
  fits 256 off -> fits 256 n -> zlen b < 2 ^ 63 -> (n <> 0 -> off + n <= zlen b) ->
  (forall a, 0 <= a -> a + n <= zlen b -> Q (a, a + n) (Machine b pos s x)) ->
  wp (slift (Memory.writeable_slice b off n)) Q R (Machine b pos s x).
Proof using.
  intros [? ?] [? ?] Hb Hin HQ. apply wp_lift.
  destruct (Memory.writeable_slice_ok (E := Error) b ltac:(rw /Memory.size; lia) off n) as (a & -> & ? & ? & _); [done..|].
  by apply HQ.
Qed.
(** From the memory slices on: memory keeps its size, and the gas that comes
    back is part of the gas handed on. *)
Lemma wp_message_call n u sender receive value code_address ct in_off in_size out_off out_size
    b pos l g x0 x (Q : InstructionResult -> machine X -> Prop) R :
  0 <= n -> ext_step (I (n + u)) x0 x -> fits W u -> bytes_ok b -> zlen b < 2 ^ 63 ->
  fits 160 sender -> fits 160 receive -> fits 160 code_address ->
  match value with Some v => fits 256 v | None => True end ->
  depth x < Schedule.max_depth (schedule x) ->
  fits 256 in_off -> fits 256 in_size -> (in_size <> 0 -> in_off + in_size <= zlen b) ->
  fits 256 out_off -> fits 256 out_size -> (out_size <> 0 -> out_off + out_size <= zlen b) ->
  (forall b' x' r v, zlen b' = zlen b -> bytes_ok b' -> fits 256 v ->
    (r = IOk /\ ext_step (I n) x0 x' \/
     exists y, r = UnusedGas y /\ 0 <= y <= u /\ ext_step (I (n + y)) x0 x') ->
    Q r (Machine b' pos (VecStack.of_top (v :: l) g) x')) ->
  wp (message_call W u sender receive value code_address ct in_off in_size out_off out_size)
    Q R (Machine b pos (VecStack.of_top l g) x).
Proof using HXok.
  intros Hn Hx Hu Hb Hblen Hsnd Hrcv Hca Hval Hd ? ? ? ? Hosz Hout HQ. rw /message_call.
  repeat in_step. apply wp_output; [done..|]. intros o Ho1 Ho2. in_step. apply wp_lift.
  pose proof (zlen_nonneg b). assert (0 <= out_size) by (by destruct Hosz).
  rw slice_ok; [lia..|]. cbn [owp]. in_step. set (w := take _ _).
  assert (Hw : zlen w = out_size) by (rw /w zlen_slice; lia).
  assert (Hwok : bytes_ok w) by (by apply Forall_take, Forall_drop).
  rw as_u256_spec. apply wp_on_ext, wp_total.
  eapply wp_conseq; [by apply (call_ok (I := I) n); [..|apply Hx]| |done].
  intros [r w'] x' (Hlen & Hok & Hr). cbn [fst snd] in *. in_step.
  assert (Hw' : zlen w' = out_size) by (rw -Hw /zlen Hlen; done).
  eapply wp_on_mem; [apply splice_ok; lia|].
  set (b' := take _ _ ++ _). assert (Hb' : zlen b' = zlen b) by (rw /b' zlen_splice; lia).
  assert (Hbok : bytes_ok b') by (by apply Memory.splice_parts_ok).
  destruct r as [gas_left|]; repeat in_step.
  - destruct Hr as [Hg Hs], Hu. apply wp_gas_back; [split; lia|]. apply HQ; try done.
    right. eexists. split; [done|]. split; [done|]. by eapply ext_step_trans.
  - apply HQ; try done. left. split; [done|]. by eapply ext_step_trans.
Qed.

(** The gas handed on with the stipend stays below what was paid. *)
Definition stipend (s : Schedule.t) (value : option Z) : Z :=
  match value with
  | None => 0
  | Some val => if is_zero val then 0 else Schedule.call_stipend s
  end.

Lemma stipend_bound s i l value :
  Schedule.ok s -> halts i = false ->
  (forall v, value = Some v -> v = arg l 2 /\ (i =? Op.CALL) || (i =? Op.CALLCODE) = true) ->
  0 <= stipend s value < min_cost s i l.
Proof using.
  intros Hs Hh Hv. price Hs (Schedule.call_stipend s).
  pose proof (Schedule.ok_stipend s Hs) as Hst. rw /stipend /min_cost Hh.
  destruct value as [v|]; [|case_match; lia].
  destruct (Hv v eq_refl) as [-> ->]. rw /is_zero. destruct (arg l 2 =? 0); cbn [negb andb]; lia.
Qed.

Ltac call_prefix value :=
  lazymatch goal with
  | H : provided_ok _ _ _ ?o |- _ =>
      destruct o as [p|]; [|done]; change (default 0 (Some p)) with p in *; destruct H as (_ & Hp1 & Hp2)
  end;
  lazymatch goal with
  | H : I ?B ?x, Hp : _ + min_cost (schedule ?x) ?i ?l < _ |- _ =>
      pose proof (stipend_bound (schedule x) i l value (schedule_ok (I := I) B x H) eq_refl
        ltac:(by intros ? [= <-])) as Hst;
      pose proof (Schedule.ok_stipend _ (schedule_ok (I := I) B x H))
  end; unfold stipend in *; rw /exec_call; op_eval;
  repeat in_step; apply wp_lift, owp_assert; [apply Z.ltb_lt; assumption|];
  repeat in_step; apply wp_lift; cbn [owp expect]; repeat in_step.

Lemma u256_to_address_fits v : fits 160 (u256_to_address v).
Proof using. by apply wrap_fits. Qed.

Ltac call_suffix N :=
  apply wp_lift; rw add_ok; [lia|]; cbn [owp]; rw /call_target; op_eval;
  repeat in_step; try (apply wp_lift; cbn [owp expect]); repeat in_step; zbool;
  [in_finish; split; [done|]; lia
  |eapply (wp_message_call N);
   [assumption|weaken|split; lia|assumption|assumption
   |apply Hparams|first [apply u256_to_address_fits|apply Hparams]|apply u256_to_address_fits
   |first [assumption|exact Logic.I]|assumption..|];
   intros b' y r v Hb' Hbok Hv [[-> Hy]|(u & -> & Hu & Hy)]; in_finish; split; [done|lia]].

Lemma instr_CALL i : i = Op.CALL \/ i = Op.CALLCODE -> instr_spec i.
Proof using HXok Hparams.
  intros [->| ->]; in_open; call_prefix (Some x2); call_suffix N.
Qed.

Lemma instr_DELEGATECALL : instr_spec Op.DELEGATECALL.
Proof using HXok Hparams.
  in_open. call_prefix (@None Z). call_suffix N.
Qed.

(** ** Every instruction *)
Definition machine_ops : list Instruction :=
  [Op.JUMP; Op.JUMPI; Op.JUMPDEST; Op.CREATE; Op.CALL; Op.CALLCODE; Op.DELEGATECALL; Op.RETURN;
   Op.STOP; Op.SUICIDE; Op.MLOAD; Op.MSTORE; Op.MSTORE8; Op.MSIZE; Op.SHA3; Op.SLOAD; Op.SSTORE;
   Op.PC; Op.GAS; Op.ADDRESS; Op.ORIGIN; Op.BALANCE; Op.CALLER; Op.CALLVALUE; Op.CALLDATALOAD;
   Op.CALLDATASIZE; Op.CODESIZE; Op.EXTCODESIZE; Op.CALLDATACOPY; Op.CODECOPY; Op.EXTCODECOPY;
   Op.GASPRICE; Op.BLOCKHASH; Op.COINBASE; Op.TIMESTAMP; Op.NUMBER; Op.DIFFICULTY; Op.GASLIMIT].

(** The table describes exactly the instructions that are implemented. *)
Definition table_complete (i : Instruction) : bool :=
  Bool.eqb (negb (bool_decide (InstructionInfo.tier (info_of i) = GasPriceTier.Invalid)))
    (existsb (Z.eqb i) machine_ops || ((Op.LOG0 <=? i) && (i <=? Op.LOG4)) || is_push i ||
     alu_op i).

Lemma table_complete_ok i : 0 <= i < 256 -> table_complete i = true.
Proof using. apply byte_forall. by vm_compute. Qed.

Lemma instr_machine i : In i machine_ops -> instr_spec i.
Proof using HXok Hparams sha3_fits.
  rw /machine_ops. cbn [In]. intros Hi.
Local Ltac pick lem := apply lem; repeat (first [left; reflexivity|right]); reflexivity.
  repeat (destruct Hi as [<-|Hi];
    [lazymatch goal with
     | |- instr_spec Op.CREATE => apply instr_CREATE
     | |- instr_spec Op.DELEGATECALL => apply instr_DELEGATECALL
     | |- instr_spec Op.SHA3 => apply instr_SHA3
     | |- instr_spec Op.SSTORE => apply instr_SSTORE
     | |- instr_spec Op.MLOAD => apply instr_MLOAD
     | |- instr_spec Op.CALLDATALOAD => apply instr_CALLDATALOAD
     | |- instr_spec Op.EXTCODECOPY => apply instr_EXTCODECOPY
     | |- _ => first [pick instr_jumps|pick instr_CALL|pick instr_stops|pick instr_stores
                     |pick instr_sizes|pick instr_queries|pick instr_params|pick instr_env
                     |pick instr_copies]
     end|]). done.
Qed.

Lemma not_machine_op i o :
  existsb (Z.eqb i) machine_ops = false -> existsb (Z.eqb o) machine_ops = true -> (i =? o) = false.
Proof using. intros Hi Ho. apply Z.eqb_neq. intros ->. by rw Ho in Hi. Qed.

(** Reduce the dispatch of an instruction outside [machine_ops]. *)
Ltac not_machine H :=
  repeat match goal with
  | |- context [?i =? ?o] =>
      lazymatch type of H with existsb (Z.eqb i) _ = false =>
        rw (not_machine_op i o H eq_refl) end
  end; cbn [orb].

Lemma wp_exec_instruction i : 0 <= i < 256 ->
  InstructionInfo.tier (info_of i) <> GasPriceTier.Invalid -> instr_spec i.
Proof using HXok Hparams sha3_fits.
  intros Hi Hinv. pose proof (table_complete_ok i Hi) as Ht. rw /table_complete in Ht.
  rw bool_decide_eq_false_2 in Ht; [done|]. apply Bool.eqb_prop in Ht. symmetry in Ht.
  destruct (existsb (Z.eqb i) machine_ops) eqn:Hm.
  { apply existsb_exists in Hm as (o & Ho & ->%Z.eqb_eq). by apply instr_machine. }
  assert (Hh : halts i = false) by (rw /halts; by not_machine Hm).
  destruct ((Op.LOG0 <=? i) && (i <=? Op.LOG4)) eqn:Hlog.
  { apply instr_LOG; [done|done| |done|].
    - intros. rw /exec_instruction. not_machine Hm. by rw Hlog.
    - intros. rw /accesses. not_machine Hm. by rw Hlog. }
  destruct (is_push i) eqn:Hpush.
  { apply instr_PUSH; [done|done| |done]. intros. rw /exec_instruction. not_machine Hm.
    rw /is_push in Hpush. by rw Hlog Hpush. }
  apply instr_alu; [done|exact Ht| |done|done]. intros. rw /exec_instruction. not_machine Hm.
  rw /is_push in Hpush. by rw Hlog Hpush.
Qed.
End instruction.
