(* ===== verification/LoopSpec.v ===== *)
(** * Correctness of the interpreter loop

    For gas counted in [usize] and any environment that keeps its promises:
    the loop never panics, ends after at most as many rounds as there is gas,
    and keeps the machine well formed. *)

From S2P Require Import Prelude Lru Instructions Schedule Evm Memory Stack SharedCache Gasometer.
From S2P Require Import GasometerSpec Interpreter InterpreterSpec.
From stdpp Require Import base gmap list strings.
Local Open Scope Z_scope.
Local Open Scope cita_scope.

(** ** Checking an instruction *)
Definition table_small (i : Instruction) : bool :=
  (0 <=? InstructionInfo.args (info_of i)) && (0 <=? InstructionInfo.ret (info_of i)) &&
  (InstructionInfo.ret (info_of i) <=? 17).

Lemma table_small_ok i : 0 <= i < 256 -> table_small i = true.
Proof. apply byte_forall. by vm_compute. Qed.

(** What makes an instruction executable on a stack of [n] words. *)
Definition executable (s : Schedule.t) (i : Instruction) (n : Z) : Prop :=
  (i = Op.DELEGATECALL -> Schedule.have_delegate_call s = true) /\
  InstructionInfo.tier (info_of i) <> GasPriceTier.Invalid /\
  InstructionInfo.args (info_of i) <= n /\
  n - InstructionInfo.args (info_of i) + InstructionInfo.ret (info_of i) <= Schedule.stack_limit s.

(** Exactly the executable instructions pass.  The subtraction in the error
    case does not underflow. *)
Lemma owp_verify_instruction s i l g :
  Schedule.ok s -> 0 <= i < 256 -> zlen l <= Schedule.stack_limit s ->
  owp (verify_instruction s i (info_of i) (VecStack.of_top l g))
    (fun _ => executable s i (zlen l)) (fun _ => ~ executable s i (zlen l)).
Proof.
  intros Hs Hi Hl. pose proof (table_small_ok i Hi) as Ht. rw /table_small in Ht. zbool.
  pose proof (Schedule.ok_stack_limit s Hs). rw /verify_instruction /executable.
  destruct (negb (Schedule.have_delegate_call s) && (i =? Op.DELEGATECALL)) eqn:Hd.
  { apply andb_true_iff in Hd as [Hd ->%Z.eqb_eq]. intros (Hdel & _). by rw (Hdel eq_refl) in Hd. }
  destruct (bool_decide_reflect (InstructionInfo.tier (info_of i) = GasPriceTier.Invalid)); [by intros (_ & ? & _)|].
  rw /VecStack.has VecStack.size_of_top.
  destruct (Z.leb_spec (InstructionInfo.args (info_of i)) (zlen l)); cbn [negb]; [|intros (_ & _ & ? & _); lia].
  rw sub_ok; [done|]. cbn [obind]. rw add_ok; [lia|]. cbn [obind].
  destruct (Z.ltb_spec (Schedule.stack_limit s)
    (zlen l - InstructionInfo.args (info_of i) + InstructionInfo.ret (info_of i))).
  - rw sub_ok; [lia|]. intros (_ & _ & _ & ?). lia.
  - split; [|done]. intros ->. rw Z.eqb_refl andb_true_r in Hd. by apply negb_false_iff.
Qed.

Lemma instr_start_bound code p : SharedCache.instr_start code p -> 0 <= p <= zlen code + 32.
Proof.
  induction 1 as [|p i _ IH Hi]; [pose proof (zlen_nonneg code); lia|].
  pose proof (SharedCache.next_position_gt i p). apply lookup_lt_Some in Hi.
  unfold zlen in *. lia.
Qed.

(** An invariant of the reader's position: it is kept by reading on and by
    jumping, and it bounds the position. *)
Record positions (code : bytes) (dests : BitSet) (Pos : Z -> Prop) : Prop := {
  pos_range p : Pos p -> 0 <= p < 2 ^ 63 + 64;
  pos_next p i : Pos p -> code !! Z.to_nat p = Some i -> Pos (SharedCache.next_position i p);
  pos_dest p : p ∈ dests -> Pos p;
}.

(** With the jump table of the code itself the position is always the start
    of an instruction. *)
Lemma positions_starts code dests :
  zlen code < 2 ^ 63 -> (forall p, p ∈ dests -> SharedCache.jump_target code p) ->
  positions code dests (SharedCache.instr_start code).
Proof.
  intros Hlen Hd. split.
  - intros p Hp%instr_start_bound. lia.
  - intros p i. by constructor.
  - intros p [? _]%Hd. done.
Qed.

(** With the jump table of any code it is at least in range. *)
Lemma positions_range code dests :
  zlen code < 2 ^ 63 -> (forall p, p ∈ dests -> 0 <= p < 2 ^ 63) ->
  positions code dests (fun p => 0 <= p < 2 ^ 63 + 64).
Proof.
  intros Hlen Hd. split; [done| |].
  - intros p i Hp Hi%lookup_lt_Some. pose proof (SharedCache.next_position_gt i p).
    unfold zlen in *. lia.
  - intros p Hp%Hd. lia.
Qed.

Section loop.
  Context {X : Type} {HX : Externalities X} (I : Z -> X -> Prop) {HXok : ExternalitiesOk X I}.
  Context (sha3 : bytes -> H256) (sha3_fits : forall b, fits 256 (sha3 b)).
  Context (params : ActionParams.t) (Hparams : params_ok params).
  Context (code : bytes) (Hcode : vec_ok code) (dests : BitSet).
  (** The positions the reader can be at. *)
  Context (Pos : Z -> Prop) (HPos : positions code dests Pos).
  (** The environment does not ask for a virtual machine trace. *)
  Context (no_trace : forall n pc i g,
    ext_method (I n) (trace_prepare_execute pc i g) (fun b => b = false)).

(** ** Well-formed configurations *)
Record config_ok (N : Z) (s : Schedule.t) (g : Gasometer.t) (m : machine X) : Prop := {
  cfg_stack : exists l logs, stack m = VecStack.of_top l logs /\ length logs = 4%nat /\
    Forall (fits 256) l /\ zlen l <= Schedule.stack_limit s;
  cfg_mem : bytes_ok (mem m);
  cfg_meter : meter_ok 64 s g (zlen (mem m));
  cfg_ext : I (N + Gasometer.current_gas g) (ext m) /\ schedule (ext m) = s;
  cfg_position : Pos (position m);
}.

(** What a round that starts with [gas] guarantees. *)
Definition flow_ok (N : Z) (s : Schedule.t) (gas : Z) (x : X) (f : flow) (m : machine X) : Prop :=
  match f with
  | Continue g => config_ok N s g m /\ Gasometer.current_gas g < gas /\
      ext_step (I (N + Gasometer.current_gas g)) x (ext m)
  | Break g => 0 <= Gasometer.current_gas g <= gas /\
      ext_step (I (N + Gasometer.current_gas g)) x (ext m)
  | Return (Known u) => False
  | Return (NeedsReturn u data) => 0 <= u <= gas /\ vec_ok data /\ ext_step (I (N + u)) x (ext m)
  end.

Lemma verify_jump_ok j :
  owp (verify_jump j dests) Pos (fun _ => True).
Proof using HPos.
  rw /verify_jump.
  destruct (bool_decide_reflect (low_u64 j ∈ dests)) as [Hin|]; [|done].
  destruct (low_u64 j =? j); [|done]. by apply (pos_dest _ _ _ HPos).
Qed.

(** ** One round *)

(** What an instruction left to do, the unused gas being back in the meter. *)
Definition pending_ok (gas : Z) (g : Gasometer.t) (size : Z) (r : InstructionResult) : Prop :=
  match r with
  | StopExecution => True
  | StopExecutionNeedsReturn u off n =>
      u = Gasometer.current_gas g /\ fits 256 off /\ fits 256 n /\ (n <> 0 -> off + n <= size)
  | _ => Gasometer.current_gas g < gas
  end.

Lemma wp_advance N s gas x g r m :
  config_ok N s g m -> 0 <= N -> ext_step (I (N + Gasometer.current_gas g)) x (ext m) ->
  Gasometer.current_gas g <= gas -> zlen (mem m) < 2 ^ 63 -> pending_ok gas g (zlen (mem m)) r ->
  wp (advance 64 dests g r) (fun f m' => flow_ok N s gas x f m' /\ zlen (mem m') = zlen (mem m))
    (fun _ m' => ext_step (I N) x (ext m')) m.
Proof using HXok HPos.
  intros Hcfg HN Hext Hle Hlen Hr. pose proof (cfg_meter _ _ _ _ Hcfg) as ([Hg _] & _).
  destruct r as [|u|j|u off n|]; cbn [pending_ok advance] in *; [by apply wp_ret..| | |by apply wp_ret].
  - apply wp_bind, wp_lift. eapply owp_conseq; [apply verify_jump_ok| |].
    + intros q Hq. apply wp_bind, wp_modify, wp_ret. cbn [mem]. split; [|done].
      split; [by destruct Hcfg|]. done.
    + intros. eapply (ext_step_mono I); [|exact Hext]. lia.
  - destruct Hr as (-> & Hoff & Hn & Hin). pose proof (cfg_mem _ _ _ _ Hcfg) as Hmem.
    destruct m as [b p st xm]. cbn [mem ext] in *. apply wp_bind, wp_read_slice; [done..|].
    intros d Hd _. apply wp_ret. split; [|done]. rw /flow_ok as_u256_spec. done.
Qed.

(** The meter after unused gas has come back. *)
Lemma refund_unused_ok s i l gas g provided r :
  Schedule.ok s -> fits 64 gas -> 0 <= Gasometer.current_gas g ->
  Gasometer.current_gas g + min_cost s i l + default 0 provided <= gas -> 0 <= default 0 provided ->
  result_ok s i l (Gasometer.current_gas g) provided r ->
  let u := Gasometer.current_gas g + returned r in
  refund_unused 64 g r = Ok (Gasometer.mk u (Gasometer.current_mem_gas g)) /\ 0 <= u <= gas /\
  (forall n, covers i l n -> pending_ok gas (Gasometer.mk u (Gasometer.current_mem_gas g)) n r).
Proof using.
  intros Hs [_ Hgas] Hg Hpaid Hp Hr u. pose proof (min_cost_nonneg s i l Hs) as Hmin.
  assert (Hpos : halts i = false -> 1 <= min_cost s i l) by (by apply min_cost_pos).
  assert (Hu : refund_unused 64 g r = Ok (Gasometer.mk u (Gasometer.current_mem_gas g)) /\ 0 <= u <= gas).
  { rw /u. destruct r as [|v| | |]; cbn [refund_unused returned];
      try (rw Z.add_0_r; split; [by destruct g|lia]).
    destruct Hr as [_ Hv]. destruct provided as [p|]; [|done].
    change (default 0 (Some p)) with p in *. rw add_ok; [lia|]. split; [done|lia]. }
  destruct Hu as [-> Hu]. split; [done|]. split; [done|]. intros n Hcov.
  rw /u in Hu |- *. destruct r as [|v|j|v off k|]; cbn [pending_ok returned Gasometer.current_gas] in *.
  - specialize (Hpos Hr). lia.
  - destruct Hr as [Hh Hv]. specialize (Hpos Hh). destruct provided as [p|]; [|done].
    change (default 0 (Some p)) with p in *. lia.
  - specialize (Hpos Hr). lia.
  - destruct Hr as (-> & Hoff & Hk & Hacc). rw /covers Hacc in Hcov.
    apply Forall_cons in Hcov as [Hcov _]. split; [lia|]. done.
  - done.
Qed.

Lemma wp_run_paid N B s i provided g b pos l logs x gas :
  I B x -> schedule x = s -> 0 <= N ->
  N + Gasometer.current_gas g + min_cost s i l + default 0 provided <= B ->
  Gasometer.current_gas g + min_cost s i l + default 0 provided <= gas -> fits 64 gas ->
  match provided with Some p => gives_gas i = true /\ 0 <= p | None => gives_gas i = false end ->
  0 <= i < 256 -> InstructionInfo.tier (info_of i) <> GasPriceTier.Invalid ->
  InstructionInfo.args (info_of i) <= zlen l ->
  zlen l - InstructionInfo.args (info_of i) + InstructionInfo.ret (info_of i)
    <= Schedule.stack_limit s ->
  Forall (fits 256) l -> length logs = 4%nat -> bytes_ok b -> covers i l (zlen b) ->
  meter_ok 64 s g (zlen b) -> zlen b < 2 ^ 63 ->
  Pos (pos - 1) -> 1 <= pos <= zlen code -> code !! Z.to_nat (pos - 1) = Some i ->
  wp (run_paid 64 sha3 params code dests i provided false g)
    (fun f m => flow_ok N s gas x f m /\ zlen (mem m) = zlen b)
    (fun _ m => ext_step (I N) x (ext m)) (Machine b pos (VecStack.of_top l logs) x).
Proof using HXok Hparams sha3_fits Hcode HPos.
  intros Hx Hs HN HB Hpaid Hgas Hprov Hi Hinv Hargs Hlimit Hl Hlogs Hb Hcov Hg Hblen Hstart Hpos Hcur.
  pose proof Hg as ([Hg11 Hg12] & Hg2 & Hg3 & Hg4 & Hg5). pose proof Hgas as [_ Hgas2].
  assert (Hsok : Schedule.ok s) by (rw -Hs; by apply (schedule_ok (I := I) B)).
  pose proof (min_cost_nonneg s i l Hsok) as Hmin.
  assert (Hp0 : 0 <= default 0 provided) by (destruct provided; [apply Hprov|done]).
  assert (Hpok : provided_ok (schedule x) i l provided).
  { rw /provided_ok Hs. destruct provided; [|done]. cbn in *. unfold id in *.
    split_and!; [apply Hprov|apply Hprov|lia]. }
  rw /run_paid. apply wp_bind, wp_get, wp_bind, wp_ret, wp_bind.
  eapply wp_conseq; [apply (wp_exec_instruction I sha3 sha3_fits params Hparams i Hi Hinv B
    (N + Gasometer.current_gas g) (Gasometer.current_gas g) code provided b pos l logs x);
    try done; [lia|by rw Hs]| |].
  2:{ intros e m He. eapply (ext_step_mono I); [|exact He]. lia. }
  intros r m [(l' & g' & Hstk & Hg'len & Hl' & Hlen) [Hmlen Hmok] Hpos' Hext Hres].
  rw Hs in Hres. cbn [ext] in Hext.
  destruct (refund_unused_ok s i l gas g provided r) as (-> & Hu & Hpend); [done..|].
  apply wp_bind, wp_lift. cbn [owp]. apply wp_bind, wp_ret. rw -Hmlen. rw -Z.add_assoc in Hext.
  apply wp_advance; cbn [Gasometer.current_gas]; try done; [|lia|lia|].
  2:{ rw Hmlen. by apply Hpend. }
  split; cbn [Gasometer.current_gas].
  - exists l', g'. split_and!; [done..|lia].
  - done.
  - rw Hmlen. split_and!; try done; [split; cbn; lia|lia..].
  - split; [apply Hext|]. destruct Hext as (_ & -> & _). done.
  - rw Hpos'. by apply (pos_next _ _ _ HPos).
Qed.

Lemma code_byte pos : 0 <= pos < zlen code ->
  exists i, code !! Z.to_nat pos = Some i /\ index (E := Error) code pos = Ok i /\ 0 <= i < 256.
Proof using Hcode.
  intros Hpos. destruct (lookup_lt_is_Some_2 code (Z.to_nat pos)) as [i Hi]; [unfold zlen in *; lia|].
  exists i. split; [done|]. rw /index (proj2 (Z.leb_le _ _)); [lia|]. rw Hi. split; [done|].
  destruct Hcode as [Hok _]. eapply Forall_lookup_1 in Hi; [|exact Hok]. exact Hi.
Qed.

(** Memory grows to what has been paid for, and the meter follows. *)
Lemma expand_meter s g c i l r b :
  Schedule.ok s -> meter_ok 64 s g (zlen b) -> c = zlen b -> requirements_ok 64 s c i l r ->
  bytes_ok b -> gas_cost r <= Gasometer.current_gas g ->
  exists b', Memory.expand (E := Error) b (memory_required_size r) = Ok b' /\ bytes_ok b' /\
    zlen b <= zlen b' < 2 ^ 63 /\ covers i l (zlen b') /\
    meter_ok 64 s (Gasometer.mk (Gasometer.current_gas g - gas_cost r) (memory_total_gas r)) (zlen b').
Proof using.
  intros Hs (Hg & Hfee & Hmod & Hlen & Hcfee) -> [[Hc1 Hc2] [Hrmod [Hr1 Hr2]] Htot Hrfee Hcov _ _] Hb Hle.
  pose proof (mem_fee_bound s (Z.max (zlen b) (memory_required_size r)) Hs ltac:(lia) Hrfee) as Hsmall.
  destruct (Memory.expand_ok (E := Error) b (memory_required_size r) ltac:(lia) Hb)
    as (b' & -> & Hlen' & Hb').
  rw /Memory.size in Hlen'. exists b'. split; [done|]. split; [done|]. split; [lia|].
  split; [eapply covers_mono; [|exact Hcov]; lia|]. rw Hlen'. destruct Hg.
  split_and!; cbn; [split; lia|done| |split; lia|done].
  destruct (Z.max_spec (zlen b) (memory_required_size r)) as [[_ ->]|[_ ->]]; done.
Qed.

Lemma wp_exec_round N s g m :
  config_ok N s g m -> 0 <= N -> position m < zlen code ->
  wp (exec_round 64 sha3 params code dests g)
    (fun f m' => flow_ok N s (Gasometer.current_gas g) (ext m) f m' /\ zlen (mem m) <= zlen (mem m'))
    (fun _ m' => ext_step (I N) (ext m) (ext m')) m.
Proof using HXok Hparams sha3_fits Hcode HPos no_trace.
  intros [(l & logs & Hstk & Hlogs & Hl & Hlimit) Hmem Hmeter [Hx Hs] Hstart] HN Hpos.
  destruct m as [b pos stk x]. cbn [stack mem ext position] in *. subst stk.
  set (B := N + Gasometer.current_gas g) in *. pose proof Hmeter as ([Hg1 Hg2] & _).
  assert (Hsok : Schedule.ok s) by (rw -Hs; by apply (schedule_ok (I := I) B)).
  assert (Hweak : forall x', ext_step (I B) x x' -> ext_step (I N) x x').
  { intros x' ?. eapply (ext_step_mono I); [|done]. lia. }
  pose proof (pos_range _ _ _ HPos _ Hstart) as Hpos0. destruct Hcode as [Hcok Hclen].
  destruct (code_byte pos) as (i & Hi & Hidx & Hib); [lia|]. rw /exec_round.
  apply wp_bind, wp_get, wp_bind, wp_lift. cbn [position stack mem ext]. rw Hidx. cbn [owp].
  apply wp_bind, wp_lift. rw add_ok; [lia|]. cbn [owp]. apply wp_bind, wp_modify, wp_bind, wp_lift.
  cbn [stack mem ext]. rw Hs.
  eapply owp_conseq; [by apply owp_verify_instruction| |intros; by apply Hweak].
  intros _ (_ & Hinv & Hargs & Hroom). apply wp_bind, wp_on_ext.
  eapply wp_conseq; [apply (wp_requirements 64 I B s g i l logs (zlen b) x); done
    | |intros; by apply Hweak].
  intros r x1 [Hreq Hx1]. apply wp_bind.
  eapply (wp_total_ext I); [apply no_trace|exact Hx1|]. intros tr x2 -> Hx2.
  apply wp_bind, wp_lift. rw /Gasometer.verify_gas.
  destruct (Z.ltb_spec (Gasometer.current_gas g) (gas_cost r)) as [|Hle]; [by apply Hweak|].
  cbn [owp]. destruct (expand_meter s g _ i l r b Hsok Hmeter eq_refl Hreq Hmem Hle)
    as (b' & Hexp & Hb' & Hlen' & Hcov & Hmeter').
  apply wp_bind. eapply wp_on_mem; [exact Hexp|]. apply wp_bind, wp_lift. rw sub_ok; [done|].
  cbn [owp]. destruct Hreq as [_ _ _ _ _ Hprov _]. assert (Hs2 : schedule x2 = s)
    by (destruct Hx2 as (_ & -> & _); done).
  assert (Hpay : Gasometer.current_gas g - gas_cost r + min_cost s i l + default 0 (provide_gas r)
    <= Gasometer.current_gas g).
  { destruct (provide_gas r); cbn; unfold id; lia. }
  eapply wp_conseq; [apply (wp_run_paid N B s _ _ _ _ _ _ _ x2 (Gasometer.current_gas g)); try done;
    try (by apply Hx2); cbn [Gasometer.current_gas]| |].
  - lia.
  - destruct (provide_gas r) as [p|]; [|tauto]. destruct Hprov as (? & [? ?] & ?). done.
  - lia.
  - by rw Z.add_simpl_r.
  - lia.
  - by rw Z.add_simpl_r.
  - intros f m' [Hf Hlen]. split; [|lia]. move: Hf. rw /flow_ok.
    destruct f as [g'|g'|[u|u d]]; [..|done|];
      intros; destruct_and?; split_and?; try done; by eapply ext_step_trans.
  - intros e m' Hstep. by eapply ext_step_trans.
Qed.

(** ** The whole loop *)
Definition gas_left (r : GasLeft) : Z :=
  match r with Known g | NeedsReturn g _ => g end.

Definition output_ok (r : GasLeft) : Prop :=
  match r with Known _ => True | NeedsReturn _ d => vec_ok d end.

(** One more unit of fuel than there is gas suffices. *)
Lemma wp_exec_loop fuel N s g m :
  config_ok N s g m -> 0 <= N -> Gasometer.current_gas g < Z.of_nat fuel ->
  wp (exec_loop 64 sha3 fuel params code dests g)
    (fun r m' => 0 <= gas_left r <= Gasometer.current_gas g /\ output_ok r /\
       ext_step (I (N + gas_left r)) (ext m) (ext m'))
    (fun _ m' => ext_step (I N) (ext m) (ext m')) m.
Proof using HXok Hparams sha3_fits Hcode HPos no_trace.
  intros Hcfg HN. revert g m Hcfg. induction fuel as [|fuel IH]; intros g m Hcfg Hfuel;
    pose proof (cfg_meter _ _ _ _ Hcfg) as ([Hg1 Hg2] & _); [lia|].
  rw /wp. cbn [exec_loop]. destruct (Z.ltb_spec (position m) (zlen code)) as [Hlt|].
  2:{ cbn. split; [lia|]. split; [done|]. destruct (cfg_ext _ _ _ _ Hcfg). done. }
  apply wp_bind. eapply wp_conseq; [by apply (wp_exec_round N s)| |done].
  intros f m' [Hf _]. destruct f as [g'|g'|[u|u d]]; cbn [flow_ok] in Hf.
  - destruct Hf as (Hcfg' & Hlt' & Hstep). eapply wp_conseq; [apply IH; [done|lia]| |].
    + intros r m'' (Hr & Ho & Hs). split; [lia|]. split; [done|]. by eapply ext_step_trans.
    + intros e m'' Hs. by eapply ext_step_trans.
  - apply wp_ret. rw as_u256_spec. cbn [gas_left output_ok]. tauto.
  - done.
  - apply wp_ret. cbn [gas_left output_ok]. tauto.
Qed.

(** ** Configurations the loop goes through *)
Inductive step : Gasometer.t * machine X -> Gasometer.t * machine X -> Prop :=
| step_round g m g' m' :
    position m < zlen code ->
    exec_round 64 sha3 params code dests g m = (Ok (Continue g'), m') -> step (g, m) (g', m').

Lemma step_config N s c c' : config_ok N s c.1 c.2 -> 0 <= N -> rtc step c c' ->
  config_ok N s c'.1 c'.2 /\ Gasometer.current_gas c'.1 <= Gasometer.current_gas c.1 /\
  zlen (mem c.2) <= zlen (mem c'.2).
Proof using HXok Hparams sha3_fits Hcode HPos no_trace.
  intros Hcfg HN Hsteps. revert Hcfg. induction Hsteps as [c|c1 c2 c3 Hs _ IH]; intros Hcfg.
  { split; [done|]. lia. }
  destruct Hs as [g m g' m' Hpos Hround]. cbn [fst snd] in *.
  pose proof (wp_exec_round N s g m Hcfg HN Hpos) as Hwp. rw /wp Hround in Hwp.
  destruct Hwp as [(Hcfg' & Hlt & _) Hmem]. destruct (IH Hcfg') as (? & ? & ?).
  split; [done|]. lia.
Qed.
End loop.

(** ** [Interpreter::exec] *)

(** The part of the environment that is the shared jump-destination cache. *)
Class CacheStoreOk {X L} (HX : Externalities X) (HL : LruCache BitSet L) (HS : CacheStore X L)
    (crypt_hash : bytes -> H256) (I : Z -> X -> Prop) : Prop := {
  the_cache_ok n x : I n x -> SharedCache.cache_ok crypt_hash (the_cache x);
  put_cache_ok n x c : I n x -> SharedCache.cache_ok crypt_hash c -> ext_step (I n) x (put_cache c x);
}.

Section exec.
  Context {X : Type} {HX : Externalities X} (I : Z -> X -> Prop) {HXok : ExternalitiesOk X I}.
  Context {L : Type} {HL : LruCache BitSet L} {HLok : LruCacheOk BitSet L} {HS : CacheStore X L}.
  Context (sha3 : bytes -> H256) (sha3_fits : forall b, fits 256 (sha3 b)) (HASH_EMPTY : H256).
  (** The hash that names code, and the one of the [SHA3] instruction. *)
  Context (crypt_hash : bytes -> H256) {HSok : CacheStoreOk HX HL HS crypt_hash I}.
  Context (no_trace : forall n pc i g,
    ext_method (I n) (trace_prepare_execute pc i g) (fun b => b = false)).

Definition start (x : X) : machine X :=
  Machine [] 0 (VecStack.with_capacity (Schedule.stack_limit (schedule x)) 0) x.

Lemma start_config N Pos gas x : I (N + gas) x -> fits 64 gas -> Pos 0 ->
  config_ok I Pos N (schedule x) (Gasometer.new gas) (start x).
Proof using HXok.
  intros Hx Hgas HPos. split; cbn [start stack mem ext position]; [|constructor| |done|done].
  - exists [], (replicate 4 0). split_and!; [done|done|constructor|].
    apply (Schedule.ok_stack_limit _ (schedule_ok (I := I) _ x Hx)).
  - split_and!; done.
Qed.

Lemma jump_target_range code p : zlen code < 2 ^ 63 -> SharedCache.jump_target code p -> 0 <= p < 2 ^ 63.
Proof using.
  intros Hlen [Hs%instr_start_bound Hp%lookup_lt_Some]. unfold zlen in *. lia.
Qed.

(** A run never panics, gives back at most its gas and keeps the environment
    well formed. *)
Lemma wp_exec fuel N params code x :
  I (N + ActionParams.gas params) x -> 0 <= N -> params_ok params ->
  ActionParams.code params = Some code -> ActionParams.code_hash params = crypt_hash code ->
  ActionParams.gas params < 2 ^ 64 -> ActionParams.gas params < Z.of_nat fuel ->
  wp (exec 64 sha3 HASH_EMPTY fuel params)
    (fun r x' => 0 <= gas_left r <= ActionParams.gas params /\ output_ok r /\
       ext_step (I (N + gas_left r)) x x')
    (fun _ x' => ext_step (I N) x x') x.
Proof using HXok HLok HSok sha3_fits no_trace.
  intros Hx HN Hparams Hcode Hhash Hgas Hfuel. rw /exec Hcode Hhash. apply wp_bind, wp_lift.
  cbn [owp expect]. apply wp_bind. destruct (ok_gas params Hparams) as [Hg1 _].
  pose proof (ok_code params Hparams) as Hvec. rw Hcode in Hvec. pose proof Hvec as [_ Hlen].
  destruct (SharedCache.jump_destinations_total crypt_hash HASH_EMPTY code (the_cache x)
    (the_cache_ok _ _ Hx) Hlen) as (d & c & code' & Hd & Hc & _ & Hlen' & Hfind).
  rw /wp Hd. destruct (SharedCache.find_jump_destinations_total (E := Error) code' Hlen')
    as (d' & Hd' & Htarget). rw Hfind in Hd'. injection Hd' as <-.
  assert (HPos : positions code d (fun p => 0 <= p < 2 ^ 63 + 64)).
  { apply positions_range; [done|]. intros p Hp%Htarget. by apply (jump_target_range code'). }
  pose proof (put_cache_ok _ x c Hx Hc) as Hstep. apply wp_bind, wp_lift.
  rw from_u256_spec; [apply (ok_gas params Hparams)|]. rw (proj2 (Z.ltb_lt _ _)); [done|].
  cbn [owp]. pose proof (start_config N (fun p => 0 <= p < 2 ^ 63 + 64) _ _ (proj1 Hstep)
    (conj Hg1 Hgas) ltac:(done)) as Hstart.
  pose proof (wp_exec_loop I sha3 sha3_fits params Hparams code Hvec d _ HPos no_trace fuel N
    (schedule (put_cache c x)) (Gasometer.new (ActionParams.gas params)) (start (put_cache c x))
    Hstart HN Hfuel) as Hloop.
  rw /wp /start in Hloop |- *. destruct (exec_loop _ _ _ _ _ _ _ _) as [[r|e|] m]; [|..|done].
  - destruct Hloop as (? & ? & ?). split; [done|]. split; [done|]. by eapply ext_step_trans.
  - by eapply ext_step_trans.
Qed.
End exec.
