(* ===== verification/Account.v ===== *)
(** * Accounts

    [cita-executor/core/src/state/account.rs]: one account, with the pending
    changes to its storage and code and caches of what was read.  Below it
    the interface of the database ([state/backend.rs] and the trie and
    account-database factories) and of the utility library. *)

From S2P Require Import Prelude Lru Evm.
From stdpp Require Import base gmap list strings.
Local Open Scope Z_scope.
Local Open Scope cita_scope.

(** [types::basic_account::BasicAccount], the record stored in the state trie. *)
Record BasicAccount : Set := {
  basic_nonce : U256;
  basic_storage_root : H256;
  basic_code_hash : H256;
}.

(** The utility library: the hash function and its values on the empty string
    and on the empty trie, and the RLP encoding. *)
Class Util : Type := {
  crypt_hash : bytes -> H256;
  HASH_EMPTY : H256;
  HASH_NULL_RLP : H256;
  encode_basic : BasicAccount -> bytes;
  decode_basic : bytes -> option BasicAccount;
  encode_u256 : U256 -> bytes;
  decode_u256 : bytes -> option U256;
}.

(** A database with the tries stored in it.  A space is the state trie
    ([None]) or the account database of one address hash. *)
Class Backend (D : Type) : Type := {
  db_contains : D -> H256 -> bool;
  code_get : D -> H256 -> H256 -> option bytes;
  code_emplace : D -> H256 -> H256 -> bytes -> D;
  trie_open : D -> option H256 -> H256 -> TrieError + unit;
  trie_get : D -> option H256 -> H256 -> Z -> TrieError + option bytes;
  (** [insert] for [Some], [remove] for [None]; the new root comes back *)
  trie_put : D -> option H256 -> H256 -> Z -> option bytes -> TrieError + (D * H256);
}.

Definition of_sum {E A} (r : E + A) : outcome E A :=
  match r with inl e => Err e | inr a => Ok a end.

Inductive Filth : Set := Clean | Dirty.

#[export] Instance Filth_eq_dec : EqDecision Filth.
Proof. solve_decision. Defined.

Module Account.
Record t (L : Type) : Type := mk {
  nonce : U256;
  storage_root : H256;
  storage_cache : L;
  storage_changes : gmap Z Z;
  code_hash : H256;
  code_size : option Z;
  code_cache : bytes;
  code_filth : Filth;
  address_hash_ : option H256;
}.
Arguments mk {L}.
Arguments nonce {L} _.
Arguments storage_root {L} _.
Arguments storage_cache {L} _.
Arguments storage_changes {L} _.
Arguments code_hash {L} _.
Arguments code_size {L} _.
Arguments code_cache {L} _.
Arguments code_filth {L} _.
Arguments address_hash_ {L} _.

Section account.
  Context {HU : Util} {L : Type} {HL : LruCache Z L} {D : Type} {HD : Backend D}.

(** [impl From<BasicAccount> for Account]. *)
Definition from_basic (basic : BasicAccount) : t L :=
  mk (basic_nonce basic) (basic_storage_root basic) lru_empty ∅ (basic_code_hash basic) None []
     Clean None.

Definition new_basic (nonce : U256) : t L :=
  mk nonce HASH_NULL_RLP lru_empty ∅ HASH_EMPTY (Some 0) [] Clean None.

(** [from_rlp]: decoding a malformed string panics. *)
Definition from_rlp {E} (rlp : bytes) : outcome E (t L) :=
  basic <- expect (decode_basic rlp) ;;
  Ok (from_basic basic).

Definition new_contract (nonce : U256) : t L :=
  mk nonce HASH_NULL_RLP lru_empty ∅ HASH_EMPTY None [] Clean None.

Definition init_code (a : t L) (code : bytes) : t L :=
  mk (nonce a) (storage_root a) (storage_cache a) (storage_changes a) (crypt_hash code)
     (Some (zlen code)) code Dirty (address_hash_ a).

Definition reset_code (a : t L) (code : bytes) : t L := init_code a code.

Definition set_storage (a : t L) (key value : H256) : t L :=
  mk (nonce a) (storage_root a) (storage_cache a) (<[key := value]> (storage_changes a))
     (code_hash a) (code_size a) (code_cache a) (code_filth a) (address_hash_ a).

Definition set_storage_cache (a : t L) (c : L) : t L :=
  mk (nonce a) (storage_root a) c (storage_changes a) (code_hash a) (code_size a) (code_cache a)
     (code_filth a) (address_hash_ a).

Definition cached_storage_at (a : t L) (key : H256) : option H256 * t L :=
  match storage_changes a !! key with
  | Some value => (Some value, a)
  | None =>
      let '(v, c) := lru_get key (storage_cache a) in (v, set_storage_cache a c)
  end.

(** [storage_at] through the account database of address hash [ah]. *)
Definition storage_at (db : D) (ah : H256) (a : t L) (key : H256) : outcome TrieError H256 * t L :=
  match cached_storage_at a key with
  | (Some value, a) => (Ok value, a)
  | (None, a) =>
      let item :=
        _ <- of_sum (trie_open db (Some ah) (storage_root a)) ;;
        item <- of_sum (trie_get db (Some ah) (storage_root a) key) ;;
        match item with
        | Some b => expect (decode_u256 b)
        | None => Ok 0
        end in
      match item with
      | Ok value => (Ok value, set_storage_cache a (lru_insert key value (storage_cache a)))
      | r => (r, a)
      end
  end.

(** The hash of the address, remembered in the account. *)
Definition address_hash (a : t L) (address : Address) : H256 * t L :=
  match address_hash_ a with
  | Some hash => (hash, a)
  | None =>
      let hash := crypt_hash (to_be 20 address) in
      (hash, mk (nonce a) (storage_root a) (storage_cache a) (storage_changes a) (code_hash a)
                (code_size a) (code_cache a) (code_filth a) (Some hash))
  end.

Definition is_empty_code (a : t L) : bool :=
  match code_cache a with [] => true | _ => false end.

Definition code (a : t L) : option bytes :=
  if negb (code_hash a =? HASH_EMPTY) && is_empty_code a then None else Some (code_cache a).

Definition is_cached (a : t L) : bool :=
  negb (is_empty_code a) || (is_empty_code a && (code_hash a =? HASH_EMPTY)).

Definition set_code (a : t L) (size : option Z) (c : bytes) : t L :=
  mk (nonce a) (storage_root a) (storage_cache a) (storage_changes a) (code_hash a) size c
     (code_filth a) (address_hash_ a).

Definition cache_code (db : D) (ah : H256) (a : t L) : option bytes * t L :=
  if is_cached a then (Some (code_cache a), a)
  else
    match code_get db ah (code_hash a) with
    | Some x => (Some x, set_code a (Some (zlen x)) x)
    | None => (None, a)
    end.

Definition cache_given_code (a : t L) (c : bytes) : t L := set_code a (Some (zlen c)) c.

Definition cache_code_size (db : D) (ah : H256) (a : t L) : bool * t L :=
  match code_size a with
  | Some _ => (true, a)
  | None =>
      if negb (code_hash a =? HASH_EMPTY) then
        match code_get db ah (code_hash a) with
        | Some x => (true, set_code a (Some (zlen x)) (code_cache a))
        | None => (false, a)
        end
      else (false, a)
  end.

Definition storage_is_clean (a : t L) : bool := bool_decide (storage_changes a = ∅).

(** No nonce, no code. *)
Definition is_null (a : t L) : bool := (nonce a =? 0) && (code_hash a =? HASH_EMPTY).

Definition is_empty {E} (a : t L) : outcome E bool :=
  _ <- assert_ (storage_is_clean a) ;;
  Ok (is_null a && (storage_root a =? HASH_NULL_RLP)).

Definition storage_root_ (a : t L) : option H256 :=
  if storage_is_clean a then Some (storage_root a) else None.

(** [U256] addition panics on overflow. *)
Definition inc_nonce {E} (a : t L) : outcome E (t L) :=
  n <- add_ 256 (nonce a) 1 ;;
  Ok (mk n (storage_root a) (storage_cache a) (storage_changes a) (code_hash a) (code_size a)
         (code_cache a) (code_filth a) (address_hash_ a)).

(** The loop of [commit_storage] over the drained changes. *)
Fixpoint commit_changes (ah : H256) (changes : list (Z * Z)) (db : D) (root : H256) (cache : L)
    : outcome TrieError unit * (D * H256 * L) :=
  match changes with
  | [] => (Ok tt, (db, root, cache))
  | (k, v) :: rest =>
      match trie_put db (Some ah) root k (if v =? 0 then None else Some (encode_u256 v)) with
      | inl e => (Err e, (db, root, cache))
      | inr (db, root) => commit_changes ah rest db root (lru_insert k v cache)
      end
  end.

(** The changes are drained even when an error ends the loop. *)
Definition commit_storage (db : D) (ah : H256) (a : t L) : outcome TrieError unit * (D * t L) :=
  match trie_open db (Some ah) (storage_root a) with
  | inl e => (Err e, (db, a))
  | inr _ =>
      let '(r, (db, root, cache)) :=
        commit_changes ah (map_to_list (storage_changes a)) db (storage_root a) (storage_cache a) in
      (r, (db, mk (nonce a) root cache ∅ (code_hash a) (code_size a) (code_cache a)
                  (code_filth a) (address_hash_ a)))
  end.

Definition set_filth (a : t L) (size : option Z) (f : Filth) : t L :=
  mk (nonce a) (storage_root a) (storage_cache a) (storage_changes a) (code_hash a) size
     (code_cache a) f (address_hash_ a).

Definition commit_code (db : D) (ah : H256) (a : t L) : D * t L :=
  match code_filth a, is_empty_code a with
  | Dirty, true => (db, set_filth a (Some 0) Clean)
  | Dirty, false =>
      (code_emplace db ah (code_hash a) (code_cache a),
       set_filth a (Some (zlen (code_cache a))) Clean)
  | Clean, _ => (db, a)
  end.

Definition rlp (a : t L) : bytes :=
  encode_basic {| basic_nonce := nonce a; basic_storage_root := storage_root a;
                  basic_code_hash := code_hash a |}.

Definition clone_basic (a : t L) : t L :=
  mk (nonce a) (storage_root a) lru_empty ∅ (code_hash a) (code_size a) (code_cache a)
     (code_filth a) (address_hash_ a).

Definition clone_dirty (a : t L) : t L :=
  mk (nonce a) (storage_root a) lru_empty (storage_changes a) (code_hash a) (code_size a)
     (code_cache a) (code_filth a) (address_hash_ a).

Definition clone_all (a : t L) : t L :=
  mk (nonce a) (storage_root a) (storage_cache a) (storage_changes a) (code_hash a) (code_size a)
     (code_cache a) (code_filth a) (address_hash_ a).

(** Everything of [other], with the storage caches merged. *)
Definition overwrite_with (a other : t L) : t L :=
  mk (nonce other) (storage_root other)
     (fold_left (fun c e => lru_insert e.1 e.2 c) (lru_items (storage_cache other)) (storage_cache a))
     (storage_changes other) (code_hash other) (code_size other) (code_cache other)
     (code_filth other) (address_hash_ other).
End account.
End Account.
