(* ===== verification/State.v ===== *)
(** * World state

    [cita-executor/core/src/state/mod.rs]: accounts cached over the state
    trie, and the stack of checkpoints that lets a failed call be undone. *)

From S2P Require Import Prelude Lru Evm Account.
From stdpp Require Import base gmap list strings.
Local Open Scope Z_scope.
Local Open Scope cita_scope.

Module AccountState.
Inductive t : Set := CleanFresh | Dirty | Committed.

#[global] Instance t_eq_dec : EqDecision t.
Proof. solve_decision. Defined.
End AccountState.

Module AccountEntry.
Record t (L : Type) : Type := mk {
  account : option (Account.t L);
  state : AccountState.t;
}.
Arguments mk {L} _ _.
Arguments account {L} _.
Arguments state {L} _.

Section entry.
  Context {HU : Util} {L : Type} {HL : LruCache Z L}.

Definition is_dirty (e : t L) : bool := bool_decide (state e = AccountState.Dirty).

Definition clone_dirty (e : t L) : t L := mk (Account.clone_dirty <$> account e) (state e).

Definition clone_if_dirty (e : t L) : option (t L) :=
  if is_dirty e then Some (clone_dirty e) else None.

Definition new_dirty (a : option (Account.t L)) : t L := mk a AccountState.Dirty.

Definition new_clean (a : option (Account.t L)) : t L := mk a AccountState.CleanFresh.

(** Replace data with another entry but preserve the storage cache. *)
Definition overwrite_with (e other : t L) : t L :=
  mk match account other with
     | Some acc =>
         match account e with
         | Some ours => Some (Account.overwrite_with ours acc)
         | None => None
         end
     | None => None
     end (state other).
End entry.
End AccountEntry.

Inductive RequireCache : Set := RequireNone | RequireCodeSize | RequireCode.

Module State.
Record t (D L : Type) : Type := mk {
  db : D;
  root : H256;
  cache : gmap Z (AccountEntry.t L);
  (** the last checkpoint is the head *)
  checkpoints : list (gmap Z (option (AccountEntry.t L)));
  account_start_nonce : U256;
  senders : gset Z;
  creators : gset Z;
}.
Arguments mk {D L}.
Arguments db {D L} _.
Arguments root {D L} _.
Arguments cache {D L} _.
Arguments checkpoints {D L} _.
Arguments account_start_nonce {D L} _.
Arguments senders {D L} _.
Arguments creators {D L} _.

Section state.
  Context {HU : Util} {L : Type} {HL : LruCache Z L} {D : Type} {HD : Backend D}.
Let St := t D L.
Let SM := M TrieError St.

Definition with_cache (s : St) (c : gmap Z (AccountEntry.t L)) : St :=
  mk (db s) (root s) c (checkpoints s) (account_start_nonce s) (senders s) (creators s).

Definition with_checkpoints (s : St) (c : list (gmap Z (option (AccountEntry.t L)))) : St :=
  mk (db s) (root s) (cache s) c (account_start_nonce s) (senders s) (creators s).

Definition from_existing (d : D) (r : H256) (start_nonce : U256) : outcome TrieError St :=
  if negb (db_contains d r) then Err "Trie database error: Invalid state root"%string
  else Ok (mk d r ∅ [] start_nonce ∅ ∅).

(** ** Checkpoints *)
Definition checkpoint (s : St) : St := with_checkpoints s (∅ :: checkpoints s).

(** Entries of the previous checkpoint take precedence. *)
Definition discard_checkpoint (s : St) : St :=
  match checkpoints s with
  | [] => s
  | [_] => with_checkpoints s []
  | last :: prev :: rest => with_checkpoints s ((prev ∪ last) :: rest)
  end.

Definition revert_entry (c : gmap Z (AccountEntry.t L)) (kv : Z * option (AccountEntry.t L))
    : gmap Z (AccountEntry.t L) :=
  let '(k, v) := kv in
  match v with
  | Some v =>
      match c !! k with
      | Some e => <[k := AccountEntry.overwrite_with e v]> c
      | None => <[k := v]> c
      end
  | None =>
      match c !! k with
      | Some e => if AccountEntry.is_dirty e then delete k c else c
      | None => c
      end
  end.

Definition revert_to_checkpoint (s : St) : St :=
  match checkpoints s with
  | [] => s
  | last :: rest =>
      with_checkpoints (with_cache s (fold_left revert_entry (map_to_list last) (cache s))) rest
  end.

Definition insert_cache (s : St) (address : Address) (account : AccountEntry.t L) : St :=
  let direct := with_cache s (<[address := account]> (cache s)) in
  if AccountEntry.is_dirty account then
    match checkpoints s with
    | last :: rest =>
        match last !! address with
        | Some _ => direct
        | None => with_checkpoints direct (<[address := cache s !! address]> last :: rest)
        end
    | [] => direct
    end
  else direct.

Definition note_cache (s : St) (address : Address) : St :=
  match checkpoints s with
  | last :: rest =>
      match last !! address with
      | Some _ => s
      | None =>
          with_checkpoints s
            (<[address := AccountEntry.clone_dirty <$> cache s !! address]> last :: rest)
      end
  | [] => s
  end.

Definition new_contract (contract : Address) (nonce_offset : U256) : SM unit :=
  s <~ sget ;;
  nonce <~ slift (add_ 256 (account_start_nonce s) nonce_offset) ;;
  smodify (fun s =>
    insert_cache s contract (AccountEntry.new_dirty (Some (Account.new_contract nonce)))).

Definition kill_account (s : St) (account : Address) : St :=
  insert_cache s account (AccountEntry.new_dirty None).

(** ** Reading accounts *)

(** [db.get_with(address, Account::from_rlp)?]. *)
Definition load_account (s : St) (a : Address) : outcome TrieError (option (Account.t L)) :=
  item <- of_sum (trie_get (db s) None (root s) a) ;;
  match item with
  | Some b => acc <- Account.from_rlp b ;; Ok (Some acc)
  | None => Ok None
  end.

Definition update_account_cache (require : RequireCache) (d : D) (ah : H256) (account : Account.t L)
    : Account.t L :=
  match Account.is_cached account, require with
  | true, _ | false, RequireNone => account
  | false, _ => (Account.cache_code d ah account).2
  end.

Definition ensure_cached {U} (a : Address) (require : RequireCache)
    (f : option (Account.t L) -> U) : SM U :=
  s <~ sget ;;
  match cache s !! a with
  | Some entry =>
      match AccountEntry.account entry with
      | Some account =>
          let '(ah, account) := Account.address_hash account a in
          let account := update_account_cache require (db s) ah account in
          _ <~ smodify (fun s => with_cache s
                 (<[a := AccountEntry.mk (Some account) (AccountEntry.state entry)]> (cache s))) ;;
          sret (f (Some account))
      | None => sret (f None)
      end
  | None =>
      _ <~ slift (of_sum (trie_open (db s) None (root s))) ;;
      maybe_acc <~ slift (load_account s a) ;;
      let maybe_acc :=
        match maybe_acc with
        | Some account =>
            let '(ah, account) := Account.address_hash account a in
            Some (update_account_cache require (db s) ah account)
        | None => None
        end in
      let r := f maybe_acc in
      _ <~ smodify (fun s => insert_cache s a (AccountEntry.new_clean maybe_acc)) ;;
      sret r
  end.

Definition exists_ (a : Address) : SM bool :=
  ensure_cached a RequireNone (fun a => match a with Some _ => true | None => false end).

Definition exists_and_not_null (a : Address) : SM bool :=
  ensure_cached a RequireNone (fun a => match a with Some a => negb (Account.is_null a) | None => false end).

Definition nonce (a : Address) : SM U256 :=
  s <~ sget ;;
  ensure_cached a RequireNone (fun a => from_option Account.nonce (account_start_nonce s) a).

Definition storage_root (a : Address) : SM (option H256) :=
  ensure_cached a RequireNone (fun a => a ≫= Account.storage_root_).

Definition code (a : Address) : SM (option bytes) :=
  ensure_cached a RequireCode (fun a => a ≫= Account.code).

Definition code_hash (a : Address) : SM H256 :=
  ensure_cached a RequireNone (fun a => from_option Account.code_hash HASH_EMPTY a).

Definition code_size (a : Address) : SM (option Z) :=
  ensure_cached a RequireCodeSize (fun a => a ≫= Account.code_size).

(** [storage_at] on an account that is in the cache. *)
Definition storage_at_cached (address : Address) (key : H256) (entry : AccountEntry.t L) : SM H256 :=
  match AccountEntry.account entry with
  | None => sret 0
  | Some account =>
      s <~ sget ;;
      let put account := smodify (fun s => with_cache s
        (<[address := AccountEntry.mk (Some account) (AccountEntry.state entry)]> (cache s))) in
      match Account.cached_storage_at account key with
      | (Some value, account) => _ <~ put account ;; sret value
      | (None, account) =>
          let '(ah, account) := Account.address_hash account address in
          let '(r, account) := Account.storage_at (db s) ah account key in
          _ <~ put account ;;
          slift r
      end
  end.

Definition storage_at (address : Address) (key : H256) : SM H256 :=
  s <~ sget ;;
  match cache s !! address with
  | Some entry => storage_at_cached address key entry
  | None =>
      _ <~ slift (match trie_open (db s) None (root s) with inl _ => Panic | inr _ => Ok tt end) ;;
      maybe_acc <~ slift (load_account s address) ;;
      let '(r, maybe_acc) :=
        match maybe_acc with
        | Some a =>
            let '(ah, a) := Account.address_hash a address in
            let '(r, a) := Account.storage_at (db s) ah a key in (r, Some a)
        | None => (Ok 0, None)
        end in
      _ <~ smodify (fun s => insert_cache s address (AccountEntry.new_clean maybe_acc)) ;;
      slift r
  end.

(** ** Changing accounts *)

(** [require_or_from]: the account is brought into the cache, noted in the
    checkpoint and marked dirty; [upd] is what the caller does with the
    reference it gets. *)
Definition require_or_from (a : Address) (require_code : bool) (default : Account.t L)
    (not_default : Account.t L -> Account.t L)
    (upd : Account.t L -> outcome TrieError (Account.t L)) : SM unit :=
  s <~ sget ;;
  _ <~ (if bool_decide (is_Some (cache s !! a)) then sret tt
        else
          _ <~ slift (of_sum (trie_open (db s) None (root s))) ;;
          maybe_acc <~ slift (load_account s a) ;;
          smodify (fun s => insert_cache s a (AccountEntry.new_clean maybe_acc))) ;;
  _ <~ smodify (fun s => note_cache s a) ;;
  s <~ sget ;;
  entry <~ slift (expect (cache s !! a)) ;;
  let account :=
    match AccountEntry.account entry with
    | Some acc => not_default acc
    | None => default
    end in
  let account :=
    if require_code then
      let '(ah, account) := Account.address_hash account a in
      update_account_cache RequireCode (db s) ah account
    else account in
  account <~ slift (upd account) ;;
  smodify (fun s => with_cache s
    (<[a := AccountEntry.mk (Some account) AccountState.Dirty]> (cache s))).

Definition require (a : Address) (require_code : bool)
    (upd : Account.t L -> outcome TrieError (Account.t L)) : SM unit :=
  s <~ sget ;;
  require_or_from a require_code (Account.new_basic (account_start_nonce s)) (fun x => x) upd.

Definition inc_nonce (a : Address) : SM unit := require a false Account.inc_nonce.

Definition set_storage (a : Address) (key value : H256) : SM unit :=
  current <~ storage_at a key ;;
  if negb (current =? value)
  then require a false (fun acc => Ok (Account.set_storage acc key value))
  else sret tt.

Definition init_code (a : Address) (code : bytes) : SM unit :=
  s <~ sget ;;
  require_or_from a true (Account.new_contract (account_start_nonce s)) (fun x => x)
    (fun acc => Ok (Account.init_code acc code)).

Definition reset_code (a : Address) (code : bytes) : SM unit :=
  s <~ sget ;;
  require_or_from a true (Account.new_contract (account_start_nonce s)) (fun x => x)
    (fun acc => Ok (Account.reset_code acc code)).

(** ** Committing *)

(** First loop of [commit_into]: storage and code of the dirty accounts. *)
Fixpoint commit_subtrees (keys : list Z) : M TrieError (D * gmap Z (AccountEntry.t L)) unit :=
  match keys with
  | [] => sret tt
  | k :: keys =>
      let! (d, accounts) := sget in
      match accounts !! k with
      | Some (AccountEntry.mk (Some account) AccountState.Dirty) =>
          let '(ah, account) := Account.address_hash account k in
          let '(r, (d, account)) := Account.commit_storage d ah account in
          match r with
          | Ok _ =>
              let '(d, account) := Account.commit_code d ah account in
              _ <~ smodify (fun _ =>
                     (d, <[k := AccountEntry.mk (Some account) AccountState.Dirty]> accounts)) ;;
              commit_subtrees keys
          | _ =>
              _ <~ smodify (fun _ =>
                     (d, <[k := AccountEntry.mk (Some account) AccountState.Dirty]> accounts)) ;;
              slift r
          end
      | _ => commit_subtrees keys
      end
  end.

(** Second loop: the records of the state trie. *)
Fixpoint commit_records (keys : list Z) : M TrieError (D * H256 * gmap Z (AccountEntry.t L)) unit :=
  match keys with
  | [] => sret tt
  | k :: keys =>
      let! (d, r, accounts) := sget in
      match accounts !! k with
      | Some (AccountEntry.mk acc AccountState.Dirty) =>
          let accounts := <[k := AccountEntry.mk acc AccountState.Committed]> accounts in
          match trie_put d None r k (Account.rlp <$> acc) with
          | inl e => _ <~ smodify (fun _ => (d, r, accounts)) ;; sfail e
          | inr (d, r) => _ <~ smodify (fun _ => (d, r, accounts)) ;; commit_records keys
          end
      | _ => commit_records keys
      end
  end.

Definition commit_into : SM unit := fun s =>
  let keys := (map_to_list (cache s)).*1 in
  match commit_subtrees keys (db s, cache s) with
  | (Ok _, (d, accounts)) =>
      match trie_open d None (root s) with
      | inl e =>
          (Err e, mk d (root s) accounts (checkpoints s) (account_start_nonce s) (senders s) (creators s))
      | inr _ =>
          let '(res, (d, r, accounts)) := commit_records keys (d, root s, accounts) in
          (res, mk d r accounts (checkpoints s) (account_start_nonce s) (senders s) (creators s))
      end
  | (res, (d, accounts)) =>
      (res, mk d (root s) accounts (checkpoints s) (account_start_nonce s) (senders s) (creators s))
  end.

Definition commit : SM unit :=
  s <~ sget ;;
  _ <~ slift (assert_ (bool_decide (checkpoints s = []))) ;;
  commit_into.

Definition clear (s : St) : St := with_cache s ∅.

(** [impl Clone]: the dirty entries only. *)
Definition clone (s : St) : St :=
  mk (db s) (root s) (omap AccountEntry.clone_if_dirty (cache s)) [] (account_start_nonce s)
     (senders s) (creators s).
End state.
End State.
