(* ===== verification/StateSpec.v ===== *)
(** * Well-formed states

    The type invariant of the world state and its preservation: on a
    well-formed state no operation panics, results have their width, and the
    code an account reports is the one its code hash names. *)

From S2P Require Import Prelude Lru Evm Account State.
From stdpp Require Import base gmap list strings.
Local Open Scope Z_scope.
Local Open Scope cita_scope.

(** Documented behaviour of the utility library. *)
Class UtilOk {HU : Util} : Prop := {
  hash_fits b : fits 256 (crypt_hash b);
  hash_empty : crypt_hash [] = HASH_EMPTY;
  decode_encode_basic n r c : fits 256 n -> fits 256 r -> fits 256 c ->
    decode_basic (encode_basic (Build_BasicAccount n r c)) = Some (Build_BasicAccount n r c);
  decode_encode_u256 v : fits 256 v -> decode_u256 (encode_u256 v) = Some v;
}.

Section state_spec.
  Context {HU : Util} {HUok : UtilOk}.
  Context {L : Type} {HL : LruCache Z L} {HLok : LruCacheOk Z L} {D : Type} {HD : Backend D}.

(** ** The invariant *)

(** [n] more increments of the nonce do not overflow. *)
Record account_ok (n : Z) (a : Account.t L) : Prop := {
  acc_nonce : 0 <= Account.nonce a /\ Account.nonce a + n < 2 ^ 256;
  acc_cache : Forall (fun e => fits 256 e.2) (lru_items (Account.storage_cache a));
  acc_changes : map_Forall (fun _ v => fits 256 v) (Account.storage_changes a);
  acc_code : vec_ok (Account.code_cache a);
  acc_code_hash : Account.is_cached a = true -> crypt_hash (Account.code_cache a) = Account.code_hash a;
  acc_code_size z : Account.code_size a = Some z -> fits 64 z;
}.

Definition entry_ok (n : Z) (e : AccountEntry.t L) : Prop :=
  forall a, AccountEntry.account e = Some a -> account_ok n a.

(** The database can be read: the state trie exists, and everything stored in
    it decodes to values of the right width; code is stored under its hash. *)
Record db_ok (n : Z) (d : D) (r : H256) : Prop := {
  db_root : trie_open d None r = inr tt;
  db_basic a b : trie_get d None r a = inr (Some b) ->
    exists basic, decode_basic b = Some basic /\ 0 <= basic_nonce basic /\ basic_nonce basic + n < 2 ^ 256;
  db_storage ah sr k b : trie_get d (Some ah) sr k = inr (Some b) ->
    exists v, decode_u256 b = Some v /\ fits 256 v;
  db_code ah h c : code_get d ah h = Some c -> vec_ok c /\ crypt_hash c = h;
}.

Record state_ok (n : Z) (s : State.t D L) : Prop := {
  st_db : db_ok n (State.db s) (State.root s);
  st_cache a e : State.cache s !! a = Some e -> entry_ok n e;
  st_saved cp a e : cp ∈ State.checkpoints s -> cp !! a = Some (Some e) -> entry_ok n e;
  st_start : 0 <= State.account_start_nonce s /\ State.account_start_nonce s + n < 2 ^ 256;
}.

(** A step keeps the invariant, the database, the number of checkpoints and
    the permissions. *)
Definition frame (s s' : State.t D L) : Prop :=
  length (State.checkpoints s') = length (State.checkpoints s) /\
  State.db s' = State.db s /\ State.root s' = State.root s /\
  State.account_start_nonce s' = State.account_start_nonce s /\
  State.senders s' = State.senders s /\ State.creators s' = State.creators s.

Definition state_step (n : Z) (s s' : State.t D L) : Prop := state_ok n s' /\ frame s s'.

Lemma frame_refl s : frame s s.
Proof using. done. Qed.

Lemma frame_trans s1 s2 s3 : frame s1 s2 -> frame s2 s3 -> frame s1 s3.
Proof using. intros (?&?&?&?&?&?) (?&?&?&?&?&?). repeat split; congruence. Qed.

Lemma state_step_trans n s1 s2 s3 : state_step n s1 s2 -> state_step n s2 s3 -> state_step n s1 s3.
Proof using. intros [_ ?] [? ?]. split; [done|]. by eapply frame_trans. Qed.

Lemma account_ok_mono m n a : 0 <= m <= n -> account_ok n a -> account_ok m a.
Proof using. intros Hmn []. split; try done. lia. Qed.

Lemma state_ok_mono m n s : 0 <= m <= n -> state_ok n s -> state_ok m s.
Proof using.
  intros Hmn [[Hr Hb Hs Hc] Hcache Hsaved Hstart]. split; [|..|lia].
  - split; try done. intros a b Hab. destruct (Hb a b Hab) as (basic & ? & ?). exists basic.
    split; [done|]. lia.
  - intros a e He acc Hacc. eapply account_ok_mono; [done|]. by eapply Hcache.
  - intros cp a e Hcp He acc Hacc. eapply account_ok_mono; [done|]. by eapply Hsaved.
Qed.

(** ** Accounts *)
Section accounts.
  Context (n : Z).

Lemma from_basic_ok b : 0 <= basic_nonce b -> basic_nonce b + n < 2 ^ 256 ->
  account_ok n (Account.from_basic (L := L) b).
Proof using HUok HLok.
  intros. split; cbn; [done|by rw lru_items_empty|done|by split; [constructor|]| |done].
  rw /Account.is_cached /Account.is_empty_code /=. intros ->%Z.eqb_eq. apply hash_empty.
Qed.

Lemma new_basic_ok k : 0 <= k -> k + n < 2 ^ 256 -> account_ok n (Account.new_basic (L := L) k).
Proof using HUok HLok.
  intros. split; cbn; [done|by rw lru_items_empty|done|by split; [constructor|]| |by intros z [= <-]].
  intros. apply hash_empty.
Qed.

Lemma new_contract_ok k : 0 <= k -> k + n < 2 ^ 256 -> account_ok n (Account.new_contract (L := L) k).
Proof using HUok HLok.
  intros. split; cbn; [done|by rw lru_items_empty|done|by split; [constructor|]| |done].
  intros. apply hash_empty.
Qed.

Lemma length_fits64 (c : bytes) : vec_ok c -> fits 64 (zlen c).
Proof using. intros [_ ?]. split; [apply zlen_nonneg|lia]. Qed.

Lemma init_code_ok a c : account_ok n a -> vec_ok c -> account_ok n (Account.init_code a c).
Proof using. intros [] Hc. split; cbn; try done. intros z [= <-]. by apply length_fits64. Qed.

Lemma set_storage_ok a k v : account_ok n a -> fits 256 v -> account_ok n (Account.set_storage a k v).
Proof using. intros [] Hv. split; cbn; try done. by apply map_Forall_insert_2. Qed.

Lemma set_storage_cache_ok a c : account_ok n a ->
  Forall (fun e => fits 256 e.2) (lru_items c) -> account_ok n (Account.set_storage_cache a c).
Proof using. intros [] Hc. by split. Qed.

Lemma address_hash_ok a addr : account_ok n a -> account_ok n (Account.address_hash a addr).2.
Proof using. intros Ha. rw /Account.address_hash. by destruct (Account.address_hash_ a), Ha. Qed.

Lemma lru_get_fits k (c : L) : Forall (fun e => fits 256 e.2) (lru_items c) ->
  Forall (fun e => fits 256 e.2) (lru_items (lru_get k c).2).
Proof using HLok.
  intros Hc. apply Forall_forall. intros e He%lru_get_items. by eapply Forall_forall in Hc.
Qed.

Lemma lru_insert_fits k v (c : L) : Forall (fun e => fits 256 e.2) (lru_items c) -> fits 256 v ->
  Forall (fun e => fits 256 e.2) (lru_items (lru_insert k v c)).
Proof using HLok.
  intros Hc Hv. apply Forall_forall. intros [k' v'] [[-> ->]|[_ He]]%lru_insert_items; [done|].
  by eapply Forall_forall in Hc.
Qed.

Lemma cached_storage_at_ok a k : account_ok n a ->
  account_ok n (Account.cached_storage_at a k).2 /\
  forall v, (Account.cached_storage_at a k).1 = Some v -> fits 256 v.
Proof using HLok.
  intros Ha. pose proof Ha as []. rw /Account.cached_storage_at.
  destruct (Account.storage_changes a !! k) as [w|] eqn:Hk.
  { split; [done|]. intros v [= <-]. by eapply acc_changes0. }
  pose proof (lru_get_fits k _ acc_cache0) as Hfit.
  pose proof (lru_get_some k (Account.storage_cache a)) as Hsome.
  destruct (lru_get k (Account.storage_cache a)) as [o c]; cbn [fst snd] in *.
  split; [by apply set_storage_cache_ok|]. intros v ->. specialize (Hsome v eq_refl).
  by eapply Forall_forall in Hsome; [|exact acc_cache0].
Qed.

Lemma storage_at_ok d r ah a k : db_ok n d r -> account_ok n a ->
  account_ok n (Account.storage_at d ah a k).2 /\
  owp (Account.storage_at d ah a k).1 (fits 256) (fun _ => True).
Proof using HLok.
  intros Hd Ha. rw /Account.storage_at. destruct (cached_storage_at_ok a k Ha) as [Ha' Hv].
  destruct (Account.cached_storage_at a k) as [[v|] a']; cbn [fst snd] in *.
  { split; [done|]. by apply Hv. }
  set (item := obind _ _). assert (Hitem : owp item (fits 256) (fun _ => True)).
  { rw /item. destruct (trie_open d (Some ah) (Account.storage_root a')); [done|].
    destruct (trie_get d (Some ah) (Account.storage_root a') k) as [|[b|]] eqn:Hget; [done| |done].
    destruct (db_storage _ _ _ Hd _ _ _ _ Hget) as (v & Hdec & Hfit). cbn. by rw Hdec. }
  destruct item as [v|e|]; [|done|done]. split; [|done]. apply set_storage_cache_ok; [done|].
  apply lru_insert_fits; [by destruct Ha'|done].
Qed.

Lemma set_code_ok d r ah a x : db_ok n d r -> account_ok n a ->
  code_get d ah (Account.code_hash a) = Some x -> account_ok n (Account.set_code a (Some (zlen x)) x).
Proof using.
  intros Hd [] Hx. destruct (db_code _ _ _ Hd _ _ _ Hx) as [Hvec Hhash].
  split; cbn; try done. intros z [= <-]. by apply length_fits64.
Qed.

Lemma update_account_cache_ok req d r ah a : db_ok n d r -> account_ok n a ->
  account_ok n (State.update_account_cache req d ah a).
Proof using.
  intros Hd Ha. rw /State.update_account_cache /Account.cache_code.
  destruct (Account.is_cached a) eqn:Hc; [done|]. destruct req; [done|..];
    (destruct (code_get d ah (Account.code_hash a)) eqn:Hx; [by eapply set_code_ok|done]).
Qed.

Lemma clone_dirty_ok a : account_ok n a -> account_ok n (Account.clone_dirty a).
Proof using HLok. intros []. split; cbn; try done. by rw lru_items_empty. Qed.

Lemma merge_cache_fits (l : list (Z * Z)) (c : L) :
  Forall (fun e => fits 256 e.2) l -> Forall (fun e => fits 256 e.2) (lru_items c) ->
  Forall (fun e => fits 256 e.2) (lru_items (fold_left (fun c e => lru_insert e.1 e.2 c) l c)).
Proof using HLok.
  revert c. induction l as [|[k v] l IH]; intros c Hl Hc; [done|]. cbn [fold_left fst snd].
  apply Forall_cons in Hl as [Hv Hl]. apply IH; [done|]. by apply lru_insert_fits.
Qed.

Lemma overwrite_with_ok a b : account_ok n a -> account_ok n b -> account_ok n (Account.overwrite_with a b).
Proof using HLok.
  intros [] []. split; cbn; try done. by apply merge_cache_fits.
Qed.

Lemma entry_clone_ok e : entry_ok n e -> entry_ok n (AccountEntry.clone_dirty e).
Proof using HLok.
  intros He a. cbn. destruct (AccountEntry.account e) as [b|] eqn:Hb; [|done].
  intros [= <-]. apply clone_dirty_ok. by apply He.
Qed.

Lemma entry_overwrite_ok e v : entry_ok n e -> entry_ok n v -> entry_ok n (AccountEntry.overwrite_with e v).
Proof using HLok.
  intros He Hv a. cbn. destruct (AccountEntry.account v) as [b|] eqn:Hb; [|done].
  destruct (AccountEntry.account e) as [c|] eqn:Hc; [|done]. intros [= <-].
  apply overwrite_with_ok; [by apply He|by apply Hv].
Qed.

Lemma entry_some_ok a st : account_ok n a -> entry_ok n (AccountEntry.mk (Some a) st).
Proof using. by intros Ha b [= <-]. Qed.

(** ** Bookkeeping operations *)
Lemma with_cache_insert_ok s a e : state_ok n s -> entry_ok n e ->
  state_step n s (State.with_cache s (<[a := e]> (State.cache s))).
Proof using.
  intros [] He. split; [|done]. split; cbn; try done.
  intros b e' [[_ <-]|[_ ?]]%lookup_insert_Some; [done|by eapply st_cache0].
Qed.

Lemma insert_cache_ok s a e : state_ok n s -> entry_ok n e -> state_step n s (State.insert_cache s a e).
Proof using.
  intros Hs He. pose proof (with_cache_insert_ok s a e Hs He) as Hdirect. rw /State.insert_cache.
  destruct (AccountEntry.is_dirty e); [|done]. destruct (State.checkpoints s) as [|cp cps] eqn:Hcp; [done|].
  destruct (cp !! a); [done|]. destruct Hdirect as [[] _], Hs as [_ Hcache Hsaved _].
  split; [|by repeat split; cbn; rw Hcp]. split; cbn; try done.
  intros cp' b e' [->|Hin]%elem_of_cons.
  - intros [[_ He']|[_ He']]%lookup_insert_Some; [by eapply Hcache|].
    eapply Hsaved; [|done]. rw Hcp. by left.
  - intros He'. eapply Hsaved; [|done]. rw Hcp. by right.
Qed.

Lemma note_cache_ok s a : state_ok n s -> state_step n s (State.note_cache s a).
Proof using HLok.
  intros Hs. rw /State.note_cache. destruct (State.checkpoints s) as [|cp cps] eqn:Hcp; [done|].
  destruct (cp !! a); [done|]. destruct Hs as [Hd Hcache Hsaved Hst].
  split; [|by repeat split; cbn; rw Hcp]. split; cbn; try done.
  intros cp' b e' [->|Hin]%elem_of_cons.
  - intros [[_ (e & He & ->)%fmap_Some]|[_ He']]%lookup_insert_Some.
    + apply entry_clone_ok. by eapply Hcache.
    + eapply Hsaved; [|done]. rw Hcp. by left.
  - intros He'. eapply Hsaved; [|done]. rw Hcp. by right.
Qed.

Lemma load_account_ok s a : state_ok n s ->
  owp (State.load_account s a) (fun o => forall acc, o = Some acc -> account_ok n acc) (fun _ => True).
Proof using HUok HLok.
  intros []. rw /State.load_account.
  destruct (trie_get (State.db s) None (State.root s) a) as [|[b|]] eqn:Hget; [done| |done].
  destruct (db_basic _ _ _ st_db0 _ _ Hget) as (basic & Hdec & ? & ?).
  rw /Account.from_rlp /=. rw Hdec. cbn. intros acc [= <-]. by apply from_basic_ok.
Qed.

(** ** Reading *)
Definition account_opt_ok (o : option (Account.t L)) : Prop :=
  forall acc, o = Some acc -> account_ok n acc.

Lemma wp_ensure_cached {U} a req (f : option (Account.t L) -> U) s
    (Q : U -> State.t D L -> Prop) (R : TrieError -> State.t D L -> Prop) :
  state_ok n s ->
  (forall o s', account_opt_ok o -> state_step n s s' ->
    (exists st, State.cache s' !! a = Some (AccountEntry.mk o st)) ->
    (req = RequireCode -> forall acc, o = Some acc -> Account.code acc <> None ->
       crypt_hash (default [] (Account.code acc)) = Account.code_hash acc) ->
    Q (f o) s') ->
  (forall e, R e s) ->
  wp (State.ensure_cached a req f) Q R s.
Proof using HUok HLok.
  intros Hs HQ HR. rw /State.ensure_cached. apply wp_bind, wp_get. pose proof Hs as [Hd Hcache _ _].
  assert (Hcode : forall acc, account_ok n acc -> Account.code acc <> None ->
    crypt_hash (default [] (Account.code acc)) = Account.code_hash acc).
  { intros acc Hacc. rw /Account.code. pose proof (acc_code_hash _ _ Hacc) as Hh.
    rw /Account.is_cached in Hh. destruct (Account.code_hash acc =? HASH_EMPTY), (Account.is_empty_code acc);
      cbn in *; try done; intros; by apply Hh. }
  destruct (State.cache s !! a) as [entry|] eqn:Ha.
  - destruct (AccountEntry.account entry) as [acc|] eqn:Hacc.
    + pose proof (address_hash_ok acc a (Hcache _ _ Ha _ Hacc)) as Hacc'.
      destruct (Account.address_hash acc a) as [ah acc']; cbn [snd] in Hacc'.
      pose proof (update_account_cache_ok req _ _ ah acc' Hd Hacc') as Hacc''.
      set (acc'' := State.update_account_cache _ _ _ _) in *.
      apply wp_bind, wp_modify, wp_ret. apply HQ.
      * by intros b [= <-].
      * apply with_cache_insert_ok; [done|]. by apply entry_some_ok.
      * eexists. by apply lookup_insert_eq.
      * intros _ b [= <-]. by apply Hcode.
    + apply wp_ret, HQ; [done|done| |done]. exists (AccountEntry.state entry). rw Ha -Hacc.
      by destruct entry.
  - apply wp_bind, wp_lift. rw (db_root _ _ _ Hd). cbn [owp of_sum]. apply wp_bind, wp_lift.
    eapply owp_conseq; [by apply load_account_ok| |done]. intros o Ho.
    set (o' := match o with Some _ => _ | None => None end).
    assert (Ho' : account_opt_ok o').
    { rw /o'. destruct o as [acc|]; [|done]. pose proof (address_hash_ok acc a (Ho acc eq_refl)) as Hacc'.
      destruct (Account.address_hash acc a) as [ah acc']; cbn [snd] in Hacc'. intros b [= <-].
      by eapply update_account_cache_ok. }
    apply wp_bind, wp_modify, wp_ret. apply HQ; [done|by apply insert_cache_ok| |].
    + eexists. rw /State.insert_cache /=. by apply lookup_insert_eq.
    + intros _ acc Hacc. by apply Hcode, Ho'.
Qed.

Lemma wp_state_read {U} a req (f : option (Account.t L) -> U) (P : U -> Prop) s :
  state_ok n s -> (forall o, account_opt_ok o -> P (f o)) ->
  wp (State.ensure_cached a req f) (fun u s' => P u /\ state_step n s s')
    (fun _ s' => state_step n s s') s.
Proof using HUok HLok.
  intros Hs HP. apply wp_ensure_cached; [done| |done]. intros. split; [by apply HP|done].
Qed.

Lemma wp_storage_at a k s : state_ok n s ->
  wp (State.storage_at a k) (fun v s' => fits 256 v /\ state_step n s s')
    (fun _ s' => state_step n s s') s.
Proof using HUok HLok.
  intros Hs. rw /State.storage_at. apply wp_bind, wp_get. pose proof Hs as [Hd Hcache _ _].
  destruct (State.cache s !! a) as [entry|] eqn:Ha.
  - rw /State.storage_at_cached. destruct (AccountEntry.account entry) as [acc|] eqn:Hacc; [|by apply wp_ret].
    apply wp_bind, wp_get. destruct (cached_storage_at_ok acc k (Hcache _ _ Ha _ Hacc)) as [Hacc' Hv].
    destruct (Account.cached_storage_at acc k) as [[v|] acc']; cbn [fst snd] in *.
    + apply wp_bind, wp_modify, wp_ret. split; [by apply Hv|].
      apply with_cache_insert_ok; [done|]. by apply entry_some_ok.
    + pose proof (address_hash_ok acc' a Hacc') as Hacc2.
      destruct (Account.address_hash acc' a) as [ah acc2]; cbn [snd] in Hacc2.
      destruct (storage_at_ok _ _ ah acc2 k Hd Hacc2) as [Hacc3 Hr].
      destruct (Account.storage_at (State.db s) ah acc2 k) as [r acc3]; cbn [fst snd] in *.
      pose proof (with_cache_insert_ok s a (AccountEntry.mk (Some acc3) (AccountEntry.state entry)) Hs
        (entry_some_ok _ _ Hacc3)) as Hstep.
      apply wp_bind, wp_modify, wp_lift. by destruct r.
  - apply wp_bind, wp_lift. rw (db_root _ _ _ Hd). cbn [owp]. apply wp_bind, wp_lift.
    eapply owp_conseq; [by apply load_account_ok| |done]. intros [acc|] Ho.
    + pose proof (address_hash_ok acc a (Ho acc eq_refl)) as Hacc2.
      destruct (Account.address_hash acc a) as [ah acc2]; cbn [snd] in Hacc2.
      destruct (storage_at_ok _ _ ah acc2 k Hd Hacc2) as [Hacc3 Hr].
      destruct (Account.storage_at (State.db s) ah acc2 k) as [r acc3]; cbn [fst snd] in *.
      pose proof (insert_cache_ok s a (AccountEntry.new_clean (Some acc3)) Hs
        (entry_some_ok _ _ Hacc3)) as Hstep.
      apply wp_bind, wp_modify, wp_lift. by destruct r.
    + apply wp_bind, wp_modify, wp_lift. split; [done|]. by apply insert_cache_ok.
Qed.
End accounts.

(** ** Changing accounts *)
Lemma step_mono m n s s' : 0 <= n <= m -> state_step m s s' -> state_step n s s'.
Proof using. intros ? [? ?]. split; [by eapply state_ok_mono|done]. Qed.

(** The update may use up part of the budget. *)
Lemma wp_require_or_from m n a req dflt nd upd s :
  0 <= n <= m -> state_ok m s -> account_ok m dflt -> (forall acc, account_ok m acc -> account_ok m (nd acc)) ->
  (forall acc, account_ok m acc -> owp (upd acc) (account_ok n) (fun _ => True)) ->
  wp (State.require_or_from a req dflt nd upd) (fun _ s' => state_step n s s')
    (fun _ s' => state_step n s s') s.
Proof using HUok HLok.
  intros Hmn Hs Hdflt Hnd Hupd. rw /State.require_or_from. apply wp_bind, wp_get, wp_bind.
  assert (Hload : wp (if bool_decide (is_Some (State.cache s !! a)) then sret tt
    else _ <~ slift (of_sum (trie_open (State.db s) None (State.root s))) ;;
         maybe_acc <~ slift (State.load_account s a) ;;
         smodify (fun s => State.insert_cache s a (AccountEntry.new_clean maybe_acc)))
    (fun _ s' => state_step m s s' /\ is_Some (State.cache s' !! a)) (fun _ s' => state_step n s s') s).
  { case_bool_decide as Hc; [by apply wp_ret|]. apply wp_bind, wp_lift.
    rw (db_root _ _ _ (st_db _ _ Hs)). cbn [owp of_sum]. apply wp_bind, wp_lift.
    eapply owp_conseq; [by apply (load_account_ok m)| |].
    - intros o Ho. apply wp_modify. split; [by apply insert_cache_ok|].
      rw /State.insert_cache /= lookup_insert_eq. done.
    - intros. by apply (step_mono m). }
  eapply wp_conseq; [exact Hload| |done]. intros _ s1 [Hs1 Hin]. clear Hload.
  apply wp_bind, wp_modify, wp_bind, wp_get.
  pose proof (note_cache_ok m s1 a (proj1 Hs1)) as Hs2. apply (state_step_trans _ _ _ _ Hs1) in Hs2.
  assert (Hcache : State.cache (State.note_cache s1 a) = State.cache s1).
  { rw /State.note_cache. destruct (State.checkpoints s1) as [|cp cps]; [done|]. by destruct (cp !! a). }
  set (s2 := State.note_cache s1 a) in *. rw Hcache. destruct Hin as [entry He]. rw He.
  apply wp_bind, wp_lift. cbn [owp expect]. pose proof (proj1 Hs2) as [Hd _ _ _].
  set (acc0 := match AccountEntry.account entry with Some _ => _ | None => _ end).
  assert (Hacc0 : account_ok m acc0).
  { rw /acc0. destruct (AccountEntry.account entry) as [acc|] eqn:Hacc; [|done]. apply Hnd.
    by eapply (st_cache _ _ (proj1 Hs1)). }
  set (acc1 := if req then _ else _). assert (Hacc1 : account_ok m acc1).
  { rw /acc1. destruct req; [|done]. pose proof (address_hash_ok m acc0 a Hacc0) as H.
    destruct (Account.address_hash acc0 a). by eapply update_account_cache_ok. }
  apply wp_bind, wp_lift. eapply owp_conseq; [by apply Hupd| |intros; by apply (step_mono m)].
  intros acc2 Hacc2. apply wp_modify. apply (step_mono m n) in Hs2; [|done].
  eapply state_step_trans; [exact Hs2|].
  apply with_cache_insert_ok; [apply Hs2|]. by apply entry_some_ok.
Qed.

Lemma wp_inc_nonce n a s : 0 <= n -> state_ok (n + 1) s ->
  wp (State.inc_nonce a) (fun _ s' => state_step n s s') (fun _ s' => state_step n s s') s.
Proof using HUok HLok.
  intros Hn Hs. apply wp_bind, wp_get. apply (wp_require_or_from (n + 1)); [lia|done| |done|].
  - apply new_basic_ok; apply (st_start _ _ Hs).
  - intros acc []. rw /Account.inc_nonce add_ok; [lia|]. cbn. split; cbn; try done. lia.
Qed.

Lemma wp_set_storage n a k v s : 0 <= n -> state_ok n s -> fits 256 v ->
  wp (State.set_storage a k v) (fun _ s' => state_step n s s') (fun _ s' => state_step n s s') s.
Proof using HUok HLok.
  intros Hn Hs Hv. apply wp_bind. eapply wp_conseq; [by apply (wp_storage_at n)| |done].
  intros cur s1 [_ Hs1]. destruct (negb (cur =? v)); [|by apply wp_ret]. apply wp_bind, wp_get.
  eapply wp_conseq; [apply (wp_require_or_from n n)| |]; [lia|apply Hs1| |done|..].
  - apply new_basic_ok; apply (st_start _ _ (proj1 Hs1)).
  - intros acc Hacc. by apply set_storage_ok.
  - intros. by eapply state_step_trans.
  - intros. by eapply state_step_trans.
Qed.

Lemma wp_init_code n a c s : 0 <= n -> state_ok n s -> vec_ok c ->
  wp (State.init_code a c) (fun _ s' => state_step n s s') (fun _ s' => state_step n s s') s.
Proof using HUok HLok.
  intros Hn Hs Hc. apply wp_bind, wp_get. apply (wp_require_or_from n n); [lia|done| |done|].
  - apply new_contract_ok; apply (st_start _ _ Hs).
  - intros acc Hacc. by apply init_code_ok.
Qed.

Lemma wp_new_contract n a s : 0 <= n -> state_ok n s ->
  wp (State.new_contract a 0) (fun _ s' => state_step n s s') (fun _ s' => state_step n s s') s.
Proof using HUok HLok.
  intros Hn Hs. pose proof (st_start _ _ Hs). apply wp_bind, wp_get, wp_bind, wp_lift.
  rw add_ok; [lia|]. cbn [owp]. apply wp_modify, insert_cache_ok; [done|]. apply entry_some_ok.
  apply new_contract_ok; lia.
Qed.

Lemma kill_account_ok n a s : state_ok n s -> state_step n s (State.kill_account s a).
Proof using. intros Hs. by apply insert_cache_ok. Qed.

(** The code of an account and its hash, read one after the other, agree. *)
Lemma wp_code_and_hash n a s : state_ok n s ->
  wp (c <~ State.code a ;; h <~ State.code_hash a ;; sret (c, h))
    (fun r s' => match r.1 with Some c => vec_ok c /\ r.2 = crypt_hash c | None => True end /\
       state_step n s s')
    (fun _ s' => state_step n s s') s.
Proof using HUok HLok.
  intros Hs. apply wp_bind, (wp_ensure_cached n); [done| |done].
  intros o s1 Ho Hs1 [st Hin] Hcode. specialize (Hcode eq_refl). apply wp_bind.
  rw /State.code_hash /State.ensure_cached. apply wp_bind, wp_get. rw Hin. cbn [AccountEntry.account].
  destruct o as [acc|]; [|by apply wp_ret, wp_ret].
  pose proof (address_hash_ok n acc a (Ho acc eq_refl)) as Hacc.
  assert (Hh : Account.code_hash (Account.address_hash acc a).2 = Account.code_hash acc).
  { rw /Account.address_hash. by destruct (Account.address_hash_ acc). }
  destruct (Account.address_hash acc a) as [ah acc']; cbn [snd] in *.
  apply wp_bind, wp_modify, wp_ret, wp_ret. cbn [fst snd]. split.
  - cbn. specialize (Hcode acc eq_refl). destruct (Account.code acc) as [c|] eqn:Hc; [|done].
    rw Hcode; [done|]. split; [|rw /State.update_account_cache; by destruct (Account.is_cached acc')].
    rw /Account.code in Hc. case_match; [done|]. injection Hc as <-. by destruct (Ho acc eq_refl).
  - eapply state_step_trans; [exact Hs1|]. apply with_cache_insert_ok; [apply Hs1|].
    apply entry_some_ok. eapply update_account_cache_ok; [|done]. apply (st_db _ _ (proj1 Hs1)).
Qed.

(** ** Checkpoints *)
Lemma checkpoint_ok n s : state_ok n s -> state_ok n (State.checkpoint s).
Proof using.
  intros []. split; cbn; try done. intros cp a e [->|Hin]%elem_of_cons; [by rw lookup_empty|].
  by eapply st_saved0.
Qed.

Lemma discard_checkpoint_ok n s : state_ok n s -> state_ok n (State.discard_checkpoint s).
Proof using HUok HLok.
  intros Hs. rw /State.discard_checkpoint.
  destruct (State.checkpoints s) as [|cp [|cp' cps]] eqn:Hcp; [done|..]; destruct Hs as [Hd Hc Hsaved Hst].
  - split; cbn; try done. intros ??? []%not_elem_of_nil.
  - split; cbn; try done. rw Hcp in Hsaved. intros c a e [->|Hin]%elem_of_cons.
    + intros [He|[_ He]]%lookup_union_Some_raw; (eapply Hsaved; [|exact He]); set_solver.
    + intros He. eapply Hsaved; [|exact He]. set_solver.
Qed.

Lemma revert_entries_ok n (l : list (Z * option (AccountEntry.t L))) c :
  (forall a e, c !! a = Some e -> entry_ok n e) ->
  (forall a e, (a, Some e) ∈ l -> entry_ok n e) ->
  forall a e, fold_left State.revert_entry l c !! a = Some e -> entry_ok n e.
Proof using HLok.
  revert c. induction l as [|[k v] l IH]; intros c Hc Hl; [done|]. cbn [fold_left].
  apply IH; [|intros a e He; eapply Hl; by right]. intros a e. cbn [State.revert_entry].
  destruct v as [v|], (c !! k) as [e'|] eqn:Hk.
  - intros [[_ <-]|[_ ?]]%lookup_insert_Some; [|by eapply Hc].
    apply entry_overwrite_ok; [by eapply Hc|]. eapply (Hl k). by left.
  - intros [[_ <-]|[_ ?]]%lookup_insert_Some; [|by eapply Hc]. eapply (Hl k). by left.
  - destruct (AccountEntry.is_dirty e'); [|apply Hc].
    intros [_ ?]%lookup_delete_Some. by eapply Hc.
  - apply Hc.
Qed.

Lemma revert_to_checkpoint_ok n s : state_ok n s -> state_ok n (State.revert_to_checkpoint s).
Proof using HUok HLok.
  intros Hs. rw /State.revert_to_checkpoint.
  destruct (State.checkpoints s) as [|cp cps] eqn:Hcp; [done|]. destruct Hs as [Hd Hc Hsaved Hst].
  rw Hcp in Hsaved. split; cbn; try done.
  - apply revert_entries_ok; [done|]. intros a e He%elem_of_map_to_list. eapply Hsaved; [|done]. set_solver.
  - intros c a e Hin He. eapply Hsaved; [|exact He]. set_solver.
Qed.
End state_spec.
