(* ===== verification/CheckpointSpec.v ===== *)
(** * Checkpoints refine a stack of states

    What can be seen of an account is its essence.  A state with [n]
    checkpoints stands for [n + 1] maps from addresses to essences: the
    current one and the one each checkpoint would restore.  Every operation of
    the state acts on that stack as it should: a checkpoint duplicates the
    top, a discard forgets the map below it, a revert drops it, reads change
    nothing, and an update replaces one account of the top map. *)

From S2P Require Import Prelude Lru Evm Account State StateSpec.
From stdpp Require Import base gmap list strings.
Local Open Scope Z_scope.
Local Open Scope cita_scope.

(** ** Essences

    What an account is: everything but its caches.  The cache of clean storage
    values is not part of it, although [Account.storage_at] consults it: in a
    strict stack ([stacked True]) its entries are those of the storage trie, so
    the essence determines what is read.  Without [strict] only the essences
    are known, and a read may see an entry that [Account.overwrite_with] merged
    in from another account of the same address. *)
Record essence : Set := {
  es_nonce : U256;
  es_root : H256;
  es_changes : gmap Z Z;
  es_code_hash : H256;
  (** code that is not in the database yet *)
  es_code : option bytes;
}.

(** What a cache slot shows: whether there is an account, and the state of
    the entry.  [None] stands for an address that is not in the cache. *)
Abbreviation cell := (option (option essence * AccountState.t)).

(** A slot of a checkpoint; [None] when it has not saved the address. *)
Abbreviation save := (option cell).

(** ** One address *)
Definition undo (sv : save) (c : cell) : cell :=
  match sv, c with
  | None, _ => c
  | Some None, Some (_, AccountState.Dirty) => None
  | Some None, _ => c
  | Some (Some v), None => Some v
  | Some (Some (o, st)), Some (o', _) =>
      Some (match o, o' with Some x, Some _ => Some x | _, _ => None end, st)
  end.

Fixpoint history (c : cell) (svs : list save) : list cell :=
  c :: match svs with [] => [] | sv :: svs => history (undo sv c) svs end.

(** A saved slot has a dirty entry over it, which has an account when the
    saved one has. *)
Definition saved_ok (sv : save) (c : cell) : Prop :=
  match sv with
  | None => True
  | Some v => exists o, c = Some (o, AccountState.Dirty) /\
      match v with Some (Some _, _) => o <> None | _ => True end
  end.

Fixpoint ordered (c : cell) (svs : list save) : Prop :=
  match svs with
  | [] => True
  | sv :: svs => saved_ok sv c /\ ordered (undo sv c) svs
  end.

(** The newest checkpoint saves the slot unless it has already. *)
Definition touch (c : cell) (svs : list save) : list save :=
  match svs with
  | [] => []
  | None :: svs => Some c :: svs
  | sv :: svs => sv :: svs
  end.

Lemma touch_ok c svs x : ordered c svs ->
  let c' := Some (Some x, AccountState.Dirty) in
  ordered c' (touch c svs) /\ history c' (touch c svs) = c' :: tl (history c svs).
Proof.
  intros Hord c'. destruct svs as [|[v|] svs]; [done|..]; destruct Hord as [Hs Hord].
  - destruct Hs as (o & -> & Hv). assert (He : undo (Some v) c' = undo (Some v) (Some (o, AccountState.Dirty))).
    { destruct v as [[[y|] st]|]; [|done|done]. cbn. by destruct o. }
    cbn [touch ordered history tl]. rw He. split; [|done]. split; [|done].
    exists (Some x). split; [done|]. by destruct v as [[[y|] st]|].
  - assert (He : undo (Some c) c' = c).
    { destruct c as [[[y|] st]|]; done. }
    cbn [touch ordered history tl]. rw He. cbn [undo] in *. split; [|done]. split; [|done].
    exists (Some x). split; [done|]. by destruct c as [[[y|] st]|].
Qed.

(** Merging two saves undoes both. *)
Lemma merge_ok c last prev svs : ordered c (last :: prev :: svs) ->
  let sv := match prev with Some _ => prev | None => last end in
  ordered c (sv :: svs) /\ undo sv c = undo prev (undo last c).
Proof.
  intros (Hl & Hp & Hord) sv. assert (He : saved_ok sv c /\ undo sv c = undo prev (undo last c)).
  { rw /sv. destruct prev as [v|]; [|done]. destruct Hp as (o & Ho & Hv).
    destruct last as [l|]; cbn [undo] in Ho |- *; [|rw Ho; split; [by exists o|done]].
    destruct Hl as (oc & -> & Hl). destruct l as [[lo lst]|]; [|done]. injection Ho as <- ->.
    split; [exists oc; split; [done|]|]; destruct v as [[[y|] st]|], lo, oc; try done; cbn in *; congruence. }
  destruct He as [Hs He]. split; [|done]. split; [done|]. by rw He.
Qed.

(** Without an account in the cache nothing older has one. *)
Lemma history_none svs : ordered None svs -> history None svs = replicate (S (length svs)) None.
Proof.
  induction svs as [|sv svs IH]; [done|]. intros [Hs Ho]. destruct sv as [v|]; [by destruct Hs as (? & ? & _)|].
  cbn in *. by rw IH.
Qed.

Lemma ordered_none svs : ordered None svs -> Forall (fun sv => sv = None) svs.
Proof.
  induction svs as [|sv svs IH]; [constructor|]. intros [Hs Ho].
  destruct sv as [v|]; [by destruct Hs as (? & ? & _)|]. constructor; [done|]. by apply IH.
Qed.

Lemma ordered_unsaved c svs : Forall (fun sv => sv = None) svs -> ordered c svs /\
  history c svs = replicate (S (length svs)) c.
Proof. induction 1 as [|sv svs -> _ [IH1 IH2]]; [done|]. cbn. by rw IH2. Qed.

(** An address without account has none in any save. *)
Lemma ordered_no_account svs st : ordered (Some (None, st)) svs ->
  Forall (fun sv => match sv with Some (Some (Some _, _)) => False | _ => True end) svs.
Proof.
  revert st. induction svs as [|sv svs IH]; intros st; [constructor|]. intros [Hs Ho].
  destruct sv as [[[o st']|]|].
  - destruct Hs as (o' & [= <- ->] & Hv). cbn in Ho. destruct o; [done|]. constructor; [done|]. by eapply IH.
  - destruct Hs as (o' & [= <- ->] & _). cbn in Ho. apply ordered_none in Ho. constructor; [done|].
    eapply Forall_impl; [exact Ho|]. by intros ? ->.
  - constructor; [done|]. by eapply IH.
Qed.

(** ** From states to stacks *)
Section refinement.
  Context {HU : Util} {HUok : UtilOk}.
  Context {L : Type} {HL : LruCache Z L} {HLok : LruCacheOk Z L} {D : Type} {HD : Backend D}.

Definition acc_essence (a : Account.t L) : essence :=
  {| es_nonce := Account.nonce a; es_root := Account.storage_root a;
     es_changes := Account.storage_changes a; es_code_hash := Account.code_hash a;
     es_code := match Account.code_filth a with Dirty => Some (Account.code_cache a) | Clean => None end |}.

Definition seen (e : AccountEntry.t L) : option essence * AccountState.t :=
  (acc_essence <$> AccountEntry.account e, AccountEntry.state e).

Definition seen_slot (v : option (AccountEntry.t L)) : cell := seen <$> v.

Definition seen_save (v : option (option (AccountEntry.t L))) : save := seen_slot <$> v.

(** What a state holds for one address: the cached entry and the slots of its
    checkpoints. *)
Abbreviation Raw := (option (AccountEntry.t L) * list (option (option (AccountEntry.t L))))%type.

Definition raw (s : State.t D L) (a : Address) : Raw :=
  (State.cache s !! a, (fun cp => cp !! a) <$> State.checkpoints s).

Definition raw_cells (r : Raw) : list cell := history (seen_slot r.1) (seen_save <$> r.2).

Definition raw_ordered (r : Raw) : Prop := ordered (seen_slot r.1) (seen_save <$> r.2).

(** The account in the database. *)
Definition basic_essence (b : BasicAccount) : essence :=
  {| es_nonce := basic_nonce b; es_root := basic_storage_root b; es_changes := ∅;
     es_code_hash := basic_code_hash b; es_code := None |}.

Definition stored (s : State.t D L) (a : Address) : option essence :=
  match trie_get (State.db s) None (State.root s) a with
  | inr (Some b) => basic_essence <$> decode_basic b
  | _ => None
  end.

Definition visible (s : State.t D L) (a : Address) (c : cell) : option essence :=
  match c with Some (o, _) => o | None => stored s a end.

(** The current essence and the one each checkpoint would restore. *)
Definition levels (s : State.t D L) (a : Address) : list (option essence) :=
  visible s a <$> raw_cells (raw s a).

Definition current (s : State.t D L) (a : Address) : option essence :=
  visible s a (seen_slot (raw s a).1).

Lemma levels_cons s a : exists ls, levels s a = current s a :: ls.
Proof using. rw /levels /current /raw_cells. destruct (_ <$> (raw s a).2); by eexists. Qed.

(** *** Reverting *)
Definition undo_entry (sv : option (option (AccountEntry.t L))) (c : option (AccountEntry.t L))
    : option (AccountEntry.t L) :=
  match sv, c with
  | None, _ => c
  | Some (Some v), Some e => Some (AccountEntry.overwrite_with e v)
  | Some (Some v), None => Some v
  | Some None, Some e => if AccountEntry.is_dirty e then None else Some e
  | Some None, None => None
  end.

Lemma revert_entry_lookup (c : gmap Z (AccountEntry.t L)) k v a :
  State.revert_entry c (k, v) !! a = if bool_decide (k = a) then undo_entry (Some v) (c !! a) else c !! a.
Proof using.
  cbn [State.revert_entry]. case_bool_decide as Hk; [subst k|].
  - destruct v as [v|], (c !! a) as [e|] eqn:Ha; cbn; rw ?lookup_insert_eq; [done..| |done].
    destruct (AccountEntry.is_dirty e); [by rw lookup_delete_eq|done].
  - destruct v as [v|], (c !! k) as [e|]; rw ?lookup_insert_ne; try done.
    destruct (AccountEntry.is_dirty e); [by rw lookup_delete_ne|done].
Qed.

Lemma fold_revert_other l c a : a ∉ l.*1 -> fold_left State.revert_entry l c !! a = c !! a.
Proof using.
  revert c. induction l as [|[k v] l IH]; intros c Ha; [done|]. cbn in Ha.
  apply not_elem_of_cons in Ha as [Hne Ha]. cbn [fold_left]. rw IH; [done|]. rw revert_entry_lookup.
  by rw bool_decide_eq_false_2.
Qed.

Lemma fold_revert_lookup l c a v : NoDup l.*1 -> (a, v) ∈ l ->
  fold_left State.revert_entry l c !! a = undo_entry (Some v) (c !! a).
Proof using.
  revert c. induction l as [|[k w] l IH]; intros c Hnd Hin; [by apply elem_of_nil in Hin|].
  cbn in Hnd. apply NoDup_cons in Hnd as [Hk Hnd]. cbn [fold_left].
  apply elem_of_cons in Hin as [[= <- <-]|Hin].
  - rw fold_revert_other; [done|]. by rw revert_entry_lookup bool_decide_eq_true_2.
  - rw IH; [done|done|]. rw revert_entry_lookup bool_decide_eq_false_2; [|done].
    intros ->. apply Hk. apply list_elem_of_fmap. by exists (a, v).
Qed.

Lemma revert_lookup cp c a :
  fold_left State.revert_entry (map_to_list cp) c !! a = undo_entry (cp !! a) (c !! a).
Proof using.
  destruct (cp !! a) as [v|] eqn:Ha.
  - apply fold_revert_lookup; [apply NoDup_fst_map_to_list|]. by apply elem_of_map_to_list.
  - apply fold_revert_other. intros ([k v] & -> & Hin)%list_elem_of_fmap.
    apply elem_of_map_to_list in Hin. cbn in Ha. congruence.
Qed.

Lemma overwrite_essence (a b : Account.t L) : acc_essence (Account.overwrite_with a b) = acc_essence b.
Proof using. done. Qed.

Lemma seen_undo sv c : seen_slot (undo_entry sv c) = undo (seen_save sv) (seen_slot c).
Proof using.
  destruct sv as [[v|]|], c as [e|]; try done; cbn.
  - rw /seen. cbn. by destruct (AccountEntry.account v), (AccountEntry.account e).
  - rw /AccountEntry.is_dirty /seen. by destruct e as [? []].
Qed.

(** ** The invariant of an address *)

(** The value of a storage key in the database. *)
Definition storage_value (d : D) (ah root : H256) (k : H256) : outcome TrieError H256 :=
  _ <- of_sum (trie_open d (Some ah) root) ;;
  item <- of_sum (trie_get d (Some ah) root k) ;;
  match item with
  | Some b => expect (decode_u256 b)
  | None => Ok 0
  end.

Definition hash_of (a : Address) : H256 := crypt_hash (to_be 20 a).

(** The storage caches of accounts agree with the database as long as no
    contract is created over an existing account.  What is said under [strict]
    relies on that; the rest does not. *)
Context (strict : Prop).

(** The caches of an account agree with the database. *)
Record coherent (d : D) (a : Address) (acc : Account.t L) : Prop := {
  coh_hash h : Account.address_hash_ acc = Some h -> h = hash_of a;
  coh_storage k v : strict -> (k, v) ∈ lru_items (Account.storage_cache acc) ->
    storage_value d (hash_of a) (Account.storage_root acc) k = Ok v;
  coh_pending : Account.code_filth acc = Dirty -> Account.is_cached acc = true;
  coh_code : Account.code_filth acc = Clean -> Account.code_cache acc <> [] ->
    code_get d (hash_of a) (Account.code_hash acc) = Some (Account.code_cache acc);
  coh_empty : Account.code_filth acc = Clean -> Account.code_hash acc = HASH_EMPTY ->
    Account.code_cache acc = [];
}.

(** An account that is cached or saved. *)
Definition account_in (r : Raw) (acc : Account.t L) : Prop :=
  (exists e, r.1 = Some e /\ AccountEntry.account e = Some acc) \/
  (exists e, Some (Some e) ∈ r.2 /\ AccountEntry.account e = Some acc).

Record raw_ok (d : D) (a : Address) (r : Raw) : Prop := {
  raw_order : raw_ordered r;
  raw_coherent acc : account_in r acc -> coherent d a acc;
  raw_root acc acc' : strict -> account_in r acc -> account_in r acc' ->
    Account.storage_root acc = Account.storage_root acc';
}.

(** A cell that is not dirty shows what is in the database, [x]. *)
Definition faithful (x : option essence) (c : cell) : Prop :=
  match c with Some (o, st) => st = AccountState.Dirty \/ o = x | None => True end.

Record stacked (s : State.t D L) : Prop := {
  st_raw a : raw_ok (State.db s) a (raw s a);
  st_faithful a : Forall (faithful (stored s a)) (raw_cells (raw s a));
}.

(** An update whose account [x] has the root of the accounts around it. *)
Definition raw_touch (e : AccountEntry.t L) (saved : option (AccountEntry.t L)) (r : Raw) : Raw :=
  (Some e, match r.2 with
           | [] => []
           | None :: svs => Some saved :: svs
           | sv :: svs => sv :: svs
           end).

Lemma raw_touch_cells e saved r x :
  raw_ordered r -> seen e = (Some x, AccountState.Dirty) -> seen_slot saved = seen_slot r.1 ->
  raw_ordered (raw_touch e saved r) /\
  raw_cells (raw_touch e saved r) = Some (Some x, AccountState.Dirty) :: tl (raw_cells r).
Proof using.
  intros Hord He Hs. rw /raw_ordered /raw_cells /raw_touch in Hord |- *. cbn [fst snd].
  assert (Htouch : seen_save <$> (raw_touch e saved r).2 = touch (seen_slot r.1) (seen_save <$> r.2)).
  { rw /raw_touch. cbn [snd]. destruct r.2 as [|[v|] svs]; cbn; [done|done|]. rw /seen_save. cbn. by rw Hs. }
  rw /raw_touch in Htouch. cbn [snd] in Htouch. rw Htouch.
  assert (Hc : seen_slot (Some e) = Some (Some x, AccountState.Dirty)) by (by rw /seen_slot /= He).
  rw Hc. by apply touch_ok.
Qed.

Lemma raw_touch_ok d a e saved r x acc :
  raw_ok d a r -> seen e = (Some x, AccountState.Dirty) -> AccountEntry.account e = Some acc ->
  coherent d a acc ->
  (forall acc', strict -> account_in r acc' -> Account.storage_root acc' = Account.storage_root acc) ->
  seen_slot saved = seen_slot r.1 ->
  (forall o acc', saved = Some o -> AccountEntry.account o = Some acc' ->
     coherent d a acc' /\ (strict -> Account.storage_root acc' = Account.storage_root acc)) ->
  raw_ok d a (raw_touch e saved r) /\
  raw_cells (raw_touch e saved r) = Some (Some x, AccountState.Dirty) :: tl (raw_cells r).
Proof using.
  intros [Hord Hcoh _] He Hacc Hc Hroot Hs Hsaved.
  destruct (raw_touch_cells e saved r x Hord He Hs) as [Hord' Hcells].
  assert (Hin : forall acc', account_in (raw_touch e saved r) acc' ->
    coherent d a acc' /\ (strict -> Account.storage_root acc' = Account.storage_root acc)).
  { intros acc' [(e' & [= <-] & He')|(e' & Hin & He')].
    - rw Hacc in He'. injection He' as <-. done.
    - rw /raw_touch in Hin. cbn [snd] in Hin. destruct r as [c svs]. cbn [snd] in Hin.
      destruct svs as [|[v|] svs]; [by apply elem_of_nil in Hin|..].
      + assert (account_in (c, Some v :: svs) acc') by (right; by exists e').
        split; [by apply Hcoh|]. intros Hst. by apply Hroot.
      + apply elem_of_cons in Hin as [[= <-]|Hin]; [by eapply Hsaved|].
        assert (account_in (c, None :: svs) acc') by (right; exists e'; split; [by right|done]).
        split; [by apply Hcoh|]. intros Hst. by apply Hroot. }
  split; [|done]. split; [done| |].
  - intros acc' H. by apply Hin.
  - intros acc1 acc2 Hst H1 H2. destruct (Hin _ H1) as [_ E1], (Hin _ H2) as [_ E2]. by rw E1 // E2.
Qed.

(** A read changes caches only. *)
Lemma raw_same_ok d a e e' r : raw_ok d a r -> r.1 = Some e -> seen e' = seen e ->
  (forall acc, AccountEntry.account e' = Some acc -> coherent d a acc) ->
  raw_ok d a (Some e', r.2) /\ raw_cells (Some e', r.2) = raw_cells r.
Proof using.
  intros [Hord Hcoh Hroot] Hr He Hacc. destruct r as [c svs]. cbn in Hr. subst c.
  assert (Hcells : seen_slot (Some e') = seen_slot (Some e)) by (by rw /seen_slot /= He).
  assert (Hin : forall acc, account_in (Some e', svs) acc -> coherent d a acc /\
    exists acc0, account_in (Some e, svs) acc0 /\ Account.storage_root acc0 = Account.storage_root acc).
  { intros acc [(e0 & [= <-] & He0)|(e0 & Hin & He0)].
    - split; [by apply Hacc|]. rw /seen He0 in He.
      destruct (AccountEntry.account e) as [acc0|] eqn:H0; [|done]. exists acc0.
      split; [left; by exists e|]. injection He. by intros.
    - assert (account_in (Some e, svs) acc) by (right; by exists e0). split; [by apply Hcoh|]. by exists acc. }
  split; [|rw /raw_cells; cbn [fst snd]; by rw Hcells]. split.
  - rw /raw_ordered. cbn [fst snd]. by rw Hcells.
  - intros acc H. by apply Hin.
  - intros acc1 acc2 Hst H1 H2. destruct (Hin _ H1) as (_ & b1 & ? & <-), (Hin _ H2) as (_ & b2 & ? & <-).
    by apply Hroot.
Qed.

(** An address enters the cache when it is read for the first time. *)
Lemma raw_load_ok d a e r : raw_ok d a r -> r.1 = None ->
  (forall acc, AccountEntry.account e = Some acc -> coherent d a acc) ->
  raw_ok d a (Some e, r.2) /\
  raw_cells r = replicate (S (length r.2)) None /\
  raw_cells (Some e, r.2) = replicate (S (length r.2)) (Some (seen e)).
Proof using.
  intros [Hord Hcoh Hroot] Hr Hacc. destruct r as [c svs]. cbn in Hr. subst c. cbn [snd] in *.
  rw /raw_ordered in Hord. cbn [fst snd] in Hord. pose proof (ordered_none _ Hord) as Hn.
  destruct (ordered_unsaved (Some (seen e)) _ Hn) as [Ho Hh].
  assert (Hsv : forall e', Some (Some e') ∈ svs -> False).
  { intros e' Hin. eapply Forall_forall in Hn; [|apply list_elem_of_fmap; by exists (Some (Some e'))]. done. }
  assert (Hin : forall acc, account_in (Some e, svs) acc -> AccountEntry.account e = Some acc).
  { intros acc [(e0 & [= <-] & He0)|(e0 & []%Hsv & _)]. done. }
  split; [split|split].
  - exact Ho.
  - intros acc H. by apply Hacc, Hin.
  - intros acc1 acc2 _ H1%Hin H2%Hin. congruence.
  - rw /raw_cells /=. rw history_none; [done|]. by rw length_fmap.
  - rw /raw_cells. cbn [fst snd]. rw /seen_slot /=. rw Hh. by rw length_fmap.
Qed.

(** Merged storage caches of accounts with one root agree with it. *)
Lemma merged_items (l : list (Z * Z)) (c : L) e :
  e ∈ lru_items (fold_left (fun c e => lru_insert e.1 e.2 c) l c) -> e ∈ lru_items c \/ e ∈ l.
Proof using HLok.
  revert c. induction l as [|[k v] l IH]; intros c; cbn [fold_left fst snd]; [by left|].
  intros [He|He]%IH; [|right; by right]. destruct e as [k' v'].
  apply lru_insert_items in He as [[-> ->]|[_ He]]; [right; by left|by left].
Qed.

Lemma overwrite_coherent d a x y : coherent d a x -> coherent d a y ->
  (strict -> Account.storage_root x = Account.storage_root y) -> coherent d a (Account.overwrite_with x y).
Proof using HLok.
  intros [_ Hx _ _ _] [Hh Hy Hp Hc He] Hr. split; cbn; try done.
  intros k v Hst [Hin|Hin]%merged_items; [|by apply Hy]. rw -Hr; [done|]. by apply Hx.
Qed.

Lemma raw_undo_ok d a c sv svs : raw_ok d a (c, sv :: svs) ->
  raw_ok d a (undo_entry sv c, svs) /\ raw_cells (undo_entry sv c, svs) = tl (raw_cells (c, sv :: svs)).
Proof using HLok.
  intros [[Hs Hord] Hcoh Hroot]. rw -seen_undo in Hord.
  assert (Hin : forall acc, account_in (undo_entry sv c, svs) acc -> coherent d a acc /\
    exists acc0, account_in (c, sv :: svs) acc0 /\ Account.storage_root acc0 = Account.storage_root acc).
  { intros acc [(e & He & Hacc)|(e & He & Hacc)].
    2:{ assert (account_in (c, sv :: svs) acc) by (right; exists e; split; [by right|done]).
        split; [by apply Hcoh|]. by exists acc. }
    cbn [fst] in He. assert (Hkeep : c = Some e -> coherent d a acc /\
      exists acc0, account_in (c, sv :: svs) acc0 /\ Account.storage_root acc0 = Account.storage_root acc).
    { intros ->. assert (account_in (Some e, sv :: svs) acc) by (left; by exists e).
      split; [by apply Hcoh|]. by exists acc. }
    destruct sv as [[v|]|], c as [e0|]; cbn in He; try done; [| |case_match; [done|by apply Hkeep]|by apply Hkeep].
    - injection He as <-. cbn in Hacc. destruct (AccountEntry.account v) as [y|] eqn:Hy; [|done].
      destruct (AccountEntry.account e0) as [x|] eqn:Hx; [|done]. injection Hacc as <-.
      assert (Hx' : account_in (Some e0, Some (Some v) :: svs) x) by (left; by exists e0).
      assert (Hy' : account_in (Some e0, Some (Some v) :: svs) y) by (right; exists v; split; [by left|done]).
      split; [apply overwrite_coherent; [by apply Hcoh..|intros Hst; by apply Hroot]|]. by exists y.
    - injection He as <-. assert (Hy' : account_in (None, Some (Some v) :: svs) acc)
        by (right; exists v; split; [by left|done]).
      split; [by apply Hcoh|]. by exists acc. }
  split; [split; [done| |]|].
  - intros acc H. by apply Hin.
  - intros acc1 acc2 Hst H1 H2. destruct (Hin _ H1) as (_ & b1 & ? & <-), (Hin _ H2) as (_ & b2 & ? & <-).
    by apply Hroot.
  - rw /raw_cells /= seen_undo. done.
Qed.

Lemma raw_merge_ok d a c last prev svs : raw_ok d a (c, last :: prev :: svs) ->
  let sv := match prev with Some _ => prev | None => last end in
  raw_ok d a (c, sv :: svs) /\
  raw_cells (c, sv :: svs) = seen_slot c :: tl (tl (raw_cells (c, last :: prev :: svs))).
Proof using.
  intros [Hord Hcoh Hroot] sv. destruct (merge_ok _ _ _ _ Hord) as [Hord' He].
  assert (Hsv : seen_save sv = match seen_save prev with Some _ => seen_save prev | None => seen_save last end)
    by (by rw /sv; destruct prev).
  assert (Hin : forall acc, account_in (c, sv :: svs) acc -> account_in (c, last :: prev :: svs) acc).
  { intros acc [(e & ? & ?)|(e & Hin & ?)]; [left; by exists e|]. right. exists e. split; [|done].
    apply elem_of_cons in Hin as [Hin|Hin]; [|right; by right].
    rw /sv in Hin. cbn [snd]. destruct prev; rw Hin; [right; by left|by left]. }
  rw -Hsv in Hord' He. split; [split; [done| |]|].
  - intros acc H. by apply Hcoh, Hin.
  - intros acc1 acc2 Hst H1 H2. apply Hroot; [done|by apply Hin..].
  - rw /raw_cells. cbn [fst snd fmap list_fmap history tl]. by rw He.
Qed.

(** ** States *)
Lemma raw_checkpoint s a : raw (State.checkpoint s) a = ((raw s a).1, None :: (raw s a).2).
Proof using. rw /raw /=. by rw lookup_empty. Qed.

Lemma raw_revert s a cp cps : State.checkpoints s = cp :: cps ->
  raw (State.revert_to_checkpoint s) a = (undo_entry (cp !! a) (State.cache s !! a), (fun cp => cp !! a) <$> cps).
Proof using. intros Hcp. rw /raw /State.revert_to_checkpoint Hcp /= revert_lookup. done. Qed.

Lemma raw_discard s a last prev cps : State.checkpoints s = last :: prev :: cps ->
  raw (State.discard_checkpoint s) a =
    (State.cache s !! a,
     match prev !! a with Some _ => prev !! a | None => last !! a end :: ((fun cp => cp !! a) <$> cps)).
Proof using.
  intros Hcp. rw /raw /State.discard_checkpoint Hcp /=. rw lookup_union. by destruct (prev !! a), (last !! a).
Qed.

(** [s'] differs from [s] in what it holds for [a], which is [r]. *)
Definition changed (a : Address) (r : Raw) (s s' : State.t D L) : Prop :=
  State.db s' = State.db s /\ State.root s' = State.root s /\ raw s' a = r /\
  forall b, b <> a -> raw s' b = raw s b.

Lemma changed_stacked a r s s' : stacked s -> changed a r s s' -> raw_ok (State.db s) a r ->
  Forall (faithful (stored s a)) (raw_cells r) -> stacked s'.
Proof using.
  intros [Hs Hf] (Hdb & Hrt & Ha & Hb) Hr Hc. split; intros b; rw ?/stored Hdb ?Hrt;
    (destruct (decide (b = a)) as [->|Hne]; [by rw Ha|]); rw Hb; [done|apply Hs|done|apply Hf].
Qed.

Lemma cells_forall (P : cell -> Prop) r : Forall P (raw_cells r) ->
  P (seen_slot r.1) /\ Forall P (tl (raw_cells r)).
Proof using. rw /raw_cells. destruct (seen_save <$> r.2); cbn; by intros [? ?]%Forall_cons. Qed.

Lemma faithful_touch x y cs : Forall (faithful x) cs ->
  Forall (faithful x) (Some (y, AccountState.Dirty) :: tl cs).
Proof using. intros H. constructor; [by left|]. by destruct H. Qed.

Lemma visible_eq s s' a c : State.db s' = State.db s -> State.root s' = State.root s ->
  visible s' a c = visible s a c.
Proof using. rw /visible /stored. by intros -> ->. Qed.

Lemma levels_eq s s' a : State.db s' = State.db s -> State.root s' = State.root s ->
  levels s' a = visible s a <$> raw_cells (raw s' a).
Proof using. intros. rw /levels. apply list_fmap_ext. intros. by apply visible_eq. Qed.

Lemma changed_levels a r s s' : changed a r s s' ->
  levels s' a = visible s a <$> raw_cells r /\ forall b, b <> a -> levels s' b = levels s b.
Proof using.
  intros (Hdb & Hr & Ha & Hb). split; [by rw (levels_eq s) // Ha|].
  intros b Hne. rw (levels_eq s); [done|done|]. by rw Hb.
Qed.

(** What happens to the stack of maps. *)
Definition unseen (s s' : State.t D L) : Prop :=
  stacked s' /\ frame s s' /\ forall b, levels s' b = levels s b.

Definition updated (a : Address) (x : essence) (s s' : State.t D L) : Prop :=
  stacked s' /\ frame s s' /\ levels s' a = Some x :: tl (levels s a) /\
  forall b, b <> a -> levels s' b = levels s b.

Lemma changed_cache s a e : changed a (Some e, (raw s a).2) s
  (State.with_cache s (<[a := e]> (State.cache s))).
Proof using.
  split; [done|]. split; [done|]. rw /raw /=. split; [by rw lookup_insert_eq|].
  intros b Hne. by rw lookup_insert_ne.
Qed.

Lemma changed_insert_clean s a e : AccountEntry.is_dirty e = false ->
  changed a (Some e, (raw s a).2) s (State.insert_cache s a e).
Proof using. rw /State.insert_cache => ->. apply changed_cache. Qed.

Lemma changed_insert_dirty s a e : AccountEntry.is_dirty e = true ->
  changed a (raw_touch e (State.cache s !! a) (raw s a)) s (State.insert_cache s a e).
Proof using.
  rw /State.insert_cache => ->. rw /raw_touch /raw. cbn [snd].
  destruct (State.checkpoints s) as [|cp cps] eqn:Hcp; cbn [fmap list_fmap].
  - pose proof (changed_cache s a e) as Hc. by rw /raw Hcp /= in Hc.
  - destruct (cp !! a) as [v|] eqn:Ha.
    + pose proof (changed_cache s a e) as Hc. by rw /raw Hcp /= Ha in Hc.
    + split; [done|]. split; [done|]. rw /raw /= !lookup_insert_eq. split; [done|].
      intros b Hne. rw !lookup_insert_ne; [done|done|]. by rw Hcp.
Qed.

Lemma changed_note s a e :
  changed a (raw_touch e (AccountEntry.clone_dirty <$> State.cache s !! a) (raw s a)) s
    (State.with_cache (State.note_cache s a) (<[a := e]> (State.cache (State.note_cache s a)))).
Proof using.
  rw /State.note_cache /raw_touch /raw. cbn [snd].
  destruct (State.checkpoints s) as [|cp cps] eqn:Hcp; cbn [fmap list_fmap].
  - pose proof (changed_cache s a e) as Hc. by rw /raw Hcp /= in Hc.
  - destruct (cp !! a) as [v|] eqn:Ha.
    + pose proof (changed_cache s a e) as Hc. by rw /raw Hcp /= Ha in Hc.
    + split; [done|]. split; [done|]. rw /raw /= !lookup_insert_eq. split; [done|].
      intros b Hne. rw !lookup_insert_ne; [done|done|]. by rw Hcp.
Qed.

(** ** Checkpoint, revert, discard *)
Lemma checkpoint_levels s : stacked s ->
  stacked (State.checkpoint s) /\ forall a, levels (State.checkpoint s) a = current s a :: levels s a.
Proof using.
  intros Hs. split.
  - split; intros a; rw raw_checkpoint.
    2:{ pose proof (st_faithful _ Hs a) as Hf. destruct (cells_forall _ _ Hf) as [H1 _].
        by constructor. }
    destruct (st_raw _ Hs a) as [Ho Hc Hr].
    assert (Hin : forall acc, account_in ((raw s a).1, None :: (raw s a).2) acc -> account_in (raw s a) acc).
    { intros acc [?|(e & [?|?]%elem_of_cons & ?)]; [by left|done|right; by exists e]. }
    split; [done| |].
    + intros acc H. by apply Hc, Hin.
    + intros acc1 acc2 Hst H1 H2. apply Hr; [done|by apply Hin..].
  - intros a. rw /levels raw_checkpoint. done.
Qed.

Lemma revert_levels s : stacked s -> State.checkpoints s <> [] ->
  stacked (State.revert_to_checkpoint s) /\
  forall a, levels (State.revert_to_checkpoint s) a = tl (levels s a).
Proof using HLok.
  intros Hs Hne. destruct (State.checkpoints s) as [|cp cps] eqn:Hcp; [done|].
  assert (Hdb : State.db (State.revert_to_checkpoint s) = State.db s) by (by rw /State.revert_to_checkpoint Hcp).
  assert (Hrt : State.root (State.revert_to_checkpoint s) = State.root s) by (by rw /State.revert_to_checkpoint Hcp).
  assert (H : forall a, raw_ok (State.db s) a (raw (State.revert_to_checkpoint s) a) /\
    raw_cells (raw (State.revert_to_checkpoint s) a) = tl (raw_cells (raw s a))).
  { intros a. rw (raw_revert s a cp cps Hcp). pose proof (st_raw _ Hs a) as Hr. rw /raw Hcp in Hr |- *.
    by apply raw_undo_ok. }
  split.
  { split; intros a; rw ?/stored Hdb ?Hrt; [by apply H|]. destruct (H a) as [_ ->].
    by destruct (st_faithful _ Hs a). }
  intros a. rw (levels_eq s); [done|done|].
  destruct (H a) as [_ ->]. rw /levels. by destruct (raw_cells (raw s a)).
Qed.

Lemma discard_levels s : stacked s -> State.checkpoints s <> [] ->
  stacked (State.discard_checkpoint s) /\
  forall a, levels (State.discard_checkpoint s) a = current s a :: tl (tl (levels s a)).
Proof using.
  intros Hs Hne. assert (Hdb : State.db (State.discard_checkpoint s) = State.db s /\
    State.root (State.discard_checkpoint s) = State.root s).
  { rw /State.discard_checkpoint. by destruct (State.checkpoints s) as [|? [|? ?]]. }
  destruct Hdb as [Hdb Hrt].
  assert (H : forall a, raw_ok (State.db s) a (raw (State.discard_checkpoint s) a) /\
    raw_cells (raw (State.discard_checkpoint s) a) = seen_slot (raw s a).1 :: tl (tl (raw_cells (raw s a)))).
  { intros a. pose proof (st_raw _ Hs a) as Ho.
    destruct (State.checkpoints s) as [|last [|prev cps]] eqn:Hcp; [done|..].
    - rw /raw /State.discard_checkpoint Hcp /= in Ho |- *. destruct Ho as [_ Hc Hr].
      assert (Hin : forall acc, account_in (State.cache s !! a, []) acc ->
        account_in (State.cache s !! a, [last !! a]) acc).
      { intros acc [?|(e & []%elem_of_nil & _)]. by left. }
      split; [|done]. split; [done| |].
      + intros acc Hacc. by apply Hc, Hin.
      + intros acc1 acc2 Hst H1 H2. apply Hr; [done|by apply Hin..].
    - rw (raw_discard s a last prev cps Hcp). rw /raw Hcp in Ho |- *. by apply raw_merge_ok. }
  split.
  { split; intros a; rw ?/stored Hdb ?Hrt; [by apply H|]. destruct (H a) as [_ ->].
    destruct (cells_forall _ _ (st_faithful _ Hs a)) as [H1 H2]. constructor; [done|]. by destruct H2. }
  intros a. rw (levels_eq s); [done|done|].
  destruct (H a) as [_ ->]. rw /levels /current. cbn [fmap list_fmap].
  by destruct (raw_cells (raw s a)) as [|? [|? ?]].
Qed.

(** ** Accounts *)
Lemma from_basic_coherent d a b : coherent d a (Account.from_basic (L := L) b).
Proof using HLok. split; cbn; [done| |done|done|done]. intros k v _. rw lru_items_empty. by intros ?%elem_of_nil. Qed.

Lemma new_basic_coherent d a n : coherent d a (Account.new_basic (L := L) n).
Proof using HLok. split; cbn; [done| |done|done|done]. intros k v _. rw lru_items_empty. by intros ?%elem_of_nil. Qed.

Lemma new_contract_coherent d a n : coherent d a (Account.new_contract (L := L) n).
Proof using HLok. split; cbn; [done| |done|done|done]. intros k v _. rw lru_items_empty. by intros ?%elem_of_nil. Qed.

Lemma clone_dirty_coherent d a acc : coherent d a acc -> coherent d a (Account.clone_dirty acc).
Proof using HLok.
  intros []. split; cbn; try done. intros k v _. rw lru_items_empty. by intros ?%elem_of_nil.
Qed.

Lemma clone_dirty_essence (acc : Account.t L) : acc_essence (Account.clone_dirty acc) = acc_essence acc.
Proof using. done. Qed.

Lemma address_hash_coherent d a acc : coherent d a acc ->
  (Account.address_hash acc a).1 = hash_of a /\ coherent d a (Account.address_hash acc a).2 /\
  acc_essence (Account.address_hash acc a).2 = acc_essence acc.
Proof using.
  intros Hc. rw /Account.address_hash. destruct (Account.address_hash_ acc) as [h|] eqn:Hh; cbn.
  - split; [by apply (coh_hash _ _ _ Hc)|done].
  - split; [done|]. split; [|done]. destruct Hc. split; cbn; try done. by intros h [= <-].
Qed.

Lemma update_account_cache_coherent req d a acc : coherent d a acc ->
  coherent d a (State.update_account_cache req d (hash_of a) acc) /\
  acc_essence (State.update_account_cache req d (hash_of a) acc) = acc_essence acc.
Proof using.
  intros Hc. rw /State.update_account_cache /Account.cache_code.
  destruct (Account.is_cached acc) eqn:Hcached; [done|].
  assert (Hclean : Account.code_filth acc = Clean).
  { destruct (Account.code_filth acc) eqn:Hf; [done|]. rw (coh_pending _ _ _ Hc Hf) in Hcached. done. }
  assert (Hset : forall x, code_get d (hash_of a) (Account.code_hash acc) = Some x ->
    coherent d a (Account.set_code acc (Some (zlen x)) x) /\
    acc_essence (Account.set_code acc (Some (zlen x)) x) = acc_essence acc).
  { intros x Hx. split; [|by rw /acc_essence /= Hclean]. destruct Hc. split; cbn; try done; [by rw Hclean|].
    intros _ He. rw /Account.is_cached He Z.eqb_refl in Hcached. by destruct (Account.is_empty_code acc). }
  destruct req; [done|..]; (destruct (code_get d (hash_of a) (Account.code_hash acc)) eqn:Hx; [by apply Hset|done]).
Qed.

(** The value of a storage key of an account. *)
Definition es_storage (d : D) (a : Address) (x : essence) (k : H256) : outcome TrieError H256 :=
  match es_changes x !! k with
  | Some v => Ok v
  | None => storage_value d (hash_of a) (es_root x) k
  end.

Lemma set_storage_cache_coherent d a acc (c : L) : coherent d a acc ->
  (forall k v, strict -> (k, v) ∈ lru_items c -> storage_value d (hash_of a) (Account.storage_root acc) k = Ok v) ->
  coherent d a (Account.set_storage_cache acc c) /\
  acc_essence (Account.set_storage_cache acc c) = acc_essence acc.
Proof using. intros [] Hc'. split; [|done]. by split. Qed.

Lemma cached_storage_coherent d a acc k : coherent d a acc ->
  coherent d a (Account.cached_storage_at acc k).2 /\
  acc_essence (Account.cached_storage_at acc k).2 = acc_essence acc /\
  match (Account.cached_storage_at acc k).1 with
  | Some v => strict -> es_storage d a (acc_essence acc) k = Ok v
  | None => Account.storage_changes acc !! k = None
  end.
Proof using HLok.
  intros Hc. rw /Account.cached_storage_at /es_storage. cbn [acc_essence es_changes es_root].
  destruct (Account.storage_changes acc !! k) as [w|] eqn:Hk; [done|].
  pose proof (lru_get_some k (Account.storage_cache acc)) as Hsome.
  pose proof (lru_get_items k (Account.storage_cache acc)) as Hitems.
  destruct (lru_get k (Account.storage_cache acc)) as [o c]; cbn [fst snd] in *.
  destruct (set_storage_cache_coherent d a acc c Hc) as [Hc' He'].
  { intros k' v' Hst ?%Hitems. by apply (coh_storage _ _ _ Hc). }
  split; [done|]. split; [done|]. destruct o as [v|]; [|done]. intros Hst.
  apply (coh_storage _ _ _ Hc); [done|]. by apply Hsome.
Qed.

Lemma storage_at_coherent d a acc k : coherent d a acc ->
  (strict -> (Account.storage_at d (hash_of a) acc k).1 = es_storage d a (acc_essence acc) k) /\
  coherent d a (Account.storage_at d (hash_of a) acc k).2 /\
  acc_essence (Account.storage_at d (hash_of a) acc k).2 = acc_essence acc.
Proof using HLok.
  intros Hc. rw /Account.storage_at. destruct (cached_storage_coherent d a acc k Hc) as (Hc' & He' & Hv).
  destruct (Account.cached_storage_at acc k) as [[v|] acc']; cbn [fst snd] in *.
  { split; [|done]. intros Hst. by rw Hv. }
  assert (Hr : Account.storage_root acc' = Account.storage_root acc) by (injection He'; done).
  rw /es_storage. cbn [acc_essence es_changes es_root]. rw Hv -Hr.
  fold (storage_value d (hash_of a) (Account.storage_root acc') k).
  destruct (storage_value d (hash_of a) (Account.storage_root acc') k) as [v|e|] eqn:Hval; cbn [fst snd]; [|done|done].
  split; [done|]. rw -He'. apply set_storage_cache_coherent; [done|].
  intros k' v' Hst [[-> ->]|[_ Hin]]%lru_insert_items; [done|]. by apply (coh_storage _ _ _ Hc').
Qed.

(** The code of an account. *)
Definition code_value (d : D) (a : Address) (x : essence) : option bytes :=
  match es_code x with
  | Some c => if negb (es_code_hash x =? HASH_EMPTY) && bool_decide (c = []) then None else Some c
  | None =>
      if es_code_hash x =? HASH_EMPTY then Some []
      else match code_get d (hash_of a) (es_code_hash x) with Some [] => None | o => o end
  end.

Lemma code_coherent d a acc : coherent d a acc ->
  Account.code (State.update_account_cache RequireCode d (hash_of a) acc) = code_value d a (acc_essence acc).
Proof using.
  intros Hc. rw /State.update_account_cache /Account.cache_code /code_value /acc_essence /=.
  destruct (Account.code_filth acc) eqn:Hf.
  - pose proof (coh_code _ _ _ Hc Hf) as Hcode. pose proof (coh_empty _ _ _ Hc Hf) as Hempty.
    rw /Account.is_cached /Account.is_empty_code. destruct (Account.code_cache acc) as [|b c] eqn:Hcc; cbn.
    + destruct (Z.eqb_spec (Account.code_hash acc) HASH_EMPTY) as [He|Hne]; cbn.
      * by rw /Account.code He Z.eqb_refl Hcc.
      * destruct (code_get d (hash_of a) (Account.code_hash acc)) as [x|] eqn:Hx; cbn;
          rw /Account.code /Account.is_empty_code /= (proj2 (Z.eqb_neq _ _) Hne) ?Hcc; [by destruct x|done].
    + rw Hcode; [done|]. rw /Account.code /Account.is_empty_code Hcc andb_false_r.
      destruct (Z.eqb_spec (Account.code_hash acc) HASH_EMPTY) as [He|]; [by specialize (Hempty He)|done].
  - rw (coh_pending _ _ _ Hc Hf). rw /Account.code /Account.is_empty_code. by destruct (Account.code_cache acc).
Qed.

(** ** Reading *)
Lemma load_account_essence s a o : State.load_account s a = Ok o ->
  acc_essence <$> o = stored s a /\ forall acc, o = Some acc -> coherent (State.db s) a acc.
Proof using HLok.
  rw /State.load_account /stored. destruct (trie_get _ _ _ a) as [|[b|]]; cbn; [done| |by intros [= <-]].
  rw /Account.from_rlp. destruct (decode_basic b) as [basic|]; cbn; [|done]. intros [= <-]. split; [done|].
  intros acc [= <-]. apply from_basic_coherent.
Qed.

Lemma unseen_refl s : stacked s -> unseen s s.
Proof using. done. Qed.

Lemma unseen_trans s1 s2 s3 : unseen s1 s2 -> unseen s2 s3 -> unseen s1 s3.
Proof using.
  intros (_ & ? & H1) (? & ? & H2). split; [done|]. split; [by eapply frame_trans|].
  intros b. by rw H2 H1.
Qed.

Lemma unseen_updated a x s1 s2 s3 : unseen s1 s2 -> updated a x s2 s3 -> updated a x s1 s3.
Proof using.
  intros (_ & ? & H1) (? & ? & H2 & H3). split; [done|]. split; [by eapply frame_trans|].
  split; [by rw H2 H1|]. intros b Hb. by rw H3 // H1.
Qed.

(** An entry is replaced by one that shows the same. *)
Lemma unseen_same s a e e' : stacked s -> State.cache s !! a = Some e -> seen e' = seen e ->
  (forall acc, AccountEntry.account e' = Some acc -> coherent (State.db s) a acc) ->
  unseen s (State.with_cache s (<[a := e']> (State.cache s))).
Proof using.
  intros Hs Ha He Hc. destruct (raw_same_ok (State.db s) a e e' (raw s a)) as [Hok Hcells]; [apply Hs|done..|].
  pose proof (changed_cache s a e') as Hch. split.
  { eapply changed_stacked; [done..|]. rw Hcells. apply st_faithful, Hs. }
  split; [done|]. destruct (changed_levels _ _ _ _ Hch) as [Hl Ho]. intros b.
  destruct (decide (b = a)) as [->|]; [by rw Hl Hcells|by apply Ho].
Qed.

(** An entry is brought in from the database. *)
Lemma unseen_loaded s a o : stacked s -> State.cache s !! a = None -> acc_essence <$> o = stored s a ->
  (forall acc, o = Some acc -> coherent (State.db s) a acc) ->
  unseen s (State.insert_cache s a (AccountEntry.new_clean o)).
Proof using.
  intros Hs Ha Ho Hc. set (e := AccountEntry.new_clean o).
  destruct (raw_load_ok (State.db s) a e (raw s a)) as (Hok & Hcells & Hcells'); [apply Hs|done..|].
  pose proof (changed_insert_clean s a e eq_refl) as Hch. split.
  { eapply changed_stacked; [done..|]. rw Hcells'. apply Forall_replicate. by right. }
  split; [done|]. destruct (changed_levels _ _ _ _ Hch) as [Hl Hother]. intros b.
  destruct (decide (b = a)) as [->|]; [|by apply Hother]. rw Hl Hcells' /levels Hcells.
  rw !fmap_replicate. f_equal. by rw /visible /seen /= Ho.
Qed.

Lemma current_cached s a e : State.cache s !! a = Some e ->
  current s a = acc_essence <$> AccountEntry.account e.
Proof using. intros Ha. by rw /current /raw /= Ha. Qed.

Lemma current_uncached s a : State.cache s !! a = None -> current s a = stored s a.
Proof using. intros Ha. by rw /current /raw /= Ha. Qed.

Lemma cached_coherent s a e acc : stacked s -> State.cache s !! a = Some e ->
  AccountEntry.account e = Some acc -> coherent (State.db s) a acc.
Proof using. intros Hs Ha Hacc. apply (raw_coherent _ _ _ (st_raw _ Hs a)). left. by exists e. Qed.

Lemma pwp_ensure_cached {U} a req (f : option (Account.t L) -> U) s : stacked s ->
  pwp (State.ensure_cached a req f)
    (fun u s' => unseen s s' /\ exists o, u = f o /\ acc_essence <$> o = current s a /\
       forall acc, o = Some acc -> exists acc0, coherent (State.db s) a acc0 /\
         acc_essence acc0 = acc_essence acc /\
         acc = State.update_account_cache req (State.db s) (hash_of a) acc0)
    (fun _ s' => s' = s) s.
Proof using HLok.
  intros Hs. rw /State.ensure_cached. apply pwp_bind. cbn. destruct (State.cache s !! a) as [e|] eqn:Ha.
  - rw (current_cached s a e Ha). destruct (AccountEntry.account e) as [acc|] eqn:Hacc.
    2:{ split; [done|]. by exists None. }
    destruct (address_hash_coherent _ a acc (cached_coherent s a e acc Hs Ha Hacc)) as (Hh & Hc & He).
    destruct (Account.address_hash acc a) as [ah acc0]; cbn [fst snd] in *. subst ah.
    destruct (update_account_cache_coherent req _ a acc0 Hc) as [Hc' He'].
    set (acc1 := State.update_account_cache _ _ _ _) in *. split.
    + eapply unseen_same; [done|done|rw /seen /= Hacc /=; congruence|]. by intros ? [= <-].
    + exists (Some acc1). split; [done|]. split; [cbn; congruence|]. intros ? [= <-]. exists acc0. done.
  - rw (current_uncached s a Ha). apply pwp_bind, pwp_lift; [intros [] _|done].
    apply pwp_bind, pwp_lift; [intros o [Ho Hco]%load_account_essence|done]. destruct o as [acc|].
    2:{ split; [by apply unseen_loaded|]. by exists None. }
    destruct (address_hash_coherent _ a acc (Hco acc eq_refl)) as (Hh & Hc & He).
    destruct (Account.address_hash acc a) as [ah acc0]; cbn [fst snd] in *. subst ah.
    destruct (update_account_cache_coherent req _ a acc0 Hc) as [Hc' He'].
    set (acc1 := State.update_account_cache _ _ _ _) in *. cbn in Ho. rw -He -He' in Ho. split.
    + apply unseen_loaded; [done|done|done|]. by intros ? [= <-].
    + exists (Some acc1). split; [done|]. split; [done|]. intros ? [= <-]. exists acc0. done.
Qed.

(** The storage an address shows. *)
Definition shown_storage (d : D) (a : Address) (o : option essence) (k : H256) : outcome TrieError H256 :=
  match o with Some x => es_storage d a x k | None => Ok 0 end.

Lemma pwp_storage_at a k s : stacked s ->
  pwp (State.storage_at a k)
    (fun v s' => unseen s s' /\ (strict -> shown_storage (State.db s) a (current s a) k = Ok v))
    (fun _ s' => unseen s s') s.
Proof using HLok.
  intros Hs. rw /State.storage_at. apply pwp_bind. cbn. destruct (State.cache s !! a) as [e|] eqn:Ha.
  - rw (current_cached s a e Ha) /State.storage_at_cached.
    destruct (AccountEntry.account e) as [acc|] eqn:Hacc; [|done]. apply pwp_bind. cbn.
    pose proof (cached_coherent s a e acc Hs Ha Hacc) as Hc.
    assert (Hput : forall acc', coherent (State.db s) a acc' -> acc_essence acc' = acc_essence acc ->
      unseen s (State.with_cache s (<[a := AccountEntry.mk (Some acc') (AccountEntry.state e)]> (State.cache s)))).
    { intros acc' Hc' He'. eapply unseen_same; [done|done|rw /seen /= Hacc /=; congruence|]. by intros ? [= <-]. }
    destruct (cached_storage_coherent _ a acc k Hc) as (Hc1 & He1 & Hv1).
    destruct (Account.cached_storage_at acc k) as [[v|] acc1]; cbn [fst snd] in *.
    { split; [by apply Hput|]. intros Hst. by apply Hv1. }
    destruct (address_hash_coherent _ a acc1 Hc1) as (Hh & Hc2 & He2).
    destruct (Account.address_hash acc1 a) as [ah acc2]; cbn [fst snd] in *. subst ah.
    destruct (storage_at_coherent _ a acc2 k Hc2) as (Hv3 & Hc3 & He3).
    destruct (Account.storage_at (State.db s) (hash_of a) acc2 k) as [r acc3]; cbn [fst snd] in *.
    apply pwp_bind. cbn. assert (Hs3 := Hput acc3 Hc3 ltac:(congruence)). rw He2 He1 in Hv3.
    destruct r; [|done..]. split; [done|]. intros Hst. by rw -Hv3.
  - rw (current_uncached s a Ha). apply pwp_bind, pwp_lift; [intros [] _|intros e He; by case_match].
    apply pwp_bind, pwp_lift; [intros o [Ho Hco]%load_account_essence|done]. rw -Ho.
    destruct o as [acc|]; [|split; [by apply unseen_loaded|done]].
    destruct (address_hash_coherent _ a acc (Hco acc eq_refl)) as (Hh & Hc2 & He2).
    destruct (Account.address_hash acc a) as [ah acc2]; cbn [fst snd] in *. subst ah.
    destruct (storage_at_coherent _ a acc2 k Hc2) as (Hv3 & Hc3 & He3).
    destruct (Account.storage_at (State.db s) (hash_of a) acc2 k) as [r acc3]; cbn [fst snd] in *.
    rw He2 in Hv3. apply pwp_bind. cbn.
    assert (Hs3 : unseen s (State.insert_cache s a (AccountEntry.new_clean (Some acc3)))).
    { apply unseen_loaded; [done|done|cbn; rw -Ho; cbn; congruence|]. by intros ? [= <-]. }
    destruct r; [|done..]. split; [done|]. intros Hst. cbn. by rw -Hv3.
Qed.

(** ** Updating *)

(** Brings the account in, as [require_or_from] does first. *)
Lemma pwp_bring_in a s : stacked s ->
  pwp (if bool_decide (is_Some (State.cache s !! a)) then sret tt
       else _ <~ slift (of_sum (trie_open (State.db s) None (State.root s))) ;;
            maybe_acc <~ slift (State.load_account s a) ;;
            smodify (fun s => State.insert_cache s a (AccountEntry.new_clean maybe_acc)))
    (fun _ s' => unseen s s' /\ is_Some (State.cache s' !! a)) (fun _ s' => s' = s) s.
Proof using HLok.
  intros Hs. case_bool_decide as Hc; [done|]. apply eq_None_not_Some in Hc.
  apply pwp_bind, pwp_lift; [intros [] _|done].
  apply pwp_bind, pwp_lift; [intros o [Ho Hco]%load_account_essence|done]. cbn.
  split; [by apply unseen_loaded|]. by rw /State.insert_cache /= lookup_insert_eq.
Qed.

(** The roots around an address without account do not matter. *)
Lemma no_account_in d a r e : raw_ok d a r -> r.1 = Some e -> AccountEntry.account e = None ->
  forall acc, ~ account_in r acc.
Proof using.
  intros [Hord _ _] Hr He acc Hin. destruct r as [c svs]. cbn in Hr. subst c. rw /raw_ordered in Hord.
  cbn [fst snd] in Hord. rw /seen_slot /= /seen He /= in Hord. apply ordered_no_account in Hord.
  destruct Hin as [(e' & [= <-] & He')|(e' & Hin & He')]; [congruence|]. cbn [snd] in Hin.
  eapply Forall_forall in Hord; [|apply list_elem_of_fmap; by exists (Some (Some e'))].
  by rw /seen_save /= /seen_slot /= /seen He' in Hord.
Qed.

(** What the caller does with the account, on essences. *)
Definition acts_as (d : D) (a : Address) (upd : Account.t L -> outcome TrieError (Account.t L))
    (g : essence -> essence) : Prop :=
  forall acc, coherent d a acc ->
  match upd acc with
  | Ok acc' => coherent d a acc' /\ Account.storage_root acc' = Account.storage_root acc /\
      acc_essence acc' = g (acc_essence acc)
  | Err _ => False
  | Panic => True
  end.

Lemma updated_note s a e (acc0 acc1 : Account.t L) : stacked s -> State.cache s !! a = Some e ->
  coherent (State.db s) a acc1 -> Account.storage_root acc1 = Account.storage_root acc0 ->
  (forall acc, AccountEntry.account e = Some acc -> Account.storage_root acc0 = Account.storage_root acc) ->
  updated a (acc_essence acc1) s
    (State.with_cache (State.note_cache s a)
       (<[a := AccountEntry.mk (Some acc1) AccountState.Dirty]> (State.cache (State.note_cache s a)))).
Proof using HLok.
  intros Hs Ha Hc Hr Hroot. set (e' := AccountEntry.mk _ _).
  pose proof (changed_note s a e') as Hch. rw Ha in Hch. cbn [fmap option_fmap option_map] in Hch.
  assert (Hin : forall acc', strict -> account_in (raw s a) acc' ->
    Account.storage_root acc' = Account.storage_root acc1).
  { intros acc' Hst Hin. destruct (AccountEntry.account e) as [acc|] eqn:Hacc.
    - rw Hr (Hroot acc eq_refl). apply (raw_root _ _ _ (st_raw _ Hs a)); [done|done|]. left. by exists e.
    - by destruct (no_account_in _ _ _ e (st_raw _ Hs a) Ha Hacc acc'). }
  assert (Hclone : forall acc', AccountEntry.account (AccountEntry.clone_dirty e) = Some acc' ->
    coherent (State.db s) a acc' /\ (strict -> Account.storage_root acc' = Account.storage_root acc1)).
  { intros acc' Hacc'. cbn in Hacc'. destruct (AccountEntry.account e) as [acc|] eqn:Hacc; [|done].
    injection Hacc' as <-. split; [apply clone_dirty_coherent; by eapply cached_coherent|].
    intros Hst. rw -(Hin acc); [done|left; by exists e|done]. }
  destruct (raw_touch_ok (State.db s) a e' (Some (AccountEntry.clone_dirty e)) (raw s a)
    (acc_essence acc1) acc1) as [Hok Hcells]; [apply Hs|try done..].
  { rw /raw /= Ha /seen_slot /= /seen. cbn. by destruct (AccountEntry.account e). }
  { intros o acc' [= <-]. apply Hclone. }
  destruct (changed_levels _ _ _ _ Hch) as [Hl Ho]. split.
  { eapply changed_stacked; [done..|]. rw Hcells. apply faithful_touch, st_faithful, Hs. }
 
  split; [|split; [|done]].
  - rw /State.note_cache. destruct (State.checkpoints s) as [|cp cps] eqn:Hcp; [by rw /frame /= Hcp|].
    destruct (cp !! a); by rw /frame /= Hcp.
  - rw Hl Hcells /levels. by destruct (raw_cells (raw s a)).
Qed.

Lemma pwp_require_or_from a req dflt upd g s : stacked s ->
  coherent (State.db s) a dflt -> acts_as (State.db s) a upd g ->
  pwp (State.require_or_from a req dflt (fun x => x) upd)
    (fun _ s' => updated a (g (default (acc_essence dflt) (current s a))) s s')
    (fun _ s' => unseen s s') s.
Proof using HLok.
  intros Hs Hdflt Hupd. rw /State.require_or_from. apply pwp_bind. cbn. apply pwp_bind.
  eapply pwp_conseq; [by apply pwp_bring_in| |by intros e s' ->]. intros _ s1 [Hs1 [e He]].
  pose proof Hs1 as (Hst1 & (_ & Hdb & _) & Hl1). apply pwp_bind. cbn. apply pwp_bind. cbn.
  assert (Hcache : State.cache (State.note_cache s1 a) = State.cache s1 /\
    State.db (State.note_cache s1 a) = State.db s).
  { rw -Hdb /State.note_cache. destruct (State.checkpoints s1) as [|cp cps]; [done|]. by destruct (cp !! a). }
  destruct Hcache as [-> ->]. rw He. apply pwp_bind. cbn.
  set (acc0 := match AccountEntry.account e with Some _ => _ | None => _ end).
  assert (Hcur : acc_essence acc0 = default (acc_essence dflt) (current s a)).
  { destruct (levels_cons s a) as [ls Hls]. destruct (levels_cons s1 a) as [ls1 Hls1].
    specialize (Hl1 a). rw Hls Hls1 in Hl1. injection Hl1 as <- _. rw (current_cached s1 a e He) /acc0.
    by destruct (AccountEntry.account e). }
  assert (Hc0 : coherent (State.db s) a acc0).
  { rw /acc0. destruct (AccountEntry.account e) as [acc|] eqn:Hacc; [|done]. rw -Hdb. by eapply cached_coherent. }
  set (acc1 := if req then _ else _).
  assert (Hacc1 : coherent (State.db s) a acc1 /\ acc_essence acc1 = acc_essence acc0).
  { rw /acc1. destruct req; [|done]. destruct (address_hash_coherent _ a acc0 Hc0) as (Hh & Hc & He0).
    destruct (Account.address_hash acc0 a) as [ah acc']; cbn [fst snd] in *. subst ah. rw -He0.
    by apply update_account_cache_coherent. }
  destruct Hacc1 as [Hc1 He1]. apply pwp_bind. specialize (Hupd acc1 Hc1). rw /pwp. cbn.
  destruct (upd acc1) as [acc2|er|]; [|done|done]. destruct Hupd as (Hc2 & Hr2 & He2). cbn.
  rw He1 Hcur in He2. rw -He2. eapply unseen_updated; [exact Hs1|].
  apply (updated_note s1 a e acc1 acc2); [done|done|by rw Hdb|done|].
  intros acc Hacc. assert (Hr1 : Account.storage_root acc1 = Account.storage_root acc0) by (injection He1; done).
  by rw Hr1 /acc0 Hacc.
Qed.

(** ** The operations *)
Definition es_inc_nonce (x : essence) : essence :=
  {| es_nonce := es_nonce x + 1; es_root := es_root x; es_changes := es_changes x;
     es_code_hash := es_code_hash x; es_code := es_code x |}.

Definition es_set_storage (k v : H256) (x : essence) : essence :=
  {| es_nonce := es_nonce x; es_root := es_root x; es_changes := <[k := v]> (es_changes x);
     es_code_hash := es_code_hash x; es_code := es_code x |}.

Definition es_init_code (c : bytes) (x : essence) : essence :=
  {| es_nonce := es_nonce x; es_root := es_root x; es_changes := es_changes x;
     es_code_hash := crypt_hash c; es_code := Some c |}.

(** An account without history. *)
Definition es_fresh (nonce : U256) : essence :=
  {| es_nonce := nonce; es_root := HASH_NULL_RLP; es_changes := ∅; es_code_hash := HASH_EMPTY; es_code := None |}.

Lemma inc_nonce_acts d a : acts_as d a Account.inc_nonce es_inc_nonce.
Proof using.
  intros acc []. rw /Account.inc_nonce /add_. destruct (_ <? _); [|done]. cbn. split; [by split|]. done.
Qed.

Lemma set_storage_acts d a k v : acts_as d a (fun acc => Ok (Account.set_storage acc k v)) (es_set_storage k v).
Proof using. intros acc []. split; [by split|]. done. Qed.

Lemma init_code_acts d a c : acts_as d a (fun acc => Ok (Account.init_code acc c)) (es_init_code c).
Proof using HUok.
  intros acc []. split; [|done]. split; cbn; try done. intros _.
  rw /Account.is_cached /Account.is_empty_code. cbn. destruct c; [|done]. by rw hash_empty Z.eqb_refl.
Qed.

Lemma pwp_inc_nonce a s : stacked s ->
  pwp (State.inc_nonce a)
    (fun _ s' => updated a (es_inc_nonce (default (es_fresh (State.account_start_nonce s)) (current s a))) s s')
    (fun _ s' => unseen s s') s.
Proof using HLok.
  intros Hs. apply pwp_bind. cbn. apply (pwp_require_or_from a false (Account.new_basic _));
    [done|apply new_basic_coherent|apply inc_nonce_acts].
Qed.

Lemma pwp_init_code a c s : stacked s ->
  pwp (State.init_code a c)
    (fun _ s' => updated a (es_init_code c (default (es_fresh (State.account_start_nonce s)) (current s a))) s s')
    (fun _ s' => unseen s s') s.
Proof using HUok HLok.
  intros Hs. apply pwp_bind. cbn. apply (pwp_require_or_from a true (Account.new_contract _));
    [done|apply new_contract_coherent|apply init_code_acts].
Qed.

(** Nothing changes when the key has the value already. *)
Lemma pwp_set_storage a k v s : stacked s ->
  pwp (State.set_storage a k v)
    (fun _ s' =>
       exists w, (strict -> shown_storage (State.db s) a (current s a) k = Ok w) /\
       if w =? v then unseen s s'
       else updated a (es_set_storage k v (default (es_fresh (State.account_start_nonce s)) (current s a))) s s')
    (fun _ s' => unseen s s') s.
Proof using HLok.
  intros Hs. apply pwp_bind. eapply pwp_conseq; [by apply pwp_storage_at| |done].
  intros w s1 [Hs1 Hw]. pose proof Hs1 as (Hst & (_ & Hdb & _ & Hn & _) & Hl).
  destruct (w =? v) eqn:Hwv; cbn [negb].
  { exists w. by rw Hwv. }
  apply pwp_bind. cbn.
  assert (Hcur : current s1 a = current s a).
  { destruct (levels_cons s a) as [ls Hls]. destruct (levels_cons s1 a) as [ls1 Hls1].
    specialize (Hl a). rw Hls Hls1 in Hl. by injection Hl. }
  eapply pwp_conseq; [apply (pwp_require_or_from a false (Account.new_basic _));
    [done|apply new_basic_coherent|apply (set_storage_acts _ _ k v)]|..].
  - intros u s2 Hs2. rw Hcur Hn in Hs2. exists w. rw Hwv. split; [done|]. by eapply unseen_updated.
  - intros e s2 Hs2. by eapply unseen_trans.
Qed.

(** A contract is created; storage caches need that there was no account. *)
Lemma pwp_new_contract a n s : stacked s -> (strict -> current s a = None) ->
  pwp (State.new_contract a n)
    (fun _ s' => updated a (es_fresh (State.account_start_nonce s + n)) s s') (fun _ _ => False) s.
Proof using HLok.
  intros Hs Hcur. apply pwp_bind. cbn. apply pwp_bind. rw /add_ /pwp.
  destruct (State.account_start_nonce s + n <? 2 ^ 256); [|done]. cbn.
  set (acc := Account.new_contract _). set (e := AccountEntry.new_dirty (Some acc)).
  pose proof (changed_insert_dirty s a e eq_refl) as Hch.
  assert (Hnone : forall acc', strict -> ~ account_in (raw s a) acc').
  { intros acc' Hst Hin. specialize (Hcur Hst). destruct (State.cache s !! a) as [e0|] eqn:Ha.
    - rw (current_cached s a e0 Ha) in Hcur. destruct (AccountEntry.account e0) eqn:He0; [done|].
      by destruct (no_account_in _ _ _ e0 (st_raw _ Hs a) Ha He0 acc').
    - destruct Hin as [(e1 & He1 & _)|(e1 & Hin & _)]; [rw /raw /= Ha in He1; done|].
      pose proof (raw_order _ _ _ (st_raw _ Hs a)) as Hord. rw /raw_ordered /raw /= Ha in Hord.
      apply ordered_none in Hord. eapply Forall_forall in Hord;
        [|apply list_elem_of_fmap; by exists (Some (Some e1))]. done. }
  destruct (raw_touch_ok (State.db s) a e (State.cache s !! a) (raw s a) (acc_essence acc) acc)
    as [Hok Hcells]; [apply Hs|try done..].
  { apply new_contract_coherent. }
  { intros acc' Hst Hin. by destruct (Hnone acc'). }
  { intros o acc' Ho Hacc'. split; [by eapply cached_coherent|]. intros Hst.
    destruct (Hnone acc' Hst). left. by exists o. }
  destruct (changed_levels _ _ _ _ Hch) as [Hl Ho]. split.
  { eapply changed_stacked; [done..|]. rw Hcells. apply faithful_touch, st_faithful, Hs. }
  split; [|split; [|done]].
  - rw /State.insert_cache /=. destruct (State.checkpoints s) as [|cp cps] eqn:Hcp; [by rw /frame /= Hcp|].
    destruct (cp !! a); by rw /frame /= Hcp.
  - rw Hl Hcells /levels. by destruct (raw_cells (raw s a)).
Qed.

(** An account is killed when nothing is left to revert. *)
Lemma kill_account_stacked a s : stacked s -> State.checkpoints s = [] ->
  stacked (State.kill_account s a) /\ State.checkpoints (State.kill_account s a) = [] /\
  levels (State.kill_account s a) a = [None] /\
  forall b, b <> a -> levels (State.kill_account s a) b = levels s b.
Proof using.
  intros Hs Hcp. set (e := AccountEntry.new_dirty (L := L) None).
  assert (Hk : State.kill_account s a = State.with_cache s (<[a := e]> (State.cache s)))
    by (by rw /State.kill_account /State.insert_cache Hcp).
  pose proof (changed_cache s a e) as Hch. rw -Hk in Hch. rw /raw Hcp /= in Hch.
  destruct (changed_levels _ _ _ _ Hch) as [Hl Ho]. split; [|split; [by rw Hk|split; [by rw Hl|done]]].
  eapply changed_stacked; [done|exact Hch| |by repeat constructor]. split; [done| |]; intros acc; [|intros acc' _];
    intros [(e' & [= <-] & ?)|(e' & []%elem_of_nil & _)]; done.
Qed.

(** A state that has not been used yet is in order. *)
Lemma stacked_fresh s : State.cache s = ∅ -> State.checkpoints s = [] -> stacked s.
Proof using.
  intros Hc Hcp. split; intros a; rw /raw Hc Hcp lookup_empty; cbn [fmap list_fmap]; [|by repeat constructor].
  split; [done|..].
  - intros acc [(e & He & _)|(e & He & _)]; [done|by apply not_elem_of_nil in He].
  - intros acc acc' _ [(e & He & _)|(e & He & _)]; [done|by apply not_elem_of_nil in He].
Qed.

(** ** What lies below the top *)
Definition keeps (s s' : State.t D L) : Prop := forall a, tl (levels s' a) = tl (levels s a).

Lemma keeps_trans s1 s2 s3 : keeps s1 s2 -> keeps s2 s3 -> keeps s1 s3.
Proof using. intros H1 H2 a. by rw H2 H1. Qed.

Lemma unseen_keeps s s' : unseen s s' -> stacked s' /\ keeps s s'.
Proof using. intros (? & _ & H). split; [done|]. intros a. by rw H. Qed.

Lemma updated_keeps a x s s' : updated a x s s' -> stacked s' /\ keeps s s'.
Proof using.
  intros (? & _ & Ha & Hb). split; [done|]. intros b.
  destruct (decide (b = a)) as [->|]; [by rw Ha|by rw Hb].
Qed.

Lemma history_length c svs : length (history c svs) = S (length svs).
Proof using. revert c. induction svs as [|sv svs IH]; intros c; [done|]. cbn. by rw IH. Qed.

Lemma levels_length s a : length (levels s a) = S (length (State.checkpoints s)).
Proof using. rw /levels length_fmap /raw_cells history_length /raw /=. by rw !length_fmap. Qed.

(** Reverting restores what there was at the checkpoint, discarding keeps it
    below. *)
Lemma revert_after s s' : stacked s' -> keeps (State.checkpoint s) s' -> State.checkpoints s' <> [] ->
  stacked (State.revert_to_checkpoint s') /\
  forall a, levels (State.revert_to_checkpoint s') a = levels s a.
Proof using HLok.
  intros Hs' Hk Hne. destruct (revert_levels s' Hs' Hne) as [Hst Hl]. split; [done|].
  intros a. rw Hl (Hk a) /levels raw_checkpoint. done.
Qed.

Lemma discard_after s s' : stacked s' -> keeps (State.checkpoint s) s' -> State.checkpoints s' <> [] ->
  stacked (State.discard_checkpoint s') /\
  forall a, levels (State.discard_checkpoint s') a = current s' a :: tl (levels s a).
Proof using.
  intros Hs' Hk Hne. destruct (discard_levels s' Hs' Hne) as [Hst Hl]. split; [done|].
  intros a. rw Hl (Hk a) /levels raw_checkpoint. done.
Qed.
End refinement.
