(* ===== verification/StateInv.v ===== *)
(** * The invariant of the world state

    Well-formedness and the stack of states together: every operation of the
    state keeps both, and leaves what lies below the newest checkpoint as it
    is. *)

From S2P Require Import Prelude Lru Evm Account State StateSpec CheckpointSpec.
From stdpp Require Import base gmap list strings.
Local Open Scope Z_scope.
Local Open Scope cita_scope.

Section inv.
  Context {HU : Util} {HUok : UtilOk}.
  Context {L : Type} {HL : LruCache Z L} {HLok : LruCacheOk Z L} {D : Type} {HD : Backend D}.
Abbreviation St := (State.t D L).

Definition inv (n : Z) (s : St) : Prop := state_ok n s /\ stacked False s.

Definition moved (s s' : St) : Prop := frame s s' /\ keeps s s'.

Definition inv_step (n : Z) (s s' : St) : Prop := inv n s' /\ moved s s'.

(** Every account at every level is what it was. *)
Definition restored (s s' : St) : Prop := forall a, levels s' a = levels s a.

Lemma moved_refl s : moved s s.
Proof using. done. Qed.

Lemma moved_trans s1 s2 s3 : moved s1 s2 -> moved s2 s3 -> moved s1 s3.
Proof using. intros [? ?] [? ?]. split; [by eapply frame_trans|by eapply keeps_trans]. Qed.

Lemma inv_le m n s : 0 <= m <= n -> inv n s -> inv m s.
Proof using. intros ? [? ?]. split; [by eapply state_ok_mono|done]. Qed.

Lemma inv_step_trans m n s1 s2 s3 : inv_step m s1 s2 -> inv_step n s2 s3 -> inv_step n s1 s3.
Proof using. intros [_ ?] [? ?]. split; [done|]. by eapply moved_trans. Qed.

(** A well-formed step that changes at most the top. *)
Lemma step_inv n s s' : state_step n s s' -> stacked False s' -> keeps s s' -> inv_step n s s'.
Proof using. intros [? ?] ? ?. done. Qed.

(** Put the two halves of an operation together. *)
Lemma wp_inv {A} n (c : M TrieError St A) (P : A -> Prop) (U : A -> St -> Prop) (R : TrieError -> St -> Prop) s :
  wp c (fun a s' => P a /\ state_step n s s') (fun _ s' => state_step n s s') s ->
  pwp c U R s ->
  (forall a s', U a s' -> stacked False s' /\ keeps s s') ->
  (forall e s', R e s' -> stacked False s' /\ keeps s s') ->
  wp c (fun a s' => P a /\ inv_step n s s' /\ U a s') (fun e s' => inv_step n s s' /\ R e s') s.
Proof using.
  intros Hwp Hpwp HQ HR. eapply wp_conseq; [by apply wp_and_pwp|..].
  - intros a s' [[? ?] Ha]. destruct (HQ _ _ Ha). split; [done|]. split; [by apply step_inv|done].
  - intros e s' [? He]. destruct (HR _ _ He). split; [by apply step_inv|done].
Qed.

Lemma wp_inv_unit n (c : M TrieError St unit) (U : St -> Prop) s :
  wp c (fun _ s' => state_step n s s') (fun _ s' => state_step n s s') s ->
  pwp c (fun _ s' => U s') (fun _ s' => unseen False s s') s ->
  (forall s', U s' -> stacked False s' /\ keeps s s') ->
  wp c (fun _ s' => inv_step n s s' /\ U s') (fun _ s' => inv_step n s s' /\ unseen False s s') s.
Proof using.
  intros Hwp Hpwp HQ. eapply wp_conseq;
    [apply (wp_inv n c (fun _ => True) (fun _ s' => U s') (fun _ s' => unseen False s s'))|..].
  - eapply wp_conseq; [exact Hwp|done|done].
  - done.
  - intros _. apply HQ.
  - intros _. apply unseen_keeps.
  - intros u s' (_ & ? & ?). done.
  - done.
Qed.

(** ** The initial state *)
Lemma from_existing_inv n d r start s :
  State.from_existing (L := L) d r start = Ok s -> db_ok n d r -> 0 <= start -> start + n < 2 ^ 256 ->
  inv n s /\ State.checkpoints s = [].
Proof using.
  rw /State.from_existing. destruct (db_contains d r); [|done]. intros [= <-] Hd H1 H2. split; [|done].
  split; [|by apply stacked_fresh]. split; [done|..|done].
  - intros a e. cbn. by rw lookup_empty.
  - intros cp a e Hcp. by apply not_elem_of_nil in Hcp.
Qed.

(** ** Operations *)
Lemma inv_read_unseen {U} n a req (f : option (Account.t L) -> U) (P : U -> Prop) s :
  inv n s -> (forall o, account_opt_ok n o -> P (f o)) ->
  wp (State.ensure_cached a req f) (fun u s' => P u /\ inv_step n s s' /\ unseen False s s')
    (fun _ s' => inv_step n s s' /\ unseen False s s') s.
Proof using HUok HLok.
  intros [Hs Hst] HP. apply wp_inv; [by apply wp_state_read| |by intros; apply unseen_keeps..].
  eapply pwp_conseq; [by apply (pwp_ensure_cached False)|by intros ? ? []|]. by intros e s' ->.
Qed.

Lemma inv_read {U} n a req (f : option (Account.t L) -> U) (P : U -> Prop) s :
  inv n s -> (forall o, account_opt_ok n o -> P (f o)) ->
  wp (State.ensure_cached a req f) (fun u s' => P u /\ inv_step n s s') (fun _ s' => inv_step n s s') s.
Proof using HUok HLok.
  intros Hs HP. eapply wp_conseq; [by apply (inv_read_unseen n a req f P)|by intros ? ? (? & ? & ?)|by intros ? ? []].
Qed.

Lemma inv_storage_at n a k s : inv n s ->
  wp (State.storage_at a k) (fun v s' => fits 256 v /\ inv_step n s s') (fun _ s' => inv_step n s s') s.
Proof using HUok HLok.
  intros [Hs Hst]. eapply wp_conseq; [apply (wp_inv n _ (fits 256) (fun _ s' => unseen False s s') (fun _ s' => unseen False s s'))|..].
  - by apply wp_storage_at.
  - eapply pwp_conseq; [by apply (pwp_storage_at False)|by intros ? ? []|done].
  - by intros; apply unseen_keeps.
  - by intros; apply unseen_keeps.
  - intros v s' (? & ? & ?). done.
  - intros e s' [? ?]. done.
Qed.

Lemma inv_inc_nonce n a s : 0 <= n -> inv (n + 1) s ->
  wp (State.inc_nonce a)
    (fun _ s' => inv_step n s s' /\
       updated False a (es_inc_nonce (default (es_fresh (State.account_start_nonce s)) (current s a))) s s')
    (fun _ s' => inv_step n s s' /\ unseen False s s') s.
Proof using HUok HLok.
  intros Hn [Hs Hst]. apply wp_inv_unit; [by apply wp_inc_nonce|by apply pwp_inc_nonce|].
  intros s'. apply updated_keeps.
Qed.

Lemma inv_set_storage n a k v s : 0 <= n -> inv n s -> fits 256 v ->
  wp (State.set_storage a k v) (fun _ s' => inv_step n s s') (fun _ s' => inv_step n s s') s.
Proof using HUok HLok.
  intros Hn [Hs Hst] Hv. eapply wp_conseq; [eapply wp_inv_unit; [by apply wp_set_storage|..]|..].
  - eapply pwp_conseq; [by apply (pwp_set_storage False)| |done]. intros u s' H. exact H.
  - intros s' (w & _ & H). destruct (w =? v); [by apply unseen_keeps|by eapply updated_keeps].
  - by intros ? ? [].
  - by intros ? ? [].
Qed.

Lemma inv_init_code n a c s : 0 <= n -> inv n s -> vec_ok c ->
  wp (State.init_code a c) (fun _ s' => inv_step n s s') (fun _ s' => inv_step n s s') s.
Proof using HUok HLok.
  intros Hn [Hs Hst] Hc. eapply wp_conseq; [eapply wp_inv_unit; [by apply wp_init_code|by apply pwp_init_code|]|..].
  - intros s'. apply updated_keeps.
  - by intros ? ? [].
  - by intros ? ? [].
Qed.

Lemma inv_new_contract n a s : 0 <= n -> inv n s ->
  wp (State.new_contract a 0) (fun _ s' => inv_step n s s') (fun _ s' => inv_step n s s') s.
Proof using HUok HLok.
  intros Hn [Hs Hst]. eapply wp_conseq; [eapply wp_inv_unit; [by apply wp_new_contract|
    eapply pwp_conseq; [by apply pwp_new_contract|intros u s' H; exact H|done]|]|..].
  - intros s'. apply updated_keeps.
  - by intros ? ? [].
  - by intros ? ? [].
Qed.

Lemma inv_code_and_hash_unseen n a s : inv n s ->
  wp (c <~ State.code a ;; h <~ State.code_hash a ;; sret (c, h))
    (fun r s' => match r.1 with Some c => vec_ok c /\ r.2 = crypt_hash c | None => True end /\
       inv_step n s s' /\ unseen False s s')
    (fun _ s' => inv_step n s s' /\ unseen False s s') s.
Proof using HUok HLok.
  intros [Hs Hst]. apply wp_inv; [by apply wp_code_and_hash| |by intros; apply unseen_keeps..].
  apply pwp_bind. eapply pwp_conseq; [by apply (pwp_ensure_cached False)| |by intros e s' ->].
  intros c s1 [Hs1 _]. apply pwp_bind.
  eapply pwp_conseq; [apply (pwp_ensure_cached False), Hs1| |by intros e s' ->].
  intros h s2 [Hs2 _]. cbn. by eapply unseen_trans.
Qed.

Lemma inv_code_and_hash n a s : inv n s ->
  wp (c <~ State.code a ;; h <~ State.code_hash a ;; sret (c, h))
    (fun r s' => match r.1 with Some c => vec_ok c /\ r.2 = crypt_hash c | None => True end /\ inv_step n s s')
    (fun _ s' => inv_step n s s') s.
Proof using HUok HLok.
  intros Hs. eapply wp_conseq; [by apply inv_code_and_hash_unseen|by intros ? ? (? & ? & ?)|by intros ? ? []].
Qed.

(** ** Checkpoints *)
Lemma inv_checkpoint n s : inv n s -> inv n (State.checkpoint s).
Proof using.
  intros [Hs Hst]. split; [by apply checkpoint_ok|]. by apply checkpoint_levels.
Qed.

Lemma frame_discard (s s' : St) :
  frame (State.checkpoint s) s' -> frame s (State.discard_checkpoint s') /\ State.checkpoints s' <> [].
Proof using.
  intros (Hlen & ? & ? & ? & ? & ?). rw /State.discard_checkpoint. cbn in *.
  destruct (State.checkpoints s') as [|cp [|cp' cps]]; cbn in *; [lia|..];
    (split; [split_and!; try done; cbn; lia|done]).
Qed.

Lemma frame_revert (s s' : St) :
  frame (State.checkpoint s) s' -> frame s (State.revert_to_checkpoint s').
Proof using.
  intros (Hlen & ? & ? & ? & ? & ?). rw /State.revert_to_checkpoint. cbn in *.
  destruct (State.checkpoints s') as [|cp cps]; cbn in *; [lia|]; split_and!; try done; cbn; lia.
Qed.

Lemma inv_discard n s s' : inv n s' -> moved (State.checkpoint s) s' -> inv_step n s (State.discard_checkpoint s').
Proof using HUok HLok.
  intros [Hs Hst] [Hf Hk]. destruct (frame_discard s s' Hf) as [Hf' Hne].
  destruct (discard_after False s s' Hst Hk Hne) as [Hst' Hl].
  split; [split; [by apply discard_checkpoint_ok|done]|]. split; [done|]. intros a. by rw Hl.
Qed.

Lemma inv_revert n s s' : inv n s' -> moved (State.checkpoint s) s' ->
  inv_step n s (State.revert_to_checkpoint s') /\ restored s (State.revert_to_checkpoint s').
Proof using HUok HLok.
  intros [Hs Hst] [Hf Hk]. destruct (frame_discard s s' Hf) as [_ Hne].
  destruct (revert_after False s s' Hst Hk Hne) as [Hst' Hl]. split; [|done].
  split; [split; [by apply revert_to_checkpoint_ok|done]|].
  split; [by apply frame_revert|]. intros a. by rw Hl.
Qed.

Lemma inv_kill_account n a s : inv n s -> State.checkpoints s = [] ->
  inv_step n s (State.kill_account s a) /\ State.checkpoints (State.kill_account s a) = [].
Proof using.
  intros [Hs Hst] Hcp. destruct (kill_account_stacked False a s Hst Hcp) as (Hst' & Hcp' & Ha & Hb).
  split; [|done]. apply step_inv; [by apply kill_account_ok|done|]. intros b.
  destruct (decide (b = a)) as [->|Hne]; [|by rw Hb]. rw Ha.
  pose proof (levels_length s a) as Hlen. rw Hcp in Hlen. by destruct (levels s a) as [|? [|? ?]].
Qed.
End inv.
