(* ===== verification/StorageSpec.v ===== *)
(** * Storage slots

    The value of a storage slot as the accounts and the database define it,
    and what reading and writing a slot does. *)

From S2P Require Import Prelude Lru Evm Account State StateSpec CheckpointSpec.
From stdpp Require Import base gmap list strings.
Local Open Scope Z_scope.
Local Open Scope cita_scope.

Section storage_spec.
  Context {HU : Util} {HUok : UtilOk}.
  Context {L : Type} {HL : LruCache Z L} {HLok : LruCacheOk Z L} {D : Type} {HD : Backend D}.
Abbreviation St := (State.t D L).

(** What an operation that only reads leaves: the same accounts. *)
Definition same_accounts (s s' : St) : Prop := forall a, levels s' a = levels s a.

Lemma updated_current st a x (s s' : St) : updated st a x s s' ->
  current s' a = Some x /\ forall b, b <> a -> levels s' b = levels s b /\ current s' b = current s b.
Proof using.
  intros (_ & _ & Ha & Hb). split.
  - destruct (levels_cons s' a) as [l Hl]. rw Hl in Ha. by injection Ha.
  - intros b Hne. specialize (Hb b Hne). split; [done|]. destruct (levels_cons s b) as [l Hl].
    destruct (levels_cons s' b) as [l' Hl']. rw Hl Hl' in Hb. by injection Hb.
Qed.

Lemma unseen_current st a (s s' : St) : unseen st s s' -> current s' a = current s a.
Proof using.
  intros (_ & _ & Hl). specialize (Hl a). destruct (levels_cons s a) as [l Hc].
  destruct (levels_cons s' a) as [l' Hc']. rw Hc Hc' in Hl. by injection Hl.
Qed.

(** The value of a storage slot, as the accounts and the database define it. *)
Definition slot (s : St) (a : Address) (k : H256) : outcome TrieError H256 :=
  shown_storage (State.db s) a (current s a) k.

(** An account database of which the empty trie can be read. *)
Definition empty_trie_ok (d : D) : Prop :=
  forall ah, trie_open d (Some ah) HASH_NULL_RLP = inr tt /\
    forall k, trie_get d (Some ah) HASH_NULL_RLP k = inr None.

Lemma fresh_slot (d : D) a n k : empty_trie_ok d -> es_storage d a (es_fresh n) k = Ok 0.
Proof using.
  intros He. destruct (He (hash_of a)) as [Ho Hg]. rw /es_storage /es_fresh /storage_value. cbn [es_changes es_root].
  rw lookup_empty Ho. cbn [of_sum obind]. by rw Hg.
Qed.

(** A read brings the account into the cache; it fails only if the state trie
    or the storage trie does. *)
Lemma storage_at_reads strict a k (s : St) : stacked strict s ->
  pwp (State.storage_at a k) (fun _ s' => is_Some (State.cache s' !! a))
    (fun e _ => strict -> slot s a k = Err e \/ State.load_account s a = Err e) s.
Proof using HLok.
  intros Hs. rw /State.storage_at /slot. apply pwp_bind. cbn. destruct (State.cache s !! a) as [e|] eqn:Ha.
  - rw (current_cached s a e Ha) /State.storage_at_cached.
    destruct (AccountEntry.account e) as [acc|] eqn:Hacc; [|by exists e]. apply pwp_bind. cbn.
    destruct (cached_storage_coherent strict _ a acc k (cached_coherent strict s a e acc Hs Ha Hacc)) as (Hc1 & He1 & _).
    destruct (Account.cached_storage_at acc k) as [[v|] acc1]; cbn [fst snd] in *.
    { cbn. by rw lookup_insert_eq. }
    destruct (address_hash_coherent strict _ a acc1 Hc1) as (Hh & Hc2 & He2).
    destruct (Account.address_hash acc1 a) as [ah acc2]; cbn [fst snd] in *. subst ah.
    destruct (storage_at_coherent strict _ a acc2 k Hc2) as (Hv3 & _ & _).
    destruct (Account.storage_at (State.db s) (hash_of a) acc2 k) as [r acc3]; cbn [fst snd] in *.
    apply pwp_bind. cbn. rw He2 He1 in Hv3. destruct r; cbn; [by rw lookup_insert_eq| |done].
    intros Hst. left. by rw -Hv3.
  - rw (current_uncached s a Ha). apply pwp_bind, pwp_lift; [intros [] _|intros e He; by case_match].
    apply pwp_bind, pwp_lift; [intros o [Ho Hco]%(load_account_essence strict)|by right]. rw -Ho.
    destruct o as [acc|]; [|by cbn; rw lookup_insert_eq].
    destruct (address_hash_coherent strict _ a acc (Hco acc eq_refl)) as (Hh & Hc2 & He2).
    destruct (Account.address_hash acc a) as [ah acc2]; cbn [fst snd] in *. subst ah.
    destruct (storage_at_coherent strict _ a acc2 k Hc2) as (Hv3 & _ & _).
    destruct (Account.storage_at (State.db s) (hash_of a) acc2 k) as [r acc3]; cbn [fst snd] in *.
    rw He2 in Hv3. apply pwp_bind. cbn. destruct r; cbn; [by rw lookup_insert_eq| |done].
    intros Hst. left. cbn. by rw -Hv3.
Qed.

(** The database has what the slots of an address need. *)
Definition state_answers (s : St) (a : Address) : Prop :=
  (exists o, trie_get (State.db s) None (State.root s) a = inr o) /\ forall k, exists v, slot s a k = Ok v.

Lemma load_answers s a e : state_answers s a -> State.load_account s a <> Err e.
Proof using.
  intros [[o Ho] _]. rw /State.load_account Ho /=. destruct o; [|done]. cbn.
  rw /Account.from_rlp. by destruct (decode_basic _).
Qed.

(** A state trie that cannot be read. *)
Definition trie_fails (s : St) (a : Address) (e : TrieError) : Prop :=
  trie_open (State.db s) None (State.root s) = inl e \/ State.load_account s a = Err e.

Lemma trie_fails_answers n s a e : state_ok n s -> trie_fails s a e -> ~ state_answers s a.
Proof using.
  intros Hs [H|H] Ha; [|by eapply load_answers]. rw (db_root _ _ _ (st_db _ _ Hs)) in H. done.
Qed.

Lemma of_sum_err {E A} (r : E + A) e : of_sum r = Err e -> r = inl e.
Proof using. destruct r; [|done]. by intros [= ->]. Qed.

(** Reads and updates of an account fail only if the state trie does. *)
Lemma ensure_fails {U} a req (f : option (Account.t L) -> U) (s : St) :
  pwp (State.ensure_cached a req f) (fun _ _ => True) (fun e _ => trie_fails s a e) s.
Proof using.
  rw /State.ensure_cached. apply pwp_bind. cbn. destruct (State.cache s !! a) as [e|].
  - destruct (AccountEntry.account e) as [acc|]; [|done]. by destruct (Account.address_hash acc a).
  - apply pwp_bind, pwp_lift; [intros [] _|intros e He%of_sum_err; by left].
    apply pwp_bind, pwp_lift; [|by right]. intros o _. done.
Qed.

Lemma require_fails a req dflt upd (s : St) : (forall acc e, upd acc <> Err e) ->
  pwp (State.require_or_from a req dflt (fun x => x) upd) (fun _ _ => True) (fun e _ => trie_fails s a e) s.
Proof using.
  intros Hupd. rw /State.require_or_from. apply pwp_bind. cbn. apply pwp_bind.
  assert (Hrest : forall s' : St, pwp (_ <~ smodify (fun s => State.note_cache s a) ;; s <~ sget ;;
      entry <~ slift (expect (State.cache s !! a)) ;;
      account <~ slift (upd
        (let account := match AccountEntry.account entry with Some acc => acc | None => dflt end in
         if req then let '(ah, account) := Account.address_hash account a in
           State.update_account_cache RequireCode (State.db s) ah account else account)) ;;
      smodify (fun s => State.with_cache s (<[a := AccountEntry.mk (Some account) AccountState.Dirty]> (State.cache s))))
      (fun _ _ => True) (fun e _ => trie_fails s a e) s').
  { intros s'. apply pwp_bind. cbn. apply pwp_bind. cbn. apply pwp_bind, pwp_lift;
      [|intros e; by destruct (State.cache _ !! a)].
    intros entry _. apply pwp_bind, pwp_lift; [done|]. intros e He. by apply Hupd in He. }
  case_bool_decide; [by apply Hrest|].
  apply pwp_bind, pwp_lift; [intros [] _|intros e He%of_sum_err; by left].
  apply pwp_bind, pwp_lift; [|by right]. intros o _. apply Hrest.
Qed.

(** A read of an account gives what its essence determines. *)
Lemma read_exact {U} strict n a req (f : option (Account.t L) -> U) (g : option essence -> U) (s : St) :
  state_ok n s -> stacked strict s ->
  (forall o, acc_essence <$> o = current s a -> (forall acc, o = Some acc -> exists acc0,
     coherent strict (State.db s) a acc0 /\ acc_essence acc0 = acc_essence acc /\
     acc = State.update_account_cache req (State.db s) (hash_of a) acc0) -> f o = g (current s a)) ->
  wp (State.ensure_cached a req f)
    (fun u s' => u = g (current s a) /\ unseen strict s s' /\ state_ok n s')
    (fun _ s' => ~ state_answers s a /\ unseen strict s s' /\ state_ok n s') s.
Proof using HUok HLok.
  intros Hst Hsk Hfg. eapply wp_conseq; [apply wp_and_pwp; [apply wp_and_pwp;
    [by apply (wp_state_read n a req f (fun _ => True))|by apply (pwp_ensure_cached strict)]|apply ensure_fails]|..].
  - intros u s' (((_ & ? & _) & Hu & o & -> & Ho & Hc) & _). split; [by apply Hfg|done].
  - intros e s' (((? & _) & ->) & Hf). split; [by eapply trie_fails_answers|]. split; [by apply unseen_refl|done].
Qed.

Lemma nonce_exact strict n a (s : St) : state_ok n s -> stacked strict s ->
  wp (State.nonce a)
    (fun v s' => v = from_option es_nonce (State.account_start_nonce s) (current s a) /\
       unseen strict s s' /\ state_ok n s')
    (fun _ s' => ~ state_answers s a /\ unseen strict s s' /\ state_ok n s') s.
Proof using HUok HLok.
  intros Hst Hsk. rw /State.nonce. apply wp_bind, wp_get.
  apply (read_exact strict n a _ _ (from_option es_nonce _)); [done..|]. by intros [acc|] <- _.
Qed.

Lemma exists_exact strict n a (s : St) : state_ok n s -> stacked strict s ->
  wp (State.exists_ a)
    (fun b s' => b = bool_decide (is_Some (current s a)) /\ unseen strict s s' /\ state_ok n s')
    (fun _ s' => ~ state_answers s a /\ unseen strict s s' /\ state_ok n s') s.
Proof using HUok HLok.
  intros Hst Hsk. pose (g := fun x : option essence => bool_decide (is_Some x)).
  apply (read_exact strict n a _ _ g s); [done..|].
  by intros [acc|] <- _.
Qed.

Lemma code_hash_exact strict n a (s : St) : state_ok n s -> stacked strict s ->
  wp (State.code_hash a)
    (fun h s' => h = from_option es_code_hash HASH_EMPTY (current s a) /\ unseen strict s s' /\ state_ok n s')
    (fun _ s' => ~ state_answers s a /\ unseen strict s s' /\ state_ok n s') s.
Proof using HUok HLok.
  intros Hst Hsk. apply (read_exact strict n a _ _ (from_option es_code_hash HASH_EMPTY)); [done..|].
  by intros [acc|] <- _.
Qed.

Lemma code_exact strict n a (s : St) : state_ok n s -> stacked strict s ->
  wp (State.code a)
    (fun c s' => c = (current s a ≫= code_value (State.db s) a) /\ unseen strict s s' /\ state_ok n s')
    (fun _ s' => ~ state_answers s a /\ unseen strict s s' /\ state_ok n s') s.
Proof using HUok HLok.
  intros Hst Hsk. apply (read_exact strict n a _ _ (fun x => x ≫= code_value (State.db s) a)); [done..|].
  intros [acc|] <- Hc; [|done]. destruct (Hc acc eq_refl) as (acc0 & Hcoh & He & ->). cbn. rw -He.
  by eapply code_coherent.
Qed.

(** An account in the cache is updated without reading. *)
Lemma require_cached a f (s : St) : is_Some (State.cache s !! a) ->
  pwp (State.require a false (fun acc => Ok (f acc))) (fun _ _ => True) (fun _ _ => False) s.
Proof using.
  intros Ha. rw /State.require /State.require_or_from. apply pwp_bind. cbn. apply pwp_bind. cbn. apply pwp_bind.
  rw bool_decide_eq_true_2; [done|]. cbn. apply pwp_bind. cbn. apply pwp_bind. cbn. apply pwp_bind, pwp_lift.
  - done.
  - intros e He. rw /expect in He. by case_match.
Qed.

Lemma slot_unseen strict s s' : unseen strict s s' -> forall a k, slot s' a k = slot s a k.
Proof using.
  intros Hu a k. rw /slot (unseen_current _ a _ _ Hu). by destruct Hu as (_ & (_ & -> & _) & _).
Qed.

(** A read gives the value of the slot. *)
Lemma slot_read n a k (s : St) : state_ok n s -> stacked True s ->
  wp (State.storage_at a k)
    (fun v s' => slot s a k = Ok v /\ unseen True s s' /\ state_ok n s')
    (fun _ s' => ~ state_answers s a /\ unseen True s s' /\ state_ok n s') s.
Proof using HUok HLok.
  intros Hst Hsk. eapply wp_conseq; [apply wp_and_pwp; [apply wp_and_pwp;
    [by apply (wp_storage_at n)|by apply (pwp_storage_at True)]|by apply (storage_at_reads True)]|..].
  - intros v s' (((_ & ? & _) & ? & Hv) & _). split; [by apply Hv|done].
  - intros e s' (((? & _) & ?) & He). split; [|done]. intros Ha. destruct (He I) as [Hf|Hf]; [|by eapply load_answers].
    destruct Ha as [_ Ha]. destruct (Ha k) as [v Hv]. congruence.
Qed.

Lemma set_storage_fails a k v (s : St) : stacked True s ->
  pwp (State.set_storage a k v) (fun _ _ => True) (fun _ _ => ~ state_answers s a) s.
Proof using HLok.
  intros Hsk. apply pwp_bind. eapply pwp_conseq; [by apply (storage_at_reads True)|..].
  - intros w s1 Hc. destruct (negb _); [|done]. eapply pwp_conseq; [by apply require_cached|done|done].
  - intros e s1 Hr [Ha Ha']. destruct (Hr I) as [Hf|Hf]; [|by eapply load_answers].
    destruct (Ha' k) as [w Hw]. congruence.
Qed.

(** A write sets the slot and no other. *)
Lemma slot_write n a k v (s : St) :
  0 <= n -> state_ok n s -> stacked True s -> fits 256 v -> empty_trie_ok (State.db s) ->
  wp (State.set_storage a k v)
    (fun _ s' => slot s' a k = Ok v /\ stacked True s' /\ state_ok n s' /\ frame s s' /\
       (forall b j, (b, j) <> (a, k) -> slot s' b j = slot s b j) /\
       (forall b, b <> a -> levels s' b = levels s b))
    (fun _ s' => ~ state_answers s a /\ unseen True s s' /\ state_ok n s') s.
Proof using HUok HLok.
  intros Hn Hst Hsk Hv He. eapply wp_conseq; [apply wp_and_pwp; [apply wp_and_pwp;
    [by apply (wp_set_storage n)|by apply (pwp_set_storage True a k v s)]|by apply (set_storage_fails a k v s)]|..].
  - intros u s' (((Hst' & Hfr) & w & Hw & H) & _). specialize (Hw I). pose proof Hfr as (_ & Hdb & _). rw /slot Hdb.
    destruct (Z.eqb_spec w v) as [->|Hne].
    + pose proof H as (Hsk' & _ & Hl).
      split; [by rw (unseen_current _ a _ _ H)|]. split; [done|]. split; [done|]. split; [done|].
      split; [|by intros b _; apply Hl]. intros b j _. by rw (unseen_current _ b _ _ H).
    + pose proof H as (Hsk' & _). destruct (updated_current _ _ _ _ _ H) as [Ha Hb].
      split; [by rw Ha /= /es_storage /= lookup_insert_eq|]. split; [done|]. split; [done|]. split; [done|].
      split; [|by intros b Hba; apply Hb]. intros b j Hbj.
      destruct (decide (b = a)) as [->|Hba]; [|by destruct (Hb b Hba) as [_ ->]].
      assert (Hj : j <> k) by congruence. rw Ha /=.
      rw /es_storage /es_set_storage. cbn [es_changes es_root]. rw lookup_insert_ne; [done|].
      fold (es_storage (State.db s) a (default (es_fresh (State.account_start_nonce s)) (current s a)) j).
      destruct (current s a); [done|]. by apply fresh_slot.
  - intros e s' (((? & _) & ?) & ?). done.
Qed.
End storage_spec.
