(* ===== verification/StateMachine.v ===== *)
(** * The state as an abstract machine

    An abstract machine whose state is, for every address, the stack of
    essences that checkpoints would restore, and the proof that the world
    state implements it, answers included.  On the abstract machine,
    checkpoints nest: whatever is done between a checkpoint and the matching
    revert is undone.

    Two uses are left out, since the state does not undo them: a kill under an
    open checkpoint ([State.revert_to_checkpoint] keeps the account killed) and
    a contract made in the place of an account, whose storage cache a revert
    merges into the cache of the account that comes back
    ([Account.overwrite_with]). *)

From S2P Require Import Prelude Lru Evm Account State StateSpec CheckpointSpec StateInv StorageSpec.
From stdpp Require Import base gmap list strings.
Local Open Scope Z_scope.
Local Open Scope cita_scope.

(** ** Operations *)
Inductive op : Set :=
| Checkpoint
| Discard
| Revert
| Exists (a : Address)
| Nonce (a : Address)
| CodeHash (a : Address)
| Code (a : Address)
| StorageAt (a : Address) (k : H256)
| IncNonce (a : Address)
| SetStorage (a : Address) (k v : H256)
| InitCode (a : Address) (c : bytes)
| NewContract (a : Address)
| Kill (a : Address).

(** What an operation answers. *)
Inductive answer : Set :=
| Done
| Failed
| Flag (b : bool)
| Word (v : Z)
| Bytes (c : option bytes).

(** ** The abstract machine *)
Definition stack : Type := Address -> list (option essence).

Section machine.
  Context {HU : Util} {D : Type} {HD : Backend D}.
  Context (d : D) (root : H256) (start_nonce : U256).

(** The account at the top. *)
Definition topmost (σ : stack) (a : Address) : option essence := default None (hd_error (σ a)).

(** The account at the top, or the one that is created in its place. *)
Definition made (σ : stack) (a : Address) : essence := default (es_fresh start_nonce) (topmost σ a).

Definition unchanged (σ σ' : stack) : Prop := forall a, σ' a = σ a.

Definition replaced (a : Address) (x : option essence) (σ σ' : stack) : Prop :=
  forall b, σ' b = if b =? a then x :: tl (σ b) else σ b.

(** The address an operation looks up in the database. *)
Definition looks_up (o : op) : option Address :=
  match o with
  | Exists a | Nonce a | CodeHash a | Code a | StorageAt a _ | IncNonce a | SetStorage a _ _ | InitCode a _ => Some a
  | Checkpoint | Discard | Revert | NewContract _ | Kill _ => None
  end.

(** The database has the account of the address and its storage. *)
Definition answers (σ : stack) (a : Address) : Prop :=
  (exists o, trie_get d None root a = inr o) /\ forall k, exists v, shown_storage d a (topmost σ a) k = Ok v.

(** An operation that does its work. *)
Definition spec_done (o : op) (σ : stack) (r : answer) (σ' : stack) : Prop :=
  match o with
  | Checkpoint => r = Done /\ forall a, σ' a = match σ a with x :: l => x :: x :: l | [] => [] end
  | Discard => r = Done /\ forall a, σ' a = match σ a with x :: _ :: l => x :: l | l => l end
  | Revert => r = Done /\ forall a, σ' a = match σ a with _ :: y :: l => y :: l | l => l end
  | Exists a => r = Flag (bool_decide (is_Some (topmost σ a))) /\ unchanged σ σ'
  | Nonce a => r = Word (from_option es_nonce start_nonce (topmost σ a)) /\ unchanged σ σ'
  | CodeHash a => r = Word (from_option es_code_hash HASH_EMPTY (topmost σ a)) /\ unchanged σ σ'
  | Code a => r = Bytes (topmost σ a ≫= code_value d a) /\ unchanged σ σ'
  | StorageAt a k => (exists v, shown_storage d a (topmost σ a) k = Ok v /\ r = Word v) /\ unchanged σ σ'
  | IncNonce a => r = Done /\ replaced a (Some (es_inc_nonce (made σ a))) σ σ'
  | SetStorage a k v => r = Done /\ exists w, shown_storage d a (topmost σ a) k = Ok w /\
      if w =? v then unchanged σ σ' else replaced a (Some (es_set_storage k v (made σ a))) σ σ'
  | InitCode a c => r = Done /\ replaced a (Some (es_init_code c (made σ a))) σ σ'
  | NewContract a => r = Done /\ replaced a (Some (es_fresh start_nonce)) σ σ'
  | Kill a => r = Done /\ replaced a None σ σ'
  end.

(** An operation fails only where the database does not answer, and then it
    changes nothing. *)
Definition spec_op (o : op) (σ : stack) (r : answer) (σ' : stack) : Prop :=
  spec_done o σ r σ' \/
  (exists a, looks_up o = Some a /\ ~ answers σ a) /\ r = Failed /\ unchanged σ σ'.

Inductive spec_run : list op -> stack -> list answer -> stack -> Prop :=
| spec_nil σ : spec_run [] σ [] σ
| spec_cons o ops σ r σ' rs σ'' :
    spec_op o σ r σ' -> spec_run ops σ' rs σ'' -> spec_run (o :: ops) σ (r :: rs) σ''.

(** Every checkpoint is matched, [depth] of them from before. *)
Fixpoint balanced (depth : nat) (ops : list op) : bool :=
  match ops, depth with
  | [], O => true
  | [], _ => false
  | Checkpoint :: ops, d => balanced (S d) ops
  | Discard :: ops, S d | Revert :: ops, S d => balanced d ops
  | Discard :: _, O | Revert :: _, O => false
  | _ :: ops, d => balanced d ops
  end.

(** [depth] levels and the top stand on [base]. *)
Definition above (depth : nat) (base : stack) (σ : stack) : Prop :=
  forall a, exists x pre, σ a = x :: pre ++ base a /\ length pre = depth.

Lemma unchanged_above d' base σ σ' : unchanged σ σ' -> above d' base σ -> above d' base σ'.
Proof using. intros H Ha a. rw H. apply Ha. Qed.

Lemma replaced_above d' base a x σ σ' : replaced a x σ σ' -> above d' base σ -> above d' base σ'.
Proof using.
  intros H Ha b. destruct (Ha b) as (y & pre & Hy & Hl). rw H Hy.
  destruct (b =? a); cbn [tl]; by eexists _, pre.
Qed.

(** A step neither shortens the stack below nor reaches into it. *)
Lemma spec_level o d' base σ r σ' : spec_op o σ r σ' -> above d' base σ ->
  match o with
  | Checkpoint => above (S d') base σ'
  | Discard | Revert => forall d0, d' = S d0 -> above d0 base σ'
  | _ => above d' base σ'
  end.
Proof using.
  intros [Ho|((a & Ha & _) & _ & Hu)] Hab; [|destruct o; try done; by eapply unchanged_above].
  destruct o; cbn in Ho; try (destruct Ho as [_ Ho]; first [by eapply unchanged_above|by eapply replaced_above]);
    destruct Ho as [_ Ho].
  - intros a. destruct (Hab a) as (x & pre & Hx & Hl). rw Ho Hx. exists x, (x :: pre). split; [done|]. cbn. by rw Hl.
  - intros d0 ->. intros a. destruct (Hab a) as (x & [|y pre] & Hx & Hl); [done|]. rw Ho Hx.
    exists x, pre. cbn in Hl. by split; [|lia].
  - intros d0 ->. intros a. destruct (Hab a) as (x & [|y pre] & Hx & Hl); [done|]. rw Ho Hx.
    exists y, pre. cbn in Hl. by split; [|lia].
  - destruct Ho as (w & _ & Ho). destruct (w =? v); [by eapply unchanged_above|by eapply replaced_above].
Qed.

Lemma spec_above ops d' base σ rs σ' :
  spec_run ops σ rs σ' -> balanced d' ops = true -> above d' base σ -> above 0 base σ'.
Proof using.
  intros Hrun. revert d'. induction Hrun as [σ|o ops σ r σ1 rs σ2 Ho _ IH]; intros d' Hb Ha.
  { by destruct d'. }
  pose proof (spec_level _ _ _ _ _ _ Ho Ha) as H1.
  destruct o; cbn in Hb; try (by eapply IH); destruct d' as [|d']; try done; eapply IH; [exact Hb|by apply H1|
    exact Hb|by apply H1].
Qed.
End machine.

(** ** The implementation *)
Section implementation.
  Context {HU : Util} {HUok : UtilOk}.
  Context {L : Type} {HL : LruCache Z L} {HLok : LruCacheOk Z L} {D : Type} {HD : Backend D}.
Abbreviation St := (State.t D L).

(** What an operation answers and leaves; [None] when it panics. *)
Definition answered {E A} (f : A -> answer) (c : M E St A) (s : St) : option (answer * St) :=
  match c s with (Ok x, s') => Some (f x, s') | (Err _, s') => Some (Failed, s') | (Panic, _) => None end.

Definition run_op (o : op) (s : St) : option (answer * St) :=
  match o with
  | Checkpoint => Some (Done, State.checkpoint s)
  | Discard => Some (Done, State.discard_checkpoint s)
  | Revert => Some (Done, State.revert_to_checkpoint s)
  | Exists a => answered Flag (State.exists_ a) s
  | Nonce a => answered Word (State.nonce a) s
  | CodeHash a => answered Word (State.code_hash a) s
  | Code a => answered Bytes (State.code a) s
  | StorageAt a k => answered Word (State.storage_at a k) s
  | IncNonce a => answered (fun _ => Done) (State.inc_nonce a) s
  | SetStorage a k v => answered (fun _ => Done) (State.set_storage a k v) s
  | InitCode a c => answered (fun _ => Done) (State.init_code a c) s
  | NewContract a => answered (fun _ => Done) (State.new_contract a 0) s
  | Kill a => Some (Done, State.kill_account s a)
  end.

Fixpoint run_ops (ops : list op) (s : St) : option (list answer * St) :=
  match ops with
  | [] => Some ([], s)
  | o :: ops =>
      match run_op o s with
      | Some (r, s') => prod_map (cons r) id <$> run_ops ops s'
      | None => None
      end
  end.

(** Kills wait until no checkpoint is open, contracts are made where there is
    no account. *)
Definition permits (s : St) (o : op) : bool :=
  match o with
  | Kill _ => bool_decide (State.checkpoints s = [])
  | NewContract a => bool_decide (current s a = None)
  | _ => true
  end.

Fixpoint permitted (ops : list op) (s : St) : bool :=
  match ops with
  | [] => true
  | o :: ops => permits s o && match run_op o s with Some (_, s') => permitted ops s' | None => true end
  end.

(** The operations that only read. *)
Definition is_read (o : op) : bool :=
  match o with Exists _ | Nonce _ | CodeHash _ | Code _ | StorageAt _ _ => true | _ => false end.

(** The operands have their width. *)
Definition op_ok (o : op) : Prop :=
  match o with
  | SetStorage _ _ v => fits 256 v
  | InitCode _ c => vec_ok c
  | _ => True
  end.

(** A well-formed state, the storage caches of which agree with the tries. *)
Definition tight (n : Z) (s : St) : Prop := state_ok n s /\ stacked True s.

(** What the abstract machine takes from the state. *)
Definition same_base (s s' : St) : Prop :=
  State.db s' = State.db s /\ State.root s' = State.root s /\
  State.account_start_nonce s' = State.account_start_nonce s.

Definition spec_step (o : op) (s : St) (r : answer) (s' : St) : Prop :=
  spec_op (State.db s) (State.root s) (State.account_start_nonce s) o (levels s) r (levels s').

Lemma topmost_current (s : St) a : topmost (levels s) a = current s a.
Proof using. rw /topmost. by destruct (levels_cons s a) as [l ->]. Qed.

Lemma answers_current (s : St) a : answers (State.db s) (State.root s) (levels s) a <-> state_answers s a.
Proof using. by rw /answers /state_answers /slot topmost_current. Qed.

Lemma frame_base (s s' : St) : frame s s' -> same_base s s'.
Proof using. by intros (_ & ? & ? & ? & _). Qed.

Lemma answered_wp {E A} (f : A -> answer) (c : M E St A) (P : answer -> St -> Prop) s :
  wp c (fun x => P (f x)) (fun _ => P Failed) s -> exists r s', answered f c s = Some (r, s') /\ P r s'.
Proof using. rw /wp /answered. destruct (c s) as [[a|e|] s']; [|..|done]; intros; by eexists _, _. Qed.

(** What every step of the simulation comes to. *)
Definition stepped (n : Z) (o : op) (s : St) (r : answer) (s' : St) : Prop :=
  tight n s' /\ same_base s s' /\ spec_step o s r s'.

(** A failed step. *)
Lemma failed_step n o a (s s' : St) : looks_up o = Some a -> ~ state_answers s a -> state_ok n s' ->
  unseen True s s' -> stepped n o s Failed s'.
Proof using.
  intros Ho Ha Hs (Hsk & Hf & Hl). split; [by split|]. split; [by apply frame_base|]. right.
  split; [|done]. exists a. split; [done|]. by rw answers_current.
Qed.

(** A step that leaves every account. *)
Lemma unseen_step n o r (s s' : St) : state_ok n s' -> unseen True s s' ->
  (unchanged (levels s) (levels s') ->
   spec_done (State.db s) (State.account_start_nonce s) o (levels s) r (levels s')) -> stepped n o s r s'.
Proof using. intros Hs (Hsk & Hf & Hl) H. split; [done|]. split; [by apply frame_base|]. left. by apply H. Qed.

(** A step that changes one account. *)
Lemma updated_step n o r a x (s s' : St) : state_ok n s' -> updated True a x s s' ->
  (replaced a (Some x) (levels s) (levels s') ->
   spec_done (State.db s) (State.account_start_nonce s) o (levels s) r (levels s')) -> stepped n o s r s'.
Proof using.
  intros Hs (Hsk & Hf & Ha & Hb) H. split; [done|]. split; [by apply frame_base|]. left. apply H. intros b.
  destruct (Z.eqb_spec b a) as [->|]; [done|by apply Hb].
Qed.

(** *** Checkpoints *)
Lemma no_levels (s : St) a : State.checkpoints s = [] -> levels s a = [current s a].
Proof using.
  intros Hcp. pose proof (levels_length s a) as Hl. destruct (levels_cons s a) as [l Hc].
  rw Hc Hcp in Hl. rw Hc. by destruct l.
Qed.

Lemma more_levels (s : St) a : State.checkpoints s <> [] -> exists y l, levels s a = current s a :: y :: l.
Proof using.
  intros Hcp. pose proof (levels_length s a) as Hl. destruct (levels_cons s a) as [l Hc].
  rw Hc in Hl. destruct l; [by destruct (State.checkpoints s)|]. by eexists _, _.
Qed.

Lemma checkpoint_step n s : tight n s -> stepped n Checkpoint s Done (State.checkpoint s).
Proof using.
  intros [Hs Hsk]. destruct (checkpoint_levels True s Hsk) as [Hsk' Hl].
  split; [by split; [apply checkpoint_ok|]|]. split; [done|]. left. split; [done|]. intros a. rw Hl.
  by destruct (levels_cons s a) as [l ->].
Qed.

Lemma discard_step n s : tight n s -> stepped n Discard s Done (State.discard_checkpoint s).
Proof using HLok HUok.
  intros [Hs Hsk]. pose proof (discard_checkpoint_ok n s Hs) as Hs'.
  destruct (decide (State.checkpoints s = [])) as [Hcp|Hne].
  - assert (Hd : State.discard_checkpoint s = s) by (by rw /State.discard_checkpoint Hcp).
    rw Hd in Hs' |- *. split; [done|]. split; [done|]. left. split; [done|]. intros a. by rw no_levels.
  - destruct (discard_levels True s Hsk Hne) as [Hsk' Hl]. split; [done|]. split.
    + rw /same_base /State.discard_checkpoint. by destruct (State.checkpoints s) as [|? [|? ?]].
    + left. split; [done|]. intros a. rw Hl. by destruct (more_levels s a Hne) as (y & l & ->).
Qed.

Lemma revert_step n s : tight n s -> stepped n Revert s Done (State.revert_to_checkpoint s).
Proof using HLok HUok.
  intros [Hs Hsk]. pose proof (revert_to_checkpoint_ok n s Hs) as Hs'.
  destruct (decide (State.checkpoints s = [])) as [Hcp|Hne].
  - assert (Hd : State.revert_to_checkpoint s = s) by (by rw /State.revert_to_checkpoint Hcp).
    rw Hd in Hs' |- *. split; [done|]. split; [done|]. left. split; [done|]. intros a. by rw no_levels.
  - destruct (revert_levels True s Hsk Hne) as [Hsk' Hl]. split; [done|]. split.
    + rw /same_base /State.revert_to_checkpoint. by destruct (State.checkpoints s).
    + left. split; [done|]. intros a. rw Hl. by destruct (more_levels s a Hne) as (y & l & ->).
Qed.

Lemma kill_step n a s : tight n s -> State.checkpoints s = [] -> stepped n (Kill a) s Done (State.kill_account s a).
Proof using.
  intros [Hs Hsk] Hcp. destruct (kill_account_stacked True a s Hsk Hcp) as (Hsk' & _ & Ha & Hb).
  destruct (kill_account_ok n a s Hs) as [Hs' Hf]. split; [done|]. split; [by apply frame_base|]. left.
  split; [done|]. intros b. destruct (Z.eqb_spec b a) as [->|]; [|by apply Hb]. by rw Ha no_levels.
Qed.

(** *** Reads *)
Lemma wp_read_step {E A} n o a (f : A -> answer) (c : M E St A) (Q : A -> Prop) s :
  looks_up o = Some a ->
  wp c (fun x s' => Q x /\ unseen True s s' /\ state_ok n s')
    (fun _ s' => ~ state_answers s a /\ unseen True s s' /\ state_ok n s') s ->
  (forall x (s' : St), Q x -> unchanged (levels s) (levels s') ->
     spec_done (State.db s) (State.account_start_nonce s) o (levels s) (f x) (levels s')) ->
  exists r s', answered f c s = Some (r, s') /\ stepped n o s r s'.
Proof using.
  intros Ho Hc HQ. apply answered_wp. eapply wp_conseq; [exact Hc|..].
  - intros x s' (Hx & Hu & Hs'). eapply unseen_step; [done..|]. by apply HQ.
  - intros e s' (Ha & Hu & Hs'). by eapply failed_step.
Qed.

(** *** Updates *)
Lemma wp_update_step {E} n o a x (c : M E St unit) s :
  looks_up o = Some a ->
  wp c (fun _ s' => state_step n s s') (fun _ s' => state_step n s s') s ->
  pwp c (fun _ s' => updated True a x s s') (fun _ s' => unseen True s s') s ->
  pwp c (fun _ _ => True) (fun _ _ => ~ state_answers s a) s ->
  (forall s' : St, replaced a (Some x) (levels s) (levels s') ->
     spec_done (State.db s) (State.account_start_nonce s) o (levels s) Done (levels s')) ->
  exists r s', answered (fun _ => Done) c s = Some (r, s') /\ stepped n o s r s'.
Proof using.
  intros Ho H1 H2 H3 HQ. apply answered_wp. eapply wp_conseq;
    [apply wp_and_pwp; [apply wp_and_pwp; [exact H1|exact H2]|exact H3]|..].
  - intros u s' (((Hs' & _) & Hu) & _). eapply updated_step; [done..|]. by apply HQ.
  - intros e s' (((Hs' & _) & Hu) & Ha). by eapply failed_step.
Qed.

Lemma require_unanswered n a req dflt upd (s : St) : state_ok n s -> (forall acc e, upd acc <> Err e) ->
  pwp (State.require_or_from a req dflt (fun x => x) upd) (fun _ _ => True) (fun _ _ => ~ state_answers s a) s.
Proof using.
  intros Hs Hupd. eapply pwp_conseq; [by apply require_fails|done|]. intros e s' Hf. exact (trie_fails_answers n s a e Hs Hf).
Qed.

Lemma set_storage_step n a k v (s : St) : 0 <= n -> tight n s -> fits 256 v ->
  exists r s', answered (fun _ => Done) (State.set_storage a k v) s = Some (r, s') /\
    stepped n (SetStorage a k v) s r s'.
Proof using HUok HLok.
  intros Hn [Hs Hsk] Hv. apply answered_wp. eapply wp_conseq; [apply wp_and_pwp; [apply wp_and_pwp;
    [by apply (wp_set_storage n)|by apply (pwp_set_storage True a k v s)]|by apply (set_storage_fails a k v s)]|..].
  - intros u s' (((Hs' & _) & w & Hw & H) & _). specialize (Hw I). destruct (w =? v) eqn:Ew.
    + eapply unseen_step; [done..|]. intros Hl. split; [done|]. exists w. by rw topmost_current Ew.
    + eapply updated_step; [done|exact H|]. intros Hl. split; [done|]. exists w. by rw /made topmost_current Ew.
  - intros e s' (((Hs' & _) & Hu) & Ha). by eapply failed_step.
Qed.

Lemma new_contract_step n a (s : St) : 0 <= n -> tight n s -> current s a = None ->
  exists r s', answered (fun _ => Done) (State.new_contract a 0) s = Some (r, s') /\
    stepped n (NewContract a) s r s'.
Proof using HUok HLok.
  intros Hn [Hs Hsk] Hc. apply answered_wp. eapply wp_conseq; [apply wp_and_pwp;
    [by apply (wp_new_contract n)|by apply (pwp_new_contract True a 0 s)]|..].
  - intros u s' ((Hs' & _) & Hu). rw Z.add_0_r in Hu. by eapply updated_step.
  - by intros e s' [_ []].
Qed.

(** ** The simulation *)

(** No operation panics on a well-formed state, and what it answers and leaves
    is what the abstract machine does; at most one nonce goes up. *)
Lemma simulates n o s : 0 <= n -> tight (n + 1) s -> op_ok o -> permits s o = true ->
  exists r s', run_op o s = Some (r, s') /\ stepped n o s r s'.
Proof using HUok HLok.
  intros Hn [Hs1 Hsk] Ho Hp. assert (Hs : state_ok n s) by (eapply state_ok_mono; [|exact Hs1]; lia).
  destruct o as [| | |a|a|a|a|a k|a|a k v|a c|a|a]; cbn [run_op op_ok permits] in *.
  - eexists _, _. split; [done|]. by apply checkpoint_step.
  - eexists _, _. split; [done|]. by apply discard_step.
  - eexists _, _. split; [done|]. by apply revert_step.
  - eapply wp_read_step; [done|by apply (exists_exact True n)|]. intros x s' -> Hl. cbn. by rw topmost_current.
  - eapply wp_read_step; [done|by apply (nonce_exact True n)|]. intros x s' -> Hl. cbn. by rw topmost_current.
  - eapply wp_read_step; [done|by apply (code_hash_exact True n)|]. intros x s' -> Hl. cbn. by rw topmost_current.
  - eapply wp_read_step; [done|by apply (code_exact True n)|]. intros x s' -> Hl. cbn. by rw topmost_current.
  - eapply (wp_read_step n _ a); [done|by apply (slot_read n)|]. intros v s' Hv Hl. cbn. rw topmost_current. split; [by exists v|done].
  - eapply wp_update_step; [done|by apply (wp_inc_nonce n)|by apply (pwp_inc_nonce True)|..].
    + apply pwp_bind. cbn. apply (require_unanswered n); [done|]. intros acc e. rw /Account.inc_nonce /add_.
      by destruct (Account.nonce acc + 1 <? 2 ^ 256).
    + intros s' Hr. split; [done|]. by rw /made topmost_current.
  - by apply set_storage_step.
  - eapply wp_update_step; [done|by apply (wp_init_code n)|by apply (pwp_init_code True)|..].
    + apply pwp_bind. cbn. by apply (require_unanswered n).
    + intros s' Hr. split; [done|]. by rw /made topmost_current.
  - apply bool_decide_eq_true in Hp. by apply new_contract_step.
  - apply bool_decide_eq_true in Hp. eexists _, _. split; [done|]. by apply kill_step.
Qed.

Lemma runs_simulate n ops s :
  0 <= n -> tight (zlen ops + n) s -> Forall op_ok ops -> permitted ops s = true ->
  exists rs s', run_ops ops s = Some (rs, s') /\ tight n s' /\ same_base s s' /\
    spec_run (State.db s) (State.root s) (State.account_start_nonce s) ops (levels s) rs (levels s').
Proof using HUok HLok.
  intros Hn. revert s. induction ops as [|o ops IH]; intros s Hs Ho Hp.
  { eexists _, _. split; [done|]. split; [done|]. split; [done|]. constructor. }
  apply Forall_cons in Ho as [Ho Hops]. pose proof (zlen_nonneg ops) as H0.
  rw zlen_cons (_ : 1 + zlen ops + n = zlen ops + n + 1) in Hs; [lia|]. cbn [permitted] in Hp.
  apply andb_prop in Hp as [Hp Hps].
  destruct (simulates (zlen ops + n) o s) as (r & s1 & Hr & Hs1 & Hb & Hsp); [lia|done..|].
  rw Hr in Hps. destruct (IH s1 Hs1 Hops Hps) as (rs & s2 & Hrs & Hs2 & Hb2 & Hsp2).
  exists (r :: rs), s2. cbn [run_ops]. rw Hr Hrs. split; [done|]. split; [done|].
  destruct Hb as (Hd & Hroot & Hst). rw Hd Hroot Hst in Hsp2. destruct Hb2 as (Hd2 & Hroot2 & Hst2).
  split; [rw /same_base Hd2 Hroot2 Hst2; done|]. by econstructor.
Qed.

(** What is done after a checkpoint stands on the state at the checkpoint. *)
Lemma checkpoint_run ops (s s' : St) rs :
  balanced 0 ops = true ->
  spec_run (State.db s) (State.root s) (State.account_start_nonce s) (Checkpoint :: ops) (levels s) rs (levels s') ->
  forall a, exists x, levels s' a = x :: levels s a.
Proof using.
  intros Hb Hsp. inversion Hsp as [|o ops1 σ r σ1 rs1 σ2 Ho Hr]; subst.
  destruct Ho as [[_ Ho]|((a & Ha & _) & _)]; [|done].
  assert (Habove : above 0 (levels s) σ1).
  { intros a. rw Ho. destruct (levels_cons s a) as [l Hl]. exists (current s a), []. rw Hl. by split. }
  intros a. destruct (spec_above _ _ _ ops 0 (levels s) σ1 _ (levels s') Hr Hb Habove a) as (x & pre & Hx & Hpre).
  destruct pre; [|done]. by exists x.
Qed.

Lemma run_ops_app ops1 ops2 s : run_ops (ops1 ++ ops2) s =
  match run_ops ops1 s with
  | Some (rs, s1) => prod_map (app rs) id <$> run_ops ops2 s1
  | None => None
  end.
Proof using.
  revert s. induction ops1 as [|o ops1 IH]; intros s; cbn; [by destruct (run_ops ops2 s) as [[]|]|].
  destruct (run_op o s) as [[r s1]|]; [|done]. rw IH. destruct (run_ops ops1 s1) as [[rs s2]|]; [|done]. cbn.
  by destruct (run_ops ops2 s2) as [[]|].
Qed.

(** A checkpoint, balanced operations and a revert. *)
Lemma bracket_run n ops s :
  0 <= n -> tight (zlen ops + 1 + n) s -> Forall op_ok ops -> balanced 0 ops = true ->
  permitted (Checkpoint :: ops) s = true ->
  exists rs s', run_ops (Checkpoint :: ops ++ [Revert]) s = Some (rs, s') /\ tight n s' /\ same_base s s' /\
    forall a, levels s' a = levels s a.
Proof using HUok HLok.
  intros Hn Hs Ho Hb Hp.
  destruct (runs_simulate n (Checkpoint :: ops) s) as (rs & s1 & Hr & Hs1 & Hb1 & Hsp); [done|..|done|].
  { by rw zlen_cons (_ : 1 + zlen ops + n = zlen ops + 1 + n); [lia|]. }
  { by constructor. }
  destruct (revert_step n s1 Hs1) as (Hs' & Hb' & [[_ Hl]|((? & [=] & _) & _)]).
  exists (rs ++ [Done]), (State.revert_to_checkpoint s1). rw app_comm_cons run_ops_app Hr. split; [done|].
  split; [done|]. split; [|intros a].
  - destruct Hb1 as (Hd & Hroot & Hst). destruct Hb' as (Hd' & Hroot' & Hst').
    rw /same_base Hd' Hroot' Hst'. done.
  - destruct (checkpoint_run ops s s1 rs Hb Hsp a) as [x Hx]. rw Hl Hx. by destruct (levels_cons s a) as [l ->].
Qed.

(** A read sees the stack only. *)
Lemma spec_read o (s s1 s2 : St) r : is_read o = true -> same_base s s1 -> (forall a, levels s1 a = levels s a) ->
  spec_step o s1 r s2 -> spec_step o s r s.
Proof using.
  intros Hq (Hd & Hroot & Hst) Hl. rw /spec_step Hd Hroot Hst.
  assert (Htop : forall a, topmost (levels s1) a = topmost (levels s) a) by (intros a; by rw /topmost Hl).
  intros [H|((a & Ha & Hn) & -> & _)].
  - left. destruct o; try done; cbn in *; rw Htop in H; by destruct H as [H _].
  - right. split; [|done]. exists a. split; [done|]. by rw /answers Htop in Hn.
Qed.
End implementation.
