(* ===== verification/CommitSpec.v ===== *)
(** * Committing the state

    [State::commit] writes the storage, the code and the record of every dirty
    account to the database.  Against the documented behaviour of the database
    the new state root shows, for every account, what the state showed. *)

From S2P Require Import Prelude Lru Evm Account State StateSpec CheckpointSpec.
From stdpp Require Import base gmap list strings.
Local Open Scope Z_scope.
Local Open Scope cita_scope.

(** Documented behaviour of the database.  The keys of an account database are
    combined with its address hash, so the spaces are apart; a trie update
    gives a root under which one key has changed. *)
Class BackendOk (D : Type) {HD : Backend D} : Prop := {
  put_open d sp r k v d' r' : trie_put d sp r k v = inr (d', r') -> trie_open d' sp r' = inr tt;
  put_root d sp r k v d' r' : trie_put d sp r k v = inr (d', r') -> fits 256 r';
  put_get d sp r k v d' r' j : trie_put d sp r k v = inr (d', r') ->
    trie_get d' sp r' j = if j =? k then inr v else trie_get d sp r j;
  put_other d sp r k v d' r' sp' q j : trie_put d sp r k v = inr (d', r') -> sp' <> sp ->
    trie_open d' sp' q = trie_open d sp' q /\ trie_get d' sp' q j = trie_get d sp' q j;
  put_code d sp r k v d' r' ah h : trie_put d sp r k v = inr (d', r') -> code_get d' ah h = code_get d ah h;
  emplace_get d ah h c ah' h' :
    code_get (code_emplace d ah h c) ah' h' = if bool_decide (ah' = ah /\ h' = h) then Some c else code_get d ah' h';
  emplace_trie d ah h c sp q j :
    trie_open (code_emplace d ah h c) sp q = trie_open d sp q /\
    trie_get (code_emplace d ah h c) sp q j = trie_get d sp q j;
}.

Section commit.
  Context {HU : Util} {HUok : UtilOk}.
  Context {L : Type} {HL : LruCache Z L} {HLok : LruCacheOk Z L} {D : Type} {HD : Backend D} {HDok : BackendOk D}.

(** ** Spaces of the database *)

(** [d'] has the tries of [d] in a space, and the code of an account. *)
Definition trie_same (sp : option H256) (d d' : D) : Prop :=
  forall q k, trie_open d' sp q = trie_open d sp q /\ trie_get d' sp q k = trie_get d sp q k.

Definition code_same (ah : H256) (d d' : D) : Prop := forall h, code_get d' ah h = code_get d ah h.

Definition space_same (ah : H256) (d d' : D) : Prop := trie_same (Some ah) d d' /\ code_same ah d d'.

Lemma trie_same_trans sp d1 d2 d3 : trie_same sp d1 d2 -> trie_same sp d2 d3 -> trie_same sp d1 d3.
Proof using. intros H1 H2 q k. destruct (H1 q k), (H2 q k). split; congruence. Qed.

Lemma space_same_trans ah d1 d2 d3 : space_same ah d1 d2 -> space_same ah d2 d3 -> space_same ah d1 d3.
Proof using.
  intros [? H1] [? H2]. split; [by eapply trie_same_trans|]. intros h. by rw H2 H1.
Qed.

Lemma space_same_refl ah d : space_same ah d d.
Proof using. done. Qed.

Lemma storage_value_same ah d d' q k : trie_same (Some ah) d d' ->
  storage_value d' ah q k = storage_value d ah q k.
Proof using. intros H. rw /storage_value. by destruct (H q k) as [-> ->]. Qed.

(** ** The storage of one account *)
Definition item_of (v : H256) : option bytes := if v =? 0 then None else Some (encode_u256 v).

Lemma commit_changes_spec ah l d root (c : L) : NoDup l.*1 -> trie_open d (Some ah) root = inr tt ->
  match Account.commit_changes ah l d root c with
  | (Ok _, (d', root', _)) =>
      trie_open d' (Some ah) root' = inr tt /\ (l <> [] -> fits 256 root') /\ (l = [] -> root' = root) /\
      (forall k, trie_get d' (Some ah) root' k =
         match (list_to_map l : gmap Z Z) !! k with
         | Some v => inr (item_of v)
         | None => trie_get d (Some ah) root k
         end) /\
      (forall sp, sp <> Some ah -> trie_same sp d d') /\ forall ah', code_same ah' d d'
  | (r, _) => r <> Panic
  end.
Proof using HDok.
  revert d root c. induction l as [|[k v] l IH]; intros d root c Hnd Hop; cbn [Account.commit_changes].
  { split_and!; try done. }
  cbn in Hnd. apply NoDup_cons in Hnd as [Hk Hnd]. fold (item_of v).
  destruct (trie_put d (Some ah) root k (item_of v)) as [e|[d1 r1]] eqn:Hp; [done|].
  specialize (IH d1 r1 (lru_insert k v c) Hnd (put_open _ _ _ _ _ _ _ Hp)).
  destruct (Account.commit_changes ah l d1 r1 _) as [[u|e|] [[d' root'] c']]; [|done..].
  destruct IH as (Ho & Hf & He & Hg & Hs & Hc). split; [done|]. split.
  { intros _. destruct l; [rw (He eq_refl); by eapply put_root|by apply Hf]. }
  split; [done|]. split; [|split].
  - intros j. rw Hg (put_get _ _ _ _ _ _ _ _ Hp). cbn [list_to_map fold_right fst snd].
    destruct (Z.eqb_spec j k) as [->|Hne].
    + rw lookup_insert_eq. by rw (proj1 (not_elem_of_list_to_map l k) Hk).
    + by rw lookup_insert_ne.
  - intros sp Hsp. eapply trie_same_trans; [|by apply Hs]. intros q j. by eapply put_other.
  - intros ah' h. rw Hc. by eapply put_code.
Qed.

(** ** One account *)

(** [acc'] over [d'] is [acc] over [d] with nothing pending. *)
Record settled (d d' : D) (a : Address) (acc acc' : Account.t L) : Prop := {
  set_nonce : Account.nonce acc' = Account.nonce acc;
  set_hash : Account.code_hash acc' = Account.code_hash acc;
  set_changes : Account.storage_changes acc' = ∅;
  set_clean : Account.code_filth acc' = Clean;
  set_root_fits : fits 256 (Account.storage_root acc) -> fits 256 (Account.storage_root acc');
  set_slots k : storage_value d' (hash_of a) (Account.storage_root acc') k =
    es_storage d a (acc_essence acc) k;
  set_code_value : code_value d' a (acc_essence acc') = code_value d a (acc_essence acc);
}.

Lemma settled_stable d d1 d2 a acc acc' : settled d d1 a acc acc' -> space_same (hash_of a) d1 d2 ->
  settled d d2 a acc acc'.
Proof using.
  intros [? ? ? ? ? Hs Hc] [Ht Hcs]. split; try done.
  - intros k. by rw (storage_value_same _ d1 d2).
  - rw -Hc /code_value. by rw Hcs.
Qed.

(** What is needed of an account: slots fit their width, code that is pending
    is cached, and no other code has the hash of the empty one. *)
Record committable (a : Address) (acc : Account.t L) : Prop := {
  com_hash h : Account.address_hash_ acc = Some h -> h = hash_of a;
  com_changes : map_Forall (fun _ v => fits 256 v) (Account.storage_changes acc);
  com_pending : Account.code_filth acc = Dirty -> Account.is_cached acc = true;
  com_empty : Account.code_filth acc = Dirty -> Account.code_hash acc = HASH_EMPTY -> Account.code_cache acc = [];
}.

Lemma committed_slot d d' a (acc : Account.t L) root' k :
  map_Forall (fun _ v => fits 256 v) (Account.storage_changes acc) ->
  trie_open d (Some (hash_of a)) (Account.storage_root acc) = inr tt ->
  trie_open d' (Some (hash_of a)) root' = inr tt ->
  trie_get d' (Some (hash_of a)) root' k =
    match Account.storage_changes acc !! k with
    | Some v => inr (item_of v)
    | None => trie_get d (Some (hash_of a)) (Account.storage_root acc) k
    end ->
  storage_value d' (hash_of a) root' k = es_storage d a (acc_essence acc) k.
Proof using HUok.
  intros Hf Ho Ho' Hg. rw /es_storage /storage_value. cbn [acc_essence es_changes es_root]. rw Ho' Hg Ho.
  cbn [of_sum obind]. destruct (Account.storage_changes acc !! k) as [v|] eqn:Hv; [|done].
  cbn. rw /item_of. destruct (Z.eqb_spec v 0) as [->|]; [done|].
  rw decode_encode_u256; [|done]. by eapply Hf.
Qed.

Lemma commit_storage_ok d a (acc : Account.t L) : committable a acc ->
  match Account.commit_storage d (hash_of a) acc with
  | (Ok _, (d', acc')) =>
      acc' = Account.mk (Account.nonce acc) (Account.storage_root acc') (Account.storage_cache acc') ∅
               (Account.code_hash acc) (Account.code_size acc) (Account.code_cache acc)
               (Account.code_filth acc) (Account.address_hash_ acc) /\
      (fits 256 (Account.storage_root acc) -> fits 256 (Account.storage_root acc')) /\
      (forall k, storage_value d' (hash_of a) (Account.storage_root acc') k =
         es_storage d a (acc_essence acc) k) /\
      (forall sp, sp <> Some (hash_of a) -> trie_same sp d d') /\ forall ah, code_same ah d d'
  | (r, _) => r <> Panic
  end.
Proof using HUok HDok.
  intros Hc. rw /Account.commit_storage.
  destruct (trie_open d (Some (hash_of a)) (Account.storage_root acc)) as [e|[]] eqn:Ho; [done|].
  pose proof (commit_changes_spec (hash_of a) (map_to_list (Account.storage_changes acc)) d
    (Account.storage_root acc) (Account.storage_cache acc) (NoDup_fst_map_to_list _) Ho) as Hspec.
  destruct (Account.commit_changes _ _ _ _ _) as [[u|e|] [[d' root'] c']]; [|done..].
  destruct Hspec as (Ho' & Hf & He & Hg & Hs & Hcs). cbn [Account.storage_root Account.storage_cache].
  split; [done|]. split.
  { intros Hfit. destruct (map_to_list (Account.storage_changes acc)); [by rw He|by apply Hf]. }
  split; [|done]. intros k. apply committed_slot; [apply Hc|done|done|].
  rw Hg. by rw list_to_map_to_list.
Qed.

Lemma commit_code_ok d a (acc : Account.t L) : committable a acc ->
  let '(d', acc') := Account.commit_code d (hash_of a) acc in
  acc' = Account.set_filth acc (Account.code_size acc') Clean /\
  code_value d' a (acc_essence acc') = code_value d a (acc_essence acc) /\
  (forall sp, trie_same sp d d') /\ forall ah, ah <> hash_of a -> code_same ah d d'.
Proof using HDok.
  intros [_ _ Hp He]. rw /Account.commit_code. destruct (Account.code_filth acc) eqn:Hf.
  { split; [by destruct acc; cbn in *; subst|]. by split_and!. }
  specialize (Hp eq_refl). specialize (He eq_refl). rw /Account.is_empty_code in Hp |- *.
  rw /Account.is_cached /Account.is_empty_code in Hp. rw /code_value /acc_essence.
  cbn [es_code es_code_hash Account.set_filth Account.code_filth Account.code_hash Account.code_size].
  rw Hf. destruct (Account.code_cache acc) as [|b c] eqn:Hc; cbn [andb negb orb] in Hp.
  - split; [done|]. split; [|done]. by rw /= Hp.
  - split; [done|]. split.
    + cbn [Account.set_filth Account.code_filth Account.code_hash].
      destruct (Z.eqb_spec (Account.code_hash acc) HASH_EMPTY) as [Hh|_]; [by specialize (He Hh)|].
      rw emplace_get bool_decide_eq_true_2; [done|]. by rw (bool_decide_eq_false_2 (b :: c = [])).
    + split; [intros sp q k; apply emplace_trie|]. intros ah Hne h. rw emplace_get.
      rw bool_decide_eq_false_2; [by intros [? _]|done].
Qed.

(** The changes to the database of committing one account. *)
Definition apart (a : Address) (d d' : D) : Prop :=
  trie_same None d d' /\ forall ah, ah <> hash_of a -> space_same ah d d'.

Lemma commit_account_ok d a (acc : Account.t L) : committable a acc ->
  match Account.commit_storage d (hash_of a) acc with
  | (Ok _, (d1, acc1)) =>
      let '(d2, acc2) := Account.commit_code d1 (hash_of a) acc1 in
      settled d d2 a acc acc2 /\ apart a d d2
  | (r, _) => r <> Panic
  end.
Proof using HUok HDok.
  intros Hc. pose proof (commit_storage_ok d a acc Hc) as Hst.
  destruct (Account.commit_storage d (hash_of a) acc) as [[u|e|] [d1 acc1]]; [|done..].
  destruct Hst as (Heq & Hfit & Hslot & Hs1 & Hc1).
  assert (Hc' : committable a acc1) by (rw Heq; by destruct Hc).
  pose proof (commit_code_ok d1 a acc1 Hc') as Hcd.
  destruct (Account.commit_code d1 (hash_of a) acc1) as [d2 acc2]. destruct Hcd as (Heq2 & Hv & Hs2 & Hc2).
  split.
  - split; [by rw Heq2 Heq|by rw Heq2 Heq|by rw Heq2 Heq|by rw Heq2|by rw Heq2| |].
    + intros k. rw Heq2 (storage_value_same _ d1 d2); [apply Hs2|apply Hslot].
    + rw Hv Heq /code_value /acc_essence. cbn. by rw (Hc1 (hash_of a)).
  - split; [eapply trie_same_trans; [by apply Hs1|apply Hs2]|]. intros ah Hne. split.
    + eapply trie_same_trans; [apply Hs1; congruence|apply Hs2].
    + intros h. rw (Hc2 ah Hne). apply Hc1.
Qed.

(** ** The loops *)
Abbreviation Entry := (AccountEntry.t L).

(** An entry after the first loop. *)
Definition written (d d' : D) (a : Address) (e e' : option Entry) : Prop :=
  match e with
  | Some (AccountEntry.mk (Some acc) AccountState.Dirty) =>
      exists acc', e' = Some (AccountEntry.mk (Some acc') AccountState.Dirty) /\ settled d d' a acc acc'
  | _ => e' = e /\ space_same (hash_of a) d d'
  end.

Lemma written_stable d d1 d2 a e e' : written d d1 a e e' -> space_same (hash_of a) d1 d2 -> written d d2 a e e'.
Proof using.
  rw /written. destruct e as [[[acc|] []]|]; intros H Hs;
    try (destruct H; split; [done|by eapply space_same_trans]).
  destruct H as (acc' & -> & H). exists acc'. split; [done|]. by eapply settled_stable.
Qed.

Lemma apart_space a b d d' : apart b d d' -> hash_of a <> hash_of b -> space_same (hash_of a) d d'.
Proof using. intros [_ H] Hne. by apply H. Qed.

(** Every account that a loop will meet can be committed. *)
Definition all_committable (keys : list Z) (accounts : gmap Z Entry) : Prop :=
  forall b acc st, b ∈ keys -> accounts !! b = Some (AccountEntry.mk (Some acc) st) -> committable b acc.

Definition unlike (a : Address) (keys : list Z) : Prop :=
  forall b, b ∈ keys -> hash_of b = hash_of a -> b = a.

Definition subtrees_post (keys : list Z) (a : Address) (d : D) (accounts : gmap Z Entry)
    (p : D * gmap Z Entry) : Prop :=
  trie_same None d p.1 /\
  (unlike a keys ->
   if bool_decide (a ∈ keys) then written d p.1 a (accounts !! a) (p.2 !! a)
   else p.2 !! a = accounts !! a /\ space_same (hash_of a) d p.1).

(** One more key in front. *)
Lemma subtrees_post_cons k keys a d d1 accounts accounts1 p :
  k ∉ keys -> apart k d d1 -> (forall b, b <> k -> accounts1 !! b = accounts !! b) ->
  written d d1 k (accounts !! k) (accounts1 !! k) ->
  subtrees_post keys a d1 accounts1 p -> subtrees_post (k :: keys) a d accounts p.
Proof using.
  intros Hk Hap Hacc Hw [Hn Hp]. split; [eapply trie_same_trans; [apply Hap|done]|]. intros Hun.
  specialize (Hp ltac:(intros b Hb; apply Hun; by right)).
  destruct (decide (a = k)) as [->|Hne].
  - rw bool_decide_eq_false_2 in Hp; [done|]. destruct Hp as [-> Hs].
    rw bool_decide_eq_true_2; [by left|]. by eapply written_stable.
  - assert (Hs : space_same (hash_of a) d d1).
    { eapply apart_space; [done|]. intros Hh. apply Hne. symmetry. apply Hun; [by left|done]. }
    rw Hacc in Hp; [done|]. case_bool_decide as Hin.
    + rw bool_decide_eq_true_2; [by right|]. move: Hp. rw /written.
      destruct (accounts !! a) as [[[acc|] []]|]; intros Hp;
        try (destruct Hp; split; [done|by eapply space_same_trans]).
      destruct Hp as (acc' & -> & [? ? ? ? ? Hsl Hcv]). exists acc'. split; [done|]. destruct Hs as [Ht Hcs].
      split; try done.
      * intros j. rw Hsl /es_storage. by rw (storage_value_same _ d d1).
      * rw Hcv /code_value. by rw Hcs.
    + rw bool_decide_eq_false_2; [by intros [?|?]%elem_of_cons|]. destruct Hp as [? ?].
      split; [done|]. by eapply space_same_trans.
Qed.

Lemma commit_subtrees_ok keys a d accounts :
  NoDup keys -> all_committable keys accounts ->
  wp (State.commit_subtrees keys) (fun _ p => subtrees_post keys a d accounts p) (fun _ _ => True) (d, accounts).
Proof using HUok HDok.
  revert d accounts. induction keys as [|k keys IH]; intros d accounts Hnd Hcom.
  { by split. }
  apply NoDup_cons in Hnd as [Hk Hnd]. cbn [State.commit_subtrees]. apply wp_bind, wp_get.
  assert (Hskip : written d d k (accounts !! k) (accounts !! k) ->
    wp (State.commit_subtrees keys) (fun _ p => subtrees_post (k :: keys) a d accounts p) (fun _ _ => True) (d, accounts)).
  { intros Hw. eapply wp_conseq; [apply IH; [done|]| |done].
    - intros b acc st Hb. apply Hcom. by right.
    - intros u p Hp. by eapply (subtrees_post_cons k keys a d d accounts accounts). }
  destruct (accounts !! k) as [[[acc|] []]|] eqn:Ha; try (by apply Hskip).
  pose proof (Hcom k acc _ ltac:(by left) Ha) as Hck.
  assert (Hh : (Account.address_hash acc k).1 = hash_of k /\ committable k (Account.address_hash acc k).2 /\
    acc_essence (Account.address_hash acc k).2 = acc_essence acc).
  { rw /Account.address_hash. destruct (Account.address_hash_ acc) as [h|] eqn:E; cbn.
    - split; [by apply (com_hash _ _ Hck)|done].
    - split; [done|]. split; [|done]. destruct Hck. split; cbn; try done. by intros h [= <-]. }
  destruct (Account.address_hash acc k) as [ah acc0]. cbn [fst snd] in Hh. destruct Hh as (-> & Hc0 & He0).
  pose proof (commit_account_ok d k acc0 Hc0) as Hok.
  destruct (Account.commit_storage d (hash_of k) acc0) as [[u|e|] [d1 acc1]]; [|done..].
  destruct (Account.commit_code d1 (hash_of k) acc1) as [d2 acc2]. destruct Hok as [Hset Hap].
  apply wp_bind, wp_modify. set (accounts1 := <[k := _]> accounts).
  eapply wp_conseq; [apply (IH d2 accounts1); [done|]| |done].
  - intros b acc' st Hb. rw /accounts1 lookup_insert_ne; [by intros ->|]. apply Hcom. by right.
  - intros u' p Hp. eapply (subtrees_post_cons k keys a d d2 accounts accounts1); try done.
    + intros b Hb. by rw /accounts1 lookup_insert_ne.
    + rw Ha /accounts1 lookup_insert_eq. exists acc2. split; [done|].
      destruct Hset as [Hn Hh Hch Hcl Hr Hsl Hcv]. rw He0 in Hsl, Hcv.
      injection He0 as Hen Her _ Heh _. split; try done; [congruence|congruence|by rw -Her].
Qed.

(** Other addresses keep their entries. *)
Lemma commit_subtrees_other keys a d accounts : a ∉ keys ->
  pwp (State.commit_subtrees keys) (fun _ p => p.2 !! a = accounts !! a) (fun _ _ => True) (d, accounts).
Proof using.
  revert d accounts. induction keys as [|k keys IH]; intros d accounts Ha; [done|].
  apply not_elem_of_cons in Ha as [Hne Ha]. cbn [State.commit_subtrees]. apply pwp_bind. cbn.
  destruct (accounts !! k) as [[[acc|] []]|]; try (by apply IH).
  destruct (Account.address_hash acc k) as [ah acc0].
  destruct (Account.commit_storage d ah acc0) as [[u|e|] [d1 acc1]]; [|done..].
  destruct (Account.commit_code d1 ah acc1) as [d2 acc2]. apply pwp_bind. cbn.
  eapply pwp_conseq; [by apply IH| |done]. intros u' p ->. by rw lookup_insert_ne.
Qed.

(** An entry after the second loop. *)
Definition mark (e : Entry) : Entry :=
  AccountEntry.mk (AccountEntry.account e)
    match AccountEntry.state e with AccountState.Dirty => AccountState.Committed | st => st end.

Definition record_of (d : D) (r : H256) (a : Address) (e : option Entry) : TrieError + option bytes :=
  match e with
  | Some (AccountEntry.mk acc AccountState.Dirty) => inr (Account.rlp <$> acc)
  | _ => trie_get d None r a
  end.

Record records_post (keys : list Z) (d : D) (r : H256) (accounts : gmap Z Entry)
    (p : D * H256 * gmap Z Entry) : Prop := {
  rec_open : trie_open p.1.1 None p.1.2 = inr tt;
  rec_space ah : space_same ah d p.1.1;
  rec_entry a : p.2 !! a = if bool_decide (a ∈ keys) then mark <$> accounts !! a else accounts !! a;
  rec_get a : trie_get p.1.1 None p.1.2 a =
    if bool_decide (a ∈ keys) then record_of d r a (accounts !! a) else trie_get d None r a;
}.

Lemma commit_records_ok keys d r accounts : NoDup keys -> trie_open d None r = inr tt ->
  wp (State.commit_records keys) (fun _ p => records_post keys d r accounts p) (fun _ _ => True) (d, r, accounts).
Proof using HDok.
  revert d r accounts. induction keys as [|k keys IH]; intros d r accounts Hnd Ho.
  { by split. }
  apply NoDup_cons in Hnd as [Hk Hnd]. cbn [State.commit_records]. apply wp_bind, wp_get.
  assert (Hskip : mark <$> accounts !! k = accounts !! k -> record_of d r k (accounts !! k) = trie_get d None r k ->
    wp (State.commit_records keys) (fun _ p => records_post (k :: keys) d r accounts p) (fun _ _ => True) (d, r, accounts)).
  { intros Hm Hr. eapply wp_conseq; [by apply IH| |done]. intros u p [Hop Hsp He Hg]. split; [done|done|..]; intros a.
    - rw He. destruct (decide (a = k)) as [->|Hne]; [rw bool_decide_eq_false_2; [done|]; by case_bool_decide|].
      by rw (bool_decide_ext (a ∈ k :: keys) (a ∈ keys)); [rw elem_of_cons; naive_solver|].
    - rw Hg. destruct (decide (a = k)) as [->|Hne]; [rw bool_decide_eq_false_2; [done|]; by case_bool_decide|].
      by rw (bool_decide_ext (a ∈ k :: keys) (a ∈ keys)); [rw elem_of_cons; naive_solver|]. }
  destruct (accounts !! k) as [[acc []]|] eqn:Ha; try (by apply Hskip).
  destruct (trie_put d None r k (Account.rlp <$> acc)) as [e|[d1 r1]] eqn:Hp; [done|].
  apply wp_bind, wp_modify. set (accounts1 := <[k := _]> accounts).
  eapply wp_conseq; [apply (IH d1 r1 accounts1); [done|by eapply put_open]| |done].
  intros u p [Hop Hsp He Hg]. split; [done| | |].
  - intros ah. eapply space_same_trans; [|apply Hsp]. split; [intros q j; by eapply put_other|].
    intros h. by eapply put_code.
  - intros a. rw He. destruct (decide (a = k)) as [->|Hne].
    + rw bool_decide_eq_false_2; [done|]. rw bool_decide_eq_true_2; [by left|]. by rw Ha /accounts1 lookup_insert_eq.
    + rw (bool_decide_ext (a ∈ k :: keys) (a ∈ keys)); [rw elem_of_cons; naive_solver|].
      by rw /accounts1 lookup_insert_ne.
  - intros a. rw Hg. destruct (decide (a = k)) as [->|Hne].
    + rw bool_decide_eq_false_2; [done|]. rw bool_decide_eq_true_2; [by left|]. rw Ha.
      by rw (put_get _ _ _ _ _ _ _ _ Hp) Z.eqb_refl.
    + rw (bool_decide_ext (a ∈ k :: keys) (a ∈ keys)); [rw elem_of_cons; naive_solver|].
      rw /accounts1 lookup_insert_ne; [done|]. rw /record_of.
      by rw (put_get _ _ _ _ _ _ _ _ Hp) (proj2 (Z.eqb_neq _ _)).
Qed.

(** ** Durability *)

(** What the database of [s'] shows of an account is what [s] shows. *)
Record durable (s s' : State.t D L) (a : Address) : Prop := {
  dur_nonce : es_nonce <$> stored s' a = es_nonce <$> current s a;
  dur_hash : es_code_hash <$> stored s' a = es_code_hash <$> current s a;
  dur_slots k : shown_storage (State.db s') a (stored s' a) k = shown_storage (State.db s) a (current s a) k;
  dur_code : stored s' a ≫= code_value (State.db s') a = current s a ≫= code_value (State.db s) a;
}.

(** Roots and hashes in the cache have their width, and no code has the hash
    of the empty code by accident. *)
Definition well_typed (s : State.t D L) : Prop :=
  forall a acc st, State.cache s !! a = Some (AccountEntry.mk (Some acc) st) ->
    fits 256 (Account.storage_root acc) /\ fits 256 (Account.code_hash acc) /\
    (Account.code_filth acc = Dirty -> Account.code_hash acc = HASH_EMPTY -> Account.code_cache acc = []).

Lemma cache_committable n s : state_ok n s -> stacked False s -> well_typed s ->
  all_committable (map_to_list (State.cache s)).*1 (State.cache s).
Proof using.
  intros Hst Hsk Hty b acc st _ Hb. pose proof (cached_coherent False s b _ acc Hsk Hb eq_refl) as [Hh _ Hp _ _].
  destruct (st_cache _ _ Hst b _ Hb acc eq_refl). destruct (Hty b acc st Hb) as (_ & _ & ?). by split.
Qed.

Lemma settled_stored n d d' a (acc acc' : Account.t L) :
  0 <= n -> account_ok n acc -> fits 256 (Account.storage_root acc) -> fits 256 (Account.code_hash acc) ->
  settled d d' a acc acc' -> decode_basic (Account.rlp acc') = Some (Build_BasicAccount (Account.nonce acc')
    (Account.storage_root acc') (Account.code_hash acc')) /\
  basic_essence (Build_BasicAccount (Account.nonce acc') (Account.storage_root acc') (Account.code_hash acc')) =
    acc_essence acc'.
Proof using HUok.
  intros Hn [Hnonce _ _ _ _ _] Hr Hh [Hn' Hh' Hch Hcl Hr' _ _]. split.
  - apply decode_encode_basic; [rw Hn'; split; lia|by apply Hr'|by rw Hh'].
  - by rw /basic_essence /acc_essence /= Hch Hcl.
Qed.

(** The cases of one address, from what the two loops did to it. *)
Lemma durable_cases n s s' a d1 (acc1 : gmap Z Entry) :
  0 <= n -> state_ok n s -> stacked False s -> well_typed s ->
  trie_same None (State.db s) d1 ->
  (match State.cache s !! a with
   | Some _ => written (State.db s) d1 a (State.cache s !! a) (acc1 !! a)
   | None => acc1 !! a = None /\ space_same (hash_of a) (State.db s) d1
   end) ->
  space_same (hash_of a) d1 (State.db s') ->
  trie_get (State.db s') None (State.root s') a = record_of d1 (State.root s) a (acc1 !! a) ->
  durable s s' a.
Proof using HUok.
  intros Hn Hst Hsk Hty Hnone Hw Hsp Hget.
  assert (Hclean : forall o, acc1 !! a = o -> (forall acc, o <> Some (AccountEntry.mk acc AccountState.Dirty)) ->
    space_same (hash_of a) (State.db s) d1 -> current s a = stored s a -> durable s s' a).
  { intros o Ho Hnd Hs1 Hcur. pose proof (space_same_trans _ _ _ _ Hs1 Hsp) as [Ht Hc].
    assert (Hst' : stored s' a = stored s a).
    { rw /stored Hget /record_of Ho. destruct (Hnone (State.root s) a) as [_ Hg].
      destruct o as [[acc []]|]; rw ?Hg; try done. by destruct (Hnd acc). }
    split; rw Hst' Hcur; [done|done|..].
    - intros k. destruct (stored s a) as [x|]; [|done]. rw /shown_storage /es_storage.
      destruct (es_changes x !! k); [done|]. by apply storage_value_same.
    - destruct (stored s a) as [x|]; [|done]. cbn. rw /code_value. by rw Hc. }
  destruct (State.cache s !! a) as [[o st]|] eqn:Ha.
  2:{ destruct Hw as [H1 H2]. by eapply Hclean; [exact H1|done|done|apply current_uncached]. }
  destruct (decide (st = AccountState.Dirty)) as [->|Hclst].
  2:{ assert (Hw' : acc1 !! a = Some (AccountEntry.mk o st) /\ space_same (hash_of a) (State.db s) d1)
        by (rw /written in Hw; by destruct o, st).
      destruct Hw' as [H1 H2]. eapply Hclean; [exact H1|by intros acc [= _ ?]|done|].
      pose proof (proj1 (cells_forall _ _ (st_faithful _ _ Hsk a))) as Hf. rw /raw /= Ha in Hf. cbn in Hf.
      rw (current_cached s a _ Ha). by destruct Hf. }
  pose proof (current_cached s a _ Ha) as Hcur. destruct o as [acc|].
  - destruct Hw as (acc' & Ha' & Hset). pose proof (settled_stable _ _ _ _ _ _ Hset Hsp) as Hset'.
    destruct (Hty a acc _ Ha) as (Hr & Hh & _).
    destruct (settled_stored n _ _ a acc acc' Hn (st_cache _ _ Hst a _ Ha acc eq_refl) Hr Hh Hset') as [Hd He].
    assert (Hst' : stored s' a = Some (acc_essence acc')) by (by rw /stored Hget Ha' /= Hd /= He).
    destruct Hset' as [Hn' Hh' Hch _ _ Hsl Hcv]. split; rw ?Hst' ?Hcur; cbn; [by rw Hn'|by rw Hh'| |done].
    intros k. rw /es_storage. cbn [acc_essence es_changes es_root]. rw Hch lookup_empty. apply Hsl.
  - destruct Hw as [Ha' _]. assert (Hst' : stored s' a = None) by (by rw /stored Hget Ha' /=).
    by split; intros; rw Hst' Hcur.
Qed.

(** Committing does not panic; when it succeeds nothing is dirty and every
    account is durable whose address hash is not shared by another cached
    address. *)
Lemma wp_commit n s : 0 <= n -> state_ok n s -> stacked False s -> State.checkpoints s = [] -> well_typed s ->
  wp State.commit
    (fun _ s' => State.checkpoints s' = [] /\
       (forall a e, State.cache s' !! a = Some e -> AccountEntry.is_dirty e = false) /\
       forall a, unlike a (map_to_list (State.cache s)).*1 -> durable s s' a)
    (fun _ _ => True) s.
Proof using HUok HDok.
  intros Hn Hst Hsk Hcp Hty. rw /State.commit. apply wp_bind, wp_get. apply wp_bind, wp_lift.
  rw Hcp bool_decide_eq_true_2; [done|]. cbn [assert_ owp]. rw /wp /State.commit_into.
  set (keys := (map_to_list (State.cache s)).*1).
  assert (Hnd : NoDup keys) by apply NoDup_fst_map_to_list.
  assert (Hin : forall a, a ∈ keys <-> is_Some (State.cache s !! a)).
  { intros a. rw /keys list_elem_of_fmap. split.
    - intros ([b e] & -> & ?%elem_of_map_to_list). by eexists.
    - intros [e He%elem_of_map_to_list]. by exists (a, e). }
  pose proof (fun a => commit_subtrees_ok keys a (State.db s) (State.cache s) Hnd
    (cache_committable n s Hst Hsk Hty)) as H1. rw /wp in H1.
  destruct (State.commit_subtrees keys (State.db s, State.cache s)) as [[u|e|] [d1 acc1]] eqn:Hrun;
    [|done|by apply (H1 0)].
  destruct (trie_open d1 None (State.root s)) as [e|[]] eqn:Ho; [done|].
  pose proof (commit_records_ok keys d1 (State.root s) acc1 Hnd Ho) as H2. rw /wp in H2.
  destruct (State.commit_records keys (d1, State.root s, acc1)) as [[u'|e|] [[d2 r2] acc2]]; [|done|done].
  destruct H2 as [Hop Hsp He Hg]. cbn [fst snd] in *. split; [done|]. split.
  - intros a e. cbn. rw He. case_bool_decide as Hk.
    + intros (e0 & _ & ->)%fmap_Some. rw /AccountEntry.is_dirty /mark /=. by destruct (AccountEntry.state e0).
    + pose proof (commit_subtrees_other keys a (State.db s) (State.cache s) Hk) as Ho1. rw /pwp Hrun in Ho1.
      cbn in Ho1. rw Ho1. intros Hc. destruct Hk. apply Hin. by eexists.
  - intros a Hun. destruct (H1 a) as [Hnone Hpost]. specialize (Hpost Hun). cbn [fst snd] in *.
    assert (Hk : bool_decide (a ∈ keys) = bool_decide (is_Some (State.cache s !! a))) by by apply bool_decide_ext.
    rw Hk in Hpost. eapply (durable_cases n s _ a d1 acc1); try done; cbn.
    + by destruct (State.cache s !! a).
    + rw Hg Hk. destruct (State.cache s !! a) eqn:Hc; [done|]. cbn in *. by destruct Hpost as [-> _].
Qed.
End commit.
