(* ===== verification/Executive.v ===== *)
(** * Transaction execution

    [cita-executor/core/src/substate.rs], [externalities.rs], [executive.rs],
    [engines/mod.rs], the factory of [native/mod.rs] and [State::apply]: the
    environment the interpreter runs in, message calls and contract creations
    with their checkpoints, and the execution of a transaction.

    Call and virtual machine tracers ([trace/]) are the no-op ones. *)

From S2P Require Import Prelude Lru Schedule Evm SharedCache Interpreter Account State.
From stdpp Require Import base gmap list strings.
Local Open Scope Z_scope.
Local Open Scope cita_scope.

Record LogEntry : Set := {
  log_address : Address;
  log_topics : list H256;
  log_data : bytes;
}.

(** ** Substates *)
Module Substate.
Record t : Set := mk {
  suicides : gset Z;
  garbage : gset Z;
  logs : list LogEntry;
  sstore_clears_count : U256;
  contracts_created : list Address;
}.

Definition new : t := mk ∅ ∅ [] 0 [].

Definition accrue {E} (self s : t) : outcome E t :=
  n <- add_ 256 (sstore_clears_count self) (sstore_clears_count s) ;;
  Ok (mk (suicides self ∪ suicides s) (garbage self ∪ garbage s) (logs self ++ logs s) n
         (contracts_created self ++ contracts_created s)).

Inductive CleanupMode : Set := ForceCreate | NoEmpty | KillEmpty.

Definition to_cleanup_mode (schedule : Schedule.t) : CleanupMode :=
  match Schedule.no_empty schedule, Schedule.kill_empty schedule with
  | false, _ => ForceCreate
  | true, false => NoEmpty
  | true, true => KillEmpty
  end.
End Substate.

(** ** Output of a call *)
Inductive BytesRef : Set :=
| Fixed (slice : bytes)
| Flexible (vec : bytes).

(** What to do with the data of a [RETURN]; the copy kept for tracing is
    absent. *)
Inductive OutputPolicy : Set :=
| ReturnTo (out : BytesRef)
| InitContract.

Module OriginInfo.
Record t : Set := mk {
  address : Address;
  origin : Address;
  gas_price : U256;
  value : U256;
}.

Definition from (params : ActionParams.t) : t :=
  mk (ActionParams.address params) (ActionParams.origin params) (ActionParams.gas_price params)
     (ActionValue_value (ActionParams.value params)).
End OriginInfo.

(** ** Builtin and native contracts *)
Record Builtin : Set := {
  builtin_cost : Z -> U256;
  builtin_execute : bytes -> BytesRef -> BytesRef;
}.

(** [NullEngine]: the engine is its table of builtins. *)
Definition Engine : Set := gmap Z Builtin.

Definition is_builtin (e : Engine) (a : Address) : bool := bool_decide (is_Some (e !! a)).

Definition cost_of_builtin {E} (e : Engine) (a : Address) (input : bytes) : outcome E U256 :=
  b <- expect (e !! a) ;;
  Ok (builtin_cost b (zlen input)).

Definition execute_builtin {E} (e : Engine) (a : Address) (input : bytes) (output : BytesRef)
    : outcome E BytesRef :=
  b <- expect (e !! a) ;;
  Ok (builtin_execute b input output).

(** A native contract is Rust code that runs against the environment. *)
Definition NativeContract : Type :=
  forall X : Type, Externalities X -> ActionParams.t -> M Error X GasLeft.

Definition NativeFactory : Type := gmap Z NativeContract.

Definition native_new_contract (f : NativeFactory) (a : Address) : option NativeContract := f !! a.

(** ** Transactions and their results *)
Inductive Action : Set :=
| ActStore
| ActCreate
| ActCall (address : Address).

#[export] Instance Action_eq_dec : EqDecision Action.
Proof. solve_decision. Defined.

(** The fields of [SignedTransaction] that execution reads. *)
Record SignedTransaction : Set := {
  tx_gas_price : U256;
  tx_gas : U256;
  tx_action : Action;
  tx_value : U256;
  tx_data : bytes;
  tx_sender : Address;
  tx_account_nonce : U256;
}.

Definition set_account_nonce (t : SignedTransaction) (n : U256) : SignedTransaction :=
  {| tx_gas_price := tx_gas_price t; tx_gas := tx_gas t; tx_action := tx_action t;
     tx_value := tx_value t; tx_data := tx_data t; tx_sender := tx_sender t; tx_account_nonce := n |}.

(** [TransactOptions], without the tracing flags. *)
Record TransactOptions : Set := {
  check_permission : bool;
  check_quota : bool;
}.

(** [Executed], without the traces. *)
Record Executed : Set := {
  exec_exception : option Error;
  exec_gas : U256;
  exec_gas_used : U256;
  exec_refunded : U256;
  exec_cumulative_gas_used : U256;
  exec_logs : list LogEntry;
  exec_contracts_created : list Address;
  exec_output : bytes;
}.

Inductive ExecutionError : Set :=
| NotEnoughBaseGas (required got : U256)
| BlockGasLimitReached (gas_limit gas_used gas : U256)
| AccountGasLimitReached (gas_limit gas : U256)
| InvalidNonce (expected got : U256)
| NotEnoughCash (required got : Z)
| NoTransactionPermission
| NoContractPermission
| ExInternal (msg : string)
| TransactionMalformed (msg : string).

Definition ExecutionError_from (err : TrieError) : ExecutionError := ExInternal err.

(** ** The environment of a running contract *)
Section executive.
  Context {HU : Util} {L : Type} {HL : LruCache Z L} {D : Type} {HD : Backend D}.
  Context {J : Type} {HJ : LruCache BitSet J}.
  (** The hash of the [SHA3] instruction, the RLP encoding of an address with
      a nonce, and the stack size of the thread. *)
  Context (sha3 : bytes -> H256) (encode_address_nonce : Address -> U256 -> bytes).
  Context (LOCAL_STACK_SIZE : Z).
  Context (engine : Engine) (native_factory : NativeFactory) (info : EnvInfo.t).

Definition STACK_SIZE_PER_DEPTH : Z := 24 * 1024.

(** The last twenty bytes of the hash. *)
Definition contract_address (address : Address) (nonce : U256) : Address :=
  wrap 160 (crypt_hash (encode_address_nonce address nonce)).

(** What a call works on: the state, the shared jump table cache and the
    substate of the caller. *)
Record world : Type := World {
  w_state : State.t D L;
  w_jumps : J;
  w_substate : Substate.t;
}.

(** [Externalities]: the mutable parts, the call depth and the origin. *)
Record env : Type := Env {
  e_world : world;
  e_output : OutputPolicy;
  e_depth : Z;
  e_origin : OriginInfo.t;
}.

Definition with_world (x : env) (w : world) : env := Env w (e_output x) (e_depth x) (e_origin x).
Definition with_output (x : env) (o : OutputPolicy) : env := Env (e_world x) o (e_depth x) (e_origin x).
Definition with_state (w : world) (s : State.t D L) : world := World s (w_jumps w) (w_substate w).
Definition with_substate (w : world) (s : Substate.t) : world := World (w_state w) (w_jumps w) s.

(** Run a method of the state, or a function of the world, in a larger one. *)
Definition on_state {E A} (c : M E (State.t D L) A) : M E world A := fun w =>
  let '(r, s) := c (w_state w) in (r, with_state w s).

Definition on_world {E A} (c : M E world A) : M E env A := fun x =>
  let '(r, w) := c (e_world x) in (r, with_world x w).

Definition on_substate {E} (f : Substate.t -> outcome E Substate.t) : M E env unit := fun x =>
  match f (w_substate (e_world x)) with
  | Ok s => (Ok tt, with_world x (with_substate (e_world x) s))
  | Err e => (Err e, x)
  | Panic => (Panic, x)
  end.

#[export] Instance env_cache : CacheStore env J := {
  the_cache x := w_jumps (e_world x);
  put_cache c x := with_world x (World (w_state (e_world x)) c (w_substate (e_world x)));
}.

(** ** Externalities

    A contract reaches other contracts through an executive one level deeper;
    [sub] are its two entry points, at a given depth. *)
Record Subcalls : Type := {
  sub_call : Z -> ActionParams.t -> M Error (world * BytesRef) U256;
  sub_create : Z -> ActionParams.t -> M Error world U256;
}.

Section open.
  Context (sub : Subcalls).

Definition env_storage_at (key : H256) : M TrieError env H256 := fun x =>
  on_world (on_state (State.storage_at (OriginInfo.address (e_origin x)) key)) x.

Definition env_set_storage (key value : H256) : M TrieError env unit := fun x =>
  on_world (on_state (State.set_storage (OriginInfo.address (e_origin x)) key value)) x.

Definition env_blockhash (number : U256) : M void env H256 :=
  let n := EnvInfo.number info in
  if (number <? n) && (Z.max 256 n - 256 <=? low_u64 number) then
    slift (d <- sub_ n (low_u64 number) ;;
           i <- sub_ d 1 ;;
           _ <- assert_ (i <? zlen (EnvInfo.last_hashes info)) ;;
           index (EnvInfo.last_hashes info) i)
  else sret 0.

(** [match c { Ok(a) => k(a), Err(_) => failed }]. *)
Definition match_ok {E F S A B} (c : M E S A) (failed : B) (k : A -> M F S B) : M F S B := fun s =>
  match c s with
  | (Ok a, s) => k a s
  | (Err _, s) => (Ok failed, s)
  | (Panic, s) => (Panic, s)
  end.

Definition push_created (address : Address) (s : Substate.t) : Substate.t :=
  Substate.mk (Substate.suicides s) (Substate.garbage s) (Substate.logs s)
    (Substate.sstore_clears_count s) (Substate.contracts_created s ++ [address]).

Definition env_create (gas value : U256) (code : bytes) : M void env ContractCreateResult :=
  o <~ sgets e_origin ;;
  d <~ sgets e_depth ;;
  match_ok (on_world (on_state (State.nonce (OriginInfo.address o)))) CreateFailed (fun nonce =>
  let address := contract_address (OriginInfo.address o) nonce in
  let params :=
    {| ActionParams.code_address := address;
       ActionParams.address := address;
       ActionParams.sender := OriginInfo.address o;
       ActionParams.origin := OriginInfo.origin o;
       ActionParams.gas := gas;
       ActionParams.gas_price := OriginInfo.gas_price o;
       ActionParams.value := Transfer value;
       ActionParams.code := Some code;
       ActionParams.code_hash := crypt_hash code;
       ActionParams.data := None;
       ActionParams.call_type := CallType.None |} in
  match_ok (on_world (on_state (State.inc_nonce (OriginInfo.address o)))) CreateFailed (fun _ =>
  match_ok (on_world (sub_create sub (d + 1) params)) CreateFailed (fun gas_left =>
  _ <~ on_substate (fun s => Ok (push_created address s)) ;;
  sret (Created address gas_left)))).

(** Run a call in the world, with an output slice. *)
Definition on_world_output {E A} (c : M E (world * BytesRef) A) (output : bytes) : M E env (outcome E A * bytes) :=
  fun x =>
    let '(r, (w, out)) := c (e_world x, Fixed output) in
    (match r with
     | Panic => Panic
     | r => Ok (r, match out with Fixed s | Flexible s => s end)
     end, with_world x w).

Definition env_call (gas : U256) (sender_address receive_address : Address) (value : option U256)
    (data : bytes) (code_address : Address) (output : bytes) (call_type : CallType.t)
    : M void env (MessageCallResult * bytes) :=
  o <~ sgets e_origin ;;
  d <~ sgets e_depth ;;
  match_ok (on_world (on_state (c <~ State.code code_address ;;
                                h <~ State.code_hash code_address ;; sret (c, h))))
    (CallFailed, output) (fun '(code, code_hash) =>
  let params :=
    {| ActionParams.sender := sender_address;
       ActionParams.address := receive_address;
       ActionParams.value :=
         match value with Some v => Transfer v | None => Apparent (OriginInfo.value o) end;
       ActionParams.code_address := code_address;
       ActionParams.origin := OriginInfo.origin o;
       ActionParams.gas := gas;
       ActionParams.gas_price := OriginInfo.gas_price o;
       ActionParams.code := code;
       ActionParams.code_hash := code_hash;
       ActionParams.data := Some data;
       ActionParams.call_type := call_type |} in
  match_ok (on_world_output (sub_call sub (d + 1) params) output) (CallFailed, output)
    (fun '(r, out) =>
       sret (match r with Ok gas_left => CallSuccess gas_left | _ => CallFailed end, out))).

Definition env_ret (gas : U256) (data : bytes) : M Error env U256 := fun x =>
  let sched := Schedule.new_frontier in
  match e_output x with
  | ReturnTo (Fixed slice) =>
      let len := Nat.min (length slice) (length data) in
      (Ok gas, with_output x (ReturnTo (Fixed (take len data ++ drop len slice))))
  | ReturnTo (Flexible _) => (Ok gas, with_output x (ReturnTo (Flexible data)))
  | InitContract =>
      match mul_ (E := Error) 256 (zlen data) (Schedule.create_data_gas sched) with
      | Ok return_cost =>
          if (gas <? return_cost) || (Schedule.create_data_limit sched <? zlen data) then
            (if Schedule.exceptional_failed_code_deposit sched then Err OutOfGas else Ok gas, x)
          else
            sbind (smap_err Error_from
                     (on_world (on_state (State.init_code (OriginInfo.address (e_origin x)) data))))
              (fun _ => slift (sub_ gas return_cost)) x
      | _ => (Panic, x)
      end
  end.

Definition env_log (topics : list H256) (data : bytes) : M void env unit := fun x =>
  on_substate (fun s => Ok (Substate.mk (Substate.suicides s) (Substate.garbage s)
    (Substate.logs s ++ [{| log_address := OriginInfo.address (e_origin x);
                            log_topics := topics; log_data := data |}])
    (Substate.sstore_clears_count s) (Substate.contracts_created s))) x.

Definition env_suicide (refund_address : Address) : M TrieError env unit := fun x =>
  on_substate (fun s => Ok (Substate.mk ({[OriginInfo.address (e_origin x)]} ∪ Substate.suicides s)
    (Substate.garbage s) (Substate.logs s) (Substate.sstore_clears_count s)
    (Substate.contracts_created s))) x.

Definition env_inc_sstore_clears : M void env unit :=
  on_substate (fun s =>
    n <- add_ 256 (Substate.sstore_clears_count s) 1 ;;
    Ok (Substate.mk (Substate.suicides s) (Substate.garbage s) (Substate.logs s) n
          (Substate.contracts_created s))).

#[export] Instance env_ext : Externalities env := {
  storage_at := env_storage_at;
  set_storage := env_set_storage;
  exists_ a := on_world (on_state (State.exists_ a));
  exists_and_not_null a := on_world (on_state (State.exists_and_not_null a));
  origin_balance := sret 0;
  balance _ := sret 0;
  blockhash := env_blockhash;
  create := env_create;
  call := env_call;
  extcode a := c <~ on_world (on_state (State.code a)) ;; sret (default [] c);
  extcodesize a := n <~ on_world (on_state (State.code_size a)) ;; sret (default 0 n);
  log := env_log;
  ret := env_ret;
  suicide := env_suicide;
  schedule _ := Schedule.new_frontier;
  env_info _ := info;
  depth := e_depth;
  inc_sstore_clears := env_inc_sstore_clears;
  trace_prepare_execute _ _ _ := sret false;
  trace_executed _ _ _ _ := sret tt;
}.

(** ** The executive *)

(** Run a contract in a fresh environment and finalize its result. *)
Definition in_externalities (depth : Z) (params : ActionParams.t) (c : M Error env GasLeft)
    : M Error (world * OutputPolicy) U256 := fun '(w, o) =>
  let '(r, x) := c (Env w o depth (OriginInfo.from params)) in
  let '(r, x) := finalize r x in
  (r, (e_world x, e_output x)).

(** Every few levels the machine runs in a new thread, with the same result.
    The remainder by a threshold of zero panics. *)
Definition exec_vm (depth : Z) (params : ActionParams.t) : M Error (world * OutputPolicy) U256 :=
  let depth_threshold := LOCAL_STACK_SIZE / STACK_SIZE_PER_DEPTH in
  _ <~ slift (assert_ (negb (depth_threshold =? 0))) ;;
  in_externalities depth params
    (factory_exec sha3 HASH_EMPTY (S (Z.to_nat (ActionParams.gas params))) (ActionParams.gas params)
       params).

Definition enact_result (result : outcome Error U256) (un_substate : Substate.t) (w : world)
    : outcome void world :=
  match result with
  | Err OutOfGas | Err (BadJumpDestination _) | Err (BadInstruction _)
  | Err (StackUnderflow _ _ _) | Err (OutOfStack _ _ _) =>
      Ok (with_state w (State.revert_to_checkpoint (w_state w)))
  | Ok _ | Err (Internal _) =>
      s <- Substate.accrue (w_substate w) un_substate ;;
      Ok (World (State.discard_checkpoint (w_state w)) (w_jumps w) s)
  | Panic => Panic
  end.

(** The tracer is given [gas - gas_left]. *)
Definition trace_gas (gas : U256) (res : outcome Error U256) : outcome Error U256 :=
  match res with
  | Ok gas_left => _ <- sub_ gas gas_left ;; Ok gas_left
  | r => r
  end.

(** Run [c] on an unconfirmed substate with output policy [o], then enact the
    result. *)
Definition confirmed {O} (c : M Error (world * O) U256) : M Error (world * O) U256 := fun '(w, o) =>
  let '(res, (w', o')) := c (with_substate w Substate.new, o) in
  match enact_result res (w_substate w') (with_substate w' (w_substate w)) with
  | Ok w'' => (res, (w'', o'))
  | _ => (Panic, (w', o'))
  end.

(** The output is handed to the machine as [OutputPolicy::Return]. *)
Definition returning (c : M Error (world * OutputPolicy) U256) : M Error (world * BytesRef) U256 :=
  fun '(w, o) =>
    let '(r, (w, p)) := c (w, ReturnTo o) in
    (r, (w, match p with ReturnTo o' => o' | InitContract => o end)).

Definition traced {S} (gas : U256) (c : M Error S U256) : M Error S U256 := fun s =>
  let '(r, s) := c s in (trace_gas gas r, s).

Definition update_state {O} (f : State.t D L -> State.t D L) : M Error (world * O) unit :=
  smodify (fun '(w, o) => (with_state w (f (w_state w)), o)).

Definition call_builtin (params : ActionParams.t) : M Error (world * BytesRef) U256 :=
  let data := default [] (ActionParams.data params) in
  cost <~ slift (cost_of_builtin engine (ActionParams.code_address params) data) ;;
  if cost <=? ActionParams.gas params then
    let! (w, output) := sget in
    output <~ slift (execute_builtin engine (ActionParams.code_address params) data output) ;;
    _ <~ smodify (fun '(w, _) => (w, output)) ;;
    _ <~ update_state State.discard_checkpoint ;;
    slift (sub_ (ActionParams.gas params) cost)
  else
    _ <~ update_state State.revert_to_checkpoint ;;
    sfail OutOfGas.

Definition call_code (depth : Z) (params : ActionParams.t) : M Error (world * BytesRef) U256 :=
  match ActionParams.code params with
  | Some _ => confirmed (traced (ActionParams.gas params) (returning (exec_vm depth params)))
  | None =>
      _ <~ update_state State.discard_checkpoint ;;
      sret (ActionParams.gas params)
  end.

(** [Executive::call]. *)
Definition call_ (depth : Z) (params : ActionParams.t) : M Error (world * BytesRef) U256 :=
  _ <~ update_state State.checkpoint ;;
  let otherwise :=
    if is_builtin engine (ActionParams.code_address params) then call_builtin params
    else call_code depth params in
  match native_new_contract native_factory (ActionParams.code_address params) with
  | Some contract =>
      if 100 <=? ActionParams.gas params
      then confirmed (returning (in_externalities depth params (contract env env_ext params)))
      else otherwise
  | None => otherwise
  end.

(** The machine gets [OutputPolicy::InitContract]. *)
Definition initialising (c : M Error (world * OutputPolicy) U256) : M Error (world * unit) U256 :=
  fun '(w, _) => let '(r, (w, _)) := c (w, InitContract) in (r, (w, tt)).

Definition on_fst {E A O} (c : M E world A) : M E (world * O) A := fun '(w, o) =>
  let '(r, w) := c w in (r, (w, o)).

(** [Executive::create]. *)
Definition create_ (depth : Z) (params : ActionParams.t) : M Error world U256 := fun w =>
  let '(r, (w, _)) :=
    (_ <~ update_state State.checkpoint ;;
     confirmed (
       _ <~ on_fst (smap_err Error_from
              (on_state (State.new_contract (ActionParams.address params) 0))) ;;
       _ <~ slift (expect (ActionParams.code params)) ;;
       traced (ActionParams.gas params) (initialising (exec_vm depth params)))) (w, tt) in
  (r, w).
End open.

(** The executive [fuel] levels deep.  The machine calls no deeper than
    [max_depth], so one more level than that is enough. *)
Fixpoint executive (fuel : nat) : Subcalls :=
  match fuel with
  | O => {| sub_call _ _ := slift Panic; sub_create _ _ := slift Panic |}
  | S fuel =>
      let sub := executive fuel in {| sub_call := call_ sub; sub_create := create_ sub |}
  end.

Definition top_level : Subcalls :=
  executive (S (Z.to_nat (Schedule.max_depth Schedule.new_frontier))).

(** ** Transactions *)

(** What a transaction works on; the account nonce is recorded in it. *)
Record session : Type := Session {
  ses_state : State.t D L;
  ses_jumps : J;
  ses_tx : SignedTransaction;
}.

Definition ses_on_state {A} (c : M TrieError (State.t D L) A) : M ExecutionError session A := fun s =>
  let '(r, st) := c (ses_state s) in
  (omap_err ExecutionError_from r, Session st (ses_jumps s) (ses_tx s)).

Definition ses_update_state (f : State.t D L -> State.t D L) : M ExecutionError session unit :=
  smodify (fun s => Session (f (ses_state s)) (ses_jumps s) (ses_tx s)).

Definition check_permission_ (t : SignedTransaction) (s : State.t D L) : outcome ExecutionError unit :=
  let sender := tx_sender t in
  match tx_action t with
  | ActCreate =>
      if negb (sender =? 0) && negb (bool_decide (sender ∈ State.creators s))
      then Err NoContractPermission else Ok tt
  | _ =>
      if negb (sender =? 0) && negb (bool_decide (sender ∈ State.senders s)) &&
         negb (bool_decide (sender ∈ State.creators s))
      then Err NoTransactionPermission else Ok tt
  end.

Definition base_gas_required : U256 := 100.

Definition check_base_gas (t : SignedTransaction) : outcome ExecutionError unit :=
  if negb (tx_sender t =? 0) && negb (bool_decide (tx_action t = ActStore)) &&
     (tx_gas t <? base_gas_required)
  then Err (NotEnoughBaseGas base_gas_required (tx_gas t)) else Ok tt.

Definition check_quota_ (t : SignedTransaction) : outcome ExecutionError unit :=
  over <- (if negb (tx_sender t =? 0)
           then total_ <- add_ 256 (EnvInfo.gas_used info) (tx_gas t) ;;
                Ok (EnvInfo.gas_limit info <? total_)
           else Ok false) ;;
  if over : bool
  then Err (BlockGasLimitReached (EnvInfo.gas_limit info) (EnvInfo.gas_used info) (tx_gas t))
  else if negb (tx_sender t =? 0) && (EnvInfo.account_gas_limit info <? tx_gas t)
  then Err (AccountGasLimitReached (EnvInfo.account_gas_limit info) (tx_gas t))
  else Ok tt.

(** The loop of [finalize] over the accounts tagged for collection. *)
Definition collect (address : Address) : M ExecutionError session unit :=
  there <~ ses_on_state (State.exists_ address) ;;
  kill <~ (if there : bool
           then b <~ ses_on_state (State.exists_and_not_null address) ;; sret (negb b)
           else sret false) ;;
  if kill : bool then ses_update_state (fun s => State.kill_account s address) else sret tt.

Fixpoint collect_garbage (l : list Address) : M ExecutionError session unit :=
  match l with
  | [] => sret tt
  | address :: l => _ <~ collect address ;; collect_garbage l
  end.

(** The gas left after refunds, the gas used and the refund. *)
Definition settle {E} (t : SignedTransaction) (substate : Substate.t) (result : outcome Error U256)
    : outcome E (U256 * U256) :=
  let sched := Schedule.new_frontier in
  sstore_refunds <- mul_ 256 (Schedule.sstore_refund_gas sched) (Substate.sstore_clears_count substate) ;;
  suicide_refunds <- mul_ 256 (Schedule.suicide_refund_gas sched)
                       (Z.of_nat (size (Substate.suicides substate))) ;;
  refunds_bound <- add_ 256 sstore_refunds suicide_refunds ;;
  let gas_left_prerefund := match result with Ok x => x | _ => 0 end in
  spent <- sub_ (tx_gas t) gas_left_prerefund ;;
  let refunded := Z.min refunds_bound (Z.shiftr spent 1) in
  gas_left <- add_ 256 gas_left_prerefund refunded ;;
  gas_used <- sub_ (tx_gas t) gas_left ;;
  _ <- mul_ 256 gas_left (tx_gas_price t) ;;
  _ <- mul_ 256 gas_used (tx_gas_price t) ;;
  Ok (gas_used, refunded).

(** [Executive::finalize]. *)
Definition finalize_ (substate : Substate.t) (result : outcome Error U256) (output : bytes)
    : M ExecutionError session Executed :=
  t <~ sgets ses_tx ;;
  let! (gas_used, refunded) := slift (settle t substate result) in
  _ <~ ses_update_state (fun s => fold_left State.kill_account (elements (Substate.suicides substate)) s) ;;
  _ <~ collect_garbage (elements (Substate.garbage substate)) ;;
  match result with
  | Err (Internal msg) => sfail (ExInternal msg)
  | Err exception =>
      cumulative <~ slift (add_ 256 (EnvInfo.gas_used info) (tx_gas t)) ;;
      sret {| exec_exception := Some exception; exec_gas := tx_gas t; exec_gas_used := tx_gas t;
              exec_refunded := 0; exec_cumulative_gas_used := cumulative; exec_logs := [];
              exec_contracts_created := []; exec_output := output |}
  | Ok _ =>
      cumulative <~ slift (add_ 256 (EnvInfo.gas_used info) gas_used) ;;
      sret {| exec_exception := None; exec_gas := tx_gas t; exec_gas_used := gas_used;
              exec_refunded := refunded; exec_cumulative_gas_used := cumulative;
              exec_logs := Substate.logs substate;
              exec_contracts_created := Substate.contracts_created substate; exec_output := output |}
  | Panic => slift Panic
  end.

(** Run a call or creation from a session; the result is a value. *)
Definition ses_run {O} (o : O) (c : M Error (world * O) U256)
    : M ExecutionError session (outcome Error U256 * Substate.t * O) := fun s =>
  let '(r, (w, o)) := c (World (ses_state s) (ses_jumps s) Substate.new, o) in
  let s := Session (w_state w) (w_jumps w) (ses_tx s) in
  match r with
  | Panic => (Panic, s)
  | r => (Ok (r, w_substate w, o), s)
  end.

Definition bytes_of_ref (o : BytesRef) : bytes := match o with Fixed s | Flexible s => s end.

(** The match on the action. *)
Definition run_action (nonce : U256) : M ExecutionError session (outcome Error U256 * Substate.t * bytes) :=
  t <~ sgets ses_tx ;;
  let sender := tx_sender t in
  match tx_action t with
  | ActStore => sret (Ok (tx_gas t), Substate.new, [])
  | ActCreate =>
      let new_address := contract_address sender nonce in
      gas <~ slift (sub_ (tx_gas t) base_gas_required) ;;
      let params :=
        {| ActionParams.code_address := new_address;
           ActionParams.code_hash := crypt_hash (tx_data t);
           ActionParams.address := new_address;
           ActionParams.sender := sender;
           ActionParams.origin := sender;
           ActionParams.gas := gas;
           ActionParams.gas_price := tx_gas_price t;
           ActionParams.value := Transfer (tx_value t);
           ActionParams.code := Some (tx_data t);
           ActionParams.data := None;
           ActionParams.call_type := CallType.None |} in
      let! (r, s, _) := ses_run tt (on_fst (sub_create top_level 0 params)) in
      sret (r, s, [])
  | ActCall address =>
      gas <~ slift (sub_ (tx_gas t) base_gas_required) ;;
      let! (code, code_hash) :=
        ses_on_state (c <~ State.code address ;; h <~ State.code_hash address ;; sret (c, h)) in
      let params :=
        {| ActionParams.code_address := address;
           ActionParams.address := address;
           ActionParams.sender := sender;
           ActionParams.origin := sender;
           ActionParams.gas := gas;
           ActionParams.gas_price := tx_gas_price t;
           ActionParams.value := Transfer (tx_value t);
           ActionParams.code := code;
           ActionParams.code_hash := code_hash;
           ActionParams.data := Some (tx_data t);
           ActionParams.call_type := CallType.Call |} in
      let! (r, s, out) := ses_run (Flexible []) (sub_call top_level 0 params) in
      sret (r, s, bytes_of_ref out)
  end.

(** The sender's nonce is taken and increased. *)
Definition take_nonce (sender : Address) : M ExecutionError session U256 :=
  nonce <~ ses_on_state (State.nonce sender) ;;
  _ <~ ses_on_state (State.inc_nonce sender) ;;
  sret nonce.

(** The first half of [transact]: after the nonce, permission, base gas and
    quota are checked. *)
Definition check_transaction (options : TransactOptions) : M ExecutionError session U256 :=
  t <~ sgets ses_tx ;;
  nonce <~ take_nonce (tx_sender t) ;;
  s <~ sget ;;
  _ <~ slift (if check_permission options then check_permission_ t (ses_state s) else Ok tt) ;;
  _ <~ slift (check_base_gas t) ;;
  _ <~ smodify (fun s => Session (ses_state s) (ses_jumps s) (set_account_nonce (ses_tx s) nonce)) ;;
  _ <~ slift (if check_quota options then check_quota_ t else Ok tt) ;;
  sret nonce.

(** [Executive::transact]. *)
Definition transact (options : TransactOptions) : M ExecutionError session Executed :=
  nonce <~ check_transaction options ;;
  let! (result, substate, output) := run_action nonce in
  finalize_ substate result output.
End executive.
