(* ===== verification/ExecutiveSpec.v ===== *)
(** * Correctness of transaction execution

    The environment of [Executive] keeps the promises the interpreter relies
    on, message calls and creations keep the world well formed and balance
    their checkpoints, and a transaction never panics. *)

From S2P Require Import Prelude Lru Schedule Evm SharedCache Gasometer Interpreter InterpreterSpec.
From S2P Require Import LoopSpec Account State StateSpec CheckpointSpec StateInv Executive.
From stdpp Require Import base gmap list strings.
Local Open Scope Z_scope.
Local Open Scope cita_scope.

Lemma frontier_ok : Schedule.ok Schedule.new_frontier.
Proof. apply Schedule.new_ok. Qed.

(** A set of numbers below [b] has at most [b] elements. *)
Lemma gset_size_bound (X : gset Z) b : 0 <= b -> (forall x, x ∈ X -> 0 <= x < b) -> Z.of_nat (size X) <= b.
Proof.
  intros Hb HX. assert (Hsub : X ⊆ list_to_set (seqZ 0 b)).
  { intros x Hx%HX. apply elem_of_list_to_set, elem_of_seqZ. lia. }
  apply subseteq_size in Hsub. rw size_list_to_set in Hsub; [apply NoDup_seqZ|].
  rw length_seqZ in Hsub. lia.
Qed.

(** ** Documented behaviour of the parts that are plugged in *)

(** A builtin writes into its output without resizing a fixed one. *)
Definition ref_same (o o' : BytesRef) : Prop :=
  match o, o' with
  | Fixed s, Fixed s' => length s' = length s /\ bytes_ok s'
  | Flexible _, Flexible v => bytes_ok v
  | _, _ => False
  end.

Definition ref_ok (o : BytesRef) : Prop := bytes_ok (bytes_of_ref o).

Definition engine_ok (e : Engine) : Prop :=
  forall a b, e !! a = Some b ->
    (forall n, 0 <= n -> 0 <= builtin_cost b n) /\
    (forall input o, bytes_ok input -> ref_ok o -> ref_same o (builtin_execute b input o)).

(** A native contract behaves like a machine: in every environment that keeps
    its promises it ends, uses at most its gas and leaves the environment well
    formed. *)
Definition native_ok (f : NativeFactory) : Prop :=
  forall a c, f !! a = Some c ->
  forall X (HX : Externalities X) (I : Z -> X -> Prop), ExternalitiesOk X I ->
  forall N params x, I (N + ActionParams.gas params) x -> 0 <= N -> params_ok params ->
    ActionParams.gas params < 2 ^ 64 ->
    wp (c X HX params)
      (fun r x' => 0 <= gas_left r <= ActionParams.gas params /\ output_ok r /\
         ext_step (I (N + gas_left r)) x x')
      (fun _ x' => ext_step (I N) x x') x.

Record info_ok (info : EnvInfo.t) : Prop := {
  info_env : EnvInfo.ok info;
  info_hashes : Z.min (EnvInfo.number info) 256 <= zlen (EnvInfo.last_hashes info);
  info_hashes_fit : Forall (fits 256) (EnvInfo.last_hashes info);
}.

Section spec.
  Context {HU : Util} {HUok : UtilOk}.
  Context {L : Type} {HL : LruCache Z L} {HLok : LruCacheOk Z L} {D : Type} {HD : Backend D}.
  Context {J : Type} {HJ : LruCache BitSet J} {HJok : LruCacheOk BitSet J}.
  Context (sha3 : bytes -> H256) (sha3_fits : forall b, fits 256 (sha3 b)).
  Context (encode_address_nonce : Address -> U256 -> bytes).
  Context (LOCAL_STACK_SIZE : Z) (stack_size_ok : STACK_SIZE_PER_DEPTH <= LOCAL_STACK_SIZE).
  Context (engine : Engine) (Hengine : engine_ok engine).
  Context (native_factory : NativeFactory) (Hnative : native_ok native_factory).
  Context (info : EnvInfo.t) (Hinfo : info_ok info).

Abbreviation Worldt := (world (L := L) (D := D) (J := J)).
Abbreviation Envt := (env (L := L) (D := D) (J := J)).
Abbreviation Subs := (Subcalls (L := L) (D := D) (J := J)).
Abbreviation Call := (call_ sha3 encode_address_nonce LOCAL_STACK_SIZE engine native_factory info).
Abbreviation Create := (create_ sha3 encode_address_nonce LOCAL_STACK_SIZE info).

(** ** Well-formed worlds *)

(** The refund counter can absorb [n] increments without passing [C]. *)
Record substate_ok (C n : Z) (s : Substate.t) : Prop := {
  sub_clears : 0 <= Substate.sstore_clears_count s;
  sub_budget : Substate.sstore_clears_count s + n <= C;
  sub_suicides a : a ∈ Substate.suicides s -> fits 160 a;
}.

Record world_ok (C n : Z) (w : Worldt) : Prop := {
  w_state_ok : inv n (w_state w);
  w_jumps_ok : SharedCache.cache_ok crypt_hash (w_jumps w);
  w_substate_ok : substate_ok C n (w_substate w);
}.

Definition world_step (C n : Z) (w w' : Worldt) : Prop :=
  world_ok C n w' /\ moved (w_state w) (w_state w').

Record origin_ok (o : OriginInfo.t) : Prop := {
  or_address : fits 160 (OriginInfo.address o);
  or_origin : fits 160 (OriginInfo.origin o);
  or_gas_price : fits 256 (OriginInfo.gas_price o);
  or_value : fits 256 (OriginInfo.value o);
}.

(** Errors that undo what the call did. *)
Definition reverts (e : Error) : bool := match e with Internal _ => false | _ => true end.

(** What a failed call leaves: for an error that reverts, every account and
    the substate as they were. *)
Definition failed_step (C n : Z) (w : Worldt) (e : Error) (w' : Worldt) : Prop :=
  world_step C n w w' /\
  (reverts e = true -> restored (w_state w) (w_state w') /\ w_substate w' = w_substate w).

(** What a call at some depth promises. *)
Definition call_spec (c : ActionParams.t -> M Error (Worldt * BytesRef) U256) : Prop :=
  forall C N params w o,
  C < 2 ^ 256 -> 0 <= N -> world_ok C (N + ActionParams.gas params) w ->
  params_ok params -> ActionParams.gas params < 2 ^ 64 ->
  (forall code, ActionParams.code params = Some code -> ActionParams.code_hash params = crypt_hash code) ->
  ref_ok o ->
  wp (c params)
    (fun g wo => 0 <= g <= ActionParams.gas params /\ world_step C (N + g) w wo.1 /\ ref_same o wo.2)
    (fun e wo => failed_step C N w e wo.1 /\ ref_same o wo.2) (w, o).

Definition create_spec (c : ActionParams.t -> M Error Worldt U256) : Prop :=
  forall C N params w,
  C < 2 ^ 256 -> 0 <= N -> world_ok C (N + ActionParams.gas params) w ->
  params_ok params -> ActionParams.gas params < 2 ^ 64 ->
  (exists code, ActionParams.code params = Some code /\ ActionParams.code_hash params = crypt_hash code) ->
  wp (c params)
    (fun g w' => 0 <= g <= ActionParams.gas params /\ world_step C (N + g) w w')
    (fun e w' => failed_step C N w e w') w.

(** Calls from depth [d] are answered, unless the depth limit forbids them. *)
Definition answers (d : Z) (sub : Subs) : Prop :=
  d < Schedule.max_depth Schedule.new_frontier ->
  call_spec (sub_call sub (d + 1)) /\ create_spec (sub_create sub (d + 1)).

Lemma ref_same_refl o : ref_ok o -> ref_same o o.
Proof using. by destruct o. Qed.

Lemma substate_ok_mono C m n s : 0 <= m <= n -> substate_ok C n s -> substate_ok C m s.
Proof using. intros ? []. split; [done|lia|done]. Qed.

Lemma world_ok_mono C m n w : 0 <= m <= n -> world_ok C n w -> world_ok C m w.
Proof using. intros ? []. split; [by eapply inv_le|done|by eapply substate_ok_mono]. Qed.

Lemma world_step_mono C m n w w' : 0 <= m <= n -> world_step C n w w' -> world_step C m w w'.
Proof using. intros ? [? ?]. split; [by eapply world_ok_mono|done]. Qed.

Lemma world_step_refl C n w : world_ok C n w -> world_step C n w w.
Proof using. done. Qed.

Lemma world_step_trans C m n w1 w2 w3 : world_step C m w1 w2 -> world_step C n w2 w3 -> world_step C n w1 w3.
Proof using. intros [_ ?] [? ?]. split; [done|]. by eapply moved_trans. Qed.

(** ** State methods in the world *)
Lemma wp_on_state {E A} C m n (c : M E (State.t D L) A) (P : A -> Prop) w :
  0 <= m <= n -> world_ok C n w ->
  (wp c (fun a s' => P a /\ inv_step m (w_state w) s') (fun _ s' => inv_step m (w_state w) s')
     (w_state w)) ->
  wp (on_state c) (fun a w' => P a /\ world_step C m w w') (fun _ w' => world_step C m w w') w.
Proof using.
  intros Hmn [Hs Hj Hsub] Hc. apply (substate_ok_mono _ m) in Hsub; [|done]. rw /wp /on_state in Hc |- *.
  destruct (c (w_state w)) as [[a|e|] s']; [|..|done].
  - destruct Hc as (? & ? & ?). split; [done|]. split; [by split|done].
  - destruct Hc as (? & ?). split; [by split|done].
Qed.

(** ** The environment *)
Section environment.
  (** What a running contract never changes: the bound of its refund counter,
      its output, depth and origin, and the moved of the state it started in. *)
  Context (C : Z) (C_small : C < 2 ^ 256) (out : OutputPolicy) (d : Z) (origin : OriginInfo.t).
  Context (Horigin : origin_ok origin) (s0 : State.t D L) (sub : Subs) (Hsub : answers d sub).

Record env_ok (n : Z) (x : Envt) : Prop := {
  e_budget : 0 <= n;
  e_world_ok : world_ok C n (e_world x);
  e_output_ok : e_output x = out;
  e_depth_ok : e_depth x = d;
  e_origin_ok : e_origin x = origin;
  e_frame : moved s0 (w_state (e_world x));
}.

#[local] Instance the_ext : Externalities Envt := env_ext encode_address_nonce info sub.

Lemma env_step n x w : env_ok n x -> forall m, 0 <= m -> world_step C m (e_world x) w ->
  ext_step (env_ok m) x (with_world x w).
Proof using.
  intros [] m Hm [Hw Hf]. split; [|done]. split; cbn; try done. by eapply moved_trans.
Qed.

(** A method that runs in the world. *)
Lemma wp_on_world {E A} (c : M E Worldt A) (Q : A -> Worldt -> Prop) (R : E -> Worldt -> Prop) x :
  wp c Q R (e_world x) ->
  wp (on_world c) (fun a x' => exists w, Q a w /\ x' = with_world x w)
    (fun e x' => exists w, R e w /\ x' = with_world x w) x.
Proof using.
  rw /wp /on_world. destruct (c (e_world x)) as [[a|e|] w]; [by exists w..|done].
Qed.

Lemma wp_state_method {E A} m n (c : M E (State.t D L) A) (P : A -> Prop) x :
  0 <= m <= n -> env_ok n x ->
  wp c (fun a s' => P a /\ inv_step m (w_state (e_world x)) s')
    (fun _ s' => inv_step m (w_state (e_world x)) s') (w_state (e_world x)) ->
  wp (on_world (on_state c)) (fun a x' => P a /\ ext_step (env_ok m) x x')
    (fun _ x' => ext_step (env_ok m) x x') x.
Proof using.
  intros Hmn Hx Hc. pose proof (wp_on_state C m n c P _ Hmn (e_world_ok _ _ Hx) Hc) as Hw.
  eapply wp_conseq; [apply wp_on_world, Hw|..].
  - intros a x' (w & [? ?] & ->). split; [done|]. eapply env_step; [done|lia|done].
  - intros e x' (w & ? & ->). eapply env_step; [done|lia|done].
Qed.

(** A read of the state. *)
Lemma wp_read_method {U} n a req (f : option (Account.t L) -> U) (P : U -> Prop) x :
  env_ok n x -> (forall o, account_opt_ok n o -> P (f o)) ->
  wp (on_world (on_state (State.ensure_cached a req f)))
    (fun u x' => P u /\ ext_step (env_ok n) x x') (fun _ x' => ext_step (env_ok n) x x') x.
Proof using HUok HLok.
  intros Hx HP. pose proof Hx as [Hn [Hs _ _] _ _ _ _].
  apply (wp_state_method n n); [lia|done|]. by apply inv_read.
Qed.

Lemma blockhash_ok' n number : fits 256 number -> ext_method (env_ok n) (env_blockhash info number) (fits 256).
Proof using Hinfo.
  intros [Hnum _] x Hx. destruct Hinfo as [[[Hn1 Hn2] _ _ _ _] Hlen Hfit]. rw /env_blockhash.
  destruct (Z.ltb_spec number (EnvInfo.number info)) as [Hlt|]; [|by apply wp_ret].
  rw low_u64_small; [split; lia|]. destruct (Z.leb_spec (Z.max 256 (EnvInfo.number info) - 256) number)
    as [Hle|]; [|by apply wp_ret]. apply wp_lift. rw sub_ok; [lia|]. cbn [obind].
  rw sub_ok; [lia|]. cbn [obind]. set (i := EnvInfo.number info - number - 1).
  assert (Hi : 0 <= i < zlen (EnvInfo.last_hashes info)) by (unfold i; lia).
  rw (proj2 (Z.ltb_lt _ _) (proj2 Hi)) /index (proj2 (Z.leb_le _ _) (proj1 Hi)). cbn [obind assert_].
  destruct (lookup_lt_is_Some_2 (EnvInfo.last_hashes info) (Z.to_nat i)) as [h Hh].
  { unfold zlen in Hi. lia. }
  rw Hh. cbn [owp]. split; [|done]. by eapply Forall_lookup_1.
Qed.

Lemma on_substate_ok {E} m n (f : Substate.t -> outcome E Substate.t) x :
  0 <= m <= n -> env_ok n x ->
  owp (f (w_substate (e_world x))) (substate_ok C m) (fun _ => False) ->
  wp (on_substate f) (fun _ x' => ext_step (env_ok m) x x') (fun _ x' => ext_step (env_ok m) x x') x.
Proof using.
  intros Hmn Hx Hf. rw /wp /on_substate. destruct (f _) as [s|e|]; [|done|done]. cbn in Hf.
  destruct (e_world_ok _ _ Hx) as [Hs Hj _]. eapply env_step; [done|lia|]. split; [|done].
  split; [by eapply inv_le|done|done].
Qed.

Lemma env_suicide_ok n a : ext_method (env_ok n) (env_suicide a) (fun _ => True).
Proof using Horigin.
  intros x Hx. pose proof (e_budget _ _ Hx).
  eapply wp_conseq; [apply (on_substate_ok n n); [lia|exact Hx|]|intros; by split|done].
  destruct (w_substate_ok _ _ _ (e_world_ok _ _ Hx)) as [? ? Hs]. split; cbn; try done.
  intros b [->%elem_of_singleton|Hb]%elem_of_union; [|by apply Hs].
  rw (e_origin_ok _ _ Hx). apply Horigin.
Qed.

Lemma env_log_ok n topics data : ext_method (env_ok n) (env_log topics data) (fun _ => True).
Proof using.
  intros x Hx. pose proof (e_budget _ _ Hx).
  eapply wp_conseq; [apply (on_substate_ok n n); [lia|exact Hx|]|intros; by split|done].
  by destruct (w_substate_ok _ _ _ (e_world_ok _ _ Hx)).
Qed.

Lemma env_inc_sstore_clears_ok n x : 0 <= n -> env_ok (n + 1) x ->
  wp env_inc_sstore_clears (fun _ x' => ext_step (env_ok n) x x') (fun _ _ => True) x.
Proof using C_small.
  intros Hn Hx. eapply wp_conseq; [apply (on_substate_ok n (n + 1)); [lia|exact Hx|]|done|done].
  destruct (w_substate_ok _ _ _ (e_world_ok _ _ Hx)) as [? ? Hs].
  rw add_ok; [lia|]. cbn. split; cbn; [lia|lia|done].
Qed.

Lemma env_set_storage_ok n k v : fits 256 v -> ext_method (env_ok n) (env_set_storage k v) (fun _ => True).
Proof using HUok HLok.
  intros Hv x Hx. pose proof Hx as [Hn [Hs _ _] _ _ _ _]. apply (wp_state_method n n); [lia|done|].
  eapply wp_conseq; [by apply (inv_set_storage n)|by split|done].
Qed.

Lemma contract_address_fits a n : fits 160 (contract_address encode_address_nonce a n).
Proof using. by apply wrap_fits. Qed.

(** ** Creating and calling from a contract *)
Lemma wp_match_ok {E F S A B} (c : M E S A) (failed : B) (k : A -> M F S B) Q R s :
  wp c (fun a s => wp (k a) Q R s) (fun _ s => Q failed s) s -> wp (match_ok c failed k) Q R s.
Proof using. rw /wp /match_ok. by destruct (c s) as [[a|e|] s']. Qed.

Lemma env_ok_mono m n x : 0 <= m <= n -> env_ok n x -> env_ok m x.
Proof using. intros ? []. split; try done; [lia|by eapply world_ok_mono]. Qed.

Lemma env_step_mono m n x y : 0 <= m <= n -> ext_step (env_ok n) x y -> ext_step (env_ok m) x y.
Proof using. intros ? [? ?]. split; [by eapply env_ok_mono|done]. Qed.

Lemma env_create_ok n gas value code x :
  0 <= n -> fits 64 gas -> fits 256 value -> vec_ok code ->
  d < Schedule.max_depth Schedule.new_frontier -> env_ok (n + 1 + gas) x ->
  wp (env_create encode_address_nonce sub gas value code)
    (fun r x' => match r with
       | Created a g => fits 160 a /\ 0 <= g <= gas /\ ext_step (env_ok (n + g)) x x'
       | CreateFailed => ext_step (env_ok n) x x'
       end) (fun _ _ => True) x.
Proof using HUok HLok C_small Horigin Hsub.
  intros Hn Hgas Hv Hcode Hd Hx. pose proof Hgas as [Hg1 Hg2]. pose proof (Hsub Hd) as [_ Hcreate].
  apply wp_bind, wp_gets, wp_bind, wp_gets. rw (e_depth_ok _ _ Hx) (e_origin_ok _ _ Hx).
  apply wp_match_ok. eapply wp_conseq; [apply (wp_state_method (n + 1 + gas) (n + 1 + gas) _ (fun _ => True));
    [lia|exact Hx|]|..].
  { apply wp_bind, wp_get. apply inv_read; [by destruct Hx as [_ []]|done]. }
  2:{ intros e x' Hs. eapply env_step_mono; [|exact Hs]. lia. }
  intros nonce x1 [_ Hx1]. apply wp_match_ok.
  eapply wp_conseq; [apply (wp_state_method (n + gas) (n + 1 + gas) _ (fun _ => True)); [lia|apply Hx1|]|..].
  { eapply wp_conseq; [apply (inv_inc_nonce (n + gas)); [lia|]|by intros ? ? []|by intros ? ? []].
    rw (_ : n + gas + 1 = n + 1 + gas); [lia|]. by destruct Hx1 as [[_ []] _]. }
  2:{ intros e x' Hs. eapply ext_step_trans; [exact Hx1|]. eapply env_step_mono; [|exact Hs]. lia. }
  intros _ x2 [_ Hx2]. eapply ext_step_trans in Hx2; [|exact Hx1]. apply wp_match_ok.
  set (params := ActionParams.mk _ _ _ _ _ _ _ _ _ _ _).
  pose proof (Hcreate C n params (e_world x2) C_small Hn (e_world_ok _ _ (proj1 Hx2))) as Hc.
  assert (Hp : params_ok params).
  { destruct Horigin. split; try done; cbn; [apply contract_address_fits|split; lia]. }
  eapply wp_conseq; [apply wp_on_world, (Hc Hp Hg2); by eexists|..].
  - intros g x3 (w & [Hg Hw] & ->). pose proof (env_step _ _ _ (proj1 Hx2) (n + g) ltac:(lia) Hw) as Hx3.
    eapply ext_step_trans in Hx3; [|exact Hx2]. apply wp_bind.
    eapply wp_conseq; [apply (on_substate_ok (n + g) (n + g)); [lia|apply Hx3|]|..]; [|  |done].
    + by destruct (w_substate_ok _ _ _ (e_world_ok _ _ (proj1 Hx3))).
    + intros u x4 Hx4. apply wp_ret. split; [apply contract_address_fits|]. split; [done|].
      by eapply ext_step_trans.
  - intros e x3 (w & [Hw _] & ->). eapply ext_step_trans; [exact Hx2|]. by eapply env_step; [apply Hx2|..].
Qed.

Lemma wp_on_world_output {E A} (c : M E (Worldt * BytesRef) A) output (Q : A -> Worldt * BytesRef -> Prop)
    (R : E -> Worldt * BytesRef -> Prop) x :
  wp c Q R (e_world x, Fixed output) ->
  wp (on_world_output c output)
    (fun ro x' => exists w o, ro.2 = bytes_of_ref o /\ x' = with_world x w /\
       match ro.1 with Ok a => Q a (w, o) | Err e => R e (w, o) | Panic => False end)
    (fun (_ : E) _ => False) x.
Proof using.
  rw /wp /on_world_output. destruct (c (e_world x, Fixed output)) as [[a|e|] [w o]]; [by exists w, o..|done].
Qed.

Lemma env_call_ok n gas sender receive value data code_address output ct x :
  0 <= n -> fits 64 gas -> fits 160 sender -> fits 160 receive ->
  match value with Some v => fits 256 v | None => True end -> vec_ok data -> bytes_ok output ->
  d < Schedule.max_depth Schedule.new_frontier -> env_ok (n + gas) x ->
  wp (env_call sub gas sender receive value data code_address output ct)
    (fun r x' => length r.2 = length output /\ bytes_ok r.2 /\
       match r.1 with
       | CallSuccess g => 0 <= g <= gas /\ ext_step (env_ok (n + g)) x x'
       | CallFailed => ext_step (env_ok n) x x'
       end) (fun _ _ => True) x.
Proof using HUok HLok C_small Horigin Hsub.
  intros Hn [Hg1 Hg2] Hsender Hrec Hv Hdata Hout Hd Hx. pose proof (Hsub Hd) as [Hcall _].
  apply wp_bind, wp_gets, wp_bind, wp_gets. rw (e_depth_ok _ _ Hx) (e_origin_ok _ _ Hx).
  apply wp_match_ok. eapply wp_conseq; [apply (wp_state_method (n + gas) (n + gas));
    [lia|exact Hx|apply inv_code_and_hash; by destruct Hx as [_ []]]|..].
  2:{ intros e x' Hs. split; [done|]. split; [done|]. eapply env_step_mono; [|exact Hs]. lia. }
  intros [code hash] x1 [Hcode Hx1]. apply wp_match_ok. cbn [fst snd] in Hcode.
  set (params := ActionParams.mk _ _ _ _ _ _ _ _ _ _ _).
  assert (Hp : params_ok params).
  { destruct Horigin. split; try done; cbn; [split; lia|by destruct value|by destruct code; [apply Hcode|]]. }
  assert (Hhash : forall c, ActionParams.code params = Some c -> ActionParams.code_hash params = crypt_hash c).
  { cbn. intros c ->. apply Hcode. }
  eapply wp_conseq; [apply wp_on_world_output, (Hcall C n params (e_world x1)); try done;
    by apply (e_world_ok _ _ (proj1 Hx1))| |done].
  intros [r out'] x2 (w & o & Ho & -> & Hr). cbn [fst snd] in Hr, Ho. subst out'. apply wp_ret. cbn [fst snd].
  assert (Hsame : ref_same (Fixed output) o) by (destruct r; destruct_and?; done).
  destruct o as [s|]; [|done]. split; [apply Hsame|]. split; [apply Hsame|].
  destruct r as [g|e|]; [|..|done].
  - destruct Hr as (Hg & Hw & _). split; [done|]. eapply ext_step_trans; [exact Hx1|].
    eapply env_step; [apply Hx1|lia|done].
  - destruct Hr as [[Hw _] _]. eapply ext_step_trans; [exact Hx1|]. by eapply env_step; [apply Hx1|..].
Qed.

#[local] Instance env_ext_ok : ExternalitiesOk Envt env_ok.
Proof using HUok HLok C_small Horigin Hsub Hinfo.
  split.
  - intros. by eapply env_ok_mono.
  - intros n k x Hx. pose proof Hx as [Hn [Hs _ _] _ _ _ _]. apply (wp_state_method n n); [lia|done|].
    by apply inv_storage_at.
  - intros n k v Hv. by apply env_set_storage_ok.
  - intros n a x Hx. by apply (wp_read_method n).
  - intros n a x Hx. by apply (wp_read_method n).
  - intros n x Hx. by apply wp_ret.
  - intros n a x Hx. by apply wp_ret.
  - intros. by apply blockhash_ok'.
  - intros n gas value code x Hn Hgas Hv Hcode Hd Hx. cbn in Hd. rw (e_depth_ok _ _ Hx) in Hd.
    by apply env_create_ok.
  - intros n gas sender rec value data ca out' ct x Hn Hgas ? ? ? ? ? ? Hd Hx.
    cbn in Hd. rw (e_depth_ok _ _ Hx) in Hd. by apply env_call_ok.
  - intros n a x Hx. apply wp_bind. eapply wp_conseq;
      [apply (wp_read_method n a RequireCode _ (fun c => vec_ok (default [] c))); [exact Hx|]|..]; [| |done].
    + intros [acc|] Hacc; [|by split; [constructor|]]. specialize (Hacc acc eq_refl). cbn.
      rw /Account.code. case_match; [by split; [constructor|]|]. by destruct Hacc.
    + intros c x' [Hc Hx']. by apply wp_ret.
  - intros n a x Hx. apply wp_bind. eapply wp_conseq;
      [apply (wp_read_method n a RequireCodeSize _ (fun c => fits 64 (default 0 c))); [exact Hx|]|..]; [| |done].
    + intros [acc|] Hacc; [|done]. specialize (Hacc acc eq_refl). cbn.
      destruct (Account.code_size acc) as [z|] eqn:Hz; [|done]. by apply (acc_code_size _ _ Hacc).
    + intros c x' [Hc Hx']. by apply wp_ret.
  - apply env_log_ok.
  - apply env_suicide_ok.
  - apply env_inc_sstore_clears_ok.
  - intros n pc i g x Hx. by apply wp_ret.
  - intros n g s m st x Hx. by apply wp_ret.
  - intros. apply frontier_ok.
  - intros. by destruct Hinfo.
Qed.

#[local] Instance env_cache_ok : CacheStoreOk the_ext HJ env_cache crypt_hash env_ok.
Proof using.
  split.
  - intros n x Hx. by destruct (e_world_ok _ _ Hx).
  - intros n x c Hx Hc. pose proof Hx as [Hn [Hs _ Hsu] _ _ _ _]. eapply env_step; [done|done|].
    split; [by split|done].
Qed.

(** ** The end of a run *)
Definition policy_same (p p' : OutputPolicy) : Prop :=
  match p, p' with
  | ReturnTo o, ReturnTo o' => ref_same o o'
  | InitContract, InitContract => True
  | _, _ => False
  end.

Definition policy_ok (p : OutputPolicy) : Prop :=
  match p with ReturnTo o => ref_ok o | InitContract => True end.

(** The world a run leaves behind. *)
Definition left_ok (n : Z) (wo : Worldt * OutputPolicy) : Prop :=
  world_ok C n wo.1 /\ moved s0 (w_state wo.1) /\ policy_same out wo.2.

Lemma left_ok_env n m x : 0 <= m <= n -> policy_ok out -> env_ok n x -> left_ok m (e_world x, e_output x).
Proof using.
  intros Hmn Hout []. split; [by eapply world_ok_mono|]. split; [done|]. cbn. rw e_output_ok0.
  destruct out; [by apply ref_same_refl|done].
Qed.

Lemma wp_env_ret N gas data x :
  0 <= N -> 0 <= gas -> vec_ok data -> policy_ok out -> env_ok (N + gas) x ->
  wp (env_ret gas data)
    (fun g x' => 0 <= g <= gas /\ left_ok (N + g) (e_world x', e_output x'))
    (fun _ x' => left_ok N (e_world x', e_output x')) x.
Proof using HUok HLok sub info encode_address_nonce.
  intros HN Hg Hdata Hout Hx. pose proof Hdata as [Hd Hdlen]. rw /wp /env_ret.
  pose proof Hx as [_ Hw Ho _ _ Hf]. rw Ho.
  assert (Hkeep : left_ok (N + gas) (e_world x, e_output x)) by (eapply left_ok_env; [|done..]; lia).
  destruct out as [[s|v]|] eqn:Hpol; cbv beta iota zeta.
  - split; [lia|]. split; [done|]. split; [done|]. rw Hpol. cbn.
    split; [rw length_app length_take length_drop; lia|].
    apply Forall_app. split; [by apply Forall_take|by apply Forall_drop].
  - split; [lia|]. split; [done|]. split; [done|]. by rw Hpol.
  - pose proof (zlen_nonneg data). rw mul_ok; [cbn; lia|].
    destruct (_ || _) eqn:Hb; [split; [lia|done]|].
    set (cost := zlen data * _) in *. apply orb_false_iff in Hb as [Hb%Z.ltb_ge _].
    assert (Hc : 0 <= cost) by (unfold cost; cbn; lia). apply wp_bind, wp_map_err.
    eapply wp_conseq; [apply (wp_state_method (N + gas) (N + gas) _ (fun _ => True)); [lia|exact Hx|]|..].
    + eapply wp_conseq; [apply (inv_init_code (N + gas)); [lia|by destruct Hw|done]|by split|done].
    + intros u x' [_ Hx']. apply wp_lift. rw sub_ok; [done|]. cbn [owp]. split; [lia|].
      eapply left_ok_env; [|by rw Hpol|apply Hx']. lia.
    + intros e x' Hx'. eapply left_ok_env; [|by rw Hpol|apply Hx']. lia.
Qed.

(** A run in the environment, finalized. *)
Lemma wp_finalized N gas (c : M Error Envt GasLeft) x :
  0 <= N -> policy_ok out -> env_ok (N + gas) x ->
  wp c (fun r x' => 0 <= gas_left r <= gas /\ output_ok r /\ ext_step (env_ok (N + gas_left r)) x x')
    (fun _ x' => ext_step (env_ok N) x x') x ->
  wp (fun x => let '(r, x) := c x in finalize r x)
    (fun g x' => 0 <= g <= gas /\ left_ok (N + g) (e_world x', e_output x'))
    (fun _ x' => left_ok N (e_world x', e_output x')) x.
Proof using HUok HLok.
  intros HN Hout Hx Hc. rw /wp in Hc |- *. destruct (c x) as [[r|e|] x']; [|..|done].
  - destruct Hc as (Hr & Ho & Hs). destruct r as [g|g data]; cbn in Hr.
    + cbn. split; [done|]. eapply left_ok_env; [|done|apply Hs]. cbn. lia.
    + eapply wp_conseq; [apply (wp_env_ret N g); [done|lia|done|done|apply Hs]| |done].
      intros g' x'' [? ?]. split; [lia|done].
  - cbn. eapply left_ok_env; [|done|apply Hc]. lia.
Qed.
End environment.

(** ** Checkpoints around a call *)
(** The world a call starts from. *)
Definition entered (w : Worldt) : Worldt := with_state w (State.checkpoint (w_state w)).

Lemma unconfirmed_ok C n w : 0 <= n -> world_ok C n w -> world_ok n n (with_substate (entered w) Substate.new).
Proof using.
  intros Hn [Hs Hj _]. split; cbn; [by apply inv_checkpoint|done|]. split; cbn; [lia|lia|by intros a ?%not_elem_of_empty].
Qed.

(** Accruing what the callee used up is covered by the budget it was given. *)
Lemma accrue_ok C B n p c : C < 2 ^ 256 -> 0 <= n -> substate_ok C B p -> substate_ok B n c ->
  exists s, Substate.accrue (E := void) p c = Ok s /\ substate_ok C n s.
Proof using.
  intros HC Hn [] []. rw /Substate.accrue add_ok; [lia|]. eexists. split; [done|].
  split; cbn; [lia|lia|]. intros a [?|?]%elem_of_union; auto.
Qed.

Lemma enact_result_ok C B n res w w' : C < 2 ^ 256 -> 0 <= n ->
  world_ok C B w -> world_step B n (with_substate (entered w) Substate.new) w' ->
  (res <> Panic) ->
  exists w'', enact_result res (w_substate w') (with_substate w' (w_substate w)) = Ok w'' /\
    world_step C n w w'' /\ forall e, res = Err e -> failed_step C n w e w''.
Proof using HUok HLok.
  intros HC Hn Hw [[Hs Hj Hsub] Hf] Hres. cbn in Hf. pose proof (w_substate_ok _ _ _ Hw) as Hp.
  destruct (accrue_ok C B n _ _ HC Hn Hp Hsub) as (su & Hacc & Hsu).
  assert (Hn' : n <= B) by (destruct Hsub; lia).
  set (wd := World (State.discard_checkpoint (w_state w')) (w_jumps w') su).
  assert (Hdiscard : world_step C n w wd).
  { destruct (inv_discard n (w_state w) (w_state w')) as [Hd Hm]; [done..|]. split; [by split|done]. }
  set (wr := with_state (with_substate w' (w_substate w)) (State.revert_to_checkpoint (w_state w'))).
  destruct (inv_revert n (w_state w) (w_state w')) as [[Hd Hm] Hr]; [done..|].
  assert (Hrevert : world_step C n w wr).
  { split; [|done]. split; [done|done|]. cbn. eapply substate_ok_mono; [|exact Hp]. lia. }
  destruct res as [g|e|]; [|destruct e|done]; cbn [enact_result]; rw ?Hacc; eexists;
    (split; [done|]; split; [done|]); intros e' [= <-]; done.
Qed.

Lemma wp_confirmed {O} C N gas (c : M Error (Worldt * O) U256) (P : O -> Prop) w o :
  C < 2 ^ 256 -> 0 <= N -> 0 <= gas -> world_ok C (N + gas) w ->
  (forall w1, world_ok (N + gas) (N + gas) w1 -> w1 = with_substate (entered w) Substate.new ->
    wp c (fun g wo => 0 <= g <= gas /\ world_step (N + gas) (N + g) w1 wo.1 /\ P wo.2)
      (fun _ wo => world_step (N + gas) N w1 wo.1 /\ P wo.2) (w1, o)) ->
  wp (confirmed c) (fun g wo => 0 <= g <= gas /\ world_step C (N + g) w wo.1 /\ P wo.2)
    (fun e wo => failed_step C N w e wo.1 /\ P wo.2) (entered w, o).
Proof using HUok HLok.
  intros HC HN Hgas Hw Hc. specialize (Hc _ (unconfirmed_ok C (N + gas) w ltac:(lia) Hw) eq_refl).
  rw /wp /confirmed in Hc |- *.
  destruct (c (with_substate (entered w) Substate.new, o)) as [[g|e|] [w' o']]; [|..|done].
  - destruct Hc as (Hg & Hs & HP). change (w_substate (entered w)) with (w_substate w).
    destruct (enact_result_ok C (N + gas) (N + g) (Ok g) w w') as (w'' & -> & ? & _); [done|lia|done..|].
    by split; [|split].
  - destruct Hc as (Hs & HP). change (w_substate (entered w)) with (w_substate w).
    destruct (enact_result_ok C (N + gas) N (Err e) w w') as (w'' & -> & _ & Hf); [done..|].
    split; [by apply Hf|done].
Qed.

Lemma wp_traced {S} gas (c : M Error S U256) (Q : U256 -> S -> Prop) R s :
  wp c (fun g s => 0 <= g <= gas /\ Q g s) R s -> wp (traced gas c) Q R s.
Proof using.
  rw /wp /traced. destruct (c s) as [[g|e|] s']; [|done|done]. intros [Hg HQ]. cbn.
  by rw sub_ok; [lia|].
Qed.

Lemma wp_update_state {O} (f : State.t D L -> State.t D L) (w : Worldt) (o : O) (Q : unit -> Worldt * O -> Prop) R :
  Q tt (with_state w (f (w_state w)), o) -> wp (update_state f) Q R (w, o).
Proof using. done. Qed.

(** ** Running contracts *)
Section runs.
  Context (depth : Z) (sub : Subs) (Hsub : answers depth sub).

Abbreviation Ext := (env_ext encode_address_nonce info sub).

Definition run_post (C N gas : Z) (w : Worldt) (o : OutputPolicy) (g : Z) (wo : Worldt * OutputPolicy) : Prop :=
  0 <= g <= gas /\ world_step C (N + g) w wo.1 /\ policy_same o wo.2.

Lemma wp_in_externalities C N params w o (c : M Error Envt GasLeft) :
  0 <= N -> world_ok C (N + ActionParams.gas params) w -> params_ok params -> policy_ok o ->
  (forall I, I = env_ok C o depth (OriginInfo.from params) (w_state w) ->
   forall x, I (N + ActionParams.gas params) x ->
   wp c (fun r x' => 0 <= gas_left r <= ActionParams.gas params /\ output_ok r /\
           ext_step (H := Ext) (I (N + gas_left r)) x x')
        (fun _ x' => ext_step (H := Ext) (I N) x x') x) ->
  wp (in_externalities encode_address_nonce info sub depth params c)
    (run_post C N (ActionParams.gas params) w o)
    (fun _ wo => world_step C N w wo.1 /\ policy_same o wo.2) (w, o).
Proof using HUok HLok.
  intros HN Hw Hp Ho Hc. set (x := Env w o depth (OriginInfo.from params)).
  pose proof (ok_gas _ Hp) as [Hg _].
  assert (Hx : env_ok C o depth (OriginInfo.from params) (w_state w) (N + ActionParams.gas params) x).
  { split; try done. lia. }
  pose proof (wp_finalized C o depth (OriginInfo.from params) (w_state w) sub N _ c x HN Ho Hx
    (Hc _ eq_refl x Hx)) as Hf.
  rw /in_externalities /wp in Hf |- *. fold x. destruct (c x) as [r x1].
  destruct (finalize r x1) as [[g|e|] x2]; [|..|done].
  - destruct Hf as (? & ? & ? & ?). split; [done|]. split; [by split|done].
  - destruct Hf as (? & ? & ?). split; [by split|done].
Qed.

Lemma wp_exec_vm C N params w o code :
  C < 2 ^ 256 -> 0 <= N -> world_ok C (N + ActionParams.gas params) w -> params_ok params ->
  ActionParams.gas params < 2 ^ 64 -> policy_ok o ->
  ActionParams.code params = Some code -> ActionParams.code_hash params = crypt_hash code ->
  wp (exec_vm sha3 encode_address_nonce LOCAL_STACK_SIZE info sub depth params)
    (run_post C N (ActionParams.gas params) w o)
    (fun _ wo => world_step C N w wo.1 /\ policy_same o wo.2) (w, o).
Proof using HUok HLok HJok sha3_fits stack_size_ok Hinfo Hsub.
  intros HC HN Hw Hp Hgas Ho Hcode Hhash. pose proof (ok_gas _ Hp) as [Hg _].
  apply wp_bind, wp_lift, owp_assert.
  { apply negb_true_iff, Z.eqb_neq. assert (0 < STACK_SIZE_PER_DEPTH) by done.
    pose proof (Z.div_str_pos LOCAL_STACK_SIZE STACK_SIZE_PER_DEPTH). lia. }
  apply wp_in_externalities; [done..|]. intros I -> x Hx. rw /factory_exec /can_fit_in_usize.
  rw low_u64_small; [split; lia|]. rw Z.eqb_refl.
  assert (Horigin : origin_ok (OriginInfo.from params)) by (destruct Hp; by split).
  apply (wp_exec (HXok := env_ext_ok C HC o depth _ Horigin (w_state w) sub Hsub)
    (HSok := env_cache_ok C o depth (OriginInfo.from params) (w_state w) sub)
    _ sha3 sha3_fits HASH_EMPTY crypt_hash) with (code := code); try done; lia.
Qed.

Lemma wp_returning (c : M Error (Worldt * OutputPolicy) U256) (Q : U256 -> Worldt -> Prop)
    (R : Error -> Worldt -> Prop) w o :
  wp c (fun g wo => Q g wo.1 /\ policy_same (ReturnTo o) wo.2)
    (fun e wo => R e wo.1 /\ policy_same (ReturnTo o) wo.2) (w, ReturnTo o) ->
  wp (returning c) (fun g wo => Q g wo.1 /\ ref_same o wo.2) (fun e wo => R e wo.1 /\ ref_same o wo.2) (w, o).
Proof using.
  rw /wp /returning. destruct (c (w, ReturnTo o)) as [[g|e|] [w' [o'|]]]; cbn; [done|by intros []|done|by intros []|done..].
Qed.

Lemma wp_initialising (c : M Error (Worldt * OutputPolicy) U256) (Q : U256 -> Worldt -> Prop)
    (R : Error -> Worldt -> Prop) w u :
  wp c (fun g wo => Q g wo.1) (fun e wo => R e wo.1) (w, InitContract) ->
  wp (initialising c) (fun g wo => Q g wo.1) (fun e wo => R e wo.1) (w, u).
Proof using.
  rw /wp /initialising. by destruct (c (w, InitContract)) as [[g|e|] [w' o']].
Qed.

(** The checkpoint of a call that does not run code is dropped. *)
Lemma dropped_ok C n w : world_ok C n w ->
  world_step C n w (with_state (entered w) (State.discard_checkpoint (w_state (entered w)))).
Proof using HUok HLok.
  intros [Hs Hj Hw]. destruct (inv_discard n (w_state w) (State.checkpoint (w_state w))) as [Hd Hm];
    [by apply inv_checkpoint|done|]. split; [by split|done].
Qed.

Lemma undone_ok C n e w : 0 <= n -> world_ok C n w -> forall m, 0 <= m <= n ->
  failed_step C m w e (with_state (entered w) (State.revert_to_checkpoint (w_state (entered w)))).
Proof using HUok HLok.
  intros Hn [Hs Hj Hw] m Hm. destruct (inv_revert m (w_state w) (State.checkpoint (w_state w)))
    as [[Hd Hmv] Hr]; [apply inv_checkpoint; by eapply inv_le|done|].
  split; [|done]. split; [|done]. split; [done|done|]. by eapply substate_ok_mono.
Qed.

Lemma wp_call_builtin C N params w o :
  0 <= N -> world_ok C (N + ActionParams.gas params) w -> params_ok params -> ref_ok o ->
  is_builtin engine (ActionParams.code_address params) = true ->
  wp (call_builtin engine params)
    (fun g wo => 0 <= g <= ActionParams.gas params /\ world_step C (N + g) w wo.1 /\ ref_same o wo.2)
    (fun e wo => failed_step C N w e wo.1 /\ ref_same o wo.2) (entered w, o).
Proof using HUok HLok Hengine.
  intros HN Hw Hp Ho [b Hb]%bool_decide_eq_true_1. destruct (Hengine _ _ Hb) as [Hcost Hexec].
  destruct (ok_gas _ Hp) as [Hg _]. rw /call_builtin /cost_of_builtin /execute_builtin Hb.
  apply wp_bind, wp_lift. cbn [owp expect obind]. set (data := default [] _).
  assert (Hdata : bytes_ok data).
  { pose proof (ok_data _ Hp) as Hd. unfold data. destruct (ActionParams.data params); [apply Hd|constructor]. }
  specialize (Hcost (zlen data) (Nat2Z.is_nonneg _)). destruct (Z.leb_spec (builtin_cost b (zlen data)) (ActionParams.gas params)).
  - apply wp_bind, wp_get, wp_bind, wp_lift. cbn [owp]. apply wp_bind, wp_modify, wp_bind, wp_update_state, wp_lift.
    rw sub_ok; [done|]. cbn [owp]. split; [lia|]. split; [|by apply Hexec].
    eapply world_step_mono; [|apply (dropped_ok _ _ _ Hw)]. lia.
  - apply wp_bind, wp_update_state. split; [|by apply ref_same_refl].
    apply (undone_ok C (N + ActionParams.gas params)); [lia|done|lia].
Qed.

Lemma wp_call_code C N params w o :
  C < 2 ^ 256 -> 0 <= N -> world_ok C (N + ActionParams.gas params) w -> params_ok params ->
  ActionParams.gas params < 2 ^ 64 ->
  (forall code, ActionParams.code params = Some code -> ActionParams.code_hash params = crypt_hash code) ->
  ref_ok o ->
  wp (call_code sha3 encode_address_nonce LOCAL_STACK_SIZE info sub depth params)
    (fun g wo => 0 <= g <= ActionParams.gas params /\ world_step C (N + g) w wo.1 /\ ref_same o wo.2)
    (fun e wo => failed_step C N w e wo.1 /\ ref_same o wo.2) (entered w, o).
Proof using HUok HLok HJok sha3_fits stack_size_ok Hinfo Hsub.
  intros HC HN Hw Hp Hgas Hhash Ho. pose proof (ok_gas _ Hp) as [Hg _]. rw /call_code.
  destruct (ActionParams.code params) as [code|] eqn:Hcode.
  - apply wp_confirmed; [done..|]. intros w1 Hw1 _. apply wp_traced.
    assert (HC' : N + ActionParams.gas params < 2 ^ 256) by (destruct Hw as [_ _ []]; lia).
    eapply wp_conseq; [apply (wp_returning _
      (fun g w' => 0 <= g <= ActionParams.gas params /\ world_step (N + ActionParams.gas params) (N + g) w1 w')
      (fun _ w' => world_step (N + ActionParams.gas params) N w1 w'))|..].
    + eapply wp_conseq; [apply (wp_exec_vm (N + ActionParams.gas params) N params w1 (ReturnTo o) code);
        try done; by apply Hhash| |done].
      intros g wo (? & ? & ?). done.
    + intros g wo [[? ?] ?]. done.
    + done.
  - apply wp_bind, wp_update_state, wp_ret. split; [lia|]. split; [by apply dropped_ok|by apply ref_same_refl].
Qed.

Lemma call_ok' : call_spec (Call sub depth).
Proof using HUok HLok HJok sha3_fits stack_size_ok Hinfo Hsub Hengine Hnative.
  intros C N params w o HC HN Hw Hp Hgas Hhash Ho. pose proof (ok_gas _ Hp) as [Hg _].
  apply wp_bind, wp_update_state. fold (entered w).
  set (otherwise := if is_builtin _ _ then _ else _).
  assert (Hother : wp otherwise
    (fun g wo => 0 <= g <= ActionParams.gas params /\ world_step C (N + g) w wo.1 /\ ref_same o wo.2)
    (fun e wo => failed_step C N w e wo.1 /\ ref_same o wo.2) (entered w, o)).
  { rw /otherwise. destruct (is_builtin _ _) eqn:Hb; [by apply wp_call_builtin|by apply wp_call_code]. }
  rw /native_new_contract. destruct (native_factory !! _) as [contract|] eqn:Hc; [|done].
  destruct (100 <=? ActionParams.gas params); [|done]. clear otherwise Hother.
  apply wp_confirmed; [done..|]. intros w1 Hw1 _.
  assert (HC' : N + ActionParams.gas params < 2 ^ 256) by (destruct Hw as [_ _ []]; lia).
  assert (Horigin : origin_ok (OriginInfo.from params)) by (destruct Hp; by split).
  eapply wp_conseq; [apply (wp_returning _
    (fun g w' => 0 <= g <= ActionParams.gas params /\ world_step (N + ActionParams.gas params) (N + g) w1 w')
    (fun _ w' => world_step (N + ActionParams.gas params) N w1 w'))|..].
  - eapply wp_conseq; [apply (wp_in_externalities (N + ActionParams.gas params) N params w1 (ReturnTo o)); try done| |done].
    + intros I -> x Hx. apply (Hnative _ _ Hc); try done. by apply env_ext_ok.
    + intros g wo (? & ? & ?). done.
  - intros g wo [[? ?] ?]. done.
  - done.
Qed.

Lemma wp_on_fst {E A O} (c : M E Worldt A) (Q : A -> Worldt -> Prop) (R : E -> Worldt -> Prop) w (o : O) :
  wp c Q R w -> wp (on_fst c) (fun a wo => Q a wo.1 /\ wo.2 = o) (fun e wo => R e wo.1) (w, o).
Proof using. rw /wp /on_fst. by destruct (c w) as [[a|e|] w']. Qed.

Lemma wp_create_inner B N params w code :
  B = N + ActionParams.gas params -> B < 2 ^ 256 -> 0 <= N -> world_ok B B w -> params_ok params ->
  ActionParams.gas params < 2 ^ 64 ->
  ActionParams.code params = Some code -> ActionParams.code_hash params = crypt_hash code ->
  wp (_ <~ on_fst (smap_err Error_from (on_state (State.new_contract (ActionParams.address params) 0))) ;;
      _ <~ slift (expect (ActionParams.code params)) ;;
      traced (ActionParams.gas params)
        (initialising (exec_vm sha3 encode_address_nonce LOCAL_STACK_SIZE info sub depth params)))
    (fun g wo => 0 <= g <= ActionParams.gas params /\ world_step B (N + g) w wo.1 /\ True)
    (fun _ wo => world_step B N w wo.1 /\ True) (w, tt).
Proof using HUok HLok HJok sha3_fits stack_size_ok Hinfo Hsub.
  intros -> HC HN Hw Hp Hgas Hcode Hhash. pose proof (ok_gas _ Hp) as [Hg _].
  set (B := N + ActionParams.gas params) in *. assert (HB : 0 <= N <= B) by (unfold B; lia). apply wp_bind.
  eapply wp_conseq; [apply (wp_on_fst _ (fun _ w' => True /\ world_step B B w w') (fun _ w' => world_step B B w w')),
    wp_map_err, (wp_on_state B B B _ (fun _ => True)); [lia|done|]|..].
  - eapply wp_conseq; [apply (inv_new_contract B); [lia|by destruct Hw]|by split|done].
  - intros u [w1 o1] [[_ Hw1] Ho1]. cbn [fst snd] in *. subst o1. apply wp_bind, wp_lift. rw Hcode.
    cbn [owp expect]. apply wp_traced. eapply wp_conseq; [apply (wp_initialising _
      (fun g w' => 0 <= g <= ActionParams.gas params /\ world_step B (N + g) w1 w')
      (fun _ w' => world_step B N w1 w'))|..].
    + eapply wp_conseq; [apply (wp_exec_vm B N params w1 InitContract code); try done; apply Hw1|..].
      * intros g wo (? & ? & ?). done.
      * intros e wo [? ?]. done.
    + intros g wo [Hg' Hs]. split; [done|]. split; [done|]. split; [|done]. by eapply world_step_trans.
    + intros e wo Hs. split; [|done]. by eapply world_step_trans.
  - intros e wo Hs. split; [|done]. eapply world_step_mono; [|exact Hs]. done.
Qed.

Lemma create_ok' : create_spec (Create sub depth).
Proof using HUok HLok HJok sha3_fits stack_size_ok Hinfo Hsub.
  intros C N params w HC HN Hw Hp Hgas (code & Hcode & Hhash). pose proof (ok_gas _ Hp) as [Hg _].
  assert (HC' : N + ActionParams.gas params < 2 ^ 256) by (destruct Hw as [_ _ []]; lia).
  rw /create_ /wp. set (c := sbind _ _). assert (H : wp c
    (fun g wo => 0 <= g <= ActionParams.gas params /\ world_step C (N + g) w wo.1 /\ True)
    (fun e wo => failed_step C N w e wo.1 /\ True) (w, tt)).
  { apply wp_bind, wp_update_state. fold (entered w). apply (wp_confirmed _ _ _ _ (fun _ => True)); [done..|].
    intros w1 Hw1 _. by eapply wp_create_inner. }
  rw /wp in H. destruct (c (w, tt)) as [[g|e|] [w' []]]; [|..|done].
  - destruct H as (? & ? & _). done.
  - by destruct H.
Qed.
End runs.

(** ** The executive *)

(** [fuel] levels answer every call from a depth that leaves room for them. *)
Lemma executive_ok fuel d :
  Schedule.max_depth Schedule.new_frontier <= d + Z.of_nat fuel ->
  answers d (executive sha3 encode_address_nonce LOCAL_STACK_SIZE engine native_factory info fuel).
Proof using HUok HLok HJok sha3_fits stack_size_ok Hinfo Hengine Hnative.
  revert d. induction fuel as [|fuel IH]; intros d Hd Hmax; [lia|]. cbn [executive sub_call sub_create].
  assert (Hsub : answers (d + 1) (executive sha3 encode_address_nonce LOCAL_STACK_SIZE engine
    native_factory info fuel)) by (apply IH; lia).
  split; [by apply call_ok'|by apply create_ok'].
Qed.

Abbreviation Top := (top_level sha3 encode_address_nonce LOCAL_STACK_SIZE engine native_factory info).

Lemma top_level_ok : call_spec (sub_call Top 0) /\ create_spec (sub_create Top 0).
Proof using HUok HLok HJok sha3_fits stack_size_ok Hinfo Hengine Hnative.
  apply (executive_ok _ (-1)); [|done]. rw Nat2Z.inj_succ Z2Nat.id; [done|]. lia.
Qed.

(** ** Transactions *)
Record tx_ok (t : SignedTransaction) : Prop := {
  tx_gas_ok : fits 64 (tx_gas t);
  tx_fee_ok : 0 <= tx_gas_price t /\ tx_gas t * tx_gas_price t < 2 ^ 256;
  tx_gas_price_ok : fits 256 (tx_gas_price t);
  tx_value_ok : fits 256 (tx_value t);
  tx_data_ok : vec_ok (tx_data t);
  tx_sender_ok : fits 160 (tx_sender t);
  tx_action_ok : match tx_action t with ActCall a => fits 160 a | _ => True end;
  (** the zero sender is not checked for the base gas *)
  tx_base_ok : tx_sender t = 0 -> tx_action t <> ActStore -> base_gas_required <= tx_gas t;
}.

Abbreviation Sessiont := (session (L := L) (D := D) (J := J)).

(** Transactions start where there is nothing to revert. *)
Record session_ok (n : Z) (s : Sessiont) : Prop := {
  ses_state_ok : inv n (ses_state s);
  ses_jumps_ok : SharedCache.cache_ok crypt_hash (ses_jumps s);
  ses_checkpoints : State.checkpoints (ses_state s) = [];
}.

Lemma no_checkpoints (s s' : State.t D L) : moved s s' -> State.checkpoints s = [] -> State.checkpoints s' = [].
Proof using. intros [(Hlen & _) _] Hs. rw Hs in Hlen. by apply nil_length_inv. Qed.

(** The transaction changes in its account nonce only. *)
Definition session_step (n : Z) (s s' : Sessiont) : Prop :=
  session_ok n s' /\ moved (ses_state s) (ses_state s') /\
  exists nonce, ses_tx s' = set_account_nonce (ses_tx s) nonce.

Lemma session_step_refl n s : session_ok n s -> session_step n s s.
Proof using. intros Hs. split; [done|]. split; [done|]. exists (tx_account_nonce (ses_tx s)). by destruct (ses_tx s). Qed.

Lemma session_step_trans m n s1 s2 s3 : session_step m s1 s2 -> session_step n s2 s3 -> session_step n s1 s3.
Proof using.
  intros (_ & ? & n1 & H1) (? & ? & n2 & H2). split; [done|]. split; [by eapply moved_trans|].
  exists n2. by rw H2 H1.
Qed.

Lemma session_ok_mono m n s : 0 <= m <= n -> session_ok n s -> session_ok m s.
Proof using. intros ? []. split; [by eapply inv_le|done|done]. Qed.

Lemma session_step_mono m n s s' : 0 <= m <= n -> session_step n s s' -> session_step m s s'.
Proof using. intros ? (? & ? & ?). split; [by eapply session_ok_mono|done]. Qed.

(** Errors that refuse a transaction. *)
Definition rejected (e : ExecutionError) : bool := match e with ExInternal _ => false | _ => true end.

Lemma wp_ses_on_state {A} m n (c : M TrieError (State.t D L) A) (P : A -> State.t D L -> Prop)
    (R : State.t D L -> Prop) s :
  0 <= m <= n -> session_ok n s ->
  wp c (fun a s' => P a s' /\ inv_step m (ses_state s) s') (fun _ s' => inv_step m (ses_state s) s' /\ R s')
    (ses_state s) ->
  wp (ses_on_state c) (fun a s' => P a (ses_state s') /\ session_step m s s' /\ ses_tx s' = ses_tx s)
    (fun e s' => session_step m s s' /\ R (ses_state s') /\ rejected e = false) s.
Proof using.
  intros Hmn [Hs Hj Hcp] Hc. rw /wp /ses_on_state in Hc |- *.
  assert (Htx : exists nonce, ses_tx s = set_account_nonce (ses_tx s) nonce).
  { exists (tx_account_nonce (ses_tx s)). by destruct (ses_tx s). }
  destruct (c (ses_state s)) as [[a|e|] st]; [|..|done].
  - destruct Hc as (? & ? & ?). split; [done|]. split; [|done].
    split; [split; [done|done|by eapply no_checkpoints]|]. by split.
  - destruct Hc as ([? ?] & ?). split; [|done]. split; [split; [done|done|by eapply no_checkpoints]|]. by split.
Qed.

(** The gas a transaction is charged. *)
Definition refund (t : SignedTransaction) (su : Substate.t) (left : Z) : Z :=
  Z.min (15000 * Substate.sstore_clears_count su + 24000 * Z.of_nat (size (Substate.suicides su)))
        ((tx_gas t - left) / 2).

Lemma settle_ok {E} t su res left :
  tx_ok t -> substate_ok (tx_gas t) 0 su -> left = match res with Ok x => x | _ => 0 end ->
  0 <= left <= tx_gas t ->
  settle (E := E) t su res = Ok (tx_gas t - (left + refund t su left), refund t su left) /\
  0 <= refund t su left /\ left + refund t su left <= tx_gas t.
Proof using.
  intros [[Hg1 Hg2] [Hp1 Hp2] _ _ _ _ _ _] [Hc1 Hc2 Hsu] Hleft Hl. rw /settle /refund -Hleft.
  pose proof (gset_size_bound (Substate.suicides su) (2 ^ 160) ltac:(lia) Hsu) as Hsize.
  set (k := Z.of_nat (size (Substate.suicides su))) in *. assert (Hk : 0 <= k) by (unfold k; lia).
  change (Schedule.sstore_refund_gas Schedule.new_frontier) with 15000.
  change (Schedule.suicide_refund_gas Schedule.new_frontier) with 24000.
  rw mul_ok; [lia|]. cbn [obind]. rw mul_ok; [lia|]. cbn [obind]. rw add_ok; [lia|]. cbn [obind].
  rw sub_ok; [lia|]. cbn [obind]. rw shiftr_div; [done|]. change (2 ^ 1) with 2.
  set (b := 15000 * _ + 24000 * k). assert (Hb : 0 <= b) by (unfold b; lia).
  pose proof (Z.div_pos (tx_gas t - left) 2 ltac:(lia) ltac:(lia)).
  pose proof (Z.mul_div_le (tx_gas t - left) 2 ltac:(lia)). set (r := Z.min b _).
  assert (Hr : 0 <= r /\ left + r <= tx_gas t) by (unfold r; lia). rw add_ok; [lia|]. cbn [obind].
  rw sub_ok; [lia|]. cbn [obind]. rw mul_ok; [nia|]. cbn [obind]. rw mul_ok; [nia|]. done.
Qed.

Lemma kill_accounts_ok n l s : inv n s -> State.checkpoints s = [] ->
  inv_step n s (fold_left State.kill_account l s).
Proof using.
  revert s. induction l as [|a l IH]; intros s Hs Hcp; [done|]. cbn [fold_left].
  destruct (inv_kill_account n a s Hs Hcp) as [Hk Hcp']. eapply inv_step_trans; [exact Hk|].
  apply IH; [apply Hk|done].
Qed.

Lemma ses_update_ok n f s :
  session_ok n s ->
  (forall st, inv n st -> State.checkpoints st = [] -> inv_step n st (f st)) ->
  wp (ses_update_state f) (fun _ s' => session_step n s s' /\ s' = Session (f (ses_state s)) (ses_jumps s) (ses_tx s))
    (fun _ _ => False) s.
Proof using.
  intros Hses Hf. apply wp_modify. destruct Hses as [Hs Hj Hcp], (Hf _ Hs Hcp) as [? ?].
  split; [|done]. split; [split; [done|done|by eapply no_checkpoints]|]. split; [done|].
  exists (tx_account_nonce (ses_tx s)). by destruct (ses_tx s).
Qed.

Lemma wp_collect n a s : 0 <= n -> session_ok n s ->
  wp (collect a) (fun _ s' => session_step n s s' /\ ses_tx s' = ses_tx s)
    (fun e s' => session_step n s s' /\ rejected e = false) s.
Proof using HUok HLok.
  intros Hn Hs. apply wp_bind.
  eapply wp_conseq; [apply (wp_ses_on_state n n _ (fun _ _ => True) (fun _ => True)); [lia|done|]| |by intros ? ? (? & ? & ?)].
  { eapply wp_conseq; [apply (inv_read n _ _ _ (fun _ => True)); [apply Hs|done]|done|done]. }
  intros b s1 (_ & Hs1 & Ht1). apply wp_bind.
  eapply (wp_conseq _ (fun _ s' => session_step n s s' /\ ses_tx s' = ses_tx s) _
    (fun e s' => session_step n s s' /\ rejected e = false)).
  { destruct b; [|by apply wp_ret]. apply wp_bind.
    eapply wp_conseq; [apply (wp_ses_on_state n n _ (fun _ _ => True) (fun _ => True)); [lia|apply Hs1|]|..].
    - eapply wp_conseq; [apply (inv_read n _ _ _ (fun _ => True)); [apply Hs1|done]|done|done].
    - intros b s2 (_ & Hs2 & Ht2). apply wp_ret. split; [by eapply session_step_trans|congruence].
    - intros e s2 (Hs2 & _ & ?). split; [by eapply session_step_trans|done]. }
  2:done. intros kill s2 [Hs2 Ht2]. destruct kill; [|by apply wp_ret].
  eapply wp_conseq; [apply (ses_update_ok n); [apply Hs2|]| |done].
  - intros st Hst Hcp. by apply inv_kill_account.
  - intros u s3 [Hs3 ->]. split; [by eapply session_step_trans|done].
Qed.

Lemma wp_collect_garbage n l s : 0 <= n -> session_ok n s ->
  wp (collect_garbage l) (fun _ s' => session_step n s s' /\ ses_tx s' = ses_tx s /\ (l = [] -> s' = s))
    (fun e s' => session_step n s s' /\ rejected e = false) s.
Proof using HUok HLok.
  intros Hn. revert s. induction l as [|a l IH]; intros s Hs.
  { apply wp_ret. split; [by apply session_step_refl|done]. }
  apply wp_bind. eapply wp_conseq; [by apply wp_collect| |done]. intros _ s1 [Hs1 Ht1].
  eapply wp_conseq; [apply IH, Hs1|..].
  - intros u s2 (Hs2 & Ht2 & _). split; [by eapply session_step_trans|]. split; [congruence|done].
  - intros e s2 [Hs2 ?]. split; [by eapply session_step_trans|done].
Qed.

(** What the record of an executed transaction says. *)
Record executed_ok (t : SignedTransaction) (ex : Executed) : Prop := {
  ex_gas : exec_gas ex = tx_gas t;
  ex_used : 0 <= exec_gas_used ex <= tx_gas t;
  ex_cumulative : exec_cumulative_gas_used ex = EnvInfo.gas_used info + exec_gas_used ex;
  ex_refund : 0 <= exec_refunded ex <= exec_gas_used ex;
  ex_failed : exec_exception ex <> None ->
    exec_gas_used ex = tx_gas t /\ exec_refunded ex = 0 /\ exec_logs ex = [] /\
    exec_contracts_created ex = [] /\ (forall m, exec_exception ex <> Some (Internal m));
}.

Lemma wp_finalize_ n s su res out :
  0 <= n -> session_ok n s -> tx_ok (ses_tx s) -> substate_ok (tx_gas (ses_tx s)) 0 su -> res <> Panic ->
  (forall x, res = Ok x -> 0 <= x <= tx_gas (ses_tx s)) ->
  0 <= EnvInfo.gas_used info -> EnvInfo.gas_used info + tx_gas (ses_tx s) < 2 ^ 256 ->
  wp (finalize_ info su res out)
    (fun ex s' => session_step n s s' /\ executed_ok (ses_tx s) ex /\
       (exec_exception ex <> None -> exists e, res = Err e /\ reverts e = true) /\
       (su = Substate.new -> ses_state s' = ses_state s))
    (fun e s' => session_step n s s' /\ rejected e = false) s.
Proof using HUok HLok.
  intros Hn Hs Ht Hsu Hres Hle Hused Hmax. pose proof (tx_gas_ok _ Ht) as [Hg1 Hg2].
  apply wp_bind, wp_gets, wp_bind, wp_lift.
  set (left := match res with Ok x => x | _ => 0 end).
  assert (Hl : 0 <= left <= tx_gas (ses_tx s)).
  { rw /left. destruct res; [by apply Hle|lia..]. }
  destruct (settle_ok (E := ExecutionError) (ses_tx s) su res left Ht Hsu eq_refl Hl) as (-> & Hr1 & Hr2).
  set (r := refund _ _ _) in *. assert (Hr3 : 2 * r <= tx_gas (ses_tx s) - left).
  { rw /r /refund. pose proof (Z.mul_div_le (tx_gas (ses_tx s) - left) 2 ltac:(lia)). lia. }
  cbn [owp]. apply wp_bind.
  eapply wp_conseq; [apply (ses_update_ok n); [done|by intros; apply kill_accounts_ok]| |done].
  intros u s1 [Hs1 Hs1eq]. apply wp_bind.
  eapply wp_conseq; [apply (wp_collect_garbage n); [done|apply Hs1]|..].
  2:{ intros e s2 [Hs2 ?]. split; [by eapply session_step_trans|done]. }
  intros u' s2 (Hs2 & Ht2 & Hsame). assert (Hs02 : session_step n s s2) by (by eapply session_step_trans).
  assert (Hnew : su = Substate.new -> ses_state s2 = ses_state s).
  { intros ->. by rw Hsame // Hs1eq. }
  destruct res as [x|e|]; [| |done].
  - apply wp_bind, wp_lift. rw add_ok; [lia|]. cbn [owp]. apply wp_ret. split; [done|].
    split; [split; cbn; try done; lia|]. done.
  - destruct e; try (apply wp_bind, wp_lift; rw add_ok; [lia|]; cbn [owp]; apply wp_ret;
      split; [done|]; split; [split; cbn; try done; lia|]; split; [intros _; by eexists|done]).
    by apply wp_fail.
Qed.

(** ** Running the action of a transaction *)
Definition action_post (N : Z) (s : Sessiont) (r : outcome Error U256 * Substate.t * bytes) (s' : Sessiont)
    : Prop :=
  session_step N s s' /\ ses_tx s' = ses_tx s /\ substate_ok (tx_gas (ses_tx s)) 0 r.1.2 /\
  r.1.1 <> Panic /\ (forall x, r.1.1 = Ok x -> 0 <= x <= tx_gas (ses_tx s)) /\
  (forall e, r.1.1 = Err e -> reverts e = true ->
     restored (ses_state s) (ses_state s') /\ r.1.2 = Substate.new).

Lemma new_substate_ok n : 0 <= n -> substate_ok n n Substate.new.
Proof using. intros. split; cbn; [lia|lia|by intros a ?%not_elem_of_empty]. Qed.

Lemma wp_ses_run {O} N gas (o : O) (c : M Error (Worldt * O) U256) s :
  0 <= N -> 0 <= gas <= tx_gas (ses_tx s) -> session_ok (N + gas) s ->
  (forall w, w = World (ses_state s) (ses_jumps s) Substate.new -> world_ok (N + gas) (N + gas) w ->
    wp c (fun g wo => 0 <= g <= gas /\ world_step (N + gas) (N + g) w wo.1)
      (fun e wo => failed_step (N + gas) N w e wo.1) (w, o)) ->
  wp (ses_run o c) (fun r s' => action_post N s (r.1, []) s') (fun _ _ => False) s.
Proof using.
  intros HN Hg [Hs Hj Hcp] Hc. set (w := World _ _ _) in Hc.
  assert (Hw : world_ok (N + gas) (N + gas) w) by (split; [done|done|apply new_substate_ok; lia]).
  specialize (Hc w eq_refl Hw). rw /wp /ses_run in Hc |- *. fold w.
  assert (Hend : forall m w', 0 <= m -> N <= m -> world_step (N + gas) m w w' ->
    session_step N s (Session (w_state w') (w_jumps w') (ses_tx s)) /\
    substate_ok (tx_gas (ses_tx s)) 0 (w_substate w')).
  { intros m w' Hm HNm [[Hs' Hj' [Hc1 Hc2 Hsui]] Hf]. split; [|split; [done|lia|done]].
    split; [split; [by eapply inv_le|done|by eapply no_checkpoints]|]. split; [done|].
    exists (tx_account_nonce (ses_tx s)). by destruct (ses_tx s). }
  destruct (c (w, o)) as [[g|e|] [w' o']]; [|..|done].
  - destruct Hc as [Hg' Hs']. destruct (Hend (N + g) w') as [? ?]; [lia|lia|done|].
    split; [done|]. split; [done|]. split; [done|]. split; [done|]. split; [|done].
    intros x Hx. cbn in Hx. injection Hx as <-. lia.
  - destruct Hc as [Hs' Hf]. destruct (Hend N w') as [? ?]; [done|lia|done|].
    split; [done|]. split; [done|]. split; [done|]. split; [done|]. split; [done|].
    intros e' Hx Hr. cbn in Hx. injection Hx as <-. by apply Hf.
Qed.

Abbreviation RunAction := (run_action sha3 encode_address_nonce LOCAL_STACK_SIZE engine native_factory info).
Abbreviation Transact := (transact sha3 encode_address_nonce LOCAL_STACK_SIZE engine native_factory info).

Lemma action_post_trans m N s s1 s2 r : session_step m s s1 -> ses_tx s1 = ses_tx s ->
  restored (ses_state s) (ses_state s1) -> action_post N s1 r s2 -> action_post N s r s2.
Proof using.
  intros Hs Ht Hr (Hs2 & Ht2 & Hsu & Hp & Hx & Hf). rw Ht in Ht2 Hsu Hx.
  split; [by eapply session_step_trans|]. split; [done|]. split; [done|]. split; [done|]. split; [done|].
  intros e He Hrev. destruct (Hf e He Hrev) as [Hr2 ?]. split; [|done]. intros a. by rw Hr2 Hr.
Qed.

(** The gas handed to the machine, and the budget of its run. *)
Lemma base_gas_paid N s : session_ok (N + tx_gas (ses_tx s)) s -> 0 <= N ->
  base_gas_required <= tx_gas (ses_tx s) ->
  exists gas, sub_ (E := ExecutionError) (tx_gas (ses_tx s)) base_gas_required = Ok gas /\
    0 <= gas <= tx_gas (ses_tx s) /\ N + gas < 2 ^ 256 /\ session_ok (N + gas) s.
Proof using.
  intros Hs HN Hbase. pose proof (st_start _ _ (proj1 (ses_state_ok _ _ Hs))) as [? ?].
  rw /base_gas_required in Hbase |- *. rw sub_ok; [done|]. eexists. split; [done|]. split; [lia|].
  split; [lia|]. eapply session_ok_mono; [|exact Hs]. lia.
Qed.

Lemma wp_run_create N nonce s :
  0 <= N -> session_ok (N + tx_gas (ses_tx s)) s -> tx_ok (ses_tx s) ->
  tx_action (ses_tx s) = ActCreate -> base_gas_required <= tx_gas (ses_tx s) ->
  wp (RunAction nonce) (action_post N s) (fun e s' => session_step N s s' /\ rejected e = false) s.
Proof using HUok HLok HJok sha3_fits stack_size_ok Hinfo Hengine Hnative.
  intros HN Hs [[Hg1 Hg2] Hfee Hgp Hv Hd Hsnd _ _] Hact Hbase. apply wp_bind, wp_gets. rw Hact.
  destruct (base_gas_paid N s Hs HN Hbase) as (gas & -> & Hgas & Hmax & Hs').
  apply wp_bind, wp_lift. cbn [owp]. apply wp_bind. set (params := ActionParams.mk _ _ _ _ _ _ _ _ _ _ _).
  eapply wp_conseq; [apply (wp_ses_run N gas); [done..|]| |done].
  - intros w _ Hw. eapply wp_conseq; [apply wp_on_fst, (proj2 top_level_ok (N + gas) N params w); try done|..].
    + split; try done; [apply contract_address_fits|split; cbn; lia].
    + cbn; lia.
    + by eexists.
    + intros g wo [[? ?] ?]. done.
    + done.
  - intros [[r su] []] s1 Hr. by apply wp_ret.
Qed.

Lemma wp_run_call N nonce s a :
  0 <= N -> session_ok (N + tx_gas (ses_tx s)) s -> tx_ok (ses_tx s) ->
  tx_action (ses_tx s) = ActCall a -> base_gas_required <= tx_gas (ses_tx s) ->
  wp (RunAction nonce) (action_post N s) (fun e s' => session_step N s s' /\ rejected e = false) s.
Proof using HUok HLok HJok sha3_fits stack_size_ok Hinfo Hengine Hnative.
  intros HN Hs [[Hg1 Hg2] Hfee Hgp Hv Hd Hsnd Ha _] Hact Hbase. apply wp_bind, wp_gets. rw Hact in Ha |- *.
  destruct (base_gas_paid N s Hs HN Hbase) as (gas & -> & Hgas & Hmax & Hs').
  apply wp_bind, wp_lift. cbn [owp]. apply wp_bind.
  eapply wp_conseq; [apply (wp_ses_on_state (N + gas) (N + gas) _
    (fun r s' => match r.1 with Some c => vec_ok c /\ r.2 = crypt_hash c | None => True end /\
       restored (ses_state s) s') (fun _ => True)); [lia|done|]|..].
  { eapply wp_conseq; [apply inv_code_and_hash_unseen, Hs'| |by intros ? ? []].
    intros r s1 (? & ? & (_ & _ & ?)). done. }
  2:{ intros e s1 (Hs1 & _ & ?). split; [|done]. eapply session_step_mono; [|exact Hs1]. lia. }
  intros [code hash] s1 ([Hcode Hrest] & Hs1 & Ht1). cbn [fst snd] in Hcode. apply wp_bind.
  set (params := ActionParams.mk _ _ _ _ _ _ _ _ _ _ _).
  eapply wp_conseq; [apply (wp_ses_run N gas); [done|by rw Ht1|apply Hs1|]| |done].
  - intros w _ Hw. eapply wp_conseq; [apply (proj1 top_level_ok (N + gas) N params w); try done|..].
    + split; try done; [split; cbn; lia|]. cbn. destruct code; [apply Hcode|done].
    + cbn; lia.
    + cbn. intros c ->. apply Hcode.
    + constructor.
    + intros g wo (? & ? & ?). done.
    + intros e wo (? & ?). done.
  - intros [[r su] o] s2 Hr. apply wp_ret. by eapply action_post_trans.
Qed.

Lemma wp_run_action N nonce s :
  0 <= N -> session_ok (N + tx_gas (ses_tx s)) s -> tx_ok (ses_tx s) ->
  (tx_action (ses_tx s) <> ActStore -> base_gas_required <= tx_gas (ses_tx s)) ->
  wp (RunAction nonce) (action_post N s) (fun e s' => session_step N s s' /\ rejected e = false) s.
Proof using HUok HLok HJok sha3_fits stack_size_ok Hinfo Hengine Hnative.
  intros HN Hs Ht Hbase. destruct (tx_action (ses_tx s)) as [| |a] eqn:Hact.
  - apply wp_bind, wp_gets. rw Hact. pose proof (tx_gas_ok _ Ht) as [Hg1 Hg2]. apply wp_ret.
    split; [apply session_step_refl; eapply session_ok_mono; [|exact Hs]; lia|].
    split; [done|]. split; [|split; [done|]; split; [intros x [= <-]; lia|done]].
    split; cbn; [done|lia|by intros a ?%not_elem_of_empty].
  - apply wp_run_create; try done. by apply Hbase.
  - eapply wp_run_call; try done. by apply Hbase.
Qed.

(** Who may send what. *)
Definition permitted (senders creators : gset Z) (t : SignedTransaction) : Prop :=
  tx_sender t = 0 \/ tx_sender t ∈ creators \/ (tx_action t <> ActCreate /\ tx_sender t ∈ senders).

Definition within_quota (t : SignedTransaction) : Prop :=
  tx_sender t = 0 \/
  (EnvInfo.gas_used info + tx_gas t <= EnvInfo.gas_limit info /\
   tx_gas t <= EnvInfo.account_gas_limit info).

Lemma check_permission_spec t (s : State.t D L) :
  owp (check_permission_ t s) (fun _ => permitted (State.senders s) (State.creators s) t)
    (fun e => ~ permitted (State.senders s) (State.creators s) t /\
       e = match tx_action t with ActCreate => NoContractPermission | _ => NoTransactionPermission end).
Proof using.
  rw /check_permission_ /permitted. destruct (Z.eqb_spec (tx_sender t) 0) as [H0|H0]; cbn [negb andb].
  { destruct (tx_action t); by left. }
  destruct (bool_decide_reflect (tx_sender t ∈ State.creators s)) as [Hc|Hc]; cbn [negb andb].
  { rw andb_false_r. destruct (tx_action t); right; by left. }
  destruct (bool_decide_reflect (tx_sender t ∈ State.senders s)) as [Hs|Hs]; cbn [negb andb];
    destruct (tx_action t); cbn; try (by right; right); (split; [|done]); by intros [|[|[]]].
Qed.

Lemma check_quota_spec t : EnvInfo.gas_used info + tx_gas t < 2 ^ 256 ->
  owp (check_quota_ info t) (fun _ => within_quota t)
    (fun e => ~ within_quota t /\
       e = if EnvInfo.gas_limit info <? EnvInfo.gas_used info + tx_gas t
           then BlockGasLimitReached (EnvInfo.gas_limit info) (EnvInfo.gas_used info) (tx_gas t)
           else AccountGasLimitReached (EnvInfo.account_gas_limit info) (tx_gas t)).
Proof using.
  intros H. rw /check_quota_ /within_quota.
  destruct (Z.eqb_spec (tx_sender t) 0) as [H0|H0]; cbn [negb andb]; [by left|].
  rw add_ok; [done|]. cbn [obind].
  destruct (Z.ltb_spec (EnvInfo.gas_limit info) (EnvInfo.gas_used info + tx_gas t)).
  { split; [|done]. intros [|[]]; [done|lia]. }
  destruct (Z.ltb_spec (EnvInfo.account_gas_limit info) (tx_gas t)).
  { split; [|done]. intros [|[]]; [done|lia]. }
  by right.
Qed.

Lemma check_base_gas_ok t : tx_ok t ->
  owp (check_base_gas t) (fun _ => tx_action t <> ActStore -> base_gas_required <= tx_gas t) (fun _ => True).
Proof using.
  intros Ht. rw /check_base_gas. pose proof (tx_base_ok t Ht).
  destruct (Z.eqb_spec (tx_sender t) 0); cbn [negb andb]; [cbn; auto|].
  destruct (bool_decide_reflect (tx_action t = ActStore)); cbn [negb andb]; [cbn; congruence|].
  destruct (Z.ltb_spec (tx_gas t) base_gas_required); [done|]. cbn. lia.
Qed.

Lemma set_account_nonce_ok t n : tx_ok t -> tx_ok (set_account_nonce t n).
Proof using. by intros []. Qed.

(** What is known of a transaction that passed the checks. *)
Record accepted (options : TransactOptions) (s : State.t D L) (t : SignedTransaction) : Prop := {
  acc_base : tx_action t <> ActStore -> base_gas_required <= tx_gas t;
  acc_permitted : check_permission options = true -> permitted (State.senders s) (State.creators s) t;
  acc_quota : check_quota options = true -> within_quota t;
}.

(** The sender's nonce has been increased and nothing else changed. *)
Definition bumped (sender : Address) (s s' : State.t D L) : Prop :=
  forall a, current s' a =
    if a =? sender then Some (es_inc_nonce (default (es_fresh (State.account_start_nonce s)) (current s sender)))
    else current s a.

Lemma restored_current (s s' : State.t D L) : restored s s' -> forall a, current s' a = current s a.
Proof using.
  intros H a. destruct (levels_cons s a) as [l1 H1], (levels_cons s' a) as [l2 H2].
  specialize (H a). rw H1 H2 in H. by injection H.
Qed.

Lemma updated_bumped sender (s s1 s2 : State.t D L) :
  unseen False s s1 -> State.account_start_nonce s1 = State.account_start_nonce s ->
  updated False sender (es_inc_nonce (default (es_fresh (State.account_start_nonce s1)) (current s1 sender))) s1 s2 ->
  bumped sender s s2.
Proof using.
  intros (_ & _ & H1) Hn (_ & _ & Ha & Hb) a. pose proof (restored_current s s1 H1) as Hc.
  destruct (levels_cons s2 a) as [l2 H2]. destruct (levels_cons s1 a) as [l1 Hl1].
  destruct (Z.eqb_spec a sender) as [->|Hne].
  - rw Ha in H2. injection H2 as <- _. by rw Hn Hc.
  - rw Hb in H2; [done|]. rw Hl1 in H2. injection H2 as <- _. apply Hc.
Qed.

(** The nonce that is read is the one the sender shows. *)
Lemma inv_nonce n a s : inv n s ->
  wp (State.nonce a)
    (fun v s' => (v = from_option es_nonce (State.account_start_nonce s) (current s a) /\ unseen False s s') /\
       inv_step n s s')
    (fun _ s' => inv_step n s s' /\ unseen False s s') s.
Proof using HUok HLok.
  intros Hs. apply wp_bind, wp_get. eapply wp_conseq; [apply wp_and_pwp;
    [by apply (inv_read_unseen n a _ _ (fun _ => True))|apply (pwp_ensure_cached False), Hs]|..].
  - intros v s' [(_ & ? & ?) (_ & o & -> & Ho & _)]. split; [|done]. split; [|done]. rw -Ho. by destruct o.
  - intros e s' [? _]. done.
Qed.

(** What the checks leave behind. *)
Definition checked (B : Z) (s : Sessiont) (s' : Sessiont) : Prop :=
  session_step B s s' /\ bumped (tx_sender (ses_tx s)) (ses_state s) (ses_state s').

Lemma wp_take_nonce B s :
  0 <= B -> session_ok (B + 1) s ->
  wp (take_nonce (tx_sender (ses_tx s)))
    (fun nonce s' => checked B s s' /\ ses_tx s' = ses_tx s /\
       nonce = from_option es_nonce (State.account_start_nonce (ses_state s))
                 (current (ses_state s) (tx_sender (ses_tx s))))
    (fun e s' => session_step B s s' /\ rejected e = false) s.
Proof using HUok HLok.
  intros HB Hs. set (snd := tx_sender (ses_tx s)). apply wp_bind.
  eapply wp_conseq; [apply (wp_ses_on_state (B + 1) (B + 1) _ (fun v s' =>
    v = from_option es_nonce (State.account_start_nonce (ses_state s)) (current (ses_state s) snd) /\
    unseen False (ses_state s) s') (fun _ => True)); [lia|done|]|..].
  { eapply wp_conseq; [apply inv_nonce, Hs|done|by intros ? ? []]. }
  2:{ intros e s1 (Hs1 & _ & ?). split; [|done]. eapply session_step_mono; [|exact Hs1]. lia. }
  intros nonce s1 ([-> Hun] & Hs1 & Ht1). apply wp_bind.
  eapply wp_conseq; [apply (wp_ses_on_state B (B + 1) _ (fun _ s' => updated False snd
    (es_inc_nonce (default (es_fresh (State.account_start_nonce (ses_state s1))) (current (ses_state s1) snd)))
    (ses_state s1) s') (fun _ => True)); [lia|apply Hs1|]|..].
  { eapply wp_conseq; [apply (inv_inc_nonce B); [lia|apply Hs1]|by intros ? ? []|by intros ? ? []]. }
  2:{ intros e s2 (Hs2 & _ & ?). split; [by eapply session_step_trans|done]. }
  intros u s2 (Hup & Hs2 & Ht2). apply wp_ret. split; [|split; [congruence|done]].
  split; [by eapply session_step_trans|]. eapply updated_bumped; [done| |done].
  destruct Hs1 as (_ & [(_ & _ & _ & ? & _) _] & _). done.
Qed.

(** Recording the nonce does not touch the state. *)
Lemma checked_nonce B s s' nonce : checked B s s' -> ses_tx s' = ses_tx s ->
  checked B s (Session (ses_state s') (ses_jumps s') (set_account_nonce (ses_tx s') nonce)).
Proof using.
  intros [([] & ? & _) ?] Ht. split; [|done]. split; [by split|]. split; [done|]. exists nonce. cbn. by rw Ht.
Qed.

Lemma wp_check_transaction options B s :
  0 <= B -> session_ok (B + 1) s -> tx_ok (ses_tx s) ->
  EnvInfo.gas_used info + tx_gas (ses_tx s) < 2 ^ 256 ->
  wp (check_transaction info options)
    (fun nonce s' => checked B s s' /\ ses_tx s' = set_account_nonce (ses_tx s) nonce /\
       accepted options (ses_state s) (ses_tx s) /\
       nonce = from_option es_nonce (State.account_start_nonce (ses_state s))
                 (current (ses_state s) (tx_sender (ses_tx s))))
    (fun e s' => session_step B s s' /\
       (rejected e = true -> bumped (tx_sender (ses_tx s)) (ses_state s) (ses_state s'))) s.
Proof using HUok HLok.
  intros HB Hs Ht Hmax. apply wp_bind, wp_gets, wp_bind.
  eapply wp_conseq; [by apply (wp_take_nonce B)| |]; [|by intros e s' [? ->]].
  intros nonce s2 (Hc2 & Ht2 & Hnonce). assert (Herr : forall e, session_step B s s2 /\
    (rejected e = true -> bumped (tx_sender (ses_tx s)) (ses_state s) (ses_state s2))).
  { intros e. destruct Hc2. done. }
  apply wp_bind, wp_get, wp_bind, wp_lift.
  assert (Hperm : owp (if check_permission options then check_permission_ (ses_tx s) (ses_state s2) else Ok tt)
    (fun _ => check_permission options = true ->
       permitted (State.senders (ses_state s)) (State.creators (ses_state s)) (ses_tx s)) (fun _ => True)).
  { destruct Hc2 as [(_ & [(_ & _ & _ & _ & <- & <-) _] & _) _]. destruct (check_permission options); [|done].
    eapply owp_conseq; [apply check_permission_spec|done|done]. }
  eapply owp_conseq; [exact Hperm|intros u1 Hp|intros; apply Herr].
  apply wp_bind, wp_lift. eapply owp_conseq; [by apply check_base_gas_ok|intros u2 Hbase|intros; apply Herr].
  apply wp_bind, wp_modify, wp_bind, wp_lift. pose proof (checked_nonce B s s2 nonce Hc2 Ht2) as Hc3.
  assert (Hquota : owp (if check_quota options then check_quota_ info (ses_tx s) else Ok tt)
    (fun _ => check_quota options = true -> within_quota (ses_tx s)) (fun _ => True)).
  { destruct (check_quota options); [|done]. eapply owp_conseq; [by apply check_quota_spec|done|done]. }
  eapply owp_conseq; [exact Hquota|intros u3 Hq|].
  - apply wp_ret. split; [done|]. cbn. rw Ht2. done.
  - intros e _. destruct Hc3. done.
Qed.

(** A transaction is executed or refused; it never panics, and the state it
    leaves is well formed with no checkpoint pending.  One that is refused or
    ends in an exception only costs its sender a nonce. *)
Lemma wp_transact options N s :
  0 <= N -> session_ok (N + 1 + tx_gas (ses_tx s)) s -> tx_ok (ses_tx s) ->
  0 <= EnvInfo.gas_used info -> EnvInfo.gas_used info + tx_gas (ses_tx s) < 2 ^ 256 ->
  wp (Transact options)
    (fun ex s' => session_step N s s' /\ executed_ok (ses_tx s) ex /\
       accepted options (ses_state s) (ses_tx s) /\
       (exec_exception ex <> None -> bumped (tx_sender (ses_tx s)) (ses_state s) (ses_state s')))
    (fun e s' => session_step N s s' /\
       (rejected e = true -> bumped (tx_sender (ses_tx s)) (ses_state s) (ses_state s'))) s.
Proof using HUok HLok HJok sha3_fits stack_size_ok Hinfo Hengine Hnative.
  intros HN Hs Ht Hused Hmax. pose proof (tx_gas_ok _ Ht) as [Hg1 Hg2]. apply wp_bind.
  eapply wp_conseq; [apply (wp_check_transaction options (N + tx_gas (ses_tx s))); [lia| |done..]|..].
  { by rw (_ : N + tx_gas (ses_tx s) + 1 = N + 1 + tx_gas (ses_tx s)); [lia|]. }
  2:{ intros e s1 [Hs1 ?]. split; [|done]. eapply session_step_mono; [|exact Hs1]. lia. }
  intros nonce s1 ([Hs1 Hb1] & Ht1 & Hacc & _). apply wp_bind.
  assert (Hgas : tx_gas (ses_tx s1) = tx_gas (ses_tx s)) by (by rw Ht1).
  assert (Htx1 : tx_ok (ses_tx s1)) by (rw Ht1; by apply set_account_nonce_ok).
  eapply wp_conseq; [apply (wp_run_action N); [done|rw Hgas; apply Hs1|done|rw Ht1; apply Hacc]|..].
  2:{ intros e s2 [Hs2 ->]. split; [by eapply session_step_trans|done]. }
  intros [[r su] o] s2 (Hs2 & Ht2 & Hsu & Hp & Hx & Hf). cbn [fst snd] in *.
  eapply wp_conseq; [apply (wp_finalize_ N); rw ?Ht2 ?Hgas; try done; [apply Hs2|by rw -Hgas|by rw -Hgas]|..].
  - intros ex s3 (Hs3 & Hex & Hexc & Hnew).
    split; [eapply session_step_trans; [exact Hs1|]; by eapply session_step_trans|].
    rw Ht2 Ht1 in Hex. split; [by destruct Hex|]. split; [done|]. intros Hne.
    destruct (Hexc Hne) as (e & He & Hrev). destruct (Hf e He Hrev) as [Hrest Hsub].
    rw (Hnew Hsub). intros a. rw (restored_current _ _ Hrest). apply Hb1.
  - intros e s3 [Hs3 ->]. split; [|done]. eapply session_step_trans; [exact Hs1|]. by eapply session_step_trans.
Qed.
End spec.
