(* ===== verification/Block.v ===== *)
(** * Receipts and block execution

    [cita-chain/types/src/receipt.rs] and [log_entry.rs], [State::apply] of
    [cita-executor/core/src/state/mod.rs] and [OpenBlock] of
    [cita-executor/core/src/libexecutor/block.rs]: a transaction becomes a
    receipt, and the transactions of a block run in order against the gas
    limits of the block and of each account. *)

From S2P Require Import Prelude Lru Schedule Evm SharedCache Account State Executive.
From stdpp Require Import base gmap list strings.
Local Open Scope Z_scope.
Local Open Scope cita_scope.

(** ** Receipts *)
Module ReceiptError.
Inductive t : Set :=
| NoTransactionPermission
| NoContractPermission
| NotEnoughBaseGas
| BlockGasLimitReached
| AccountGasLimitReached
| OutOfGas
| BadJumpDestination
| BadInstruction
| StackUnderflow
| OutOfStack
| Internal.

#[global] Instance t_eq_dec : EqDecision t.
Proof. solve_decision. Defined.

(** [Encodable]: the discriminant, [*self as u8]. *)
Definition encode (e : t) : Z :=
  match e with
  | NoTransactionPermission => 0
  | NoContractPermission => 1
  | NotEnoughBaseGas => 2
  | BlockGasLimitReached => 3
  | AccountGasLimitReached => 4
  | OutOfGas => 5
  | BadJumpDestination => 6
  | BadInstruction => 7
  | StackUnderflow => 8
  | OutOfStack => 9
  | Internal => 10
  end.

(** [Decodable]; [None] is the error ["Unknown Receipt error."]. *)
Definition decode (n : Z) : option t :=
  match n with
  | 0 => Some NoTransactionPermission
  | 1 => Some NoContractPermission
  | 2 => Some NotEnoughBaseGas
  | 3 => Some BlockGasLimitReached
  | 4 => Some AccountGasLimitReached
  | 5 => Some BadJumpDestination
  | 6 => Some BadInstruction
  | 7 => Some StackUnderflow
  | 8 => Some OutOfStack
  | 9 => Some Internal
  | _ => None
  end.
End ReceiptError.

Section block.
  Context {HU : Util} {L : Type} {HL : LruCache Z L} {D : Type} {HD : Backend D}.
  Context {J : Type} {HJ : LruCache BitSet J}.
  Context (sha3 : bytes -> H256) (encode_address_nonce : Address -> U256 -> bytes).
  Context (LOCAL_STACK_SIZE : Z) (native_factory : NativeFactory).
  (** Bloom filters of the bloom library. *)
  Context (from_bloomed : H256 -> Z) (with_bloomed : Z -> H256 -> Z).

Definition log_entry_bloom (l : LogEntry) : Z :=
  fold_left (fun b t => with_bloomed b (crypt_hash (to_be 32 t))) (log_topics l)
    (from_bloomed (crypt_hash (to_be 20 (log_address l)))).

Record Receipt : Set := {
  rc_state_root : option H256;
  rc_gas_used : U256;
  rc_log_bloom : Z;
  rc_logs : list LogEntry;
  rc_error : option ReceiptError.t;
  rc_account_nonce : U256;
}.

Definition Receipt_new (state_root : option H256) (gas_used : U256) (logs : list LogEntry)
    (error : option ReceiptError.t) (account_nonce : U256) : Receipt :=
  {| rc_state_root := state_root; rc_gas_used := gas_used;
     rc_log_bloom := fold_left (fun b l => Z.lor b (log_entry_bloom l)) logs 0;
     rc_logs := logs; rc_error := error; rc_account_nonce := account_nonce |}.

Definition receipt_error (e : Error) : ReceiptError.t :=
  match e with
  | OutOfGas => ReceiptError.OutOfGas
  | BadJumpDestination _ => ReceiptError.BadJumpDestination
  | BadInstruction _ => ReceiptError.BadInstruction
  | StackUnderflow _ _ _ => ReceiptError.StackUnderflow
  | OutOfStack _ _ _ => ReceiptError.OutOfStack
  | Internal _ => ReceiptError.Internal
  end.

(** [State::apply], with the engine without builtins. *)
Definition state_apply (env_info : EnvInfo.t) (check_permission check_quota : bool)
    : M ExecutionError (session (D := D) (L := L) (J := J)) Receipt :=
  e <~ transact sha3 encode_address_nonce LOCAL_STACK_SIZE ∅ native_factory env_info
         {| check_permission := check_permission; check_quota := check_quota |} ;;
  t <~ sgets ses_tx ;;
  sret (Receipt_new None (exec_cumulative_gas_used e) (exec_logs e)
          (receipt_error <$> exec_exception e) (tx_account_nonce t)).

(** ** Open blocks *)
Record OpenBlock : Type := {
  b_number : Z;
  b_timestamp : Z;
  b_gas_limit : U256;
  (** the gas used as the header records it *)
  b_gas_used : U256;
  b_transactions : list SignedTransaction;
  b_receipts : list (option Receipt);
  b_state : State.t D L;
  b_jumps : J;
  b_current_gas_used : U256;
  b_last_hashes : list H256;
  b_account_gas_limit : U256;
  b_account_gas : gmap Z Z;
}.

Definition env_info_ (b : OpenBlock) (account_gas_limit : U256) : EnvInfo.t :=
  {| EnvInfo.number := b_number b; EnvInfo.author := 0; EnvInfo.timestamp := b_timestamp b;
     EnvInfo.difficulty := 0; EnvInfo.last_hashes := b_last_hashes b;
     EnvInfo.gas_used := b_current_gas_used b; EnvInfo.gas_limit := b_gas_limit b;
     EnvInfo.account_gas_limit := account_gas_limit |}.

(** The block after a transaction. *)
Definition applied (b : OpenBlock) (s : State.t D L) (j : J) (receipt : option Receipt)
    (current_gas_used : U256) (account_gas : gmap Z Z) : OpenBlock :=
  {| b_number := b_number b; b_timestamp := b_timestamp b; b_gas_limit := b_gas_limit b;
     b_gas_used := b_gas_used b; b_transactions := b_transactions b;
     b_receipts := b_receipts b ++ [receipt]; b_state := s; b_jumps := j;
     b_current_gas_used := current_gas_used; b_last_hashes := b_last_hashes b;
     b_account_gas_limit := b_account_gas_limit b; b_account_gas := account_gas |}.

(** The receipt of a refused transaction; other errors leave none. *)
Definition refused_receipt (e : ExecutionError) : option Receipt :=
  let receipt error := Some (Receipt_new None 0 [] (Some error) 0) in
  match e with
  | NoTransactionPermission => receipt ReceiptError.NoTransactionPermission
  | NoContractPermission => receipt ReceiptError.NoContractPermission
  | NotEnoughBaseGas _ _ => receipt ReceiptError.NotEnoughBaseGas
  | BlockGasLimitReached _ _ _ => receipt ReceiptError.BlockGasLimitReached
  | AccountGasLimitReached _ _ => receipt ReceiptError.AccountGasLimitReached
  | _ => None
  end.

(** [OpenBlock::apply_transaction]; the transaction comes back with its
    account nonce. *)
Definition apply_transaction (t : SignedTransaction) (check_permission check_quota : bool)
    : M void OpenBlock SignedTransaction := fun b =>
  let account_gas :=
    match b_account_gas b !! tx_sender t with
    | Some _ => b_account_gas b
    | None => <[tx_sender t := b_account_gas_limit b]> (b_account_gas b)
    end in
  match account_gas !! tx_sender t with
  | None => (Panic, b)
  | Some limit =>
      let '(r, s) := state_apply (env_info_ b limit) check_permission check_quota
                       (Session (b_state b) (b_jumps b) t) in
      match r with
      | Ok receipt =>
          match (used <- sub_ (E := void) (rc_gas_used receipt) (b_current_gas_used b) ;;
                 if check_quota then
                   left <- sub_ limit used ;;
                   Ok (<[tx_sender t := left]> account_gas)
                 else Ok account_gas) with
          | Ok account_gas =>
              (Ok (ses_tx s), applied b (ses_state s) (ses_jumps s) (Some receipt) (rc_gas_used receipt)
                                account_gas)
          | _ => (Panic, b)
          end
      | Err e =>
          (Ok (ses_tx s), applied b (ses_state s) (ses_jumps s) (refused_receipt e)
                            (b_current_gas_used b) account_gas)
      | Panic => (Panic, b)
      end
  end.

Definition CHECK_NUM : Z := 255.

(** The loop of [apply_transactions]: [None] when the executor was
    interrupted, which is looked at once in 256 transactions. *)
Fixpoint apply_loop (interrupted : Z -> bool) (check_permission check_quota : bool) (index : Z)
    (txs : list SignedTransaction) : M void OpenBlock (option (list SignedTransaction)) :=
  match txs with
  | [] => sret (Some [])
  | t :: txs =>
      if (Z.land index CHECK_NUM =? 0) && interrupted index then sret None
      else
        t <~ apply_transaction t check_permission check_quota ;;
        r <~ apply_loop interrupted check_permission check_quota (index + 1) txs ;;
        sret (cons t <$> r)
  end.

(** [OpenBlock::apply_transactions]: a failing commit panics. *)
Definition apply_transactions (interrupted : Z -> bool) (check_permission check_quota : bool)
    : M void OpenBlock bool :=
  txs <~ sgets b_transactions ;;
  done <~ apply_loop interrupted check_permission check_quota 0 txs ;;
  match done with
  | None => sret false
  | Some transactions => fun b =>
      match State.commit (b_state b) with
      | (Ok _, s) =>
          (Ok true,
           {| b_number := b_number b; b_timestamp := b_timestamp b; b_gas_limit := b_gas_limit b;
              b_gas_used := b_current_gas_used b; b_transactions := transactions;
              b_receipts := b_receipts b; b_state := s; b_jumps := b_jumps b;
              b_current_gas_used := b_current_gas_used b; b_last_hashes := b_last_hashes b;
              b_account_gas_limit := b_account_gas_limit b; b_account_gas := b_account_gas b |})
      | _ => (Panic, b)
      end
  end.
End block.
