(* ===== verification/BlockSpec.v ===== *)
(** * Correctness of block execution

    A block executes all its transactions without panicking, charges each of
    them at most its gas, and with the quota check on never exceeds the gas
    limit of the block or of an account. *)

From S2P Require Import Prelude Lru Schedule Evm SharedCache Account State StateSpec.
From S2P Require Import CheckpointSpec StateInv Executive ExecutiveSpec Block.
From stdpp Require Import base gmap list strings.
Local Open Scope Z_scope.
Local Open Scope cita_scope.

Section spec.
  Context {HU : Util} {HUok : UtilOk}.
  Context {L : Type} {HL : LruCache Z L} {HLok : LruCacheOk Z L} {D : Type} {HD : Backend D}.
  Context {J : Type} {HJ : LruCache BitSet J} {HJok : LruCacheOk BitSet J}.
  Context (sha3 : bytes -> H256) (sha3_fits : forall b, fits 256 (sha3 b)).
  Context (encode_address_nonce : Address -> U256 -> bytes).
  Context (LOCAL_STACK_SIZE : Z) (stack_size_ok : STACK_SIZE_PER_DEPTH <= LOCAL_STACK_SIZE).
  Context (native_factory : NativeFactory) (Hnative : native_ok native_factory).
  Context (from_bloomed : H256 -> Z) (with_bloomed : Z -> H256 -> Z).

Abbreviation Blockt := (OpenBlock (L := L) (D := D) (J := J)).
Abbreviation Apply := (apply_transaction (D := D) (L := L) (J := J) sha3 encode_address_nonce
  LOCAL_STACK_SIZE native_factory from_bloomed with_bloomed).
Abbreviation Loop := (apply_loop (D := D) (L := L) (J := J) sha3 encode_address_nonce
  LOCAL_STACK_SIZE native_factory from_bloomed with_bloomed).

(** What is left of the gas limit of an account. *)
Definition account_limit (b : Blockt) (a : Address) : Z :=
  default (b_account_gas_limit b) (b_account_gas b !! a).

Record block_ok (N : Z) (b : Blockt) : Prop := {
  blk_state : inv N (b_state b);
  blk_jumps : SharedCache.cache_ok crypt_hash (b_jumps b);
  blk_checkpoints : State.checkpoints (b_state b) = [];
  blk_number : fits 64 (b_number b);
  blk_timestamp : fits 64 (b_timestamp b);
  blk_gas_limit : fits 256 (b_gas_limit b);
  blk_hashes : Z.min (b_number b) 256 <= zlen (b_last_hashes b) /\ Forall (fits 256) (b_last_hashes b);
  blk_used : 0 <= b_current_gas_used b;
  blk_limits a : 0 <= account_limit b a;
}.

(** The effect of a transaction of [gas] on the gas accounts of a block. *)
Record charged (quota : bool) (sender : Address) (gas : Z) (b b' : Blockt) : Prop := {
  ch_used : b_current_gas_used b <= b_current_gas_used b' <= b_current_gas_used b + gas;
  ch_block : quota = true -> b_current_gas_used b <= b_gas_limit b -> b_current_gas_used b' <= b_gas_limit b;
  ch_sender : account_limit b' sender =
    if quota then account_limit b sender - (b_current_gas_used b' - b_current_gas_used b)
    else account_limit b sender;
  ch_others a : a <> sender -> account_limit b' a = account_limit b a;
  ch_receipts : exists r, b_receipts b' = b_receipts b ++ [r];
  ch_same : b_gas_limit b' = b_gas_limit b /\ b_transactions b' = b_transactions b;
}.

Lemma env_info_ok' N b limit : block_ok N b -> info_ok (env_info_ b limit).
Proof using. intros [? ? ? ? ? ? [? ?] ? ?]. split; [by split|done|done]. Qed.

Lemma account_gas_entry b a :
  match b_account_gas b !! a with
  | Some _ => b_account_gas b
  | None => <[a := b_account_gas_limit b]> (b_account_gas b)
  end !! a = Some (account_limit b a).
Proof using.
  rw /account_limit. destruct (b_account_gas b !! a) eqn:Ha; [done|]. by rw lookup_insert_eq.
Qed.

Lemma account_gas_other b a c : c <> a ->
  default (b_account_gas_limit b) (match b_account_gas b !! a with
  | Some _ => b_account_gas b
  | None => <[a := b_account_gas_limit b]> (b_account_gas b)
  end !! c) = account_limit b c.
Proof using. intros Hc. case_match; [done|]. by rw lookup_insert_ne. Qed.

Lemma no_builtins_ok : engine_ok ∅.
Proof using. intros a b Hb. by rw lookup_empty in Hb. Qed.

(** The gas account of a transaction that was executed. *)
Lemma applied_ok (q : bool) N b t st j r cur ag limit :
  block_ok (N + 1 + tx_gas t) b -> 0 <= N -> 0 <= tx_gas t ->
  inv N st -> SharedCache.cache_ok crypt_hash j -> moved (b_state b) st ->
  b_current_gas_used b <= cur <= b_current_gas_used b + tx_gas t ->
  (q = true -> b_current_gas_used b <= b_gas_limit b -> cur <= b_gas_limit b) ->
  limit = (if q then account_limit b (tx_sender t) - (cur - b_current_gas_used b)
           else account_limit b (tx_sender t)) -> 0 <= limit ->
  ag !! tx_sender t = Some limit ->
  (forall c, c <> tx_sender t -> default (b_account_gas_limit b) (ag !! c) = account_limit b c) ->
  let b' := applied b st j r cur ag in
  block_ok N b' /\ charged q (tx_sender t) (tx_gas t) b b'.
Proof using.
  intros [] HN Hg Hst Hj Hf Hcur Hblock Hlim Hpos Hag Hother b'.
  assert (Hs : account_limit b' (tx_sender t) = limit) by (by rw /account_limit /= Hag).
  assert (Ho : forall a, a <> tx_sender t -> account_limit b' a = account_limit b a).
  { intros a Ha. rw -Hother; done. }
  split; [|split; try done; [by rw Hs|by eexists]].
  split; try done; cbn; [by eapply no_checkpoints|lia|].
  intros a. destruct (decide (a = tx_sender t)) as [->|Ha]; [by rw Hs|]. rw Ho; done.
Qed.

Lemma wp_apply_transaction N b t p q :
  block_ok (N + 1 + tx_gas t) b -> 0 <= N -> tx_ok t -> (q = true -> tx_sender t <> 0) ->
  b_current_gas_used b + tx_gas t < 2 ^ 256 ->
  wp (Apply t p q) (fun t' b' => block_ok N b' /\ charged q (tx_sender t) (tx_gas t) b b')
    (fun _ _ => False) b.
Proof using HUok HLok HJok sha3_fits stack_size_ok Hnative.
  intros Hb HN Ht Hq Hmax. pose proof (tx_gas_ok _ Ht) as [Hg1 Hg2]. rw /wp /apply_transaction.
  rw (account_gas_entry b (tx_sender t)). set (limit := account_limit b (tx_sender t)).
  pose proof (blk_limits _ _ Hb (tx_sender t)) as Hlim. pose proof (blk_used _ _ Hb) as Hused.
  pose proof (wp_transact sha3 sha3_fits encode_address_nonce LOCAL_STACK_SIZE stack_size_ok ∅
    no_builtins_ok native_factory Hnative _ (env_info_ok' _ b limit Hb)
    {| check_permission := p; check_quota := q |} N (Session (b_state b) (b_jumps b) t) HN
    ltac:(by destruct Hb) Ht Hused Hmax) as Hwp.
  rw /state_apply /sbind. rw /wp in Hwp.
  destruct (transact _ _ _ _ _ _ _ _) as [[ex|e|] s']; [|..|done].
  - destruct Hwp as (([Hs' Hj' _] & Hf & _) & [_ Hu Hcum _ _] & Hacc & _). cbn [sgets sret].
    cbn in Hcum, Hu. cbn [Receipt_new rc_gas_used]. rw sub_ok; [lia|]. cbn [obind].
    assert (Hquota : q = true -> b_current_gas_used b + tx_gas t <= b_gas_limit b /\ tx_gas t <= limit).
    { intros ->. destruct (acc_quota _ _ _ _ Hacc eq_refl) as [H0|?]; [by destruct (Hq eq_refl)|done]. }
    destruct q.
    + specialize (Hquota eq_refl). rw sub_ok; [lia|]. cbn [obind].
      eapply (applied_ok true); try done; [lia|lia|lia|by rw lookup_insert_eq|].
      intros c Hc. rw lookup_insert_ne; [done|]. by apply account_gas_other.
    + eapply (applied_ok false); try done; [lia|apply account_gas_entry|].
      intros c Hc. by apply account_gas_other.
  - destruct Hwp as (([Hs' Hj' _] & Hf & _) & _).
    eapply (applied_ok q _ _ _ _ _ _ _ _ limit); try done; [lia|destruct q; unfold limit; lia|apply account_gas_entry|].
    intros c Hc. by apply account_gas_other.
Qed.

(** ** All transactions of a block *)
Definition total_gas (txs : list SignedTransaction) : Z := fold_right (fun t n => tx_gas t + n) 0 txs.

(** Every transaction may also increment a nonce. *)
Definition total_budget (txs : list SignedTransaction) : Z :=
  fold_right (fun t n => 1 + tx_gas t + n) 0 txs.

Lemma block_ok_mono m n b : 0 <= m <= n -> block_ok n b -> block_ok m b.
Proof using. intros ? []. split; try done. by eapply inv_le. Qed.

Lemma totals_nonneg txs : Forall tx_ok txs -> 0 <= total_gas txs /\ 0 <= total_budget txs.
Proof using.
  induction 1 as [|t txs Ht _ [IH1 IH2]]; [done|]. pose proof (tx_gas_ok _ Ht) as [? _].
  unfold total_gas, total_budget in *. cbn. lia.
Qed.

(** What the transactions have done to the gas accounts. *)
Record block_post (q : bool) (gas : Z) (b b' : Blockt) : Prop := {
  post_used : b_current_gas_used b <= b_current_gas_used b' <= b_current_gas_used b + gas;
  post_block : q = true -> b_current_gas_used b <= b_gas_limit b -> b_current_gas_used b' <= b_gas_limit b;
  post_accounts a : 0 <= account_limit b' a <= account_limit b a;
  post_same : b_gas_limit b' = b_gas_limit b /\ b_transactions b' = b_transactions b;
}.

Lemma wp_apply_loop interrupted p q index txs N b :
  block_ok (N + total_budget txs) b -> 0 <= N -> Forall tx_ok txs ->
  (q = true -> Forall (fun t => tx_sender t <> 0) txs) ->
  b_current_gas_used b + total_gas txs < 2 ^ 256 ->
  wp (Loop interrupted p q index txs)
    (fun r b' => block_ok N b' /\ block_post q (total_gas txs) b b' /\
       (forall txs', r = Some txs' -> length txs' = length txs /\
          length (b_receipts b') = (length (b_receipts b) + length txs)%nat))
    (fun _ _ => False) b.
Proof using HUok HLok HJok sha3_fits stack_size_ok Hnative.
  intros Hb HN Htxs. revert index b Hb. induction Htxs as [|t txs Ht Htxs IH]; intros index b Hb Hq Hmax.
  { apply wp_ret. cbn in *. split; [by rw Z.add_0_r in Hb|]. split.
    - split; try done; [lia|]. intros a. pose proof (blk_limits _ _ Hb a). lia.
    - intros txs' [= <-]. split; [done|]. cbn. lia. }
  destruct (totals_nonneg txs Htxs) as [Hn1 Hn2]. pose proof (tx_gas_ok _ Ht) as [Hg1 _].
  cbn [apply_loop total_gas total_budget fold_right] in *.
  fold (total_gas txs) in *. fold (total_budget txs) in *.
  destruct (_ && _).
  { apply wp_ret. split; [eapply block_ok_mono; [|exact Hb]; lia|]. split; [|done].
    split; try done; [lia|]. intros a. pose proof (blk_limits _ _ Hb a). lia. }
  apply wp_bind. eapply wp_conseq; [apply (wp_apply_transaction (N + total_budget txs)); try done| |done].
  - by rw (_ : N + total_budget txs + 1 + tx_gas t = N + (1 + tx_gas t + total_budget txs)); [lia|].
  - lia.
  - intros ->. specialize (Hq eq_refl). by inversion Hq.
  - lia.
  - intros t' b1 [Hb1 [Hu1 Hbl1 Hs1 Ho1 [r Hr1] [Hl1 Ht1]]]. apply wp_bind.
    eapply wp_conseq; [apply IH; [done| |lia]| |done].
    { intros ->. specialize (Hq eq_refl). by inversion Hq. }
    intros res b2 (Hb2 & [Hu2 Hbl2 Ha2 [Hl2 Ht2]] & Hlen). apply wp_ret. split; [done|]. split.
    + split; [lia| | |split; congruence].
      * intros Hqt Hle. rw Hl1 in Hbl2. by apply Hbl2, Hbl1.
      * intros a. specialize (Ha2 a). destruct (decide (a = tx_sender t)) as [->|Ha].
        -- rw Hs1 in Ha2. destruct q; lia.
        -- by rw Ho1 in Ha2.
    + intros txs' Hres. destruct res as [txs''|]; [|done]. injection Hres as <-.
      destruct (Hlen _ eq_refl) as [Hl Hrec]. rw Hr1 length_app in Hrec. cbn in *. lia.
Qed.
End spec.
