(* ===== verification/NativeStorage.v ===== *)
(** * Typed storage of native contracts

    [cita-executor/core/src/native/storage.rs]: scalars, byte strings, arrays
    and maps laid out in the storage slots of a native contract.  The slots
    are reached through the interface of [Evm.v]; what the layouts rely on is
    the class [ExtStorage] below. *)

From S2P Require Import Prelude Evm.
From stdpp Require Import base list strings pretty.
Local Open Scope Z_scope.
Local Open Scope cita_scope.

(** ** Serialization *)
Class Serialize (T : Type) : Type := serialize : T -> outcome Error bytes.
Class Deserialize (T : Type) : Type := deserialize : bytes -> outcome Error T.

#[export] Instance Serialize_U256 : Serialize U256 := fun v => Ok (to_be 32 v).
(** [U256::from] asserts that there are at most 32 bytes. *)
#[export] Instance Deserialize_U256 : Deserialize U256 := fun b =>
  _ <- assert_ (zlen b <=? 32) ;; Ok (of_be b).

(** [String]: bytes that are valid UTF-8. *)
Record String_ : Set := from_bytes { into_bytes : bytes }.

(** [core::str::from_utf8]: where the first invalid sequence starts and its
    length, none if the end of the input cuts it short. *)
Definition between (a b x : Z) : bool := (a <=? x) && (x <=? b).
Definition is_cont (x : Z) : bool := between 0x80 0xBF x.
Definition second_of_3 (first x : Z) : bool :=
  if first =? 0xE0 then between 0xA0 0xBF x
  else if first =? 0xED then between 0x80 0x9F x
  else is_cont x.
Definition second_of_4 (first x : Z) : bool :=
  if first =? 0xF0 then between 0x90 0xBF x
  else if first =? 0xF4 then between 0x80 0x8F x
  else is_cont x.

Fixpoint utf8_error (at_ : Z) (b : bytes) : option (Z * option Z) :=
  match b with
  | [] => None
  | first :: b =>
      if first <? 0x80 then utf8_error (at_ + 1) b
      else if between 0xC2 0xDF first then
        match b with
        | [] => Some (at_, None)
        | x :: b => if is_cont x then utf8_error (at_ + 2) b else Some (at_, Some 1)
        end
      else if between 0xE0 0xEF first then
        match b with
        | [] => Some (at_, None)
        | x :: b =>
            if second_of_3 first x then
              match b with
              | [] => Some (at_, None)
              | y :: b => if is_cont y then utf8_error (at_ + 3) b else Some (at_, Some 2)
              end
            else Some (at_, Some 1)
        end
      else if between 0xF0 0xF4 first then
        match b with
        | [] => Some (at_, None)
        | x :: b =>
            if second_of_4 first x then
              match b with
              | [] => Some (at_, None)
              | y :: b =>
                  if is_cont y then
                    match b with
                    | [] => Some (at_, None)
                    | z :: b => if is_cont z then utf8_error (at_ + 4) b else Some (at_, Some 3)
                    end
                  else Some (at_, Some 2)
              end
            else Some (at_, Some 1)
        end
      else Some (at_, Some 1)
  end.

(** [Display for FromUtf8Error]. *)
Definition utf8_error_message (e : Z * option Z) : string :=
  match e.2 with
  | Some n => "invalid utf-8 sequence of " +:+ pretty n +:+ " bytes from index " +:+ pretty e.1
  | None => "incomplete utf-8 byte sequence from index " +:+ pretty e.1
  end.

(** [impl From<FromUtf8Error> for EvmError]. *)
Definition Error_from_utf8 (e : Z * option Z) : Error :=
  Internal ("Internal error: " +:+ utf8_error_message e).

#[export] Instance Serialize_String : Serialize String_ := fun s => Ok (into_bytes s).
#[export] Instance Deserialize_String : Deserialize String_ := fun b =>
  match utf8_error 0 b with
  | None => Ok (from_bytes b)
  | Some e => Err (Error_from_utf8 e)
  end.

Section storage.
  Context {X : Type} {HX : Externalities X}.
  (** [util::sha3] and [H256::from] of a slice. *)
  Context (sha3 : bytes -> H256) (from_slice : bytes -> H256).

Definition read_slot (k : H256) : M Error X H256 := smap_err Error_from (storage_at k).
Definition write_slot (k v : H256) : M Error X unit := smap_err Error_from (set_storage k v).

(** ** Scalars *)
Definition scalar_set (position : H256) (value : U256) : M Error X unit := write_slot position value.
Definition scalar_get (position : H256) : M Error X U256 := read_slot position.

(** The loop over the chunks of a long string. *)
Fixpoint write_chunks (key : U256) (l : list bytes) : M Error X unit :=
  match l with
  | [] => sret tt
  | chunk :: l =>
      _ <~ write_slot key (from_slice chunk) ;;
      key <~ slift (add_ 256 key 1) ;;
      write_chunks key l
  end.

Definition scalar_set_bytes {T} `{Serialize T} (position : H256) (value : T) : M Error X unit :=
  encoded <~ slift (serialize value) ;;
  let length := zlen encoded in
  if length <? 32 then
    let byte32 := encoded ++ replicate (32 - Z.to_nat length) 0 in
    write_slot position (from_slice (<[31%nat := wrap 8 (length * 2)]> byte32))
  else
    twice <~ slift (mul_ 64 length 2) ;;
    first <~ slift (add_ 64 twice 1) ;;
    _ <~ write_slot position first ;;
    parts <~ slift (chunks 32 encoded) ;;
    write_chunks (sha3 (to_be 32 position)) parts.

(** The loop that reads a long string of [len] bytes; 32 bytes a round. *)
Fixpoint read_chunks (fuel : nat) (key : U256) (len : Z) (acc : bytes) : M Error X bytes :=
  if 0 <? len then
    match fuel with
    | O => slift Panic
    | S fuel =>
        v <~ read_slot key ;;
        if 32 <? len then
          key <~ slift (add_ 256 key 1) ;;
          read_chunks fuel key (len - 32) (acc ++ to_be 32 v)
        else
          part <~ slift (slice (to_be 32 v) 0 len) ;;
          sret (acc ++ part)
    end
  else sret acc.

Definition scalar_get_bytes {T} `{Deserialize T} (position : H256) : M Error X T :=
  first <~ read_slot position ;;
  last <~ slift (index (to_be 32 first) 31) ;;
  if last mod 2 =? 0 then
    part <~ slift (slice (to_be 32 first) 0 (last / 2)) ;;
    slift (deserialize part)
  else
    d <~ slift (sub_ (low_u64 first) 1) ;;
    let len := d / 2 in
    b <~ read_chunks (Z.to_nat (len / 32 + 1)) (sha3 (to_be 32 position)) len [] ;;
    slift (deserialize b).

(** ** Arrays *)

(** The slot of an element; also the position of an inner array ([get_array])
    or map ([get_map]). *)
Definition array_inner (position : H256) (index : Z) : outcome Error H256 :=
  add_ 256 (sha3 (to_be 32 position)) index.

Definition array_set (position : H256) (index : Z) (value : U256) : M Error X unit :=
  key <~ slift (array_inner position index) ;; scalar_set key value.
Definition array_get (position : H256) (index : Z) : M Error X U256 :=
  key <~ slift (array_inner position index) ;; scalar_get key.
Definition array_set_bytes {T} `{Serialize T} (position : H256) (index : Z) (value : T) : M Error X unit :=
  key <~ slift (array_inner position index) ;; scalar_set_bytes key value.
Definition array_get_bytes {T} `{Deserialize T} (position : H256) (index : Z) : M Error X T :=
  key <~ slift (array_inner position index) ;; scalar_get_bytes key.
Definition array_set_len (position : H256) (len : Z) : M Error X unit := write_slot position len.
Definition array_get_len (position : H256) : M Error X Z :=
  len <~ read_slot position ;; sret (low_u64 len).

(** ** Maps *)

(** The slot of a key; also the position of an inner array ([get_array]) or
    map ([get_map]). *)
Definition map_inner {K} `{Serialize K} (position : H256) (key : K) : outcome Error H256 :=
  b <- serialize key ;; Ok (sha3 (b ++ to_be 32 position)).

Definition map_set {K} `{Serialize K} (position : H256) (key : K) (value : U256) : M Error X unit :=
  slot <~ slift (map_inner position key) ;; scalar_set slot value.
Definition map_get {K} `{Serialize K} (position : H256) (key : K) : M Error X U256 :=
  slot <~ slift (map_inner position key) ;; scalar_get slot.
Definition map_set_bytes {K} `{Serialize K} {V} `{Serialize V} (position : H256) (key : K) (value : V)
    : M Error X unit :=
  slot <~ slift (map_inner position key) ;; scalar_set_bytes slot value.
Definition map_get_bytes {K} `{Serialize K} {V} `{Deserialize V} (position : H256) (key : K) : M Error X V :=
  slot <~ slift (map_inner position key) ;; scalar_get_bytes slot.
End storage.
