(* ===== verification/NativeSpec.v ===== *)
(** * Native storage against slots

    What an environment promises about storage slots, and what the layouts of
    [NativeStorage.v] make of it: a byte string occupies its cell, or its cell
    and the slots from the hash of the cell on. *)

From S2P Require Import Prelude Evm NativeStorage.
From stdpp Require Import base list strings.
Local Open Scope Z_scope.
Local Open Scope cita_scope.

(** Slots of an environment.  A read gives the value of the slot and a write
    sets it; both leave the other slots alone.  They fail only if the database
    does not answer. *)
Class ExtStorage (X : Type) {HX : Externalities X} (I : X -> Prop) (slot : X -> H256 -> H256)
    (answers : X -> Prop) : Prop := {
  ext_read k x : I x ->
    wp (storage_at k)
      (fun v x' => v = slot x k /\ I x' /\ (forall j, slot x' j = slot x j) /\ (answers x -> answers x'))
      (fun _ _ => ~ answers x) x;
  ext_write k v x : I x -> fits 256 v ->
    wp (set_storage k v)
      (fun _ x' => I x' /\ slot x' k = v /\ (forall j, j <> k -> slot x' j = slot x j) /\ (answers x -> answers x'))
      (fun _ _ => ~ answers x) x;
}.

(** A type whose values survive serialization. *)
Class Serial (T : Type) {S : Serialize T} {D : Deserialize T} (valid : T -> Prop) : Prop :=
  serial_round v : valid v -> exists b, serialize v = Ok b /\ vec_ok b /\ deserialize b = Ok v.

#[export] Instance Serial_U256 : Serial U256 (fits 256).
Proof.
  intros v Hv. exists (to_be 32 v). split; [done|]. split.
  - split; [apply to_be_ok|]. by rw /zlen to_be_length.
  - rw /deserialize /Deserialize_U256 /zlen to_be_length. change (Ok (of_be (to_be 32 v)) = Ok (E := Error) v).
    rw of_be_to_be. f_equal. by apply Z.mod_small.
Qed.

(** The invariant of [String]. *)
Definition string_ok (s : String_) : Prop := vec_ok (into_bytes s) /\ utf8_error 0 (into_bytes s) = None.

#[export] Instance Serial_String : Serial String_ string_ok.
Proof.
  intros [b] [Hb Hu]. exists b. split; [done|]. split; [done|].
  rw /deserialize /Deserialize_String. cbn in Hu. by rw Hu.
Qed.

(** [H256::from] of at most 32 bytes puts them first and pads with zeros. *)
Definition left_aligned (from_slice : bytes -> H256) : Prop :=
  forall b, (length b <= 32)%nat -> from_slice b = of_be (b ++ replicate (32 - length b) 0).

Section bytes_layout.
  Context (from_slice : bytes -> H256) (Hfs : left_aligned from_slice).

Lemma pad_ok b : bytes_ok b -> bytes_ok (b ++ replicate (32 - length b) 0).
Proof using. intros Hb. apply Forall_app. split; [done|]. by apply Forall_replicate. Qed.

Lemma from_slice_bytes b : bytes_ok b -> (length b <= 32)%nat ->
  to_be 32 (from_slice b) = b ++ replicate (32 - length b) 0.
Proof using Hfs.
  intros Hb Hl. rw Hfs; [done|]. set (p := b ++ _).
  assert (Hp : length p = 32%nat) by (rw /p length_app length_replicate; lia).
  rw -{1}Hp. apply to_be_of_be. by apply pad_ok.
Qed.

Lemma from_slice_fits b : bytes_ok b -> (length b <= 32)%nat -> fits 256 (from_slice b).
Proof using Hfs.
  intros Hb Hl. rw Hfs; [done|]. pose proof (of_be_bound _ (pad_ok b Hb)) as H.
  replace (8 * zlen (b ++ replicate (32 - length b) 0)) with 256 in H; [done|].
  rw /zlen length_app length_replicate. lia.
Qed.

(** The number of slots a long string takes. *)
Lemma chunks_length fuel n {A} (l : list A) : (length l <= fuel)%nat -> (0 < n)%nat ->
  zlen (chunks_ fuel n l) * Z.of_nat n < zlen l + Z.of_nat n.
Proof using.
  revert l. induction fuel as [|fuel IH]; intros [|x l] Hl Hn; try (rw /zlen; cbn; lia).
  cbn [chunks_]. rw zlen_cons.
  assert (H : (length (drop n (x :: l)) <= fuel)%nat) by (rw length_drop; cbn [length] in *; lia).
  specialize (IH _ H Hn). rw {2}/zlen length_drop in IH. rw {2}/zlen.
  generalize dependent (zlen (chunks_ fuel n (drop n (x :: l)))). intros c IH. cbn [length] in *.
  destruct (decide (S (length l) <= n)%nat); [|lia]. assert (c <= 0) by nia. nia.
Qed.

  Context {X : Type} {HX : Externalities X} {I : X -> Prop} {slot : X -> H256 -> H256} {answers : X -> Prop}.
  Context {HS : ExtStorage X I slot answers} (sha3 : bytes -> H256) (Hsha : forall b, fits 256 (sha3 b)).

(** What one step of a program on slots leaves: the invariant, and a database
    that answers if it did. *)
Definition kept (x x' : X) : Prop := I x' /\ (answers x -> answers x').

Lemma kept_trans x y z : kept x y -> kept y z -> kept x z.
Proof using. rw /kept. naive_solver. Qed.

Lemma wp_read_slot k x : I x ->
  wp (read_slot k) (fun v x' => v = slot x k /\ kept x x' /\ forall j, slot x' j = slot x j) (fun _ _ => ~ answers x) x.
Proof using HS.
  intros Hx. apply wp_map_err. eapply wp_conseq; [by apply ext_read| |done]. rw /kept. naive_solver.
Qed.

Lemma wp_write_slot k v x : I x -> fits 256 v ->
  wp (write_slot k v) (fun _ x' => slot x' k = v /\ kept x x' /\ forall j, j <> k -> slot x' j = slot x j)
    (fun _ _ => ~ answers x) x.
Proof using HS.
  intros Hx Hv. apply wp_map_err. eapply wp_conseq; [by apply ext_write| |done]. rw /kept. naive_solver.
Qed.

(** Slots from [key] on hold the chunks. *)
Definition stored (x : X) (key : Z) (l : list bytes) : Prop :=
  forall i c, l !! i = Some c -> slot x (key + Z.of_nat i) = from_slice c.

Definition chunk_ok (c : bytes) : Prop := bytes_ok c /\ (length c <= 32)%nat.

Lemma write_chunks_ok l key x : I x -> Forall chunk_ok l -> key + zlen l < 2 ^ 256 ->
  wp (write_chunks from_slice key l)
    (fun _ x' => kept x x' /\ stored x' key l /\ forall j, ~ (key <= j < key + zlen l) -> slot x' j = slot x j)
    (fun _ _ => ~ answers x) x.
Proof using HS Hfs.
  revert key x. induction l as [|c l IH]; intros key x Hx Hl Hk; cbn [write_chunks].
  { apply wp_ret. split; [done|]. split; [|done]. intros i c. by rw lookup_nil. }
  apply Forall_cons in Hl as [[Hc1 Hc2] Hl]. rw zlen_cons in Hk |- *. pose proof (zlen_nonneg l).
  apply wp_bind. eapply wp_conseq; [apply wp_write_slot; [done|by apply from_slice_fits]| |done].
  intros _ x1 (Hv & H1 & Hf). apply wp_bind, wp_lift. rw add_ok; [lia|].
  eapply wp_conseq; [apply (IH (key + 1) x1); [apply H1|done|lia]| |by destruct H1; naive_solver].
  intros _ x2 (H2 & Hst & Hf2). split; [by eapply kept_trans|]. split.
  - intros [|i] c' Hi.
    + injection Hi as <-. rw Z.add_0_r Hf2; [lia|done].
    + replace (key + Z.of_nat (S i)) with (key + 1 + Z.of_nat i) by lia. by apply Hst.
  - intros j Hj. rw Hf2; [lia|]. apply Hf. lia.
Qed.

Lemma stored_same x x' key l : (forall j, slot x' j = slot x j) -> stored x key l -> stored x' key l.
Proof using. intros Hj H i c Hi. by rw Hj; apply H. Qed.

Lemma read_chunks_ok fuel f b key acc x : I x -> bytes_ok b -> (length b <= f)%nat ->
  zlen b <= 32 * Z.of_nat fuel -> key + zlen (chunks_ f 32 b) < 2 ^ 256 -> stored x key (chunks_ f 32 b) ->
  wp (read_chunks fuel key (zlen b) acc)
    (fun r x' => r = acc ++ b /\ kept x x' /\ forall j, slot x' j = slot x j) (fun _ _ => ~ answers x) x.
Proof using HS Hfs.
  revert f b key acc x. induction fuel as [|fuel IH]; intros f b key acc x Hx Hb Hf Hl Hk Hst.
  { destruct b; [|rw zlen_cons in Hl; pose proof (zlen_nonneg b); lia]. apply wp_ret. by rw app_nil_r. }
  destruct b as [|c0 b]; [apply wp_ret; by rw app_nil_r|]. set (l := c0 :: b) in *.
  destruct f as [|f]; [cbn in Hf; lia|]. cbn [read_chunks chunks_] in Hst, Hk |- *. rw zlen_cons in Hk.
  assert (Hpos : 0 < zlen l) by (rw zlen_cons; pose proof (zlen_nonneg b); lia).
  rw (proj2 (Z.ltb_lt 0 (zlen l)) Hpos). apply wp_bind.
  eapply wp_conseq; [by apply wp_read_slot| |done]. intros v x1 (-> & H1 & Hs1).
  assert (Hv : slot x key = from_slice (take 32 l)) by (rw -(Hst 0%nat (take 32 l)); [done|by rw /= Z.add_0_r]).
  assert (Htk : bytes_ok (take 32 l)) by by apply Forall_take.
  assert (Hdr : bytes_ok (drop 32 l)) by by apply Forall_drop.
  rw Hv. destruct (Z.ltb_spec 32 (zlen l)) as [Hlt|Hge].
  - apply wp_bind, wp_lift. rw add_ok; [pose proof (zlen_nonneg (chunks_ f 32 (drop 32 l))); lia|].
    assert (Hd : zlen l - 32 = zlen (drop 32 l)) by (rw /zlen length_drop; unfold zlen in Hlt; lia). rw Hd.
    eapply wp_conseq; [apply (IH f (drop 32 l) (key + 1)); try done|..]; [apply H1|rw length_drop; lia|lia|lia|..].
    + intros i c Hi. rw Hs1. replace (key + 1 + Z.of_nat i) with (key + Z.of_nat (S i)) by lia. by apply Hst.
    + intros r x2 (-> & H2 & Hs2). split; [|split; [by eapply kept_trans|]].
      * rw from_slice_bytes; [done|rw length_take; lia|]. rw length_take Nat.min_l; [unfold zlen in Hlt; lia|].
        cbn [replicate Nat.sub]. by rw app_nil_r -app_assoc take_drop.
      * intros j. by rw Hs2 Hs1.
    + destruct H1. naive_solver.
  - apply wp_bind, wp_lift. rw take_ge in Hv |- *; [unfold zlen in Hge; lia|].
    rw from_slice_bytes; [done|unfold zlen in Hge; lia|].
    rw slice_ok; [done|lia|rw zlen_app; pose proof (zlen_nonneg (replicate (32 - length l) 0)); lia|].
    apply wp_ret. split; [|done]. f_equal. rw drop_0. unfold zlen. rw Z.sub_0_r Nat2Z.id. by rw take_app_length.
Qed.

(** ** Byte strings *)

(** The cell of a string shorter than 32 bytes: the bytes, and twice their
    number in the last byte. *)
Definition short_word (b : bytes) : bytes :=
  <[31%nat := wrap 8 (zlen b * 2)]> (b ++ replicate (32 - Z.to_nat (zlen b)) 0).

(** The byte string [b] is stored at [position]. *)
Definition holds (x : X) (position : H256) (b : bytes) : Prop :=
  if zlen b <? 32 then slot x position = from_slice (short_word b)
  else slot x position = zlen b * 2 + 1 /\ stored x (sha3 (to_be 32 position)) (chunks_ (length b) 32 b).

(** The slots it takes. *)
Definition cells (position : H256) (b : bytes) (k : H256) : Prop :=
  k = position \/
  (32 <= zlen b /\ sha3 (to_be 32 position) <= k < sha3 (to_be 32 position) + zlen (chunks_ (length b) 32 b)).

(** A long string fits behind the hash of its position and does not run over
    the position itself. *)
Definition room (position : H256) (b : bytes) : Prop :=
  32 <= zlen b ->
  sha3 (to_be 32 position) + zlen (chunks_ (length b) 32 b) < 2 ^ 256 /\
  ~ (sha3 (to_be 32 position) <= position < sha3 (to_be 32 position) + zlen (chunks_ (length b) 32 b)).

Lemma short_word_ok b : bytes_ok b -> zlen b < 32 ->
  to_be 32 (from_slice (short_word b)) = short_word b /\ chunk_ok (short_word b).
Proof using Hfs.
  intros Hb Hl. assert (Hlen : length (short_word b) = 32%nat).
  { rw /short_word length_insert length_app length_replicate. unfold zlen in *. lia. }
  assert (Hok : bytes_ok (short_word b)).
  { apply Forall_insert; [apply Forall_app; split; [done|by apply Forall_replicate]|by apply wrap_fits]. }
  split; [|by split; [done|lia]]. rw from_slice_bytes; [done|lia|]. rw Hlen /=. by rw app_nil_r.
Qed.

Lemma short_word_last b : zlen b < 32 -> index (E := Error) (short_word b) 31 = Ok (zlen b * 2).
Proof using.
  intros Hl. pose proof (zlen_nonneg b). rw /index /short_word.
  assert (Hlen : (31 < length (b ++ replicate (32 - Z.to_nat (zlen b)) 0%Z))%nat).
  { rw length_app length_replicate. unfold zlen in *. lia. }
  change (Z.to_nat 31) with 31%nat. rw list_lookup_insert_eq; [done|]. cbn.
  rw wrap_small; [split; [lia|]; change (2 ^ 8) with 256; lia|done].
Qed.

Lemma short_word_part b : zlen b < 32 -> slice (E := Error) (short_word b) 0 (zlen b) = Ok b.
Proof using.
  intros Hl. pose proof (zlen_nonneg b).
  rw slice_ok; [done|lia| |].
  { rw /short_word /zlen length_insert length_app. lia. }
  f_equal. rw Z.sub_0_r drop_0 /short_word take_insert_ge; [unfold zlen in *; lia|].
  rw /zlen !Nat2Z.id. by rw take_app_length.
Qed.

Lemma last_byte x : index (E := Error) (to_be 32 x) 31 = Ok (x mod 256).
Proof using.
  rw /index. change (to_be 32 x) with (to_be 31 (x / 256) ++ [x mod 256]).
  rw lookup_app_r to_be_length; [done|]. done.
Qed.

Lemma holds_frame x x' position b :
  (forall k, cells position b k -> slot x' k = slot x k) -> holds x position b -> holds x' position b.
Proof using.
  intros Hf. rw /holds. destruct (Z.ltb_spec (zlen b) 32) as [?|Hl].
  - rw Hf; [by left|done].
  - intros [Hp Hs]. split; [by rw Hf; [left|]|]. intros i c Hi. rw Hf; [|by apply Hs]. right. split; [done|].
    apply lookup_lt_Some in Hi. unfold zlen. lia.
Qed.

Lemma chunks_ok32 f b : bytes_ok b -> Forall chunk_ok (chunks_ f 32 b).
Proof using.
  revert b. induction f as [|f IH]; intros [|c b] Hb; cbn [chunks_]; [done..|].
  constructor; [|by apply IH, Forall_drop]. split; [by apply Forall_take|]. rw length_take. lia.
Qed.

(** A lifted outcome, and its value. *)
Ltac lift_step := apply wp_bind, wp_lift.
Ltac value_step := cbv beta iota zeta delta [owp]; cbn [Z.eqb Pos.eqb].

Lemma set_bytes_ok {T} `{Serial T valid} (v : T) b position x :
  I x -> serialize v = Ok b -> vec_ok b -> room position b ->
  wp (scalar_set_bytes sha3 from_slice position v)
    (fun _ x' => kept x x' /\ holds x' position b /\ forall k, ~ cells position b k -> slot x' k = slot x k)
    (fun _ _ => ~ answers x) x.
Proof using HS Hfs.
  intros Hx Hv [Hb Hbl] Hroom. rw /scalar_set_bytes. lift_step. rw Hv /holds /cells. value_step.
  destruct (Z.ltb_spec (zlen b) 32) as [Hl|Hl].
  - change (<[31%nat := wrap 8 (zlen b * 2)]> _) with (short_word b).
    destruct (short_word_ok b Hb Hl) as [_ [Hc1 Hc2]].
    eapply wp_conseq; [apply wp_write_slot; [done|by apply from_slice_fits]| |done].
    intros _ x' (? & ? & Hf). split; [done|]. split; [done|]. intros k Hk. apply Hf. naive_solver.
  - destruct (Hroom Hl) as [Hr Hne]. pose proof (zlen_nonneg b).
    lift_step. rw mul_ok; [lia|]. lift_step. rw add_ok; [lia|]. apply wp_bind.
    eapply wp_conseq; [apply wp_write_slot; [done|split; [lia|]]| |done].
    { eapply Z.lt_trans; [|apply (Z.pow_lt_mono_r 2 64 256); lia]. lia. }
    intros _ x1 (Hp & H1 & Hf1). lift_step. rw /chunks /=.
    eapply wp_conseq; [apply write_chunks_ok; [apply H1|by apply chunks_ok32|done]| |by destruct H1; naive_solver].
    intros _ x2 (H2 & Hs2 & Hf2). split; [by eapply kept_trans|]. split; [split; [by rw Hf2|done]|].
    intros k Hk. rw Hf2; [naive_solver|]. apply Hf1. naive_solver.
Qed.

Lemma get_bytes_ok {T} `{Serial T valid} (v : T) b position x :
  I x -> holds x position b -> deserialize b = Ok v -> vec_ok b -> room position b ->
  wp (scalar_get_bytes sha3 position)
    (fun r x' => r = v /\ kept x x' /\ forall k, slot x' k = slot x k) (fun _ _ => ~ answers x) x.
Proof using HS Hfs.
  intros Hx Hh Hv [Hb Hbl] Hroom. rw /scalar_get_bytes. apply wp_bind.
  eapply wp_conseq; [by apply wp_read_slot| |done]. intros first x1 (-> & H1 & Hs1).
  pose proof (zlen_nonneg b). rw /holds in Hh. destruct (Z.ltb_spec (zlen b) 32) as [Hl|Hl].
  - rw Hh. destruct (short_word_ok b Hb Hl) as [-> _].
    lift_step. rw short_word_last; [done|]. value_step. rw Z.mod_mul; [done|]. value_step.
    lift_step. rw Z.div_mul; [done|]. rw short_word_part; [done|]. value_step.
    apply wp_lift. by rw Hv.
  - destruct Hh as [-> Hst]. destruct (Hroom Hl) as [Hr Hne].
    lift_step. rw last_byte.
    value_step. assert (Hodd : (zlen b * 2 + 1) mod 256 mod 2 = 1) 
      by (rw Z.mod_mod_divide; [by exists 128|]; by rw Z.add_comm Z.mod_add).
    rw Hodd. value_step. lift_step. rw low_u64_small; [split; lia|]. rw sub_ok; [lia|]. value_step.
    rw Z.add_simpl_r Z.div_mul; [done|]. apply wp_bind.
    eapply wp_conseq; [apply (read_chunks_ok _ (length b) b); [apply H1|done|lia|Z.to_euclidean_division_equations; lia|done|by eapply stored_same]|..].
    + intros r x2 (-> & H2 & Hs2). apply wp_lift. cbn [app]. rw Hv. split; [done|]. split; [by eapply kept_trans|].
      intros k. by rw Hs2 Hs1.
    + destruct H1. naive_solver.
Qed.
End bytes_layout.
