(* ===== verification/Codec.v ===== *)
(** * Stored data and its RLP form

    Blocks, transactions, receipts and their addresses as the chain stores
    them: [cita-chain/types/src/transaction.rs], [receipt.rs], [log_entry.rs],
    [cita-chain/core/src/header.rs], [libchain/block.rs] and
    [libchain/extras.rs].  Each type has the [Encodable] and [Decodable]
    implementations of the source, as functions to and from RLP values.  The
    values of the base types are encoded by the RLP library, the class
    [RlpLib]. *)

From S2P Require Import Prelude Evm Account NativeStorage Executive Block.
From stdpp Require Import base gmap list.
Local Open Scope Z_scope.
Local Open Scope cita_scope.

(** ** The library *)
Inductive rlp : Type :=
| RData (b : bytes)
| RList (l : list rlp).

(** A type with its encoding; decoding may fail. *)
Class Rlp (T : Type) : Type := { to_rlp : T -> rlp; of_rlp : rlp -> option T }.

(** Unsigned numbers, arrays of bytes of fixed length as numbers, byte strings
    and strings. *)
Class RlpLib : Type := {
  put_uint : Z -> rlp; get_uint : Z -> rlp -> option Z;
  put_hash : nat -> Z -> rlp; get_hash : nat -> rlp -> option Z;
  put_bytes : bytes -> rlp; get_bytes : rlp -> option bytes;
  put_string : String_ -> rlp; get_string : rlp -> option String_;
  (** [Rlp::is_empty] *)
  is_empty : rlp -> bool;
}.

Definition item_count (r : rlp) : option nat :=
  match r with RList l => Some (length l) | RData _ => None end.

Definition val_at {T} (dec : rlp -> option T) (r : rlp) (i : nat) : option T :=
  match r with RList l => l !! i ≫= dec | RData _ => None end.

Definition put_list {T} (enc : T -> rlp) (l : list T) : rlp := RList (enc <$> l).
Definition get_list {T} (dec : rlp -> option T) (r : rlp) : option (list T) :=
  match r with RList l => mapM dec l | RData _ => None end.

(** An option is a list of at most one item. *)
Definition put_option {T} (enc : T -> rlp) (o : option T) : rlp :=
  RList (match o with Some v => [enc v] | None => [] end).
Definition get_option {T} (dec : rlp -> option T) (r : rlp) : option (option T) :=
  match r with
  | RList [] => Some None
  | RList [x] => Some <$> dec x
  | _ => None
  end.

Section codecs.
  Context {HR : RlpLib}.
Abbreviation u64_at := (val_at (get_uint 64)).
Abbreviation u256_at := (val_at (get_uint 256)).
Abbreviation h256_at := (val_at (get_hash 32)).

(** ** Logs and receipts *)
#[export] Instance Rlp_LogEntry : Rlp LogEntry := {
  to_rlp e := RList [put_hash 20 (log_address e); put_list (put_hash 32) (log_topics e); put_bytes (log_data e)];
  of_rlp r :=
    address ← val_at (get_hash 20) r 0;
    topics ← val_at (get_list (get_hash 32)) r 1;
    data ← val_at get_bytes r 2;
    Some {| log_address := address; log_topics := topics; log_data := data |};
}.

#[export] Instance Rlp_ReceiptError : Rlp ReceiptError.t := {
  to_rlp e := put_uint (ReceiptError.encode e);
  of_rlp r := get_uint 8 r ≫= ReceiptError.decode;
}.

#[export] Instance Rlp_Receipt : Rlp Receipt := {
  to_rlp rc := RList (
    match rc_state_root rc with Some root => [put_hash 32 root] | None => [] end ++
    [put_uint (rc_gas_used rc); put_hash 256 (rc_log_bloom rc); put_list to_rlp (rc_logs rc);
     put_option to_rlp (rc_error rc); put_uint (rc_account_nonce rc)]);
  of_rlp r :=
    n ← item_count r;
    let fields i root :=
      gas_used ← u256_at r i;
      log_bloom ← val_at (get_hash 256) r (i + 1);
      logs ← val_at (get_list of_rlp) r (i + 2);
      error ← val_at (get_option of_rlp) r (i + 3);
      account_nonce ← u256_at r (i + 4);
      Some {| rc_state_root := root; rc_gas_used := gas_used; rc_log_bloom := log_bloom; rc_logs := logs;
              rc_error := error; rc_account_nonce := account_nonce |} in
    if Nat.eqb n 5 then fields 0%nat None
    else root ← h256_at r 0; fields 1%nat (Some root);
}.

(** [BlockReceipts]. *)
Definition BlockReceipts : Type := list (option Receipt).
#[export] Instance Rlp_BlockReceipts : Rlp BlockReceipts := {
  to_rlp := put_list (put_option to_rlp);
  of_rlp := get_list (get_option of_rlp);
}.

(** ** Transactions *)
Definition STORE_ADDRESS : Address := 2 ^ 160 - 1.

#[export] Instance Rlp_Action : Rlp Action := {
  to_rlp a := match a with
    | ActCreate => put_string (from_bytes [])
    | ActCall addr => put_hash 20 addr
    | ActStore => put_hash 20 STORE_ADDRESS
    end;
  of_rlp r :=
    if is_empty r then Some ActCreate
    else addr ← get_hash 20 r;
         Some (if addr =? STORE_ADDRESS then ActStore else ActCall addr);
}.

Inductive CryptoType : Set := SECP | SM2.
#[export] Instance Rlp_CryptoType : Rlp CryptoType := {
  to_rlp c := put_uint match c with SECP => 0 | SM2 => 1 end;
  of_rlp r := n ← get_uint 8 r; match n with 0 => Some SECP | 1 => Some SM2 | _ => None end;
}.

Record Transaction : Set := {
  t_nonce : String_;
  t_gas_price : U256;
  t_gas : U256;
  t_action : Action;
  t_value : U256;
  t_data : bytes;
  t_block_limit : Z;
}.

(** [rlp_append_unsigned_transaction], the fields one after the other. *)
Definition transaction_fields (t : Transaction) : list rlp :=
  [put_string (t_nonce t); put_uint (t_gas_price t); put_uint (t_gas t); to_rlp (t_action t);
   put_uint (t_value t); put_bytes (t_data t); put_uint (t_block_limit t)].

Definition transaction_at (r : rlp) : option Transaction :=
  nonce ← val_at get_string r 0;
  gas_price ← u256_at r 1;
  gas ← u256_at r 2;
  action ← val_at of_rlp r 3;
  value ← u256_at r 4;
  data ← val_at get_bytes r 5;
  block_limit ← u64_at r 6;
  Some {| t_nonce := nonce; t_gas_price := gas_price; t_gas := gas; t_action := action; t_value := value;
          t_data := data; t_block_limit := block_limit |}.

#[export] Instance Rlp_Transaction : Rlp Transaction := {
  to_rlp t := RList (transaction_fields t);
  of_rlp r := n ← item_count r; if Nat.eqb n 7 then transaction_at r else None;
}.

(** The signature is that of the crypto library, as bytes. *)
Record UnverifiedTransaction : Set := {
  u_unsigned : Transaction;
  u_signature : bytes;
  u_crypto_type : CryptoType;
  u_hash : H256;
}.

#[export] Instance Rlp_UnverifiedTransaction : Rlp UnverifiedTransaction := {
  to_rlp u := RList [to_rlp (u_unsigned u); put_bytes (u_signature u); to_rlp (u_crypto_type u); put_hash 32 (u_hash u)];
  of_rlp r :=
    n ← item_count r;
    if Nat.eqb n 4 then
      unsigned ← val_at of_rlp r 0;
      signature ← val_at get_bytes r 1;
      crypto_type ← val_at of_rlp r 2;
      hash ← h256_at r 3;
      Some {| u_unsigned := unsigned; u_signature := signature; u_crypto_type := crypto_type; u_hash := hash |}
    else None;
}.

Record SignedTx : Set := {
  s_transaction : UnverifiedTransaction;
  s_sender : Address;
  s_public : Z;
  s_account_nonce : U256;
}.

  (** [pubkey_to_address] of the crypto library. *)
  Context (pubkey_to_address : Z -> Address).

#[export] Instance Rlp_SignedTx : Rlp SignedTx := {
  to_rlp s := let u := s_transaction s in
    RList (transaction_fields (u_unsigned u) ++
      [put_bytes (u_signature u); to_rlp (u_crypto_type u); put_hash 32 (u_hash u);
       put_hash 64 (s_public s); put_uint (s_account_nonce s)]);
  of_rlp r :=
    n ← item_count r;
    if Nat.eqb n 12 then
      public ← val_at (get_hash 64) r 10;
      unsigned ← transaction_at r;
      signature ← val_at get_bytes r 7;
      crypto_type ← val_at of_rlp r 8;
      hash ← h256_at r 9;
      account_nonce ← u256_at r 11;
      Some {| s_transaction := {| u_unsigned := unsigned; u_signature := signature;
                                  u_crypto_type := crypto_type; u_hash := hash |};
              s_sender := pubkey_to_address public; s_public := public; s_account_nonce := account_nonce |}
    else None;
}.
End codecs.

(** ** Blocks *)
Inductive ProofType : Set := AuthorityRound | Raft | Tendermint.

#[export] Instance ProofType_eq_dec : EqDecision ProofType.
Proof. solve_decision. Defined.

Section blocks.
  Context {HR : RlpLib} {HU : Util} (pubkey_to_address : Z -> Address).
  (** [libproto]'s proofs: the empty one and the type of a proof. *)
  Context {Proof_ : Type} {Proof_eq : EqDecision Proof_} {HP : Rlp Proof_}.
  Context (Proof_new : Proof_) (get_field_type : Proof_ -> ProofType).
  (** [RlpStream::out]. *)
  Context (rlp_out : rlp -> bytes).
Abbreviation Stx_rlp := (Rlp_SignedTx pubkey_to_address).

(** The memoised hash is left out: the setters drop it, and [hash] computes it
    from the fields. *)
Record Header : Type := mkHeader {
  parent_hash : H256;
  timestamp : Z;
  number : Z;
  transactions_root : H256;
  state_root : H256;
  receipts_root : H256;
  log_bloom : Z;
  gas_used : U256;
  gas_limit : U256;
  proof : Proof_;
  version : Z;
}.

Definition Header_default : Header :=
  mkHeader 0 0 0 HASH_NULL_RLP HASH_NULL_RLP HASH_NULL_RLP 0 0 (2 ^ 64 - 1) Proof_new 0.

Definition proof_type (h : Header) : option ProofType :=
  if bool_decide (proof h = Proof_new) then None else Some (get_field_type (proof h)).

(** [stream_rlp]; the proof comes from [libproto] with its own encoding. *)
#[export] Instance Rlp_Header : Rlp Header := {
  to_rlp h := RList [put_hash 32 (parent_hash h); put_hash 32 (state_root h); put_hash 32 (transactions_root h);
    put_hash 32 (receipts_root h); put_hash 256 (log_bloom h); put_uint (number h); put_uint (gas_limit h);
    put_uint (gas_used h); put_uint (timestamp h); put_uint (version h); to_rlp (proof h)];
  of_rlp r :=
    parent_hash ← val_at (get_hash 32) r 0;
    state_root ← val_at (get_hash 32) r 1;
    transactions_root ← val_at (get_hash 32) r 2;
    receipts_root ← val_at (get_hash 32) r 3;
    log_bloom ← val_at (get_hash 256) r 4;
    number ← val_at (get_uint 64) r 5;
    gas_limit ← val_at (get_uint 256) r 6;
    gas_used ← val_at (get_uint 256) r 7;
    timestamp ← val_at (get_uint 256) r 8;
    version ← val_at (get_uint 32) r 9;
    proof ← val_at of_rlp r 10;
    Some (mkHeader parent_hash (Z.min timestamp (2 ^ 64 - 1)) number transactions_root state_root receipts_root
            log_bloom gas_used gas_limit proof version);
}.

(** [rlp_hash], which [hash] computes once and keeps until a field changes.  A
    header that was decoded keeps the hash of the bytes instead, see
    [decode_header]; it is this one for the bytes the services write
    ([decoded_header_hash] in [CodecSpec]), and headers are decoded from their
    own database only. *)
Definition header_hash (h : Header) : H256 := crypt_hash (rlp_out (to_rlp h)).

(** [Decodable for Header]: the header, and the hash it memoises. *)
Definition decode_header (rlp_parse : bytes -> option rlp) (raw : bytes) : option (Header * H256) :=
  r ← rlp_parse raw;
  h ← of_rlp r;
  Some (h, crypt_hash raw).

(** [BlockBody], a wrapper of its transactions. *)
Definition BlockBody : Type := list SignedTx.
#[export] Instance Rlp_BlockBody : Rlp BlockBody := {
  to_rlp := put_list (@to_rlp _ Stx_rlp);
  of_rlp := get_list (@of_rlp _ Stx_rlp);
}.

Definition transaction_hashes (b : BlockBody) : list H256 := (fun s => u_hash (s_transaction s)) <$> b.

Record Block : Type := mkBlock { header : Header; body : BlockBody }.
#[export] Instance Rlp_Block : Rlp Block := {
  to_rlp b := RList [to_rlp (header b); to_rlp (body b)];
  of_rlp r :=
    n ← item_count r;
    if Nat.eqb n 2 then
      h ← val_at of_rlp r 0;
      b ← val_at of_rlp r 1;
      Some (mkBlock h b)
    else None;
}.

Definition Block_default : Block := mkBlock Header_default [].
End blocks.

Record TransactionAddress : Set := { ta_block_hash : H256; ta_index : Z }.
#[export] Instance Rlp_TransactionAddress {HR : RlpLib} : Rlp TransactionAddress := {
  to_rlp a := RList [put_hash 32 (ta_block_hash a); put_uint (ta_index a)];
  of_rlp r :=
    block_hash ← val_at (get_hash 32) r 0;
    index ← val_at (get_uint 64) r 1;
    Some {| ta_block_hash := block_hash; ta_index := index |};
}.

(** [Block::transaction_addresses]: of two transactions with the same hash the
    last one counts. *)
Definition transaction_addresses (hash : H256) (b : BlockBody) : gmap Z TransactionAddress :=
  fold_left (fun m '(i, tx_hash) => <[tx_hash := {| ta_block_hash := hash; ta_index := Z.of_nat i |}]> m)
    (imap pair (transaction_hashes b)) ∅.
