(* ===== verification/CodecSpec.v ===== *)
(** * Decoding what was encoded

    What the RLP library promises, and that the stored types survive their
    encoding.  Receipts do, except for the kind of their error. *)

From S2P Require Import Prelude Evm Account NativeStorage NativeSpec Executive Block Codec.
From stdpp Require Import base gmap list.
Local Open Scope Z_scope.
Local Open Scope cita_scope.

Class RlpLibOk {HR : RlpLib} : Prop := {
  uint_round w v : fits w v -> get_uint w (put_uint v) = Some v;
  hash_round n v : fits (8 * Z.of_nat n) v -> get_hash n (put_hash n v) = Some v;
  uint_range w r v : get_uint w r = Some v -> fits w v;
  hash_range n r v : get_hash n r = Some v -> fits (8 * Z.of_nat n) v;
  bytes_round b : bytes_ok b -> get_bytes (put_bytes b) = Some b;
  bytes_range r b : get_bytes r = Some b -> bytes_ok b;
  string_range r s : get_string r = Some s -> string_ok s;
  string_round s : string_ok s -> get_string (put_string s) = Some s;
  empty_string : is_empty (put_string (from_bytes [])) = true;
  hash_nonempty n v : n <> 0%nat -> is_empty (put_hash n v) = false;
}.

(** Valid values survive. *)
Class RlpOk (T : Type) {HT : Rlp T} (valid : T -> Prop) : Prop :=
  rlp_round v : valid v -> of_rlp (to_rlp v) = Some v.

Lemma list_round {T} (enc : T -> rlp) dec l :
  Forall (fun v => dec (enc v) = Some v) l -> get_list dec (put_list enc l) = Some l.
Proof. intros H. cbn. apply mapM_Some_2, Forall2_fmap_l, Forall_Forall2_diag, H. Qed.

Lemma option_round {T} (enc : T -> rlp) dec o :
  (forall v, o = Some v -> dec (enc v) = Some v) -> get_option dec (put_option enc o) = Some o.
Proof. destruct o as [v|]; [|done]. intros H. cbn. by rw H. Qed.

#[global] Arguments get_list : simpl never.
#[global] Arguments put_list : simpl never.
#[global] Arguments get_option : simpl never.
#[global] Arguments put_option : simpl never.

Section codecs.
  Context {HR : RlpLib} {HRok : RlpLibOk}.

Ltac rounds :=
  repeat first
    [rw uint_round; [done|] | rw hash_round; [done|] | rw bytes_round; [done|] | rw string_round; [done|]];
  cbn [mbind option_bind option_fmap option_map fmap lookup list_lookup val_at item_count length Nat.eqb app].

Record log_ok (e : LogEntry) : Prop := {
  lo_address : fits 160 (log_address e);
  lo_topics : Forall (fits 256) (log_topics e);
  lo_data : bytes_ok (log_data e);
}.

#[export] Instance LogEntry_ok : RlpOk LogEntry log_ok.
Proof using HRok.
  intros [a ts d] [Ha Ht Hd]. cbn in *. rounds. rw list_round.
  - eapply Forall_impl; [exact Ht|]. intros t Hf. by apply hash_round.
  - rounds. done.
Qed.

(** What an error becomes. *)
Definition recoded (e : option ReceiptError.t) : option (option ReceiptError.t) :=
  match e with
  | None => Some None
  | Some e => Some <$> ReceiptError.decode (ReceiptError.encode e)
  end.

Definition with_error (rc : Receipt) (e : option ReceiptError.t) : Receipt :=
  {| rc_state_root := rc_state_root rc; rc_gas_used := rc_gas_used rc; rc_log_bloom := rc_log_bloom rc;
     rc_logs := rc_logs rc; rc_error := e; rc_account_nonce := rc_account_nonce rc |}.

Record receipt_ok (rc : Receipt) : Prop := {
  ro_root h : rc_state_root rc = Some h -> fits 256 h;
  ro_gas : fits 256 (rc_gas_used rc);
  ro_bloom : fits 2048 (rc_log_bloom rc);
  ro_logs : Forall log_ok (rc_logs rc);
  ro_nonce : fits 256 (rc_account_nonce rc);
}.

Lemma error_round e : get_option of_rlp (put_option to_rlp e) = recoded e.
Proof using HRok.
  destruct e as [e|]; [|done]. rw /get_option /put_option. cbn. rw uint_round; [by destruct e|]. done.
Qed.

Lemma receipt_round rc : receipt_ok rc -> of_rlp (to_rlp rc) = with_error rc <$> recoded (rc_error rc).
Proof using HRok.
  intros [Hr Hg Hb Hl Hn]. destruct rc as [root gu lb logs e nonce]. cbn in *.
  assert (Hlogs : get_list of_rlp (put_list to_rlp logs) = Some logs).
  { apply list_round. eapply Forall_impl; [exact Hl|]. apply LogEntry_ok. }
  destruct root as [root|]; cbn; rounds; rw ?(hash_round 32 root); try (by apply Hr); rounds;
    rw Hlogs; rounds; rw error_round; destruct (recoded e) as [e'|]; cbn; rounds; done.
Qed.

(** Receipts without an error, or refused ones, survive. *)
Definition lasting (rc : Receipt) : Prop := receipt_ok rc /\ recoded (rc_error rc) = Some (rc_error rc).

#[export] Instance Receipt_ok : RlpOk Receipt lasting.
Proof using HRok. intros rc [Hok He]. rw receipt_round; [done|]. rw He. by destruct rc. Qed.

Definition receipts_lasting (l : BlockReceipts) : Prop := Forall (fun o => forall rc, o = Some rc -> lasting rc) l.

#[export] Instance BlockReceipts_ok : RlpOk BlockReceipts receipts_lasting.
Proof using HRok.
  intros l Hl. apply list_round. eapply Forall_impl; [exact Hl|]. intros o Ho.
  apply option_round. intros rc ->. by apply Receipt_ok, Ho.
Qed.

(** ** Transactions *)
Definition action_ok (a : Action) : Prop :=
  match a with ActCall addr => fits 160 addr /\ addr <> STORE_ADDRESS | _ => True end.

#[export] Instance Action_ok : RlpOk Action action_ok.
Proof using HRok.
  intros [| |addr] Ha; cbn in *.
  - rw hash_nonempty; [done|]. by rounds.
  - by rw empty_string.
  - destruct Ha as [Ha Hne]. rw hash_nonempty; [done|]. rounds. by rw (proj2 (Z.eqb_neq _ _) Hne).
Qed.

#[export] Instance CryptoType_ok : RlpOk CryptoType (fun _ => True).
Proof using HRok. intros [] _; cbn; rounds; done. Qed.

Record transaction_ok (t : Transaction) : Prop := {
  to_nonce : string_ok (t_nonce t);
  to_gas_price : fits 256 (t_gas_price t);
  to_gas : fits 256 (t_gas t);
  to_action : action_ok (t_action t);
  to_value : fits 256 (t_value t);
  to_data : bytes_ok (t_data t);
  to_block_limit : fits 64 (t_block_limit t);
}.

(** The fields may be followed by others. *)
Lemma transaction_at_round t more : transaction_ok t ->
  transaction_at (RList (transaction_fields t ++ more)) = Some t.
Proof using HRok.
  intros []. destruct t as [no gp ga ac va da bl]. rw /transaction_at /transaction_fields.
  cbn [t_nonce t_gas_price t_gas t_action t_value t_data t_block_limit app val_at lookup list_lookup mbind option_bind] in *.
  rounds. rw Action_ok; [done|]. rounds. done.
Qed.

#[export] Instance Transaction_ok : RlpOk Transaction transaction_ok.
Proof using HRok.
  intros t Ht. pose proof (transaction_at_round t [] Ht) as H. rw app_nil_r in H. exact H.
Qed.

Record unverified_ok (u : UnverifiedTransaction) : Prop := {
  uo_unsigned : transaction_ok (u_unsigned u);
  uo_signature : bytes_ok (u_signature u);
  uo_hash : fits 256 (u_hash u);
}.

#[export] Instance UnverifiedTransaction_ok : RlpOk UnverifiedTransaction unverified_ok.
Proof using HRok.
  intros [t s c h] [Ht Hs Hh]. cbn [u_unsigned u_signature u_crypto_type u_hash] in *.
  cbn [to_rlp of_rlp Rlp_UnverifiedTransaction u_unsigned u_signature u_crypto_type u_hash]. rounds.
  rw Transaction_ok; [done|]. rounds. rw CryptoType_ok; [done|]. rounds. done.
Qed.

  Context (pubkey_to_address : Z -> Address).

(** The sender is that of the public key. *)
Record signed_ok (s : SignedTx) : Prop := {
  so_transaction : unverified_ok (s_transaction s);
  so_sender : s_sender s = pubkey_to_address (s_public s);
  so_public : fits 512 (s_public s);
  so_nonce : fits 256 (s_account_nonce s);
}.

#[export] Instance SignedTx_ok : @RlpOk SignedTx (Rlp_SignedTx pubkey_to_address) signed_ok.
Proof using HRok.
  intros [[t sg c h] sender public nonce] [[Ht Hsg Hh] Hse Hp Hn]. cbn [u_unsigned u_signature u_crypto_type u_hash
    s_transaction s_sender s_public s_account_nonce] in *. subst sender.
  cbn [to_rlp of_rlp Rlp_SignedTx u_unsigned u_signature u_crypto_type u_hash s_transaction s_public s_account_nonce].
  rw transaction_at_round; [done|]. rw /transaction_fields. rounds. rw CryptoType_ok; [done|]. rounds. done.
Qed.
End codecs.

(** ** Blocks *)
Section blocks.
  Context {HR : RlpLib} {HRok : RlpLibOk} (pubkey_to_address : Z -> Address).
  Context {Proof_ : Type} {HP : Rlp Proof_} (proof_ok : Proof_ -> Prop) {HPok : RlpOk Proof_ proof_ok}.

Record header_ok (h : Header (Proof_ := Proof_)) : Prop := {
  ho_parent : fits 256 (parent_hash h);
  ho_timestamp : fits 64 (timestamp h);
  ho_number : fits 64 (number h);
  ho_transactions : fits 256 (transactions_root h);
  ho_state : fits 256 (state_root h);
  ho_receipts : fits 256 (receipts_root h);
  ho_bloom : fits 2048 (log_bloom h);
  ho_gas_used : fits 256 (gas_used h);
  ho_gas_limit : fits 256 (gas_limit h);
  ho_proof : proof_ok (proof h);
  ho_version : fits 32 (version h);
}.

#[export] Instance Header_ok : RlpOk Header header_ok.
Proof using HRok HPok.
  intros h []. destruct h as [ph ts no tr sr rr lb gu gl pr ve].
  cbn [parent_hash timestamp number transactions_root state_root receipts_root log_bloom gas_used gas_limit proof
    version] in *.
  cbn [to_rlp of_rlp Rlp_Header parent_hash timestamp number transactions_root state_root receipts_root log_bloom
    gas_used gas_limit proof version val_at lookup list_lookup mbind option_bind].
  do 5 (rw hash_round; [done|]; cbn [mbind option_bind]).
  rw (uint_round 64 no); [done|]. rw (uint_round 256 gl); [done|]. rw (uint_round 256 gu); [done|].
  rw (uint_round 256 ts); [by apply (fits_mono 64)|]. rw (uint_round 32 ve); [done|].
  cbn [mbind option_bind]. rw HPok; [done|].
  cbn [mbind option_bind]. rw Z.min_l; [unfold fits in *; lia|done].
Qed.

(** The hash memoised for a header that was written by its encoder is its
    hash. *)
Lemma decoded_header_hash {HU : Util} (rlp_out : rlp -> bytes) (rlp_parse : bytes -> option rlp) (h : Header) :
  (forall r, rlp_parse (rlp_out r) = Some r) -> header_ok h ->
  decode_header rlp_parse (rlp_out (to_rlp h)) = Some (h, header_hash rlp_out h).
Proof using HRok HPok. intros Hp Hh. unfold decode_header. rw Hp. cbn [mbind option_bind]. by rw Header_ok. Qed.

Definition body_ok (b : BlockBody) : Prop := Forall (signed_ok pubkey_to_address) b.

#[export] Instance BlockBody_ok : @RlpOk BlockBody (Rlp_BlockBody pubkey_to_address) body_ok.
Proof using HRok.
  intros b Hb. apply list_round. eapply Forall_impl; [exact Hb|]. apply SignedTx_ok.
Qed.

Definition block_ok (b : Block (Proof_ := Proof_)) : Prop := header_ok (header b) /\ body_ok (body b).

#[export] Instance Block_ok : @RlpOk Block (Rlp_Block pubkey_to_address) block_ok.
Proof using HRok HPok.
  intros [h b] [Hh Hb]. cbn [header body] in *.
  cbn [to_rlp of_rlp Rlp_Block header body item_count length Nat.eqb val_at lookup list_lookup mbind option_bind].
  rw Header_ok; [done|]. cbn [mbind option_bind]. by rw BlockBody_ok.
Qed.
End blocks.

(** ** What is decoded is valid *)
Section typed.
  Context {HR : RlpLib} {HRok : RlpLibOk} (pubkey_to_address : Z -> Address).
  Context {Proof_ : Type} {HP : Rlp Proof_} (proof_ok : Proof_ -> Prop) (proof_range : forall r p, of_rlp r = Some p -> proof_ok p).

Lemma val_at_Some {T} (dec : rlp -> option T) r i v : val_at dec r i = Some v -> exists x, dec x = Some v.
Proof using. destruct r as [b|l]; [done|]. cbn. intros (x & _ & H)%bind_Some. by exists x. Qed.

(** The fields of a value that was decoded. *)
Ltac fields H :=
  repeat match type of H with
  | (_ ≫= _) = Some _ => let x := fresh "x" in let Hx := fresh "Hx" in apply bind_Some in H as (x & Hx & H); try apply val_at_Some in Hx as [? Hx]
  end.

Lemma action_typed r a : of_rlp r = Some a -> action_ok a.
Proof using HRok.
  cbn. destruct (is_empty r); [by intros [= <-]|]. intros (addr & Ha & [= <-])%bind_Some. apply (hash_range 20) in Ha.
  destruct (addr =? STORE_ADDRESS) eqn:Hs; [done|]. apply Z.eqb_neq in Hs. done.
Qed.

Lemma transaction_typed r t : transaction_at r = Some t -> transaction_ok t.
Proof using HRok.
  unfold transaction_at. intros H. fields H. injection H as <-.
  split; cbn [t_nonce t_gas_price t_gas t_action t_value t_data t_block_limit];
    eauto using uint_range, bytes_range, string_range, action_typed.
Qed.

Lemma signed_typed r s : of_rlp (Rlp := Rlp_SignedTx pubkey_to_address) r = Some s -> signed_ok pubkey_to_address s.
Proof using HRok.
  cbn. intros (n & Hn & H)%bind_Some. destruct (Nat.eqb n 12); [|done]. fields H. injection H as <-.
  split; cbn [s_transaction s_sender s_public s_account_nonce]; [|done|by eapply (hash_range 64)|by eapply uint_range].
  split; cbn [u_unsigned u_signature u_hash]; eauto using transaction_typed, bytes_range. by eapply (hash_range 32).
Qed.

Lemma body_typed r b : of_rlp (Rlp := Rlp_BlockBody pubkey_to_address) r = Some b -> body_ok pubkey_to_address b.
Proof using HRok.
  destruct r as [d|l]; [done|]. change (mapM (of_rlp (Rlp := Rlp_SignedTx pubkey_to_address)) l = Some b -> body_ok pubkey_to_address b).
  intros H%mapM_Some_1. unfold body_ok. induction H as [|x y l b Hx H IH]; constructor; [|done].
  by eapply signed_typed.
Qed.

Lemma header_typed r (h : Header (Proof_ := Proof_)) : of_rlp r = Some h -> header_ok proof_ok h.
Proof using HRok proof_range.
  cbn. intros H. fields H. injection H as <-.
  split; cbn [parent_hash timestamp number transactions_root state_root receipts_root log_bloom gas_used gas_limit proof version];
    eauto using uint_range; try by eapply (hash_range 32).
  - match goal with H : get_uint 256 _ = Some ?x |- fits 64 (Z.min ?x _) => apply uint_range in H; unfold fits in *; lia end.
  - by eapply (hash_range 256).
Qed.

Lemma block_typed r (b : Block (Proof_ := Proof_)) : of_rlp (Rlp := Rlp_Block pubkey_to_address) r = Some b ->
  block_ok pubkey_to_address proof_ok b.
Proof using HRok proof_range.
  cbn [of_rlp Rlp_Block]. intros (n & Hn & H)%bind_Some. destruct (Nat.eqb n 2); [|done].
  apply bind_Some in H as (h & [x Hh]%val_at_Some & H). apply bind_Some in H as (bo & [y Hb]%val_at_Some & [= <-]).
  split; [by eapply header_typed|by eapply body_typed].
Qed.
End typed.

Definition address_ok (a : TransactionAddress) : Prop := fits 256 (ta_block_hash a) /\ fits 64 (ta_index a).

#[export] Instance TransactionAddress_ok {HR : RlpLib} {HRok : RlpLibOk} : RlpOk TransactionAddress address_ok.
Proof.
  intros [h i] [Hh Hi]. cbn in *. rw hash_round; [done|]. cbn. by rw uint_round.
Qed.
