(* ===== verification/ChainDb.v ===== *)
(** * The database of the chain

    [cita-chain/core/src/db.rs] and the keys of [libchain/extras.rs]: typed
    values in the columns of a key-value database, and caches over it.  The
    database library is the class [KvDb]; it answers every request (the code
    panics on an I/O error).  [rlp_parse] and [rlp_out] convert RLP values from
    and to bytes. *)

From S2P Require Import Prelude Codec.
From stdpp Require Import base gmap list.
Local Open Scope Z_scope.
Local Open Scope cita_scope.

Class KvDb (D : Type) : Type := {
  db_get : D -> Z -> bytes -> option bytes;
  db_put : Z -> bytes -> bytes -> D -> D;
}.

Class KvDbOk (D : Type) {HD : KvDb D} : Prop :=
  db_get_put d c k v c' k' :
    db_get (db_put c k v d) c' k' = if bool_decide ((c', k') = (c, k)) then Some v else db_get d c' k'.

Class RlpBytes : Type := { rlp_out : rlp -> bytes; rlp_parse : bytes -> option rlp }.
Class RlpBytesOk {HB : RlpBytes} : Prop := rlp_parse_out r : rlp_parse (rlp_out r) = Some r.

Definition COL_HEADERS : Z := 1.
Definition COL_BODIES : Z := 2.
Definition COL_EXTRA : Z := 3.

(** ** Keys *)
Module ExtrasIndex.
Definition TransactionAddress : Z := 0.
Definition BlockReceipts : Z := 1.
Definition BlocksBlooms : Z := 2.
Definition BlockHeadHash : Z := 4.
Definition BlockBodyHash : Z := 5.
End ExtrasIndex.

Definition CurrentHash : H256 := 0x7cabfb7709b29c16d9e876e876c9988d03f9c3414e1d3ff77ec1de2d0ee59f66.
Definition CurrentProof : H256 := 0x7cabfb7709b29c16d9e876e876c9988d03f9c3414e1d3ff77ec1de2d0ee59f67.
Definition CurrentHeight : H256 := 0x7cabfb7709b29c16d9e876e876c9988d03f9c3414e1d3ff77ec1de2d0ee59f68.

(** [Key<BlockNumber> for H256] and the three constants. *)
Definition key_hash (h : H256) : bytes := to_be 32 h.
(** [Key<Header>] and [Key<BlockBody> for BlockNumber]. *)
Definition key_header (n : Z) : bytes := ExtrasIndex.BlockHeadHash :: to_be 8 n.
Definition key_body (n : Z) : bytes := ExtrasIndex.BlockBodyHash :: to_be 8 n.
Definition with_index (h : H256) (i : Z) : bytes := i :: to_be 32 h.
Definition key_address (h : H256) : bytes := with_index h ExtrasIndex.TransactionAddress.
Definition key_receipts (h : H256) : bytes := with_index h ExtrasIndex.BlockReceipts.

(** [LogGroupPosition]: a level and an index, of which four bytes are kept. *)
Definition key_blooms (p : Z * Z) : bytes := ExtrasIndex.BlocksBlooms :: p.1 :: to_be 4 p.2.

(** ** Reading and writing *)
Section db.
  Context {D : Type} {HD : KvDb D} {HB : RlpBytes}.

(** A transaction of the database: what is put, in order. *)
Definition DBTransaction : Type := list (Z * bytes * bytes).
Definition db_write (b : DBTransaction) (d : D) : D := fold_left (fun d '(c, k, v) => db_put c k v d) b d.

Definition write {T} `{Rlp T} (col : Z) (key : bytes) (v : T) : DBTransaction := [(col, key, rlp_out (to_rlp v))].

(** A value that does not decode panics. *)
Definition read {T} `{Rlp T} (d : D) (col : Z) (key : bytes) : outcome void (option T) :=
  match db_get d col key with
  | Some b => v <- expect (rlp_parse b ≫= of_rlp) ;; Ok (Some v)
  | None => Ok None
  end.

(** The value and the new cache. *)
Definition read_with_cache {K T} `{Countable K} `{Rlp T} (d : D) (col : Z) (key : K -> bytes) (cache : gmap K T) (k : K)
    : outcome void (option T * gmap K T) :=
  match cache !! k with
  | Some v => Ok (Some v, cache)
  | None =>
      r <- read d col (key k) ;;
      Ok (r, match r with Some v => <[k := v]> cache | None => cache end)
  end.

(** [CacheUpdatePolicy::Overwrite] of one value, and of a map of values. *)
Definition write_with_cache {K T} `{Countable K} `{Rlp T} (col : Z) (key : K -> bytes) (k : K) (v : T)
    (b : DBTransaction) (cache : gmap K T) : DBTransaction * gmap K T :=
  (b ++ write col (key k) v, <[k := v]> cache).

Definition extend_with_cache {K T} `{Countable K} `{Rlp T} (col : Z) (key : K -> bytes) (values : list (K * T))
    (b : DBTransaction) (cache : gmap K T) : DBTransaction * gmap K T :=
  fold_left (fun '(b, cache) '(k, v) => write_with_cache col key k v b cache) values (b, cache).
End db.
