(* ===== verification/Chain.v ===== *)
(** * The chain

    [cita-chain/core/src/libchain/chain.rs]: the blocks that were executed,
    with their transactions and receipts, stored and looked up; the queue of
    blocks that wait for execution; and the results of execution.  The bloom
    index is that of the bloom library.  A message to the other services is
    added to [ctx_pub].  Which cache entries the cache manager drops is an
    argument of [collect_garbage]. *)

From S2P Require Import Prelude Evm Account Executive Block Codec ChainDb.
From stdpp Require Import base gmap list sorting.
Local Open Scope Z_scope.
Local Open Scope cita_scope.

Inductive BlockId : Set :=
| BidHash (hash : H256)
| BidNumber (number : Z)
| Earliest
| Latest.

(** [libchain::status::Status]. *)
Record Status : Set := { status_hash : H256; status_number : Z }.

(** Numbers and hashes as values of the database. *)
Definition Rlp_u64 {HR : RlpLib} : Rlp Z := {| to_rlp := put_uint; of_rlp := get_uint 64 |}.
Definition Rlp_H256 {HR : RlpLib} : Rlp Z := {| to_rlp := put_hash 32; of_rlp := get_hash 32 |}.

(** A log with its place in the chain. *)
Record LocalizedLogEntry : Set := {
  ll_entry : LogEntry;
  ll_block_hash : H256;
  ll_block_number : Z;
  ll_transaction_hash : H256;
  ll_transaction_index : Z;
  ll_log_index : Z;
  ll_transaction_log_index : Z;
}.

Record LocalizedReceipt : Set := {
  lr_transaction_hash : H256;
  lr_transaction_index : Z;
  lr_block_hash : H256;
  lr_block_number : Z;
  lr_cumulative_gas_used : U256;
  lr_gas_used : U256;
  lr_contract_address : option Address;
  lr_logs : list LocalizedLogEntry;
  lr_log_bloom : Z;
  lr_state_root : option H256;
  lr_error : option ReceiptError.t;
}.

Record Filter : Set := {
  f_from_block : BlockId;
  f_to_block : BlockId;
  f_address : option (list Address);
  f_topics : list (option (list H256));
  f_limit : option nat;
}.

(** [libproto::executor::ExecutedResult]: the header that was executed, the
    receipts and the configuration after the block. *)
Record ExecutedHeader : Set := {
  eh_prevhash : H256;
  eh_timestamp : Z;
  eh_height : Z;
  eh_state_root : H256;
  eh_transactions_root : H256;
  eh_receipts_root : H256;
  eh_log_bloom : Z;
  eh_gas_used : Z;
  eh_gas_limit : Z;
}.

Inductive CacheId : Set :=
| IdHeaders (n : Z)
| IdBodies (n : Z)
| IdHashes (h : H256)
| IdAddresses (h : H256)
| IdBlooms (p : Z * Z)
| IdReceipts (h : H256).

Section chain.
  Context {HR : RlpLib} {HU : Util} {HB : RlpBytes} (pubkey_to_address : Z -> Address).
  Context {Proof_ : Type} {Proof_eq : EqDecision Proof_} {HP : Rlp Proof_}.
  Context (Proof_new : Proof_) (get_field_type : Proof_ -> ProofType).
  Context {D : Type} {HD : KvDb D} {AccountGasLimit : Type}.
  Context (encode_address_nonce : Address -> U256 -> bytes).
  (** The bloom library: groups of blooms at positions, the groups that change
      when the bloom of a block is added, and the blocks of a range that may
      have a bloom. *)
  Context {BloomGroup : Type} {HG : Rlp BloomGroup}.
Abbreviation Lookup := (Z * Z -> outcome void (option BloomGroup)).
  Context (bloom_insert : Lookup -> Z -> Z -> outcome void (list ((Z * Z) * BloomGroup))).
  Context (with_bloom : Lookup -> Z -> Z -> Z -> outcome void (list Z)).
  Context (shift_bloomed : Z -> H256 -> Z).
Abbreviation Hdr := (Header (Proof_ := Proof_)).
Abbreviation Blk := (Block (Proof_ := Proof_)).
#[local] Instance Body_rlp : Rlp BlockBody := Rlp_BlockBody pubkey_to_address.

Inductive BlockInQueue : Type :=
| Proposal (b : Blk)
| ConsensusBlock (b : Blk) (p : Proof_)
| SyncBlock (b : Blk) (p : option Proof_).

Inductive ChainMsg : Type :=
| TxHashesMsg (height : Z) (tx_hashes : list H256) (block_gas_limit : Z) (account_gas_limit : AccountGasLimit)
| RichStatusMsg (hash : H256) (height : Z) (nodes : list Address)
| StatusMsg (s : Status)
| NetBlkMsg (b : Blk)
| SyncResponseMsg (origin : Z) (blocks : list Blk).

Record Caches : Type := mkCaches {
  block_headers : gmap Z Hdr;
  block_bodies : gmap Z BlockBody;
  block_hashes : gmap Z Z;
  tx_addresses : gmap Z TransactionAddress;
  blocks_blooms : gmap (Z * Z) BloomGroup;
  receipts_cache : gmap Z BlockReceipts;
}.

Record Chain : Type := mkChain {
  current_header : Hdr;
  is_sync : bool;
  max_height : Z;
  max_store_height : Z;
  block_map : gmap Z BlockInQueue;
  db : D;
  caches : Caches;
  nodes : list Address;
  block_gas_limit : Z;
  account_gas_limit : AccountGasLimit;
  check_prooftype : Z;
  ctx_pub : list ChainMsg;
}.

Abbreviation C := (M void Chain).

Definition with_current (h : Hdr) (c : Chain) : Chain :=
  mkChain h (is_sync c) (max_height c) (max_store_height c) (block_map c) (db c) (caches c) (nodes c)
    (block_gas_limit c) (account_gas_limit c) (check_prooftype c) (ctx_pub c).
Definition with_sync (b : bool) (c : Chain) : Chain :=
  mkChain (current_header c) b (max_height c) (max_store_height c) (block_map c) (db c) (caches c) (nodes c)
    (block_gas_limit c) (account_gas_limit c) (check_prooftype c) (ctx_pub c).
Definition with_heights (h s : Z) (c : Chain) : Chain :=
  mkChain (current_header c) (is_sync c) h s (block_map c) (db c) (caches c) (nodes c)
    (block_gas_limit c) (account_gas_limit c) (check_prooftype c) (ctx_pub c).
Definition with_queue (q : gmap Z BlockInQueue) (c : Chain) : Chain :=
  mkChain (current_header c) (is_sync c) (max_height c) (max_store_height c) q (db c) (caches c) (nodes c)
    (block_gas_limit c) (account_gas_limit c) (check_prooftype c) (ctx_pub c).
Definition with_db (d : D) (k : Caches) (c : Chain) : Chain :=
  mkChain (current_header c) (is_sync c) (max_height c) (max_store_height c) (block_map c) d k (nodes c)
    (block_gas_limit c) (account_gas_limit c) (check_prooftype c) (ctx_pub c).
Definition with_config (l : Z) (a : AccountGasLimit) (n : list Address) (c : Chain) : Chain :=
  mkChain (current_header c) (is_sync c) (max_height c) (max_store_height c) (block_map c) (db c) (caches c) n l a
    (check_prooftype c) (ctx_pub c).
Definition send (m : ChainMsg) (c : Chain) : Chain :=
  mkChain (current_header c) (is_sync c) (max_height c) (max_store_height c) (block_map c) (db c) (caches c) (nodes c)
    (block_gas_limit c) (account_gas_limit c) (check_prooftype c) (ctx_pub c ++ [m]).

Definition with_headers (m : gmap Z Hdr) (k : Caches) : Caches :=
  mkCaches m (block_bodies k) (block_hashes k) (tx_addresses k) (blocks_blooms k) (receipts_cache k).
Definition with_bodies (m : gmap Z BlockBody) (k : Caches) : Caches :=
  mkCaches (block_headers k) m (block_hashes k) (tx_addresses k) (blocks_blooms k) (receipts_cache k).
Definition with_hashes (m : gmap Z Z) (k : Caches) : Caches :=
  mkCaches (block_headers k) (block_bodies k) m (tx_addresses k) (blocks_blooms k) (receipts_cache k).
Definition with_addresses (m : gmap Z TransactionAddress) (k : Caches) : Caches :=
  mkCaches (block_headers k) (block_bodies k) (block_hashes k) m (blocks_blooms k) (receipts_cache k).
Definition with_blooms (m : gmap (Z * Z) BloomGroup) (k : Caches) : Caches :=
  mkCaches (block_headers k) (block_bodies k) (block_hashes k) (tx_addresses k) m (receipts_cache k).
Definition with_receipts (m : gmap Z BlockReceipts) (k : Caches) : Caches :=
  mkCaches (block_headers k) (block_bodies k) (block_hashes k) (tx_addresses k) (blocks_blooms k) m.

(** ** Lookups *)

(** [read_with_cache] on a cache of the chain. *)
Definition lookup_cached {K T} `{Countable K} `{Rlp T} (col : Z) (key : K -> bytes) (sel : Caches -> gmap K T)
    (upd : gmap K T -> Caches -> Caches) (k : K) : C (option T) :=
  c <~ sget ;;
  r <~ slift (read_with_cache (db c) col key (sel (caches c)) k) ;;
  _ <~ smodify (with_db (db c) (upd r.2 (caches c))) ;;
  sret r.1.

Definition get_current_height (c : Chain) : Z := number (current_header c).
Definition get_current_hash (c : Chain) : H256 := header_hash rlp_out (current_header c).

Definition block_height_by_hash (hash : H256) : C (option Z) :=
  lookup_cached (H0 := Rlp_u64) COL_EXTRA key_hash block_hashes with_hashes hash.

Definition block_header_by_height (idx : Z) : C (option Hdr) :=
  c <~ sget ;;
  if number (current_header c) =? idx then sret (Some (current_header c))
  else lookup_cached COL_HEADERS key_header block_headers with_headers idx.

Definition block_body_by_height (n : Z) : C (option BlockBody) :=
  lookup_cached COL_BODIES key_body block_bodies with_bodies n.

(** [o.map_or(None, f)] where [f] looks up. *)
Definition and_then {A B} (o : option A) (f : A -> C (option B)) : C (option B) :=
  match o with Some a => f a | None => sret None end.

Definition block_by_height (n : Z) : C (option Blk) :=
  h <~ block_header_by_height n ;;
  b <~ block_body_by_height n ;;
  sret (match h, b with Some h, Some b => Some (mkBlock h b) | _, _ => None end).

Definition block_by_hash (hash : H256) : C (option Blk) :=
  h <~ block_height_by_hash hash ;; and_then h block_by_height.

Definition block_header_by_hash (hash : H256) : C (option Hdr) :=
  c <~ sget ;;
  if get_current_hash c =? hash then sret (Some (current_header c))
  else h <~ block_height_by_hash hash ;; and_then h block_header_by_height.

Definition block_body_by_hash (hash : H256) : C (option BlockBody) :=
  h <~ block_height_by_hash hash ;; and_then h block_body_by_height.

(** The lookups by [BlockId]: [block], [block_header] and [block_body]. *)
Definition by_id {B} (by_hash : H256 -> C (option B)) (by_height : Z -> C (option B)) (id : BlockId) : C (option B) :=
  match id with
  | BidHash hash => by_hash hash
  | BidNumber n => by_height n
  | Earliest => by_height 0
  | Latest => c <~ sget ;; by_height (get_current_height c)
  end.

Definition block : BlockId -> C (option Blk) := by_id block_by_hash block_by_height.
Definition block_header : BlockId -> C (option Hdr) := by_id block_header_by_hash block_header_by_height.
Definition block_body : BlockId -> C (option BlockBody) := by_id block_body_by_hash block_body_by_height.

Definition block_number (id : BlockId) : C (option Z) :=
  match id with
  | BidNumber n => sret (Some n)
  | BidHash hash => block_height_by_hash hash
  | Earliest => sret (Some 0)
  | Latest => c <~ sget ;; sret (Some (get_current_height c))
  end.

Definition block_hash_by_height (n : Z) : C (option H256) :=
  h <~ block_header_by_height n ;; sret (header_hash rlp_out <$> h).

Definition block_tx_hashes (n : Z) : C (option (list H256)) :=
  b <~ block_body_by_height n ;; sret (transaction_hashes <$> b).

Definition block_transaction_hashes (id : BlockId) : C (option (list H256)) :=
  b <~ block_body id ;; sret (transaction_hashes <$> b).

Definition transaction_address (hash : H256) : C (option TransactionAddress) :=
  lookup_cached COL_EXTRA key_address tx_addresses with_addresses hash.

(** An index beyond the body panics. *)
Definition transaction_by_address (hash : H256) (i : Z) : C (option SignedTx) :=
  b <~ block_body_by_hash hash ;;
  match b with
  | Some b => t <~ slift (index b i) ;; sret (Some t)
  | None => sret None
  end.

Definition transaction (hash : H256) : C (option SignedTx) :=
  a <~ transaction_address hash ;;
  and_then a (fun a => transaction_by_address (ta_block_hash a) (ta_index a)).

(** [FullTransaction]: the transaction, the block number and hash, the index. *)
Definition full_transaction (hash : H256) : C (option (SignedTx * Z * H256 * Z)) :=
  a <~ transaction_address hash ;;
  and_then a (fun a =>
    b <~ block_by_hash (ta_block_hash a) ;;
    match b with
    | Some b =>
        t <~ slift (index (body b) (ta_index a)) ;;
        sret (Some (t, number (header b), ta_block_hash a, wrap 32 (ta_index a)))
    | None => sret None
    end).

Definition block_receipts (hash : H256) : C (option BlockReceipts) :=
  lookup_cached COL_EXTRA key_receipts receipts_cache with_receipts hash.

Definition transaction_receipt (a : TransactionAddress) : C (option Receipt) :=
  r <~ block_receipts (ta_block_hash a) ;;
  and_then r (fun r => slift (index r (ta_index a))).

(** ** Receipts *)
Definition localized_logs (id : H256) (i : Z) (hash : H256) (n no_of_logs : Z) (logs : list LogEntry)
    : list LocalizedLogEntry :=
  imap (fun j log =>
    {| ll_entry := log; ll_block_hash := hash; ll_block_number := n; ll_transaction_hash := id;
       ll_transaction_index := i; ll_log_index := no_of_logs + Z.of_nat j; ll_transaction_log_index := Z.of_nat j |}) logs.

Definition count_logs (l : BlockReceipts) : Z :=
  fold_left (fun acc r => acc + from_option (fun r => zlen (rc_logs r)) 0 r) l 0.

Definition localized_receipt (id : H256) : C (option LocalizedReceipt) :=
  a <~ transaction_address id ;;
  and_then a (fun a =>
    let hash := ta_block_hash a in
    let i := ta_index a in
    r <~ block_receipts hash ;;
    and_then r (fun receipts =>
      let receipts := take (Z.to_nat (i + 1)) receipts in
      last_receipt <~ slift (expect (last receipts)) ;;
      let receipts := filter is_Some (removelast receipts) in
      let prior_gas_used := match last receipts with Some (Some r) => rc_gas_used r | _ => 0 end in
      let no_of_logs := count_logs receipts in
      and_then last_receipt (fun last_receipt =>
        stx <~ transaction_by_address hash i ;;
        stx <~ slift (expect stx) ;;
        n <~ block_height_by_hash hash ;;
        let n := default 0 n in
        let address :=
          match t_action (u_unsigned (s_transaction stx)) with
          | ActCreate => Some (contract_address encode_address_nonce (s_sender stx) (rc_account_nonce last_receipt))
          | _ => None
          end in
        used <~ slift (sub_ (rc_gas_used last_receipt) prior_gas_used) ;;
        sret (Some
          {| lr_transaction_hash := id; lr_transaction_index := i; lr_block_hash := hash; lr_block_number := n;
             lr_cumulative_gas_used := rc_gas_used last_receipt; lr_gas_used := used;
             lr_contract_address := address;
             lr_logs := localized_logs id i hash n no_of_logs (rc_logs last_receipt);
             lr_log_bloom := rc_log_bloom last_receipt; lr_state_root := rc_state_root last_receipt;
             lr_error := rc_error last_receipt |})))).

(** ** Logs *)

(** The logs of a block, the newest first.  The receipts that are missing
    were dropped before the receipts are paired with the transactions. *)
Fixpoint place_logs (hash : H256) (n receipts_len i log_index : Z) (l : list (list LogEntry * H256))
    : list LocalizedLogEntry :=
  match l with
  | [] => []
  | (logs, tx_hash) :: l =>
      let no_of_logs := zlen logs in
      imap (fun j log =>
        {| ll_entry := log; ll_block_hash := hash; ll_block_number := n; ll_transaction_hash := tx_hash;
           ll_transaction_index := receipts_len - i - 1; ll_log_index := log_index - Z.of_nat j - 1;
           ll_transaction_log_index := no_of_logs - Z.of_nat j - 1 |}) (reverse logs)
      ++ place_logs hash n receipts_len (i + 1) (log_index - no_of_logs) l
  end.

Definition block_logs (n : Z) : C (list LocalizedLogEntry) :=
  hash <~ block_hash_by_height n ;;
  match hash with
  | None => sret []
  | Some hash =>
      r <~ block_receipts hash ;;
      match r with
      | None => sret []
      | Some receipts =>
          b <~ block_body_by_hash hash ;;
          match b with
          | None => sret []
          | Some b =>
              let hashes := transaction_hashes b in
              _ <~ slift (assert_ (zlen receipts =? zlen hashes)) ;;
              sret (place_logs hash n (zlen receipts) 0 (count_logs receipts)
                      (zip (rc_logs <$> omap id (reverse receipts)) (reverse hashes)))
          end
      end
  end.

(** The iterator is lazy: a block is looked at only while logs are missing. *)
Fixpoint logs_loop (blocks : list Z) (matches : LogEntry -> bool) (limit : option nat) : C (list LocalizedLogEntry) :=
  match blocks, limit with
  | [], _ | _, Some O => sret []
  | n :: blocks, _ =>
      l <~ block_logs n ;;
      let l := filter (fun e => matches (ll_entry e) = true) l in
      let l := from_option (fun k => take k l) l limit in
      rest <~ logs_loop blocks matches ((fun k => (k - length l)%nat) <$> limit) ;;
      sret (l ++ rest)
  end.

Definition logs (blocks : list Z) (matches : LogEntry -> bool) (limit : option nat) : C (list LocalizedLogEntry) :=
  l <~ logs_loop (merge_sort Z.ge blocks) matches limit ;; sret (reverse l).

(** [blooms_at], the lookup of the bloom library; what it adds to the cache is
    left out. *)
Definition blooms_at (c : Chain) : Lookup := fun p =>
  r <- read_with_cache (db c) COL_EXTRA key_blooms (blocks_blooms (caches c)) p ;; Ok r.1.

Definition blocks_with_bloom (bloom from to : Z) (c : Chain) : outcome void (list Z) :=
  with_bloom (blooms_at c) from to bloom.

Definition blocks_with_bloom_by_id (bloom : Z) (from to : BlockId) : C (option (list Z)) :=
  f <~ block_number from ;;
  t <~ block_number to ;;
  c <~ sget ;;
  match f, t with
  | Some f, Some t => l <~ slift (blocks_with_bloom bloom f t c) ;; sret (Some l)
  | _, _ => sret None
  end.

(** ** Filters, [cita-chain/types/src/filter.rs] *)
Definition bloom_possibilities (f : Filter) : list Z :=
  let blooms :=
    match f_address f with
    | Some ((_ :: _) as addresses) => (fun a => shift_bloomed 0 (crypt_hash (to_be 20 a))) <$> addresses
    | _ => [0]
    end in
  fold_left (fun bs topic =>
    match topic with
    | None => bs
    | Some topics => bs ≫= (fun bloom => (fun t => shift_bloomed bloom (crypt_hash (to_be 32 t))) <$> topics)
    end) (f_topics f) blooms.

Definition filter_matches (f : Filter) (log : LogEntry) : bool :=
  match f_address f with
  | Some ((_ :: _) as addresses) => existsb (fun a => log_address log =? a) addresses
  | _ => true
  end &&
  forallb (fun '(i, topic) =>
    match topic with
    | Some ((_ :: _) as topics) => existsb (fun t => bool_decide (log_topics log !! i = Some t)) topics
    | _ => true
    end) (imap pair (f_topics f)).

Fixpoint candidate_blocks (f : Filter) (blooms : list Z) : C (list Z) :=
  match blooms with
  | [] => sret []
  | bloom :: blooms =>
      l <~ blocks_with_bloom_by_id bloom (f_from_block f) (f_to_block f) ;;
      rest <~ candidate_blocks f blooms ;;
      sret (default [] l ++ rest)
  end.

(** The blocks go through a hash set. *)
Definition get_logs (f : Filter) : C (list LocalizedLogEntry) :=
  l <~ candidate_blocks f (bloom_possibilities f) ;;
  logs (remove_dups l) (filter_matches f) (f_limit f).

(** ** Messages to other services *)
Definition delivery_block_tx_hashes (height : Z) (tx_hashes : list H256) (c : Chain) : Chain :=
  send (TxHashesMsg height tx_hashes (block_gas_limit c) (account_gas_limit c)) c.

Definition delivery_current_rich_status (c : Chain) : Chain :=
  if bool_decide (nodes c = []) then c
  else send (RichStatusMsg (get_current_hash c) (get_current_height c) (nodes c)) c.

Definition current_status (c : Chain) : Status :=
  {| status_hash := get_current_hash c; status_number := get_current_height c |}.

Definition broadcast_status (c : Chain) : Chain :=
  if max_store_height c =? 0 then c else send (StatusMsg (current_status c)) c.

Definition broadcast_current_status (c : Chain) : Chain :=
  let c := delivery_current_rich_status c in
  if is_sync c then c else broadcast_status c.

Definition broadcast_current_block : C unit :=
  c <~ sget ;;
  b <~ block_body_by_height (max_store_height c) ;;
  match b with
  | Some b => smodify (send (NetBlkMsg (mkBlock (Header_default Proof_new) b)))
  | None => sret tt
  end.

(** ** Results of execution *)
Record ExecutedResult : Type := {
  er_header : ExecutedHeader;
  er_receipts : BlockReceipts;
  er_nodes : list Address;
  er_block_gas_limit : Z;
  er_account_gas_limit : AccountGasLimit;
}.

Definition set_db_config (ret : ExecutedResult) : Chain -> Chain :=
  with_config (er_block_gas_limit ret) (er_account_gas_limit ret) (er_nodes ret).

(** The header that is stored: the executed one with the proof of the block. *)
Definition result_header (e : ExecutedHeader) (b : Blk) : Hdr :=
  mkHeader (eh_prevhash e) (eh_timestamp e) (eh_height e) (eh_transactions_root e) (eh_state_root e)
    (eh_receipts_root e) (eh_log_bloom e) (eh_gas_used e) (eh_gas_limit e) (proof (header b)) 0.

(** The writes of [set_db_result], with the caches. *)
Definition result_writes (ret : ExecutedResult) (b : Blk) (blooms : list ((Z * Z) * BloomGroup)) (store_body : bool)
    (k : Caches) : DBTransaction * Caches :=
  let hdr := result_header (er_header ret) b in
  let hash := header_hash rlp_out hdr in
  let n := eh_height (er_header ret) in
  let '(batch, k) :=
    if negb (zlen (er_receipts ret) =? 0) then
      let '(batch, m) := write_with_cache COL_EXTRA key_receipts hash (er_receipts ret) [] (receipts_cache k) in
      (batch, with_receipts m k)
    else ([], k) in
  let '(batch, m) :=
    extend_with_cache COL_EXTRA key_address (map_to_list (transaction_addresses hash (body b))) batch (tx_addresses k) in
  let k := with_addresses m k in
  let '(batch, m) := write_with_cache COL_HEADERS key_header n hdr batch (block_headers k) in
  let k := with_headers m k in
  let '(batch, k) :=
    if store_body then
      let '(batch, m) := write_with_cache COL_BODIES key_body n (body b) batch (block_bodies k) in
      (batch, with_bodies m k)
    else (batch, k) in
  let '(batch, m) := write_with_cache (H0 := Rlp_u64) COL_EXTRA key_hash hash n batch (block_hashes k) in
  let k := with_hashes m k in
  let '(batch, m) := extend_with_cache COL_EXTRA key_blooms blooms batch (blocks_blooms k) in
  let k := with_blooms m k in
  (batch ++ write (H := Rlp_H256) COL_EXTRA (key_hash CurrentHash) hash, k).

Definition set_db_result (ret : ExecutedResult) (b : Blk) : C unit :=
  _ <~ smodify (set_db_config ret) ;;
  c <~ sget ;;
  let n := eh_height (er_header ret) in
  let bloom := eh_log_bloom (er_header ret) in
  blooms <~ slift (if bloom =? 0 then Ok [] else bloom_insert (blooms_at c) n bloom) ;;
  let '(batch, k) := result_writes ret b blooms (max_store_height c <? n) (caches c) in
  smodify (fun c => with_current (result_header (er_header ret) b)
             (with_heights n (max_store_height c) (with_db (db_write batch (db c)) k c))).

Definition validate_hash (h : H256) (c : Chain) : bool := get_current_hash c =? h.

(** The sum [current_height + 1] may overflow. *)
Definition validate_height (n : Z) (c : Chain) : outcome void bool :=
  next <- add_ 64 (get_current_height c) 1 ;; Ok (next =? n).

(** A block of the queue whose execution finished. *)
Definition finish_queued (ret : ExecutedResult) (q : option BlockInQueue) : C unit :=
  c <~ sget ;;
  match q with
  | Some (ConsensusBlock b _) =>
      v <~ slift (validate_height (number (header b)) c) ;;
      if v && validate_hash (parent_hash (header b)) c then
        _ <~ set_db_result ret b ;; smodify broadcast_current_status
      else sret tt
  | Some (SyncBlock b _) =>
      next <~ slift (add_ 64 (get_current_height c) 1) ;;
      if eh_height (er_header ret) =? next then
        _ <~ set_db_result ret b ;;
        _ <~ smodify (with_sync true) ;;
        _ <~ smodify broadcast_current_status ;;
        smodify (with_sync false)
      else sret tt
  | _ => sret tt
  end.

Definition set_excuted_result (ret : ExecutedResult) : C unit :=
  let n := eh_height (er_header ret) in
  _ <~ (if n =? 0 then
          _ <~ set_db_result ret (Block_default Proof_new) ;;
          _ <~ smodify (delivery_block_tx_hashes n []) ;;
          smodify broadcast_current_status
        else sret tt) ;;
  c <~ sget ;;
  if n =? get_current_height c then
    _ <~ smodify (set_db_config ret) ;; smodify broadcast_current_status
  else
    _ <~ finish_queued ret (block_map c !! n) ;;
    smodify (fun c => with_queue (filter (fun kv => get_current_height c <= kv.1) (block_map c)) c).

(** ** Bodies and proofs *)
Definition set_block_body (height : Z) (b : Blk) (c : Chain) : Chain :=
  let '(batch, m) := write_with_cache COL_BODIES key_body height (body b) [] (block_bodies (caches c)) in
  with_db (db_write (batch ++ write (H := Rlp_u64) COL_EXTRA (key_hash CurrentHeight) height) (db c))
    (with_bodies m (caches c)) c.

Definition current_block_poof (c : Chain) : outcome void (option Proof_) :=
  read (db c) COL_EXTRA (key_hash CurrentProof).

Definition save_current_block_poof (p : Proof_) (c : Chain) : Chain :=
  with_db (db_write (write COL_EXTRA (key_hash CurrentProof) p) (db c)) (caches c) c.

Definition get_chain_prooftype (c : Chain) : option ProofType :=
  match check_prooftype c with
  | 0 => Some AuthorityRound
  | 1 => Some Raft
  | 2 => Some Tendermint
  | _ => None
  end.

Definition compare_status (s : Status) (c : Chain) : Z * Z :=
  if get_current_height c <? status_number s
  then (get_current_height c + 1, status_number s - get_current_height c) else (0, 0).

(** ** Start and caches *)
Definition get_chain (d : D) : outcome void (option Hdr) :=
  h <- read (H := Rlp_H256) d COL_EXTRA (key_hash CurrentHash) ;;
  match h with
  | Some hash =>
      hi <- read (H := Rlp_u64) d COL_EXTRA (key_hash hash) ;;
      match hi with
      | Some h => read d COL_HEADERS (key_header h)
      | None => Ok None
      end
  | None => Ok None
  end.

Definition get_chain_body_height (d : D) : outcome void (option Z) :=
  read (H := Rlp_u64) d COL_EXTRA (key_hash CurrentHeight).

Definition empty_caches : Caches := mkCaches ∅ ∅ ∅ ∅ ∅ ∅.

(** [limit] is an empty account gas limit. *)
Definition init_chain (d : D) (limit : AccountGasLimit) (check_prooftype : Z) : outcome void Chain :=
  h <- get_chain d ;;
  let h := default (Header_default Proof_new) h in
  stored <- get_chain_body_height d ;;
  Ok (mkChain h false (number h) (default 0 stored) ∅ d empty_caches [] (2 ^ 64 - 1) limit check_prooftype []).

Definition drop_id (k : Caches) (i : CacheId) : Caches :=
  match i with
  | IdHeaders n => with_headers (delete n (block_headers k)) k
  | IdBodies n => with_bodies (delete n (block_bodies k)) k
  | IdHashes h => with_hashes (delete h (block_hashes k)) k
  | IdAddresses h => with_addresses (delete h (tx_addresses k)) k
  | IdBlooms p => with_blooms (delete p (blocks_blooms k)) k
  | IdReceipts h => with_receipts (delete h (receipts_cache k)) k
  end.

(** [ids] are the entries the cache manager gives up. *)
Definition collect_garbage (ids : list CacheId) (c : Chain) : Chain :=
  with_db (db c) (fold_left drop_id ids (caches c)) c.
End chain.
