(* ===== verification/Forward.v ===== *)
(** * Messages to the chain

    [cita-chain/src/forward.rs]: blocks from consensus and from peers enter
    the queue, requests of peers and of the authentication service are
    answered.  The answers to JSON-RPC requests are the lookups of [Chain.v]. *)

From S2P Require Import Prelude Evm Account Executive Block Codec ChainDb Chain.
From stdpp Require Import base gmap list.
Local Open Scope Z_scope.
Local Open Scope cita_scope.

Definition USIZE_MAX : Z := 2 ^ 64 - 1.

Section forward.
  Context {HR : RlpLib} {HU : Util} {HB : RlpBytes} (pubkey_to_address : Z -> Address).
  Context {Proof_ : Type} {Proof_eq : EqDecision Proof_} {HP : Rlp Proof_}.
  Context (Proof_new : Proof_) (get_field_type : Proof_ -> ProofType).
  (** [TendermintProof::from(proof).height]. *)
  Context (tendermint_height : Proof_ -> Z).
  Context {D : Type} {HD : KvDb D} {AccountGasLimit : Type} {BloomGroup : Type} {HG : Rlp BloomGroup}.
  Context (bloom_insert : (Z * Z -> outcome void (option BloomGroup)) -> Z -> Z ->
             outcome void (list ((Z * Z) * BloomGroup))).
  (** [check_hash] of a block message: its transaction root fits. *)
Abbreviation Blk := (Block (Proof_ := Proof_)).
Abbreviation Ch := (Chain (Proof_ := Proof_) (D := D) (AccountGasLimit := AccountGasLimit) (BloomGroup := BloomGroup)).
Abbreviation Res := (ExecutedResult (AccountGasLimit := AccountGasLimit)).
  Context (check_hash : Blk -> bool).
Abbreviation C := (M void Ch).

(** The body is stored, the block is queued and its transactions are told to
    the authentication service. *)
Definition consensus_block_enqueue (b : Blk) (p : Proof_) : C unit :=
  c <~ sget ;;
  next <~ slift (add_ 64 (max_store_height c) 1) ;;
  let h := number (header b) in
  if h =? next then
    smodify (fun c =>
      let c := with_queue (<[h := ConsensusBlock b p]> (block_map c)) c in
      let c := save_current_block_poof p c in
      let c := set_block_body pubkey_to_address h b c in
      let c := with_heights (max_height c) h c in
      delivery_block_tx_hashes h (transaction_hashes (body b)) c)
  else sret tt.

(** The block that carries the proof of the current one. *)
Definition proof_block (p : Proof_) : Blk :=
  mkBlock (mkHeader 0 0 (2 ^ 64 - 1) 0 0 0 0 0 (2 ^ 64 - 1) p 0) [].

Fixpoint sync_blocks (heights : list Z) : C (list Blk) :=
  match heights with
  | [] => sret []
  | h :: heights =>
      b <~ Chain.block pubkey_to_address (BidNumber h) ;;
      c <~ sget ;;
      here <~ match b with
              | Some b =>
                  if h =? get_current_height c then
                    p <~ slift (current_block_poof c) ;;
                    sret (b :: from_option (fun p => [proof_block p]) [] p)
                  else sret [b]
              | None => sret []
              end ;;
      rest <~ sync_blocks heights ;;
      sret (here ++ rest)
  end.

Definition reply_syn_req (heights : list Z) (origin : Z) : C unit :=
  blocks <~ sync_blocks heights ;;
  if 0 <? zlen blocks then smodify (send (SyncResponseMsg origin blocks)) else sret tt.

(** A block that waits without proof gets one. *)
Definition set_proof (h : Z) (p : Proof_) (q : gmap Z (BlockInQueue (Proof_ := Proof_))) :=
  match q !! h with
  | Some (SyncBlock b None) => <[h := SyncBlock b (Some p)]> q
  | _ => q
  end.

Definition add_sync_block (b : Blk) : C unit :=
  c <~ sget ;;
  if negb (bool_decide (get_chain_prooftype c = proof_type Proof_new get_field_type (header b))) then sret tt
  else
    match proof_type Proof_new get_field_type (header b) with
    | Some Tendermint =>
        let p := proof (header b) in
        let proof_height := if tendermint_height p =? USIZE_MAX then 0 else tendermint_height p in
        let h := number (header b) in
        if negb (h =? USIZE_MAX) then
          if (proof_height =? max_height c) || (proof_height =? max_store_height c) then
            smodify (fun c =>
              let q := set_proof proof_height p (block_map c) in
              let c := set_block_body pubkey_to_address h b c in
              let c := with_heights (max_height c) h c in
              let c := delivery_block_tx_hashes h (transaction_hashes (body b)) c in
              with_queue (<[h := SyncBlock b None]> q) c)
          else sret tt
        else if get_current_height c <? proof_height then
          smodify (fun c => with_queue (set_proof proof_height p (block_map c)) c)
        else sret tt
    | _ => slift Panic
    end.

Fixpoint deal_sync_blocks (blocks : list Blk) : C unit :=
  match blocks with
  | [] => sret tt
  | b :: blocks =>
      c <~ sget ;;
      let h := number (header b) in
      if h <? max_height c then deal_sync_blocks blocks
      else if negb (h =? USIZE_MAX) && negb (check_hash b) then sret tt
      else _ <~ add_sync_block b ;; deal_sync_blocks blocks
  end.

Definition deal_block_tx_req (h : Z) : C unit :=
  hashes <~ block_transaction_hashes pubkey_to_address (BidNumber h) ;;
  match hashes with
  | Some hashes => smodify (delivery_block_tx_hashes h hashes)
  | None => sret tt
  end.

(** The messages that reach the chain; the result of an execution goes through
    a channel to [BlockProcessor::set_excuted_result]. *)
Inductive Content : Type :=
| BlockWithProof (b : Blk) (p : Proof_)
| SyncRequest (heights : list Z) (origin : Z)
| SyncResponse (blocks : list Blk)
| BlockTxHashesReq (height : Z)
| Executed (ret : Res).

Definition dispatch_msg (m : Content) : C unit :=
  match m with
  | BlockWithProof b p => consensus_block_enqueue b p
  | SyncRequest heights origin => reply_syn_req heights origin
  | SyncResponse blocks => deal_sync_blocks blocks
  | BlockTxHashesReq h => deal_block_tx_req h
  | Executed ret => set_excuted_result pubkey_to_address Proof_new bloom_insert ret
  end.
End forward.
