(* ===== verification/ChainSpec.v ===== *)
(** * The database of the chain as tables

    The values of one kind form a table; tables do not share keys.  A cache
    agrees with its table, so that a lookup gives what is stored, and writing
    an entry changes this entry only. *)

From S2P Require Import Prelude Evm Account Executive Block Codec CodecSpec ChainDb Chain.
From stdpp Require Import base gmap list.
Local Open Scope Z_scope.
Local Open Scope cita_scope.

(** A table: its column, its keys, the keys in use, the encoding, and what may
    change in a value when it is encoded and decoded. *)
Record table (K T : Type) : Type := {
  t_col : Z;
  t_key : K -> bytes;
  t_in : K -> Prop;
  t_rlp : Rlp T;
  t_sim : T -> T -> Prop;
  t_refl : Reflexive t_sim;
}.
Arguments t_col {K T}.
Arguments t_key {K T}.
Arguments t_in {K T}.
Arguments t_rlp {K T}.
Arguments t_sim {K T}.
Arguments t_refl {K T}.

(** Keys in use are told apart. *)
Definition injective {K T} (t : table K T) : Prop :=
  forall k k', t_in t k -> t_in t k' -> t_key t k = t_key t k' -> k = k'.

Definition apart {K T K' T'} (t : table K T) (t' : table K' T') : Prop :=
  forall k k', t_in t k -> t_in t' k' -> (t_col t', t_key t' k') <> (t_col t, t_key t k).

(** What is read of a value that was written. *)
Definition decoded {K T} (t : table K T) (v : T) : option T :=
  of_rlp (Rlp := t_rlp t) (to_rlp (Rlp := t_rlp t) v).

(** A value that survives the encoding. *)
Definition survives {K T} (t : table K T) (v : T) : Prop := exists v', decoded t v = Some v' /\ t_sim t v v'.

(** An answer that agrees with what is stored. *)
Definition agrees {K T} (t : table K T) (o o' : option T) : Prop := option_Forall2 (t_sim t) o o'.

Section tables.
  Context {D : Type} {HD : KvDb D} {HDok : KvDbOk D} {HB : RlpBytes} {HBok : RlpBytesOk}.

Definition view {K T} (t : table K T) (d : D) (k : K) : option T :=
  b ← db_get d (t_col t) (t_key t k); r ← rlp_parse b; of_rlp (Rlp := t_rlp t) r.

(** Everything stored under keys in use can be read. *)
Definition readable {K T} (t : table K T) (d : D) : Prop :=
  forall k b, t_in t k -> db_get d (t_col t) (t_key t k) = Some b -> is_Some (view t d k).

Definition coherent {K T} `{Countable K} (t : table K T) (d : D) (cache : gmap K T) : Prop :=
  forall k v, cache !! k = Some v -> t_in t k /\ agrees t (Some v) (view t d k).

Definition put {K T} (t : table K T) (k : K) (v : T) : DBTransaction :=
  write (H := t_rlp t) (t_col t) (t_key t k) v.

Lemma db_write_app b b' (d : D) : db_write (b ++ b') d = db_write b' (db_write b d).
Proof using. apply fold_left_app. Qed.

Lemma db_write_nil (d : D) : db_write [] d = d.
Proof using. done. Qed.

Lemma agrees_refl {K T} (t : table K T) o : agrees t o o.
Proof using. destruct o; constructor. apply t_refl. Qed.

Lemma read_view {K T} (t : table K T) (d : D) k : readable t d -> t_in t k ->
  read (H := t_rlp t) d (t_col t) (t_key t k) = Ok (view t d k).
Proof using.
  intros Hr Hk. rw /read. specialize (Hr k). unfold view in Hr |- *.
  destruct (db_get d (t_col t) (t_key t k)) as [b|]; [|done]. destruct (Hr b Hk eq_refl) as [v Hv].
  cbn in Hv |- *. destruct (rlp_parse b) as [r|]; [|done]. cbn in Hv |- *. by rw Hv.
Qed.

(** Reading through the cache. *)
Lemma read_with_cache_view {K T} `{Countable K} (t : table K T) (d : D) (cache : gmap K T) k :
  readable t d -> coherent t d cache -> t_in t k ->
  exists o cache', read_with_cache (H0 := t_rlp t) d (t_col t) (t_key t) cache k = Ok (o, cache') /\
    agrees t o (view t d k) /\ coherent t d cache'.
Proof using.
  intros Hr Hc Hk. rw /read_with_cache. destruct (cache !! k) as [v|] eqn:Hv.
  { exists (Some v), cache. by destruct (Hc k v Hv) as [_ Ha]. }
  rw read_view; [done|done|]. cbn [obind]. do 2 eexists. split; [done|]. split; [apply agrees_refl|].
  destruct (view t d k) as [v|] eqn:Hw; [|done]. intros j w. rw lookup_insert_Some.
  intros [[<- <-]|[_ Hj]]; [|by apply Hc]. rw Hw. split; [done|apply agrees_refl].
Qed.

(** ** Writing an entry *)
Lemma get_put {K T} (t : table K T) k v (d : D) c key :
  db_get (db_write (put t k v) d) c key =
  if bool_decide ((c, key) = (t_col t, t_key t k)) then Some (rlp_out (to_rlp (Rlp := t_rlp t) v)) else db_get d c key.
Proof using HDok. apply db_get_put. Qed.

Lemma view_put {K T} `{EqDecision K} (t : table K T) (d : D) k v k' :
  injective t -> t_in t k -> t_in t k' ->
  view t (db_write (put t k v) d) k' = if bool_decide (k' = k) then decoded t v else view t d k'.
Proof using HDok HBok.
  intros Hi Hk Hk'. rw /view get_put. case_bool_decide as Hp; case_bool_decide as Hq; subst; [| |by destruct Hp|done].
  - cbn. by rw rlp_parse_out.
  - destruct Hq. apply Hi; [done|done|congruence].
Qed.

Lemma get_put_other {K T K' T'} (t : table K T) (t' : table K' T') (d : D) k v k' :
  apart t t' -> t_in t k -> t_in t' k' ->
  db_get (db_write (put t k v) d) (t_col t') (t_key t' k') = db_get d (t_col t') (t_key t' k').
Proof using HDok. intros Ha Hk Hk'. rw get_put. rw bool_decide_eq_false_2; [by apply Ha|done]. Qed.

Lemma view_put_other {K T K' T'} (t : table K T) (t' : table K' T') (d : D) k v k' :
  apart t t' -> t_in t k -> t_in t' k' -> view t' (db_write (put t k v) d) k' = view t' d k'.
Proof using HDok. intros Ha Hk Hk'. rw /view (get_put_other t t'); done. Qed.

(** The tables stay readable and the caches coherent. *)
Lemma readable_put {K T} `{EqDecision K} (t : table K T) (d : D) k v :
  injective t -> t_in t k -> survives t v -> readable t d -> readable t (db_write (put t k v) d).
Proof using HDok HBok.
  intros Hi Hk (v' & Hv & _) Hr k' b Hk' Hb. rw view_put; [done..|]. case_bool_decide as Hq; [by rw Hv|].
  apply (Hr k' b Hk'). rw -Hb get_put. rw bool_decide_eq_false_2; [|done]. intros [=]. by apply Hq, Hi.
Qed.

Lemma readable_put_other {K T K' T'} (t : table K T) (t' : table K' T') (d : D) k v :
  apart t t' -> t_in t k -> readable t' d -> readable t' (db_write (put t k v) d).
Proof using HDok.
  intros Ha Hk Hr k' b Hk' Hb. rw (view_put_other t t'); [done..|]. apply (Hr k' b Hk').
  by rw -Hb (get_put_other t t').
Qed.

Lemma coherent_put {K T} `{Countable K} (t : table K T) (d : D) k v cache :
  injective t -> t_in t k -> survives t v -> coherent t d cache ->
  coherent t (db_write (put t k v) d) (<[k := v]> cache).
Proof using HDok HBok.
  intros Hi Hk (w & Hv & Hs) Hc k' v'. rw lookup_insert_Some. intros [[<- <-]|[Hne Hl]].
  - split; [done|]. rw view_put; [done..|]. rw bool_decide_eq_true_2; [done|]. rw Hv. by constructor.
  - destruct (Hc k' v' Hl) as [Hk' Hv']. split; [done|]. rw view_put; [done..|]. by rw bool_decide_eq_false_2.
Qed.

Lemma coherent_put_other {K T K' T'} `{Countable K'} (t : table K T) (t' : table K' T') (d : D) k v cache :
  apart t t' -> t_in t k -> coherent t' d cache -> coherent t' (db_write (put t k v) d) cache.
Proof using HDok.
  intros Ha Hk Hc k' v' Hl. destruct (Hc k' v' Hl) as [Hk' Hv']. split; [done|]. by rw (view_put_other t t').
Qed.

(** ** Writing several entries *)
Definition puts {K T} (t : table K T) (l : list (K * T)) : DBTransaction := concat ((fun e => put t e.1 e.2) <$> l).

Definition entries_ok {K T} (t : table K T) (l : list (K * T)) : Prop :=
  Forall (fun e => t_in t e.1 /\ survives t e.2) l.

(** The entries, the later ones over the earlier ones. *)
Definition inserts {K T} `{Countable K} (l : list (K * T)) (m : gmap K T) : gmap K T :=
  fold_left (fun m e => <[e.1 := e.2]> m) l m.

Lemma extend_puts {K T} `{Countable K} (t : table K T) l b cache :
  extend_with_cache (H0 := t_rlp t) (t_col t) (t_key t) l b cache = (b ++ puts t l, inserts l cache).
Proof using.
  rw /extend_with_cache. revert b cache. induction l as [|[k v] l IH]; intros b cache; cbn [fold_left].
  - by rw /puts app_nil_r.
  - rw /write_with_cache IH. f_equal. rw /puts /=. by rw -app_assoc.
Qed.

Lemma puts_cons {K T} (t : table K T) k v l (d : D) :
  db_write (puts t ((k, v) :: l)) d = db_write (puts t l) (db_write (put t k v) d).
Proof using. rw /puts. cbn [fmap list_fmap concat]. by rw db_write_app. Qed.

(** Entries with different keys are a map. *)
Lemma inserts_lookup {K T} `{Countable K} (l : list (K * T)) m k : NoDup l.*1 ->
  inserts l m !! k = match (list_to_map l : gmap K T) !! k with Some v => Some v | None => m !! k end.
Proof using.
  rw /inserts. revert m. induction l as [|[k0 v0] l IH]; intros m Hnd; cbn [fold_left fmap list_fmap fst snd] in *.
  - by rw lookup_empty.
  - apply NoDup_cons in Hnd as [Hni Hnd]. rw IH; [done|]. cbn [list_to_map foldr fst snd].
    destruct (decide (k = k0)) as [->|Hne].
    + apply not_elem_of_list_to_map_1 in Hni. by rw Hni !lookup_insert_eq.
    + by rw !lookup_insert_ne.
Qed.

Lemma inserts_Some {K T} `{Countable K} (l : list (K * T)) m k v :
  inserts l m !! k = Some v -> (k, v) ∈ l \/ m !! k = Some v.
Proof using.
  rw /inserts. revert m. induction l as [|[k0 v0] l IH]; intros m; cbn [fold_left fst snd]; [by right|].
  intros Hl. apply IH in Hl as [Hl|Hl]; [by left; right|].
  apply lookup_insert_Some in Hl as [[<- <-]|[_ Hl]]; [by left; left|by right].
Qed.

Lemma inserts_mem {K T} `{Countable K} (l : list (K * T)) m k : k ∈ l.*1 \/ is_Some (m !! k) -> is_Some (inserts l m !! k).
Proof using.
  rw /inserts. revert m. induction l as [|[k0 v0] l IH]; intros m; cbn [fold_left fst snd fmap list_fmap].
  - intros [Hk|Hk]; [by apply not_elem_of_nil in Hk|done].
  - intros Hk. apply IH. destruct (decide (k = k0)) as [->|Hne]; [right; by rw lookup_insert_eq|]. rw lookup_insert_ne; [done|].
    destruct Hk as [[Hk|Hk]%elem_of_cons|Hk]; [done|by left|by right].
Qed.

Lemma inserts_map {K T} `{Countable K} (m : gmap K T) k : inserts (map_to_list m) ∅ !! k = m !! k.
Proof using.
  rw inserts_lookup; [apply NoDup_fst_map_to_list|]. rw list_to_map_to_list lookup_empty. by destruct (m !! k).
Qed.

Lemma readable_puts {K T} `{EqDecision K} (t : table K T) l (d : D) :
  injective t -> entries_ok t l -> readable t d -> readable t (db_write (puts t l) d).
Proof using HDok HBok.
  intros Hi. revert d. induction l as [|[k v] l IH]; intros d Hl Hr; [done|].
  apply Forall_cons in Hl as [[Hk Hv] Hl]. rw puts_cons. apply IH; [done|]. by apply readable_put.
Qed.

Lemma readable_puts_other {K T K' T'} (t : table K T) (t' : table K' T') l (d : D) :
  apart t t' -> entries_ok t l -> readable t' d -> readable t' (db_write (puts t l) d).
Proof using HDok.
  intros Ha. revert d. induction l as [|[k v] l IH]; intros d Hl Hr; [done|].
  apply Forall_cons in Hl as [[Hk Hv] Hl]. rw puts_cons. apply IH; [done|]. by apply readable_put_other.
Qed.

Lemma coherent_puts {K T} `{Countable K} (t : table K T) l (d : D) cache :
  injective t -> entries_ok t l -> coherent t d cache -> coherent t (db_write (puts t l) d) (inserts l cache).
Proof using HDok HBok.
  intros Hi. revert d cache. induction l as [|[k v] l IH]; intros d cache Hl Hr; [done|].
  apply Forall_cons in Hl as [[Hk Hv] Hl]. rw puts_cons. apply IH; [done|]. by apply coherent_put.
Qed.

Lemma coherent_puts_other {K T K' T'} `{Countable K'} (t : table K T) (t' : table K' T') l (d : D) cache :
  apart t t' -> entries_ok t l -> coherent t' d cache -> coherent t' (db_write (puts t l) d) cache.
Proof using HDok.
  intros Ha. revert d. induction l as [|[k v] l IH]; intros d Hl Hr; [done|].
  apply Forall_cons in Hl as [[Hk Hv] Hl]. rw puts_cons. apply IH; [done|]. by apply coherent_put_other.
Qed.

Lemma view_puts_other {K T K' T'} (t : table K T) (t' : table K' T') l (d : D) k' :
  apart t t' -> entries_ok t l -> t_in t' k' -> view t' (db_write (puts t l) d) k' = view t' d k'.
Proof using HDok.
  intros Ha. revert d. induction l as [|[k v] l IH]; intros d Hl Hk'; [done|].
  apply Forall_cons in Hl as [[Hk Hv] Hl]. rw puts_cons IH; [done|done|]. by apply view_put_other.
Qed.

Lemma view_puts {K T} `{Countable K} (t : table K T) l (d : D) k' :
  injective t -> entries_ok t l -> t_in t k' ->
  view t (db_write (puts t l) d) k' = match inserts l ∅ !! k' with Some v => decoded t v | None => view t d k' end.
Proof using HDok HBok.
  intros Hi Hl Hk'. enough (G : forall m d', (match m !! k' with Some v => decoded t v | None => view t d k' end) = view t d' k' ->
    view t (db_write (puts t l) d') k' = match inserts l m !! k' with Some v => decoded t v | None => view t d k' end)
    by (apply G; by rw lookup_empty).
  induction l as [|[k v] l IH]; intros m d' Hm; [done|].
  apply Forall_cons in Hl as [[Hk Hv] Hl]. rw puts_cons. cbn [inserts fold_left fst snd]. apply IH; [done|].
  rw view_put; [done..|]. case_bool_decide as Hq; [subst; by rw lookup_insert_eq|]. by rw lookup_insert_ne.
Qed.
End tables.

(** ** The tables of the chain *)
(** A block hash that is not one of the three constants. *)
Definition plain (h : H256) : Prop :=
  fits 256 h /\ h <> CurrentHash /\ h <> CurrentProof /\ h <> CurrentHeight.

Definition position_ok (p : Z * Z) : Prop := fits 8 p.1 /\ fits 32 p.2.

Lemma hash_const h c : plain h -> fits 256 c -> c = CurrentHash \/ c = CurrentProof \/ c = CurrentHeight ->
  key_hash h <> key_hash c.
Proof.
  intros (Hh & H1 & H2 & H3) Hc Hor H. apply (to_be_inj 32) in H; [|done|done]. naive_solver.
Qed.

(** Receipts that differ in the kind of their error only. *)
Definition same_but_error (r r' : Receipt) : Prop :=
  with_error r None = with_error r' None /\ (rc_error r = None <-> rc_error r' = None).
Definition similar : BlockReceipts -> BlockReceipts -> Prop := Forall2 (option_Forall2 same_but_error).

#[export] Instance same_but_error_equiv : Equivalence same_but_error.
Proof.
  split; [done| |].
  - intros r r' [H1 H2]. split; [done|by symmetry].
  - intros r1 r2 r3 [H1 H2] [H3 H4]. split; [by rw H1|by rw H2].
Qed.
#[export] Instance similar_equiv : Equivalence similar.
Proof. rw /similar. split; typeclasses eauto. Qed.

Section chain_tables.
  Context {HR : RlpLib} (pubkey_to_address : Z -> Address) {Proof_ : Type} {HP : Rlp Proof_}.
  Context {BloomGroup : Type} {HG : Rlp BloomGroup}.

Definition headers_t : table Z (Header (Proof_ := Proof_)) :=
  {| t_col := COL_HEADERS; t_key := key_header; t_in := fits 64; t_rlp := Rlp_Header;
     t_sim := eq; t_refl := _ |}.
Definition bodies_t : table Z BlockBody :=
  {| t_col := COL_BODIES; t_key := key_body; t_in := fits 64; t_rlp := Rlp_BlockBody pubkey_to_address;
     t_sim := eq; t_refl := _ |}.
Definition numbers_t : table Z Z :=
  {| t_col := COL_EXTRA; t_key := key_hash; t_in := plain; t_rlp := Rlp_u64;
     t_sim := eq; t_refl := _ |}.
Definition addresses_t : table Z TransactionAddress :=
  {| t_col := COL_EXTRA; t_key := key_address; t_in := fits 256; t_rlp := Rlp_TransactionAddress;
     t_sim := eq; t_refl := _ |}.
Definition receipts_t : table Z BlockReceipts :=
  {| t_col := COL_EXTRA; t_key := key_receipts; t_in := fits 256; t_rlp := Rlp_BlockReceipts;
     t_sim := similar; t_refl := _ |}.
Definition blooms_t : table (Z * Z) BloomGroup :=
  {| t_col := COL_EXTRA; t_key := key_blooms; t_in := position_ok; t_rlp := HG;
     t_sim := eq; t_refl := _ |}.
(** The three single values. *)
Definition current_t : table unit Z :=
  {| t_col := COL_EXTRA; t_key _ := key_hash CurrentHash; t_in _ := True; t_rlp := Rlp_H256;
     t_sim := eq; t_refl := _ |}.
Definition proof_t : table unit Proof_ :=
  {| t_col := COL_EXTRA; t_key _ := key_hash CurrentProof; t_in _ := True; t_rlp := HP;
     t_sim := eq; t_refl := _ |}.
Definition height_t : table unit Z :=
  {| t_col := COL_EXTRA; t_key _ := key_hash CurrentHeight; t_in _ := True; t_rlp := Rlp_u64;
     t_sim := eq; t_refl := _ |}.

Lemma headers_inj : injective headers_t.
Proof using. intros k k' Hk Hk' H. apply (f_equal tail) in H. apply (to_be_inj 8 k k' Hk Hk' H). Qed.
Lemma bodies_inj : injective bodies_t.
Proof using. intros k k' Hk Hk' H. apply (f_equal tail) in H. apply (to_be_inj 8 k k' Hk Hk' H). Qed.
Lemma numbers_inj : injective numbers_t.
Proof using. intros k k' [Hk _] [Hk' _] H. apply (to_be_inj 32 k k' Hk Hk' H). Qed.
Lemma addresses_inj : injective addresses_t.
Proof using. intros k k' Hk Hk' H. apply (f_equal tail) in H. apply (to_be_inj 32 k k' Hk Hk' H). Qed.
Lemma receipts_inj : injective receipts_t.
Proof using. intros k k' Hk Hk' H. apply (f_equal tail) in H. apply (to_be_inj 32 k k' Hk Hk' H). Qed.
Lemma blooms_inj : injective blooms_t.
Proof using. 
  intros [l i] [l' i'] [Hl Hi] [Hl' Hi'] H. f_equal; [exact (f_equal (fun b => nth 1 b 0) H)|].
  apply (f_equal (fun b => tail (tail b))) in H. apply (to_be_inj 4 i i' Hi Hi' H).
 Qed.
Lemma unit_inj {T} (t : table unit T) : injective t.
Proof using. by intros [] []. Qed.
End chain_tables.

Lemma key_hash_length h : length (key_hash h) = 32%nat.
Proof. apply to_be_length. Qed.
Lemma key_address_length h : length (key_address h) = 33%nat.
Proof. done. Qed.
Lemma key_receipts_length h : length (key_receipts h) = 33%nat.
Proof. done. Qed.
Lemma key_blooms_length p : length (key_blooms p) = 6%nat.
Proof. done. Qed.
Lemma constants_apart : key_hash CurrentHash <> key_hash CurrentProof /\ key_hash CurrentHash <> key_hash CurrentHeight /\
  key_hash CurrentProof <> key_hash CurrentHeight.
Proof. split_and!; by vm_compute. Qed.
Lemma constants_fit : fits 256 CurrentHash /\ fits 256 CurrentProof /\ fits 256 CurrentHeight.
Proof. split_and!; by vm_compute. Qed.

(** Block hashes are told apart from the constants, the constants from each
    other. *)
Lemma hash_apart h : plain h -> key_hash h <> key_hash CurrentHash /\ key_hash h <> key_hash CurrentProof /\
  key_hash h <> key_hash CurrentHeight.
Proof.
  intros Hh. destruct constants_fit as (H1 & H2 & H3). split_and!; apply hash_const; auto.
Qed.

(** Keys differ in the column, the length or the index, or are told apart from
    the constants. *)
Ltac apart_tac :=
  intros ka kb Hka Hkb Heq;
  cbn [t_col t_key t_in headers_t bodies_t numbers_t addresses_t receipts_t blooms_t current_t proof_t height_t] in Hka, Hkb, Heq;
  first
    [apply (f_equal fst) in Heq; discriminate Heq
    | apply (f_equal snd) in Heq; cbn [snd] in Heq;
      first
        [ apply (f_equal length) in Heq; rw ?key_hash_length ?key_address_length ?key_receipts_length ?key_blooms_length in Heq;
          discriminate Heq
        | pose proof constants_apart as (?&?&?); congruence
        | destruct (hash_apart _ Hka) as (?&?&?); congruence
        | destruct (hash_apart _ Hkb) as (?&?&?); congruence
        | apply (f_equal head) in Heq; discriminate Heq ] ].

Ltac inj_tac :=
  lazymatch goal with
  | |- injective headers_t => apply headers_inj
  | |- injective (bodies_t _) => apply bodies_inj
  | |- injective numbers_t => apply numbers_inj
  | |- injective addresses_t => apply addresses_inj
  | |- injective receipts_t => apply receipts_inj
  | |- injective blooms_t => apply blooms_inj
  | |- _ => apply unit_inj
  end.

(** A view after writes. *)
Ltac side_tac := first [assumption|exact I].
Ltac view_tac :=
  repeat match goal with
  | |- context [view ?t (db_write (put ?t _ _) _) _] =>
      rw (view_put t); [inj_tac|side_tac|side_tac|]
  | |- context [view ?t (db_write (puts ?t _) _) _] =>
      rw (view_puts t); [inj_tac|side_tac|side_tac|]
  | |- context [view ?t (db_write (put ?t0 _ _) _) _] =>
      rw (view_put_other t0 t); [apart_tac|side_tac|side_tac|]
  | |- context [view ?t (db_write (puts ?t0 _) _) _] =>
      rw (view_puts_other t0 t); [apart_tac|side_tac|side_tac|]
  end.
