(* ===== verification/ChainInv.v ===== *)
(** * The invariant of the chain

    Everything stored can be read, the caches agree with the database, queued
    blocks are stored, and the current header is the stored one. *)

From S2P Require Import Prelude Evm Account Executive Block Codec CodecSpec ChainDb Chain ChainSpec.
From stdpp Require Import base gmap list.
Local Open Scope Z_scope.
Local Open Scope cita_scope.

Section invariant.
  Context {HR : RlpLib} {HRok : RlpLibOk} {HU : Util} {HB : RlpBytes} {HBok : RlpBytesOk}.
  Context (hash_fits : forall b, fits 256 (crypt_hash b)) (pubkey_to_address : Z -> Address).
  Context {Proof_ : Type} {Proof_eq : EqDecision Proof_} {HP : Rlp Proof_} (proof_ok : Proof_ -> Prop).
  Context {HPok : RlpOk Proof_ proof_ok} (Proof_new : Proof_) (Proof_new_ok : proof_ok Proof_new).
  Context {D : Type} {HD : KvDb D} {HDok : KvDbOk D} {AccountGasLimit : Type}.
  Context {BloomGroup : Type} {HG : Rlp BloomGroup} (group_ok : BloomGroup -> Prop) {HGok : RlpOk BloomGroup group_ok}.
Abbreviation Ch := (Chain (Proof_ := Proof_) (D := D) (AccountGasLimit := AccountGasLimit) (BloomGroup := BloomGroup)).
Abbreviation Blk := (Block (Proof_ := Proof_)).
Abbreviation Hdr := (Header (Proof_ := Proof_)).
Abbreviation Headers := (headers_t (Proof_ := Proof_)).
Abbreviation Bodies := (bodies_t pubkey_to_address).
Abbreviation Blooms := (blooms_t (BloomGroup := BloomGroup)).
Abbreviation Proofs := (proof_t (Proof_ := Proof_)).
Abbreviation Caches_ := (Caches (Proof_ := Proof_) (BloomGroup := BloomGroup)).

Record store_ok (d : D) : Prop := {
  so_headers : readable Headers d;
  so_bodies : readable Bodies d;
  so_numbers : readable numbers_t d;
  so_addresses : readable addresses_t d;
  so_receipts : readable receipts_t d;
  so_blooms : readable Blooms d;
  so_current : readable current_t d;
  so_proof : readable Proofs d;
  so_height : readable height_t d;
}.

Record caches_ok (d : D) (k : Caches_) : Prop := {
  co_headers : coherent Headers d (block_headers k);
  co_bodies : coherent Bodies d (block_bodies k);
  co_numbers : coherent numbers_t d (block_hashes k);
  co_addresses : coherent addresses_t d (tx_addresses k);
  co_receipts : coherent receipts_t d (receipts_cache k);
  co_blooms : coherent Blooms d (blocks_blooms k);
}.

Definition good (d : D) (k : Caches_) : Prop := store_ok d /\ caches_ok d k.

(** One entry is written and cached, or written only. *)
Ltac table_tac :=
  match goal with
  | |- readable ?t (db_write (put ?t _ _) _) => apply readable_put; [inj_tac|first [assumption|exact I]..]
  | |- coherent ?t (db_write (put ?t _ _) _) _ => apply coherent_put; [inj_tac|assumption..]
  | |- readable _ (db_write (put _ _ _) _) => apply readable_put_other; [apart_tac|first [assumption|exact I]|assumption]
  | |- coherent _ (db_write (put _ _ _) _) _ => apply coherent_put_other; [apart_tac|first [assumption|exact I]|assumption]
  | |- readable ?t (db_write (puts ?t _) _) => apply readable_puts; [inj_tac|assumption..]
  | |- coherent ?t (db_write (puts ?t _) _) _ => apply coherent_puts; [inj_tac|assumption..]
  | |- readable _ (db_write (puts _ _) _) => apply readable_puts_other; [apart_tac|assumption..]
  | |- coherent _ (db_write (puts _ _) _) _ => apply coherent_puts_other; [apart_tac|assumption..]
  end.
Ltac good_tac := intros [[] []]; intros; split; split; table_tac.

Lemma good_header d k n h : good d k -> fits 64 n -> survives Headers h ->
  good (db_write (put Headers n h) d) (with_headers (<[n := h]> (block_headers k)) k).
Proof using HDok HBok. good_tac. Qed.
Lemma good_body d k n b : good d k -> fits 64 n -> survives Bodies b ->
  good (db_write (put Bodies n b) d) (with_bodies (<[n := b]> (block_bodies k)) k).
Proof using HDok HBok. good_tac. Qed.
Lemma good_number d k h n : good d k -> plain h -> survives numbers_t n ->
  good (db_write (put numbers_t h n) d) (with_hashes (<[h := n]> (block_hashes k)) k).
Proof using HDok HBok. good_tac. Qed.
Lemma good_receipts d k h r : good d k -> fits 256 h -> survives receipts_t r ->
  good (db_write (put receipts_t h r) d) (with_receipts (<[h := r]> (receipts_cache k)) k).
Proof using HDok HBok. good_tac. Qed.
Lemma good_addresses d k l : good d k -> entries_ok addresses_t l ->
  good (db_write (puts addresses_t l) d) (with_addresses (inserts l (tx_addresses k)) k).
Proof using HDok HBok. good_tac. Qed.
Lemma good_blooms d k l : good d k -> entries_ok Blooms l ->
  good (db_write (puts Blooms l) d) (with_blooms (inserts l (blocks_blooms k)) k).
Proof using HDok HBok. good_tac. Qed.
Lemma good_current d k h : good d k -> survives current_t h -> good (db_write (put current_t tt h) d) k.
Proof using HDok HBok. good_tac. Qed.
Lemma good_proof d k p : good d k -> survives Proofs p -> good (db_write (put Proofs tt p) d) k.
Proof using HDok HBok. good_tac. Qed.
Lemma good_height d k n : good d k -> survives height_t n -> good (db_write (put height_t tt n) d) k.
Proof using HDok HBok. good_tac. Qed.
(** ** Values that are stored *)
Lemma survives_exact {K T} (t : table K T) v : decoded t v = Some v -> survives t v.
Proof using. intros H. exists v. split; [done|apply t_refl]. Qed.

Lemma header_decoded h : header_ok proof_ok h -> decoded Headers h = Some h.
Proof using HRok HPok. exact (Header_ok proof_ok h). Qed.
Lemma body_decoded b : body_ok pubkey_to_address b -> decoded Bodies b = Some b.
Proof using HRok. exact (BlockBody_ok pubkey_to_address b). Qed.
Lemma number_decoded n : fits 64 n -> decoded numbers_t n = Some n.
Proof using HRok. apply uint_round. Qed.
Lemma height_decoded n : fits 64 n -> decoded height_t n = Some n.
Proof using HRok. apply uint_round. Qed.
Lemma current_decoded h : fits 256 h -> decoded current_t h = Some h.
Proof using HRok. exact (hash_round 32 h). Qed.
Lemma address_decoded a : address_ok a -> decoded addresses_t a = Some a.
Proof using HRok. exact (TransactionAddress_ok a). Qed.
Lemma proof_decoded p : proof_ok p -> decoded Proofs p = Some p.
Proof using HPok. exact (HPok p). Qed.
Lemma group_decoded g : group_ok g -> decoded Blooms g = Some g.
Proof using HGok. exact (HGok g). Qed.

(** ** What is stored of a result *)

(** A receipt that can be read again. *)
Definition storable (l : BlockReceipts) : Prop :=
  Forall (fun o => forall rc, o = Some rc -> receipt_ok rc /\ rc_error rc <> Some ReceiptError.Internal) l.

Lemma storable_survives l : storable l -> survives receipts_t l.
Proof using HRok.
  intros Hl. enough (H : exists l', Forall2 (fun x y => get_option of_rlp (put_option to_rlp x) = Some y) l l' /\ similar l l').
  { destruct H as (l' & H & Hs). exists l'. split; [|done]. by apply mapM_Some_2, Forall2_fmap_l. }
  induction Hl as [|o l Ho Hl (l' & IH & Hs)]; [by exists []; split; constructor|].
  destruct o as [rc|]; [|by exists (None :: l'); split; constructor].
  destruct (Ho rc eq_refl) as [Hok He]. pose proof (receipt_round rc Hok) as Hr.
  assert (exists e, recoded (rc_error rc) = Some e /\ (rc_error rc = None <-> e = None)) as (e & Hre & Hn).
  { destruct (rc_error rc) as [[]|]; try done; eexists; split; done. }
  exists (Some (with_error rc e) :: l'). split; constructor; [|done|by constructor|done].
  rw /get_option /put_option. rw Hre in Hr. cbn [fmap option_fmap option_map] in Hr. cbn in Hr |- *. by rw Hr.
Qed.
Lemma addresses_inserts hash b : transaction_addresses hash b =
  inserts (imap (fun i h => (h, {| ta_block_hash := hash; ta_index := Z.of_nat i |})) (transaction_hashes b)) ∅.
Proof using.
  rw /transaction_addresses /inserts. generalize (transaction_hashes b). intros l. generalize (∅ : gmap Z TransactionAddress).
  enough (G : forall (f : nat -> TransactionAddress) (g : nat -> nat) m, fold_left (fun m '(i, h) => <[h := f i]> m) (imap (fun i h => (g i, h)) l) m =
    fold_left (fun m e => <[e.1 := e.2]> m) (imap (fun i h => (h, f (g i))) l) m) 
    by apply (G (fun i => {| ta_block_hash := hash; ta_index := Z.of_nat i |}) id).
  induction l as [|h l IH]; intros f g m; [done|]. apply (IH f (fun i => g (S i))).
Qed.

Lemma address_of_transaction hash b h a : transaction_addresses hash b !! h = Some a ->
  exists i, a = {| ta_block_hash := hash; ta_index := Z.of_nat i |} /\ transaction_hashes b !! i = Some h.
Proof using.
  rw addresses_inserts. intros H. apply inserts_Some in H as [H|H]; [|by rw lookup_empty in H].
  apply elem_of_lookup_imap in H as (i & h' & [= -> ->] & Hi). by exists i.
Qed.

Lemma hash_has_address hash b h : h ∈ transaction_hashes b -> is_Some (transaction_addresses hash b !! h).
Proof using.
  intros [i Hi]%list_elem_of_lookup. rw addresses_inserts. apply inserts_mem. left.
  apply list_elem_of_fmap. eexists (h, _). split; [done|]. apply elem_of_lookup_imap. by exists i, h.
Qed.

Lemma transaction_of_address hash b i h : NoDup (transaction_hashes b) -> transaction_hashes b !! i = Some h ->
  transaction_addresses hash b !! h = Some {| ta_block_hash := hash; ta_index := Z.of_nat i |}.
Proof using.
  intros Hnd Hi. rw addresses_inserts.
  assert (forall (f : nat -> TransactionAddress) (l : list Z), (imap (fun i h => (h, f i)) l).*1 = l) as Hfst.
  { intros f l. revert f. induction l as [|h' l IH]; intros f; [done|]. cbn. f_equal. apply (IH (fun i => f (S i))). }
  rw inserts_lookup; [by rw Hfst|]. rw (elem_of_list_to_map_1 _ h {| ta_block_hash := hash; ta_index := Z.of_nat i |});
    [by rw Hfst| |done]. apply elem_of_lookup_imap. by exists i, h.
Qed.

Abbreviation Res := (ExecutedResult (AccountGasLimit := AccountGasLimit)).
Abbreviation Hdr_of ret b := (result_header (er_header ret) b).
Abbreviation hash_of ret b := (header_hash rlp_out (result_header (er_header ret) b)).

(** A result that can be stored. *)
Record result_ok (ret : Res) (b : Blk) : Prop := {
  rk_header : header_ok proof_ok (Hdr_of ret b);
  rk_hash : plain (hash_of ret b);
  rk_body : body_ok pubkey_to_address (body b);
  rk_length : fits 64 (zlen (body b));
  rk_receipts : storable (er_receipts ret);
}.

Definition blooms_ok (l : list ((Z * Z) * BloomGroup)) : Prop := Forall (fun e => position_ok e.1 /\ group_ok e.2) l.

Definition put_receipts (hash : H256) (l : BlockReceipts) : DBTransaction :=
  if zlen l =? 0 then [] else put receipts_t hash l.
Definition put_body (store_body : bool) (n : Z) (b : BlockBody) : DBTransaction :=
  if store_body then put Bodies n b else [].

(** The writes, table by table. *)
Lemma result_writes_batch (ret : Res) b blooms sb k :
  (result_writes pubkey_to_address ret b blooms sb k).1 =
  put_receipts (hash_of ret b) (er_receipts ret) ++ puts addresses_t (map_to_list (transaction_addresses (hash_of ret b) (body b)))
  ++ put Headers (eh_height (er_header ret)) (Hdr_of ret b) ++ put_body sb (eh_height (er_header ret)) (body b)
  ++ put numbers_t (hash_of ret b) (eh_height (er_header ret)) ++ puts Blooms blooms ++ put current_t tt (hash_of ret b).
Proof using.
  rw /result_writes /put_receipts /put_body. destruct (zlen (er_receipts ret) =? 0); destruct sb; cbn [negb];
  unfold write_with_cache; rw !(extend_puts addresses_t); cbn [app]; rw !(extend_puts Blooms); cbn [fst]; rw -?app_assoc; done.
Qed.

Lemma address_entries hash b : plain hash -> body_ok pubkey_to_address b -> fits 64 (zlen b) ->
  entries_ok addresses_t (map_to_list (transaction_addresses hash b)).
Proof using HRok.
  intros [Hh _] Hb Hlen. apply Forall_forall. intros [h a] Hin. apply elem_of_map_to_list, address_of_transaction in Hin
    as (i & -> & Hi). apply list_lookup_fmap_Some_1 in Hi as (s & -> & Hs). split.
  - exact (uo_hash _ (so_transaction _ _ (Forall_lookup_1 _ _ _ _ Hb Hs))).
  - apply survives_exact, address_decoded. split; [done|]. cbn. apply lookup_lt_Some in Hs. unfold fits, zlen in *. lia.
Qed.

Lemma bloom_entries l : blooms_ok l -> entries_ok Blooms l.
Proof using HGok.
  intros Hl. eapply Forall_impl; [exact Hl|]. intros [p g] [Hp Hg]. split; [done|].
  by apply survives_exact, group_decoded.
Qed.

(** The database after a result. *)
Definition stored (ret : Res) (b : Blk) (blooms : list ((Z * Z) * BloomGroup)) (sb : bool) (d : D) : D :=
  db_write (put current_t tt (hash_of ret b)) (db_write (puts Blooms blooms)
    (db_write (put numbers_t (hash_of ret b) (eh_height (er_header ret)))
    (db_write (put_body sb (eh_height (er_header ret)) (body b))
    (db_write (put Headers (eh_height (er_header ret)) (Hdr_of ret b))
    (db_write (puts addresses_t (map_to_list (transaction_addresses (hash_of ret b) (body b))))
    (db_write (put_receipts (hash_of ret b) (er_receipts ret)) d)))))).

Lemma result_stored (ret : Res) b blooms sb d k :
  db_write (result_writes pubkey_to_address ret b blooms sb k).1 d = stored ret b blooms sb d.
Proof using. by rw result_writes_batch !db_write_app. Qed.

Ltac stored_tac :=
  intros;
  match goal with
  | H : result_ok ?ret ?b |- _ =>
      pose proof (rk_header _ _ H); pose proof (rk_hash _ _ H); pose proof (proj1 (rk_hash _ _ H));
      pose proof (address_entries _ _ (rk_hash _ _ H) (rk_body _ _ H) (rk_length _ _ H));
      pose proof (rk_body _ _ H); pose proof (rk_length _ _ H);
      let Hn := fresh in pose proof (ho_number _ _ (rk_header _ _ H)) as Hn; cbn [number result_header] in Hn
  end;
  match goal with H : blooms_ok _ |- _ => pose proof (bloom_entries _ H) end;
  rw /stored /put_receipts /put_body;
  match goal with |- context [if zlen ?l =? 0 then _ else _] => destruct (zlen l =? 0) end;
  match goal with sb : bool |- _ => destruct sb end;
  cbn [negb andb]; rw ?db_write_nil; view_tac.

Lemma stored_header (ret : Res) b blooms sb d n : result_ok ret b -> blooms_ok blooms -> fits 64 n ->
  view Headers (stored ret b blooms sb d) n =
  if bool_decide (n = eh_height (er_header ret)) then Some (Hdr_of ret b) else view Headers d n.
Proof using HRok HDok HBok HPok HGok. stored_tac; by rw header_decoded. Qed.
Lemma stored_body (ret : Res) b blooms sb d n : result_ok ret b -> blooms_ok blooms -> fits 64 n ->
  view Bodies (stored ret b blooms sb d) n =
  if sb && bool_decide (n = eh_height (er_header ret)) then Some (body b) else view Bodies d n.
Proof using HRok HDok HBok HPok HGok. stored_tac; by rw ?body_decoded. Qed.
Lemma stored_number (ret : Res) b blooms sb d h : result_ok ret b -> blooms_ok blooms -> plain h ->
  view numbers_t (stored ret b blooms sb d) h =
  if bool_decide (h = hash_of ret b) then Some (eh_height (er_header ret)) else view numbers_t d h.
Proof using HRok HDok HBok HPok HGok. stored_tac; by rw ?number_decoded. Qed.
Lemma stored_address (ret : Res) b blooms sb d h : result_ok ret b -> blooms_ok blooms -> fits 256 h ->
  view addresses_t (stored ret b blooms sb d) h =
  match transaction_addresses (hash_of ret b) (body b) !! h with Some a => Some a | None => view addresses_t d h end.
Proof using HRok HDok HBok HPok HGok.
  stored_tac; rw inserts_map; destruct (_ !! h) as [a|] eqn:Ha; try done;
  apply address_of_transaction in Ha as (i & -> & Hi); apply address_decoded; split; try done;
  apply list_lookup_fmap_Some_1 in Hi as (s & _ & Hs); apply lookup_lt_Some in Hs; cbn; unfold fits, zlen in *; lia.
Qed.
Lemma stored_receipts (ret : Res) b blooms sb d h : result_ok ret b -> blooms_ok blooms -> fits 256 h ->
  view receipts_t (stored ret b blooms sb d) h =
  if negb (zlen (er_receipts ret) =? 0) && bool_decide (h = hash_of ret b) then decoded receipts_t (er_receipts ret)
  else view receipts_t d h.
Proof using HRok HDok HBok HPok HGok. stored_tac; done. Qed.
Lemma stored_current (ret : Res) b blooms sb d : result_ok ret b -> blooms_ok blooms ->
  view current_t (stored ret b blooms sb d) tt = Some (hash_of ret b).
Proof using HRok HDok HBok HPok HGok. stored_tac; by apply current_decoded. Qed.
Lemma stored_height (ret : Res) b blooms sb d : result_ok ret b -> blooms_ok blooms ->
  view height_t (stored ret b blooms sb d) tt = view height_t d tt.
Proof using HRok HDok HBok HPok HGok. stored_tac; done. Qed.
Lemma stored_proof (ret : Res) b blooms sb d : result_ok ret b -> blooms_ok blooms ->
  view Proofs (stored ret b blooms sb d) tt = view Proofs d tt.
Proof using HRok HDok HBok HPok HGok. stored_tac; done. Qed.
Lemma result_good (ret : Res) b blooms sb d k : good d k -> result_ok ret b -> blooms_ok blooms ->
  good (db_write (result_writes pubkey_to_address ret b blooms sb k).1 d) (result_writes pubkey_to_address ret b blooms sb k).2.
Proof using HRok HDok HBok HPok HGok.
  intros Hg [Hh Hhash Hb Hlen Hr] Hbl. pose proof (ho_number _ _ Hh) as Hn. cbn [number result_header] in Hn.
  assert (Hg1 : good (db_write (put_receipts (hash_of ret b) (er_receipts ret)) d)
    (if zlen (er_receipts ret) =? 0 then k else with_receipts (<[hash_of ret b := er_receipts ret]> (receipts_cache k)) k)).
  { rw /put_receipts. case_match; [done|]. apply good_receipts; [done|apply Hhash|by apply storable_survives]. }
  apply good_addresses with (l := map_to_list (transaction_addresses (hash_of ret b) (body b))) in Hg1;
    [|by apply address_entries].
  apply good_header with (n := eh_height (er_header ret)) (h := Hdr_of ret b) in Hg1; [|done|by apply survives_exact, header_decoded].
  set (k1 := with_headers _ _) in Hg1.
  assert (Hg2 : good (db_write (put_body sb (eh_height (er_header ret)) (body b)) (db_write (put Headers (eh_height (er_header ret)) (Hdr_of ret b))
    (db_write (puts addresses_t (map_to_list (transaction_addresses (hash_of ret b) (body b)))) (db_write (put_receipts (hash_of ret b) (er_receipts ret)) d))))
    (if sb then with_bodies (<[eh_height (er_header ret) := body b]> (block_bodies k1)) k1 else k1)).
  { rw /put_body. destruct sb; [|done]. apply good_body; [done..|]. by apply survives_exact, body_decoded. }
  apply good_number with (h := hash_of ret b) (n := eh_height (er_header ret)) in Hg2; [|done|by apply survives_exact, number_decoded].
  apply good_blooms with (l := blooms) in Hg2; [|by apply bloom_entries].
  apply good_current with (h := hash_of ret b) in Hg2; [|apply survives_exact, current_decoded, Hhash].
  rw result_writes_batch !db_write_app. revert Hg2. subst k1. rw /result_writes.
  destruct (zlen (er_receipts ret) =? 0); destruct sb; cbn [negb]; unfold write_with_cache;
  rw !(extend_puts addresses_t); cbn [app]; rw !(extend_puts Blooms); exact id.
Qed.
End invariant.
