(* ===== verification/ChainReads.v ===== *)
(** * What the lookups of the chain answer

    The lookups never panic, give what is stored (receipts up to the kind of
    their errors) and change nothing but the caches; what the caches hold does
    not matter. *)

From S2P Require Import Prelude Evm Account Executive Block Codec CodecSpec ChainDb Chain ChainSpec ChainInv.
From stdpp Require Import base gmap list.
Local Open Scope Z_scope.
Local Open Scope cita_scope.

Section reads.
  Context {HR : RlpLib} {HRok : RlpLibOk} {HU : Util} {HB : RlpBytes} (pubkey_to_address : Z -> Address).
  Context {Proof_ : Type} {Proof_eq : EqDecision Proof_} {HP : Rlp Proof_}.
  Context {D : Type} {HD : KvDb D} {AccountGasLimit : Type} {BloomGroup : Type} {HG : Rlp BloomGroup}.
Abbreviation Ch := (Chain (Proof_ := Proof_) (D := D) (AccountGasLimit := AccountGasLimit) (BloomGroup := BloomGroup)).
Abbreviation Blk := (Block (Proof_ := Proof_)).
Abbreviation Hdr := (Header (Proof_ := Proof_)).
Abbreviation Headers := (headers_t (Proof_ := Proof_)).
Abbreviation Bodies := (bodies_t pubkey_to_address).
Abbreviation Blooms := (blooms_t (BloomGroup := BloomGroup)).
Abbreviation good := (good pubkey_to_address (Proof_ := Proof_) (D := D) (BloomGroup := BloomGroup)).

(** ** What is stored *)
Definition number_of (c : Ch) (h : H256) : option Z := view numbers_t (db c) h.
Definition header_at (c : Ch) (n : Z) : option Hdr :=
  if number (current_header c) =? n then Some (current_header c) else view Headers (db c) n.
Definition body_at (c : Ch) (n : Z) : option BlockBody := view Bodies (db c) n.
Definition block_at (c : Ch) (n : Z) : option Blk :=
  h ← header_at c n; b ← body_at c n; Some (mkBlock h b).
Definition address_of (c : Ch) (h : H256) : option TransactionAddress := view addresses_t (db c) h.
Definition receipts_of (c : Ch) (h : H256) : option BlockReceipts := view receipts_t (db c) h.

(** [m] answers [Q] and touches the caches only. *)
Definition answers {A} (m : M void Ch A) (Q : A -> Prop) (c : Ch) : Prop :=
  wp m (fun a c' => (exists k, c' = with_db (db c) k c /\ good (db c) k) /\ Q a) (fun _ _ => False) c.

Lemma with_db_same (c : Ch) : c = with_db (db c) (caches c) c.
Proof using. by destruct c. Qed.

Lemma answers_ret {A} (a : A) (Q : A -> Prop) c : good (db c) (caches c) -> Q a -> answers (sret a) Q c.
Proof using. intros Hg HQ. apply wp_ret. split; [|done]. exists (caches c). split; [apply with_db_same|done]. Qed.

Lemma answers_bind {A B} (m : M void Ch A) (f : A -> M void Ch B) Q P c : answers m Q c ->
  (forall a k, good (db c) k -> Q a -> answers (f a) P (with_db (db c) k c)) -> answers (sbind m f) P c.
Proof using.
  intros Hm Hf. apply wp_bind. eapply wp_conseq; [exact Hm| |done]. intros a c' [(k & -> & Hk) HQ].
  eapply wp_conseq; [exact (Hf a k Hk HQ)| |done]. intros b c'' [(k' & -> & Hk') HP']. split; [|done]. by exists k'.
Qed.

Lemma answers_get {B} (f : Ch -> M void Ch B) P c : answers (f c) P c -> answers (sbind sget f) P c.
Proof using. done. Qed.

Lemma answers_lift {A B} (o : outcome void A) a (f : A -> M void Ch B) P c : o = Ok a -> answers (f a) P c ->
  answers (sbind (slift o) f) P c.
Proof using. by intros ->. Qed.

Lemma answers_impl {A} (m : M void Ch A) (Q P : A -> Prop) c : answers m Q c -> (forall a, Q a -> P a) -> answers m P c.
Proof using. intros Hm HP'. eapply wp_conseq; [exact Hm| |done]. intros a c' [Hk HQ]. split; [done|by apply HP']. Qed.

Lemma lookup_cached_answers {K T} `{Countable K} (t : table K T) sel upd k (c : Ch) :
  good (db c) (caches c) -> t_in t k -> readable t (db c) -> coherent t (db c) (sel (caches c)) ->
  (forall m, coherent t (db c) m -> good (db c) (upd m (caches c))) ->
  answers (lookup_cached (H0 := t_rlp t) (t_col t) (t_key t) sel upd k) (fun o => agrees t o (view t (db c) k)) c.
Proof using.
  intros Hg Hk Hr Hc Hu. destruct (read_with_cache_view t (db c) _ k Hr Hc Hk) as (o & m & Ho & Ha & Hm).
  unfold answers, wp, lookup_cached, sbind, sget, slift, smodify, sret. rw Ho. cbn [fst snd].
  split; [|done]. eexists. split; [done|]. by apply Hu.
Qed.

Lemma agrees_eq {K T} (t : table K T) o o' : t_sim t = eq -> agrees t o o' -> o = o'.
Proof using. intros Ht. unfold agrees. rw Ht. intros []; congruence. Qed.

(** ** The lookups *)
Ltac lookup_tac t :=
  intros Hg; intros; apply (lookup_cached_answers t); try done; try (apply Hg);
  intros m Hm; destruct Hg as [Hs []]; by split; [|split].

Lemma block_height_by_hash_answers h c : good (db c) (caches c) -> plain h ->
  answers (block_height_by_hash h) (fun o => o = number_of c h) c.
Proof using.
  intros Hg Hh. eapply answers_impl; [revert Hg Hh; lookup_tac numbers_t|]. intros o. by apply agrees_eq.
Qed.

Lemma block_header_by_height_answers n c : good (db c) (caches c) -> fits 64 n ->
  answers (block_header_by_height n) (fun o => o = header_at c n) c.
Proof using.
  intros Hg Hn. apply answers_get. unfold header_at. case_match; [by apply answers_ret|].
  eapply answers_impl; [revert Hg Hn; lookup_tac (headers_t (Proof_ := Proof_))|]. intros o. by apply agrees_eq.
Qed.

Lemma block_body_by_height_answers n c : good (db c) (caches c) -> fits 64 n ->
  answers (block_body_by_height pubkey_to_address n) (fun o => o = body_at c n) c.
Proof using.
  intros Hg Hn. eapply answers_impl; [revert Hg Hn; lookup_tac (bodies_t pubkey_to_address)|]. intros o. by apply agrees_eq.
Qed.

Lemma transaction_address_answers h c : good (db c) (caches c) -> fits 256 h ->
  answers (transaction_address h) (fun o => o = address_of c h) c.
Proof using.
  intros Hg Hn. eapply answers_impl; [revert Hg Hn; lookup_tac addresses_t|]. intros o. by apply agrees_eq.
Qed.

Lemma block_receipts_answers h c : good (db c) (caches c) -> fits 256 h ->
  answers (block_receipts h) (fun o => option_Forall2 similar o (receipts_of c h)) c.
Proof using. lookup_tac receipts_t. Qed.

Lemma blooms_at_view q (c : Ch) : good (db c) (caches c) -> position_ok q ->
  blooms_at c q = Ok (view Blooms (db c) q).
Proof using.
  intros [Hs Hc] Hq. unfold blooms_at. destruct (read_with_cache_view blooms_t (db c) (blocks_blooms (caches c)) q) as (o & k & Ho & Ha & _).
  { apply Hs. } { apply Hc. } { done. }
  cbn in Ho. rw Ho. cbn. f_equal. by apply agrees_eq in Ha.
Qed.

(** ** Blocks *)
Lemma number_of_fits c h n : number_of c h = Some n -> fits 64 n.
Proof using HRok.
  unfold number_of, view. intros H. repeat (apply bind_Some in H as (? & _ & H)). by apply (uint_range 64) in H.
Qed.

Lemma answers_option {A B} (o : option A) (f : A -> M void Ch (option B)) g c : good (db c) (caches c) ->
  (forall a, o = Some a -> answers (f a) (fun r => r = g a) c) -> answers (and_then o f) (fun r => r = o ≫= g) c.
Proof using. intros Hg Hf. destruct o as [a|]; [by apply Hf|by apply answers_ret]. Qed.

Lemma block_by_height_answers n c : good (db c) (caches c) -> fits 64 n ->
  answers (block_by_height pubkey_to_address n) (fun o => o = block_at c n) c.
Proof using.
  intros Hg Hn. eapply answers_bind; [by apply block_header_by_height_answers|]. intros h k Hk ->.
  eapply answers_bind; [by apply block_body_by_height_answers|]. intros b k' Hk' ->.
  apply answers_ret; [done|]. unfold block_at, header_at, body_at. cbn. case_match; cbn; by repeat case_match.
Qed.

(** A lookup by hash goes through the number. *)
Lemma by_hash_answers {B} (f : Z -> M void Ch (option B)) g h c : good (db c) (caches c) -> plain h ->
  (forall n k, fits 64 n -> good (db c) k -> answers (f n) (fun o => o = g n) (with_db (db c) k c)) ->
  answers (n <~ block_height_by_hash h ;; and_then n f) (fun o => o = number_of c h ≫= g) c.
Proof using HRok.
  intros Hg Hh Hf. eapply answers_bind; [by apply block_height_by_hash_answers|]. intros o k Hk ->.
  apply answers_option; [done|]. intros n Hn. apply Hf; [by eapply number_of_fits|done].
Qed.

Lemma block_by_hash_answers h c : good (db c) (caches c) -> plain h ->
  answers (block_by_hash pubkey_to_address h) (fun o => o = number_of c h ≫= block_at c) c.
Proof using HRok. intros Hg Hh. apply by_hash_answers; [done..|]. intros n k Hn Hk. exact (block_by_height_answers n (with_db (db c) k c) Hk Hn). Qed.

Lemma block_body_by_hash_answers h c : good (db c) (caches c) -> plain h ->
  answers (block_body_by_hash pubkey_to_address h) (fun o => o = number_of c h ≫= body_at c) c.
Proof using HRok. intros Hg Hh. apply by_hash_answers; [done..|]. intros n k Hn Hk. exact (block_body_by_height_answers n (with_db (db c) k c) Hk Hn). Qed.

Lemma block_header_by_hash_answers h c : good (db c) (caches c) -> plain h ->
  answers (block_header_by_hash h)
    (fun o => o = if get_current_hash c =? h then Some (current_header c) else number_of c h ≫= header_at c) c.
Proof using HRok.
  intros Hg Hh. apply answers_get. case_match; [by apply answers_ret|]. apply by_hash_answers; [done..|].
  intros n k Hn Hk. exact (block_header_by_height_answers n (with_db (db c) k c) Hk Hn).
Qed.

Definition id_ok (id : BlockId) : Prop :=
  match id with BidHash h => plain h | BidNumber n => fits 64 n | _ => True end.

(** The number an id stands for. *)
Definition id_number (c : Ch) (id : BlockId) : option Z :=
  match id with
  | BidHash h => number_of c h
  | BidNumber n => Some n
  | Earliest => Some 0
  | Latest => Some (get_current_height c)
  end.

Lemma by_id_answers {B} (by_hash : H256 -> M void Ch (option B)) by_height g id c :
  good (db c) (caches c) -> id_ok id -> fits 64 (number (current_header c)) ->
  (forall h, plain h -> answers (by_hash h) (fun o => o = number_of c h ≫= g) c) ->
  (forall n, fits 64 n -> answers (by_height n) (fun o => o = g n) c) ->
  answers (by_id by_hash by_height id) (fun o => o = id_number c id ≫= g) c.
Proof using. intros Hg Hid Hn Hh Hb. destruct id; [by apply Hh|by apply Hb|by apply (Hb 0)|by apply (Hb (get_current_height c))]. Qed.

Lemma block_answers id c : good (db c) (caches c) -> id_ok id -> fits 64 (number (current_header c)) ->
  answers (Chain.block pubkey_to_address id) (fun o => o = id_number c id ≫= block_at c) c.
Proof using HRok.
  intros Hg Hid Hn. apply by_id_answers; [done..| |]; intros; [by apply block_by_hash_answers|by apply block_by_height_answers].
Qed.

Lemma block_body_answers id c : good (db c) (caches c) -> id_ok id -> fits 64 (number (current_header c)) ->
  answers (Chain.block_body pubkey_to_address id) (fun o => o = id_number c id ≫= body_at c) c.
Proof using HRok.
  intros Hg Hid Hn. apply by_id_answers; [done..| |]; intros; [by apply block_body_by_hash_answers|by apply block_body_by_height_answers].
Qed.

Lemma block_number_answers id c : good (db c) (caches c) -> id_ok id ->
  answers (Chain.block_number id) (fun o => o = id_number c id) c.
Proof using. intros Hg Hid. destruct id; [by apply block_height_by_hash_answers|by apply answers_ret..]. Qed.

(** ** The index *)

(** An executed block with everything that belongs to it. *)
Record block_stored (d : D) (n : Z) (hdr : Hdr) (b : BlockBody) : Prop := {
  bs_header : view Headers d n = Some hdr;
  bs_number : number hdr = n;
  bs_plain : plain (header_hash rlp_out hdr);
  bs_hash : view numbers_t d (header_hash rlp_out hdr) = Some n;
  bs_body : view Bodies d n = Some b;
  bs_addresses : Forall (fun h => fits 256 h /\ is_Some (view addresses_t d h)) (transaction_hashes b);
  bs_receipts : b <> [] -> is_Some (view receipts_t d (header_hash rlp_out hdr));
}.

(** The blocks up to [top] are stored; a known hash is that of the header, an
    indexed transaction is in its block, receipts belong to the transactions
    of a block.  The first block has no body. *)
Record index_ok (d : D) (top : Z) : Prop := {
  ix_block n : 0 < n <= top -> exists hdr b, block_stored d n hdr b;
  ix_number h n : plain h -> view numbers_t d h = Some n ->
    n <= top /\ exists hdr, view Headers d n = Some hdr /\ number hdr = n /\ header_hash rlp_out hdr = h;
  ix_address h a : fits 256 h -> view addresses_t d h = Some a ->
    plain (ta_block_hash a) /\ exists n b i, 0 < n /\ view numbers_t d (ta_block_hash a) = Some n /\
      view Bodies d n = Some b /\ ta_index a = Z.of_nat i /\ transaction_hashes b !! i = Some h;
  ix_receipts h l : fits 256 h -> view receipts_t d h = Some l ->
    plain h /\ exists n b, 0 < n /\ view numbers_t d h = Some n /\ view Bodies d n = Some b /\ length l = length b;
}.

Lemma index_at {A} (l : list A) i x : l !! i = Some x -> index (E := void) l (Z.of_nat i) = Ok x.
Proof using. intros Hi. unfold index. rw Nat2Z.id Hi (proj2 (Z.leb_le _ _) (Nat2Z.is_nonneg i)). done. Qed.

(** The transaction that is found under a hash. *)
Definition transaction_of (c : Ch) (h : H256) : option SignedTx :=
  a ← address_of c h; n ← number_of c (ta_block_hash a); b ← body_at c n; b !! Z.to_nat (ta_index a).

Lemma transaction_by_address_answers h n b i x c : good (db c) (caches c) -> plain h ->
  number_of c h = Some n -> body_at c n = Some b -> b !! i = Some x ->
  answers (transaction_by_address pubkey_to_address h (Z.of_nat i)) (fun o => o = Some x) c.
Proof using HRok.
  intros Hg Hh Hn Hb Hx. eapply answers_bind; [by apply block_body_by_hash_answers|]. intros o k Hk ->. rw Hn. cbn [mbind option_bind].
  rw Hb. eapply answers_lift; [by apply index_at|]. by apply answers_ret.
Qed.

Lemma transaction_answers h top c : good (db c) (caches c) -> index_ok (db c) top -> fits 256 h ->
  answers (transaction pubkey_to_address h) (fun o => o = transaction_of c h) c.
Proof using HRok.
  intros Hg Hix Hh. eapply answers_bind; [by apply transaction_address_answers|]. intros o k Hk ->. unfold transaction_of.
  destruct (address_of c h) as [a|] eqn:Ha; [|by apply answers_ret]. cbn [mbind option_bind and_then].
  destruct (ix_address _ _ Hix h a Hh Ha) as (Hp & n & b & i & _ & Hn & Hb & -> & Hi).
  apply list_lookup_fmap_Some_1 in Hi as (x & -> & Hx). unfold number_of. rw Hn. cbn. rw /body_at Hb /= Nat2Z.id Hx.
  by eapply (transaction_by_address_answers _ n b i x (with_db (db c) k c)).
Qed.

(** It has this hash, and the transactions of executed blocks are found. *)
Lemma transaction_of_hash h top c s : index_ok (db c) top -> fits 256 h -> transaction_of c h = Some s ->
  u_hash (s_transaction s) = h.
Proof using.
  intros Hix Hh. unfold transaction_of. intros (a & Ha & H)%bind_Some.
  destruct (ix_address _ _ Hix h a Hh Ha) as (Hp & n & b & i & _ & Hn & Hb & Hi & Hx). unfold number_of, body_at in H.
  rw Hn in H. cbn in H. rw Hb in H. cbn in H. rw Hi Nat2Z.id in H. unfold transaction_hashes in Hx. rw list_lookup_fmap H in Hx. by injection Hx.
Qed.

Lemma transaction_of_block top c n hdr b i s : index_ok (db c) top -> block_stored (db c) n hdr b -> b !! i = Some s ->
  is_Some (transaction_of c (u_hash (s_transaction s))).
Proof using.
  intros Hix Hbs Hs. destruct (Forall_lookup_1 _ _ i (u_hash (s_transaction s)) (bs_addresses _ _ _ _ Hbs)) as (Hf & a & Ha).
  { unfold transaction_hashes. by rw list_lookup_fmap Hs. }
  unfold transaction_of, address_of. rw Ha. cbn. destruct (ix_address _ _ Hix _ a Hf Ha) as (Hp & m & b' & j & _ & Hm & Hb & Hj & Hx).
  unfold number_of, body_at. rw Hm /= Hb /= Hj Nat2Z.id. apply list_lookup_fmap_Some_1 in Hx as (x & _ & Hx). by rw Hx.
Qed.
End reads.
