(* ===== verification/ChainLogs.v ===== *)
(** * Receipts and logs of the chain

    The place of a log in its transaction, its block and the chain, and what
    the lookups of receipts and logs answer. *)

From S2P Require Import Prelude Evm Account Executive Block Codec CodecSpec ChainDb Chain ChainSpec ChainInv ChainReads.
From stdpp Require Import base gmap list sorting.
Local Open Scope Z_scope.
Local Open Scope cita_scope.

(** ** The logs of a block in order *)

(** Logs of one transaction after another, [off] logs before the first. *)
Fixpoint forward_logs (hash : H256) (n i off : Z) (l : list (list LogEntry * H256)) : list LocalizedLogEntry :=
  match l with
  | [] => []
  | (logs, tx_hash) :: l =>
      localized_logs tx_hash i hash n off logs ++ forward_logs hash n (i + 1) (off + zlen logs) l
  end.

Definition total_logs (l : list (list LogEntry * H256)) : Z := foldr (fun e acc => zlen e.1 + acc) 0 l.

Lemma total_logs_app l l' : total_logs (l ++ l') = total_logs l + total_logs l'.
Proof. induction l as [|e l IH]; [done|]. cbn [app total_logs foldr]. fold (total_logs (l ++ l')). rw IH. cbn. unfold total_logs. lia. Qed.

Lemma total_logs_reverse l : total_logs (reverse l) = total_logs l.
Proof. induction l as [|e l IH]; [done|]. rw reverse_cons total_logs_app IH. cbn. fold (total_logs l). lia. Qed.

Lemma forward_logs_app hash n i off l l' :
  forward_logs hash n i off (l ++ l') =
  forward_logs hash n i off l ++ forward_logs hash n (i + zlen l) (off + total_logs l) l'.
Proof.
  revert i off. induction l as [|[logs h] l IH]; intros i off; cbn [app forward_logs].
  - cbn. by rw !Z.add_0_r.
  - rw IH -app_assoc. do 3 f_equal; cbn [total_logs foldr fst]; fold (total_logs l); unfold zlen; cbn [length]; lia.
Qed.

Lemma reverse_imap_reverse {A B} (f : nat -> A -> B) l :
  reverse (imap f (reverse l)) = imap (fun j => f (length l - 1 - j)%nat) l.
Proof.
  revert f. induction l as [|x l IH]; intros f; [done|]. rw reverse_cons imap_app reverse_app. cbn [imap reverse rev_append].
  cbn [app]. rw length_reverse. cbn [imap]. f_equal; [cbn; f_equal; lia|]. rw IH. apply imap_ext. intros j y Hj. cbn.
  f_equal. lia.
Qed.

Lemma place_logs_forward hash n len i idx l :
  reverse (place_logs hash n len i idx l) = forward_logs hash n (len - i - zlen l) (idx - total_logs l) (reverse l).
Proof.
  revert i idx. induction l as [|[logs h] l IH]; intros i idx; [done|]. cbn [place_logs].
  rw reverse_app IH reverse_cons forward_logs_app. f_equal.
  - f_equal; [unfold zlen; cbn [length]; lia|]. cbn. fold (total_logs l). lia.
  - cbn [forward_logs]. rw app_nil_r. rw reverse_imap_reverse. unfold localized_logs. apply imap_ext. intros j log Hj.
    apply lookup_lt_Some in Hj. rw total_logs_reverse. unfold zlen. rw length_reverse. cbn. fold (total_logs l).
    unfold zlen. f_equal; lia.
Qed.

Lemma zip_reverse {A B} (l : list A) (k : list B) : length l = length k -> zip (reverse l) (reverse k) = reverse (zip l k).
Proof.
  revert k. induction l as [|x l IH]; intros [|y k] Hl; try done. injection Hl as Hl. cbn [zip zip_with].
  rw !reverse_cons zip_with_app; [by rw !length_reverse|]. by rw IH.
Qed.

(** The logs of the receipts [l] of the transactions [hs]; each one with its
    transaction, its place in the block and its place in the transaction. *)
Definition receipt_logs (hash : H256) (n : Z) (l : BlockReceipts) (hs : list H256) : list LocalizedLogEntry :=
  concat (imap (fun i '(r, tx_hash) =>
    localized_logs tx_hash (Z.of_nat i) hash n (count_logs (take i l)) (from_option rc_logs [] r)) (zip l hs)).

Lemma forward_logs_imap hash n i off l :
  forward_logs hash n i off l =
  concat (imap (fun j e => localized_logs e.2 (i + Z.of_nat j) hash n (off + total_logs (take j l)) e.1) l).
Proof.
  revert i off. induction l as [|[logs h] l IH]; intros i off; [done|]. cbn [forward_logs imap concat fst snd]. f_equal.
  - cbn. f_equal; lia.
  - rw IH. f_equal. apply imap_ext. intros j e _. unfold compose. cbn [take total_logs foldr fst]. fold (total_logs (take j l)).
    f_equal; lia.
Qed.

Lemma count_logs_total l hs : length l = length hs -> count_logs l = total_logs (zip (from_option rc_logs [] <$> l) hs).
Proof.
  unfold count_logs. rw -(Z.add_0_l (total_logs _)).
  assert (G : forall z : Z, length l = length hs -> fold_left (fun acc r => acc + from_option (fun r => zlen (rc_logs r)) 0 r) l z =
    z + total_logs (zip (from_option rc_logs [] <$> l) hs)); [|by apply G]. revert hs.
  induction l as [|r l IH]; intros [|h hs] z Hl; try done; [cbn; by rw Z.add_0_r|]. injection Hl as Hl. cbn [fold_left]. rw (IH hs); [done|].
  cbn [fmap list_fmap zip zip_with total_logs foldr fst]. fold (total_logs (zip (from_option rc_logs [] <$> l) hs)).
  destruct r; cbn [from_option]; [lia|]. unfold zlen. cbn. lia.
Qed.

Lemma omap_present (l : BlockReceipts) : Forall is_Some l ->
  rc_logs <$> omap id l = (from_option rc_logs [] <$> l : list (list LogEntry)).
Proof. induction 1 as [|o l [r ->] Hl IH]; [done|]. cbn in *. by rw IH. Qed.

Lemma receipt_logs_forward hash n (l : BlockReceipts) hs : length l = length hs ->
  receipt_logs hash n l hs = forward_logs hash n 0 0 (zip (from_option rc_logs [] <$> l) hs).
Proof.
  intros Hl. rw forward_logs_imap. unfold receipt_logs. f_equal.
  assert (Hz : zip (from_option rc_logs [] <$> l) hs = prod_map (from_option rc_logs []) id <$> zip l hs)
    by by rw prod_map_zip list_fmap_id.
  rw {2}Hz imap_fmap. apply imap_ext. intros i [r h] _. unfold compose. cbn [prod_map fst snd id].
  rw zip_with_take -fmap_take -count_logs_total; [rw !length_take Hl; done|]. done.
Qed.

(** Every receipt is there: the newest log comes first. *)
Lemma place_receipt_logs hash n (l : BlockReceipts) hs : length l = length hs -> Forall is_Some l ->
  reverse (place_logs hash n (zlen l) 0 (count_logs l) (zip (rc_logs <$> omap id (reverse l)) (reverse hs))) =
  receipt_logs hash n l hs.
Proof.
  intros Hl Hp. rw omap_present; [by apply Forall_reverse|]. rw fmap_reverse zip_reverse; [by rw length_fmap|].
  rw place_logs_forward total_logs_reverse reverse_involutive (count_logs_total l hs Hl) Z.sub_diag.
  rw receipt_logs_forward; [done|]. f_equal.
  unfold zlen. rw length_reverse length_zip_with length_fmap -Hl. lia.
Qed.

(** Logs do not depend on the errors. *)
Lemma similar_logs (l l' : BlockReceipts) : similar l l' ->
  from_option rc_logs [] <$> l = (from_option rc_logs [] <$> l' : list (list LogEntry)).
Proof.
  induction 1 as [|o o' l l' Ho Hl IH]; [done|]. cbn. f_equal; [|done]. destruct Ho as [r r' [Hr _]|]; [|done].
  exact (f_equal rc_logs Hr).
Qed.

Lemma receipt_logs_similar hash n (l l' : BlockReceipts) hs : similar l l' -> length l = length hs ->
  receipt_logs hash n l hs = receipt_logs hash n l' hs.
Proof.
  intros Hs Hl. rw (receipt_logs_forward _ _ l); [done|]. rw receipt_logs_forward; [by rw -(Forall2_length _ _ _ Hs)|].
  by rw (similar_logs l l').
Qed.

Lemma similar_present (l l' : BlockReceipts) : similar l l' -> Forall is_Some l' -> Forall is_Some l.
Proof.
  induction 1 as [|o o' l l' Ho Hl IH]; [done|]. intros [Hs Hr]%Forall_cons. constructor; [|by apply IH].
  destruct Ho; [done|]. by destruct Hs.
Qed.

(** The last [k] of a list. *)
Definition newest {A} (limit : option nat) (l : list A) : list A :=
  from_option (fun k => drop (length l - k) l) l limit.

Lemma reverse_concat {A} (ls : list (list A)) : reverse (concat ls) = concat (reverse (reverse <$> ls)).
Proof.
  induction ls as [|l ls IH]; [done|]. cbn [concat fmap list_fmap]. rw reverse_app IH reverse_cons concat_app /=. by rw app_nil_r.
Qed.

Lemma merge_sort_ge l : reverse (merge_sort Z.ge l) = merge_sort Z.le l.
Proof.
  apply (StronglySorted_unique Z.le).
  - rw -(list_fmap_id (reverse _)). apply (StronglySorted_fmap id (flip Z.ge) Z.le); [unfold flip; intros; cbn; lia|].
    apply Sorted_StronglySorted; [unfold flip; intros x y z; lia|]. apply Sorted_reverse, Sorted_merge_sort. intros x y. lia.
  - apply StronglySorted_merge_sort; apply _.
  - by rw reverse_Permutation !merge_sort_Permutation.
Qed.

Section logs.
  Context {HR : RlpLib} {HRok : RlpLibOk} {HU : Util} {HB : RlpBytes} (pubkey_to_address : Z -> Address).
  Context (hash_fits : forall b, fits 256 (crypt_hash b)) (encode_address_nonce : Address -> U256 -> bytes).
  Context {Proof_ : Type} {Proof_eq : EqDecision Proof_} {HP : Rlp Proof_}.
  Context {D : Type} {HD : KvDb D} {AccountGasLimit : Type} {BloomGroup : Type} {HG : Rlp BloomGroup}.
Abbreviation Ch := (Chain (Proof_ := Proof_) (D := D) (AccountGasLimit := AccountGasLimit) (BloomGroup := BloomGroup)).
Abbreviation good := (good pubkey_to_address (Proof_ := Proof_) (D := D) (BloomGroup := BloomGroup)).
Abbreviation index_ok := (index_ok pubkey_to_address (Proof_ := Proof_) (D := D)).
Abbreviation answers := (answers pubkey_to_address (Proof_ := Proof_) (D := D) (AccountGasLimit := AccountGasLimit)
  (BloomGroup := BloomGroup)).
Abbreviation body_at := (body_at pubkey_to_address).

(** The receipts of block [n] and its transactions. *)
Definition receipts_at (c : Ch) (n : Z) : option (H256 * BlockReceipts * list H256) :=
  hdr ← header_at c n;
  l ← receipts_of c (header_hash rlp_out hdr);
  m ← number_of c (header_hash rlp_out hdr);
  b ← body_at c m;
  Some (header_hash rlp_out hdr, l, transaction_hashes b).

Definition logs_at (c : Ch) (n : Z) : list LocalizedLogEntry :=
  from_option (fun '(hash, l, hs) => receipt_logs hash n l hs) [] (receipts_at c n).

(** No receipt of the block is missing. *)
Definition complete (c : Ch) (n : Z) : Prop := forall hash l hs, receipts_at c n = Some (hash, l, hs) -> Forall is_Some l.

Lemma block_logs_answers n top c : good (db c) (caches c) -> index_ok (db c) top -> fits 64 n ->
  answers (block_logs pubkey_to_address n) (fun l => complete c n -> reverse l = logs_at c n) c.
Proof using HRok hash_fits.
  intros Hg Hix Hn. eapply answers_bind.
  { eapply answers_bind; [by apply block_header_by_height_answers|]. intros o k Hk ->.
    apply (answers_ret _ _ (fun o => o = header_hash rlp_out <$> header_at c n)); done. }
  intros o k Hk ->. unfold logs_at. unfold complete, receipts_at in *. destruct (header_at c n) as [hdr|]; cbn [fmap option_fmap option_map mbind option_bind] in *;
    [|by apply answers_ret].
  set (h := header_hash rlp_out hdr) in *. assert (Hh : fits 256 h) by apply hash_fits.
  eapply answers_bind; [by apply block_receipts_answers|]. intros o k' Hk' Ho. unfold receipts_of in *. cbn [db with_db] in *.
  destruct (view receipts_t (db c) h) as [l|] eqn:Hl; [|destruct o; [by inversion Ho|by apply answers_ret]].
  destruct o as [l0|]; [|by inversion Ho]. assert (Hs : similar l0 l) by by inversion Ho.
  destruct (ix_receipts _ _ _ Hix h l Hh Hl) as (Hp & m & b & _ & Hm & Hb & Hlen). cbn [mbind option_bind] in *.
  eapply answers_bind; [by apply block_body_by_hash_answers|]. intros o k'' Hk'' ->. unfold number_of, ChainReads.body_at in *.
  cbn [db with_db] in *. rw Hm. cbn [mbind option_bind]. rw Hb. cbn [mbind option_bind].
  assert (Hl0 : length l0 = length (transaction_hashes b)) by (rw /transaction_hashes length_fmap -Hlen; by eapply Forall2_length).
  rw (proj2 (Z.eqb_eq (zlen l0) (zlen (transaction_hashes b)))); [unfold zlen; by rw Hl0|]. apply answers_ret; [done|].
  intros Hc. cbn [from_option]. rw place_receipt_logs; [done| |].
  - eapply similar_present; [done|]. by eapply Hc.
  - by apply receipt_logs_similar.
Qed.

Definition limited {A} (limit : option nat) (l : list A) : list A := from_option (fun k => take k l) l limit.

Lemma logs_loop_cons n blocks matches limit : limit <> Some O ->
  logs_loop pubkey_to_address (n :: blocks) matches limit =
  (l <~ block_logs pubkey_to_address n ;;
   let l := limited limit (filter (fun e => matches (ll_entry e) = true) l) in
   rest <~ logs_loop pubkey_to_address blocks matches ((fun k => (k - length l)%nat) <$> limit) ;;
   sret (l ++ rest)) :> M void Ch _.
Proof using. by destruct limit as [[]|]. Qed.

Lemma limited_app {A} limit (l l' : list A) :
  limited limit l ++ limited ((fun k => (k - length (limited limit l))%nat) <$> limit) l' = limited limit (l ++ l').
Proof using.
  destruct limit as [k|]; [|done]. cbn. rw take_app length_take. do 2 f_equal. lia.
Qed.

Lemma logs_loop_answers blocks matches limit top c : good (db c) (caches c) -> index_ok (db c) top ->
  Forall (fits 64) blocks ->
  answers (logs_loop pubkey_to_address blocks matches limit)
    (fun l => Forall (complete c) blocks -> l = limited limit (concat ((fun n => filter (fun e => matches (ll_entry e) = true) (reverse (logs_at c n))) <$> blocks))) c.
Proof using HRok hash_fits.
  revert limit c. induction blocks as [|n blocks IH]; intros limit c Hg Hix Hb.
  { apply answers_ret; [done|]. destruct limit as [[]|]; done. }
  apply Forall_cons in Hb as [Hn Hb].
  destruct (decide (limit = Some O)) as [->|Hlim]; [by apply answers_ret|]. rw logs_loop_cons; [done|].
  eapply answers_bind; [by eapply block_logs_answers|]. intros l k Hk Hl.
  eapply answers_bind; [by apply (IH _ (with_db (db c) k c))|]. intros rest k' Hk' Hr. apply answers_ret; [done|].
  intros [Hc Hcs]%Forall_cons. rw Hr; [done|]. cbn [fmap list_fmap concat]. rw limited_app -(Hl Hc) reverse_involutive. done.
Qed.

(** The logs in the order of the chain, the newest ones when there is a limit. *)
Lemma logs_answers blocks matches limit top c : good (db c) (caches c) -> index_ok (db c) top ->
  Forall (fits 64) blocks ->
  answers (logs pubkey_to_address blocks matches limit)
    (fun l => Forall (complete c) blocks -> l = newest limit (concat ((fun n => filter (fun e => matches (ll_entry e) = true) (logs_at c n)) <$>
                                merge_sort Z.le blocks))) c.
Proof using HRok hash_fits.
  intros Hg Hix Hb. eapply answers_bind.
  { eapply (logs_loop_answers _ _ _ top); [done|done|]. by rw merge_sort_Permutation. }
  intros l k Hk Hl. apply answers_ret; [done|]. intros Hc. rw Hl; [by rw merge_sort_Permutation|]. rw -merge_sort_ge. set (f := fun n => filter _ (logs_at c n)).
  assert (Hf : concat (f <$> reverse (merge_sort Z.ge blocks)) =
    reverse (concat ((fun n => filter (fun e => matches (ll_entry e) = true) (reverse (logs_at c n))) <$> merge_sort Z.ge blocks))).
  { rw reverse_concat fmap_reverse -list_fmap_compose. do 2 f_equal. apply list_fmap_ext. intros i n _. unfold compose, f.
    by rw filter_reverse reverse_involutive. }
  rw Hf. destruct limit as [j|]; [|done]. unfold newest, limited. cbn [from_option]. by rw reverse_take length_reverse.
Qed.

(** ** Receipts with their place *)

(** [m] answers [Q], or panics where [P] holds; it touches the caches only. *)
Definition settles {A} (m : M void Ch A) (Q : A -> Prop) (P : Prop) (c : Ch) : Prop :=
  match m c with
  | (Ok a, c') => (exists k, c' = with_db (db c) k c /\ good (db c) k) /\ Q a
  | (Err _, _) => False
  | (Panic, _) => P
  end.

Lemma answers_settles {A} (m : M void Ch A) Q P c : answers m Q c -> settles m Q P c.
Proof using. unfold ChainReads.answers, wp, settles. by destruct (m c) as [[] ]. Qed.

Lemma settles_bind {A B} (m : M void Ch A) (f : A -> M void Ch B) Q R P c : answers m Q c ->
  (forall a k, good (db c) k -> Q a -> settles (f a) R P (with_db (db c) k c)) -> settles (sbind m f) R P c.
Proof using.
  unfold ChainReads.answers, wp, settles, sbind. intros Hm Hf. destruct (m c) as [[a|e|] c']; [|done|done].
  destruct Hm as [(k & -> & Hk) HQ]. specialize (Hf a k Hk HQ). by destruct (f a (with_db (db c) k c)) as [[] ].
Qed.

Lemma settles_mono {A} (m : M void Ch A) (Q Q' : A -> Prop) (P P' : Prop) c :
  settles m Q P c -> (forall a, Q a -> Q' a) -> (P -> P') -> settles m Q' P' c.
Proof using. unfold settles. intros Hm HQ HP'. destruct (m c) as [[] ]; [|done|by apply HP']. destruct Hm. by auto. Qed.

Lemma settles_ok {A B} (a : A) (f : A -> M void Ch B) R P c : settles (f a) R P c -> settles (sbind (slift (Ok a)) f) R P c.
Proof using. done. Qed.

Definition prior_gas (l : BlockReceipts) : Z :=
  match last (filter is_Some l) with Some (Some r) => rc_gas_used r | _ => 0 end.

Definition localized (id : H256) (a : TransactionAddress) (n : Z) (s : SignedTx) (before : BlockReceipts) (rc : Receipt)
    : LocalizedReceipt :=
  {| lr_transaction_hash := id; lr_transaction_index := ta_index a; lr_block_hash := ta_block_hash a; lr_block_number := n;
     lr_cumulative_gas_used := rc_gas_used rc; lr_gas_used := rc_gas_used rc - prior_gas before;
     lr_contract_address :=
       match t_action (u_unsigned (s_transaction s)) with
       | ActCreate => Some (contract_address encode_address_nonce (s_sender s) (rc_account_nonce rc))
       | _ => None
       end;
     lr_logs := localized_logs id (ta_index a) (ta_block_hash a) n (count_logs before) (rc_logs rc);
     lr_log_bloom := rc_log_bloom rc; lr_state_root := rc_state_root rc; lr_error := rc_error rc |}.

Lemma count_logs_filter l : count_logs (filter is_Some l) = count_logs l.
Proof using.
  unfold count_logs. generalize 0 at 2 4. induction l as [|[r|] l IH]; intros z; [done| |].
  - rw filter_cons_True; [done|]. cbn [fold_left]. apply IH.
  - rw filter_cons_False; [by intros []|]. cbn [fold_left from_option]. rw Z.add_0_r. apply IH.
Qed.

Lemma prior_gas_last l : prior_gas l = default 0 (last (omap (fmap rc_gas_used) l)).
Proof using.
  unfold prior_gas. induction l as [|o l IH] using rev_ind; [done|]. rw filter_app omap_app. destruct o as [r|].
  - rw filter_cons_True; [done|]. cbn. by rw !last_snoc.
  - rw filter_cons_False; [by intros []|]. cbn. by rw !app_nil_r.
Qed.

Lemma similar_prior l l' : similar l l' -> prior_gas l = prior_gas l'.
Proof using.
  intros H. rw !prior_gas_last. do 2 f_equal. induction H as [|o o' l l' Ho Hl IH]; [done|]. cbn.
  destruct Ho as [r r' [Hr _]|]; cbn; [|done]. rw IH. f_equal. exact (f_equal rc_gas_used Hr).
Qed.

Lemma similar_take l l' i : similar l l' -> similar (take i l) (take i l').
Proof using. apply Forall2_take. Qed.

(** An indexed transaction has its block and its receipts. *)
Lemma address_found top (c : Ch) id a : index_ok (db c) top -> fits 256 id -> address_of c id = Some a ->
  exists n s l i, plain (ta_block_hash a) /\ ta_index a = Z.of_nat i /\ number_of c (ta_block_hash a) = Some n /\
    transaction_of pubkey_to_address c id = Some s /\ receipts_of c (ta_block_hash a) = Some l /\ (i < length l)%nat /\
    exists b, body_at c n = Some b /\ b !! i = Some s.
Proof using.
  intros Hix Hid Ha. destruct (ix_address _ _ _ Hix id a Hid Ha) as (Hp & n & b & i & Hn0 & Hn & Hb & Hi & Hx).
  apply list_lookup_fmap_Some_1 in Hx as (s & _ & Hs).
  destruct (ix_number _ _ _ Hix _ _ Hp Hn) as (Htop & hdr & Hh & _ & Hhash).
  destruct (ix_block _ _ _ Hix n ltac:(lia)) as (hdr' & b' & Hbs).
  assert (hdr' = hdr) as -> by (pose proof (bs_header _ _ _ _ _ Hbs); congruence).
  assert (b' = b) as -> by (pose proof (bs_body _ _ _ _ _ Hbs); congruence).
  destruct (bs_receipts _ _ _ _ _ Hbs) as [l Hl]; [by intros ->|]. rw Hhash in Hl.
  destruct (ix_receipts _ _ _ Hix _ l (proj1 Hp) Hl) as (_ & n' & b' & _ & Hn' & Hb' & Hlen).
  assert (n' = n) as -> by congruence. assert (b' = b) as -> by congruence.
  exists n, s, l, i. unfold transaction_of, number_of, ChainReads.body_at, receipts_of in *. rw Ha /= Hn /= Hb /= Hi Nat2Z.id Hs.
  split_and!; try done; [rw Hlen; by eapply lookup_lt_Some|by exists b].
Qed.

Lemma take_split {A} (l : list A) i x : l !! i = Some x ->
  last (take (Z.to_nat (Z.of_nat i + 1)) l) = Some x /\ removelast (take (Z.to_nat (Z.of_nat i + 1)) l) = take i l.
Proof using.
  intros Hx. replace (Z.to_nat (Z.of_nat i + 1)) with (S i) by lia. rw (take_S_r _ _ x Hx). rw last_snoc. split; [done|].
  apply removelast_last.
Qed.

(** The cumulative gas of the receipt is below that of the receipt before it. *)
Definition gas_falls (c : Ch) (id : H256) : Prop :=
  exists a l rc, address_of c id = Some a /\ receipts_of c (ta_block_hash a) = Some l /\
    l !! Z.to_nat (ta_index a) = Some (Some rc) /\ rc_gas_used rc < prior_gas (take (Z.to_nat (ta_index a)) l).

Lemma localized_receipt_settles id top c : good (db c) (caches c) -> index_ok (db c) top -> fits 256 id ->
  settles (localized_receipt pubkey_to_address encode_address_nonce id)
    (fun o => ~ gas_falls c id /\
       match address_of c id with
       | None => o = None
       | Some a =>
           exists n s l r l', number_of c (ta_block_hash a) = Some n /\ transaction_of pubkey_to_address c id = Some s /\
             receipts_of c (ta_block_hash a) = Some l' /\ similar l l' /\ l !! Z.to_nat (ta_index a) = Some r /\
             o = localized id a n s (take (Z.to_nat (ta_index a)) l) <$> r
       end)
    (gas_falls c id) c.
Proof using HRok.
  intros Hg Hix Hid. eapply settles_bind; [by apply transaction_address_answers|]. intros o k Hk ->.
  destruct (address_of c id) as [a|] eqn:Ha;
    [|apply answers_settles, answers_ret; [done|]; split; [intros (a & l & rc & Ha' & _); by rw Ha in Ha'|done]].
  destruct (address_found top c id a Hix Hid Ha) as (n & s & l' & i & Hp & Hi & Hn & Hs & Hl & Hlt & b & Hb & Hbi).
  cbn [and_then]. rw Hi. eapply settles_bind; [apply block_receipts_answers; [done|apply Hp]|]. intros o k' Hk' Ho.
  unfold receipts_of in Ho, Hl. cbn [db with_db] in Ho. rw Hl in Ho. destruct o as [l|]; [|by inversion Ho].
  assert (Hsim : similar l l') by by inversion Ho. rw Nat2Z.id. cbn [and_then].
  destruct (lookup_lt_is_Some_2 l i) as [r Hr]; [by rw (Forall2_length _ _ _ Hsim)|].
  destruct (take_split l i r Hr) as [-> ->].
  destruct (Forall2_lookup_l _ _ _ _ _ Hsim Hr) as (r' & Hr' & Hrr).
  assert (Hfalls : gas_falls c id <-> exists rc, r' = Some rc /\ rc_gas_used rc < prior_gas (take i l)).
  { rw (similar_prior _ _ (similar_take _ _ i Hsim)). unfold gas_falls, receipts_of. split.
    - intros (a' & l2 & rc & Ha' & Hl2 & Hrc & Hlt'). rw Ha in Ha'. injection Ha' as <-. rw Hl in Hl2. injection Hl2 as <-.
      rw Hi Nat2Z.id in Hrc Hlt'. rw Hr' in Hrc. injection Hrc as ->. by exists rc.
    - intros (rc & -> & Hlt'). exists a, l', rc. by rw Hi Nat2Z.id. }
  destruct r as [rc|]; [|apply answers_settles, answers_ret; [done|]; split;
    [rw Hfalls; intros (rc & -> & _); by inversion Hrr|by exists n, s, l, None, l']].
  assert (exists rc', r' = Some rc' /\ same_but_error rc rc')
    as (rc' & -> & Hrc) by (inversion Hrr; eauto).
  cbn [expect and_then]. apply settles_ok. cbn [and_then].
  eapply settles_bind; [by eapply (transaction_by_address_answers pubkey_to_address _ n b i s)|]. intros o k2 Hk2 ->.
  apply settles_ok. eapply settles_bind; [by apply (block_height_by_hash_answers pubkey_to_address)|]. intros o k3 Hk3 ->.
  unfold number_of in *. cbn [db with_db] in *. rw Hn count_logs_filter. cbn [default from_option].
  pose proof (f_equal rc_gas_used (proj1 Hrc)) as Hgas. cbn in Hgas.
  rw -/(prior_gas (take i l)). unfold sub_. case_match.
  - apply answers_settles, answers_ret; [done|]. split; [rw Hfalls; intros (rc2 & [= <-] & Hlt'); lia|].
    exists n, s, l, (Some rc), l'. split_and!; try done. unfold localized. by rw Hi.
  - apply Hfalls. exists rc'. split; [done|]. lia.
Qed.
End logs.
