(* ===== verification/ChainFilter.v ===== *)
(** * Log filters

    A search for logs looks only at the blocks whose bloom has one of the
    blooms of the filter; nothing that matches the filter is missed. *)

From S2P Require Import Prelude Evm Account Executive Block Codec CodecSpec ChainDb Chain ChainSpec ChainInv ChainReads ChainLogs.
From stdpp Require Import base gmap list sorting.
Local Open Scope Z_scope.
Local Open Scope cita_scope.

(** ** Blooms *)
Definition contains (b p : Z) : Prop := Z.land b p = p.

Lemma contains_refl b : contains b b.
Proof. apply Z.land_diag. Qed.
Lemma contains_0 b : contains b 0.
Proof. apply Z.land_0_r. Qed.
Lemma contains_trans a b c : contains a b -> contains b c -> contains a c.
Proof. unfold contains. intros H1 H2. by rw -H2 Z.land_assoc H1. Qed.
Lemma contains_lor a b c : contains a b -> contains a c -> contains a (Z.lor b c).
Proof. unfold contains. intros H1 H2. by rw Z.land_lor_distr_r H1 H2. Qed.
Lemma contains_l a b : contains (Z.lor a b) a.
Proof. unfold contains. apply Z.bits_inj'. intros n Hn. rw Z.land_spec Z.lor_spec. by destruct (Z.testbit a n), (Z.testbit b n). Qed.
Lemma contains_r a b : contains (Z.lor a b) b.
Proof. rw Z.lor_comm. apply contains_l. Qed.

Section filters.
  Context {HU : Util} (mask : H256 -> Z) (shift_bloomed : Z -> H256 -> Z) (from_bloomed : H256 -> Z) (with_bloomed : Z -> H256 -> Z).
  (** The bits of a hash are added to a bloom. *)
  Context (shift_ok : forall b h, shift_bloomed b h = Z.lor b (mask h)) (with_ok : forall b h, with_bloomed b h = Z.lor b (mask h)).
  Context (from_ok : forall h, from_bloomed h = mask h).
Abbreviation bloom := (log_entry_bloom from_bloomed with_bloomed).

Definition topic_mask (t : H256) : Z := mask (crypt_hash (to_be 32 t)).

Lemma bloom_contains e : contains (bloom e) (mask (crypt_hash (to_be 20 (log_address e)))) /\
  forall i t, log_topics e !! i = Some t -> contains (bloom e) (topic_mask t).
Proof using with_ok from_ok.
  unfold log_entry_bloom. rw from_ok. generalize (mask (crypt_hash (to_be 20 (log_address e)))). intros m.
  assert (G : forall l b, contains (fold_left (fun b t => with_bloomed b (crypt_hash (to_be 32 t))) l b) b /\
    forall i t, l !! i = Some t -> contains (fold_left (fun b t => with_bloomed b (crypt_hash (to_be 32 t))) l b) (topic_mask t)).
  { induction l as [|x l IH]; intros b; [by split; [apply contains_refl|]|]. cbn [fold_left]. rw with_ok. destruct (IH (Z.lor b (topic_mask x))) as [H1 H2].
    split; [by eapply contains_trans, contains_l|]. intros [|i] t Ht; [|by eapply H2]. injection Ht as ->.
    eapply contains_trans; [exact H1|apply contains_r]. }
  apply G.
Qed.

Lemma bloom_nonzero b m : contains b m -> m <> 0 -> b <> 0.
Proof using. unfold contains. intros H Hm ->. apply Hm. by rw -H Z.land_0_l. Qed.

(** No list of topics is empty: an empty one matches every log but has no
    bloom. *)
Definition topics_given (f : Chain.Filter) : Prop := Forall (fun t => t <> Some []) (f_topics f).

Definition add_topic (bs : list Z) (topic : option (list H256)) : list Z :=
  match topic with
  | None => bs
  | Some topics => bs ≫= (fun bloom => (fun t => shift_bloomed bloom (crypt_hash (to_be 32 t))) <$> topics)
  end.

Lemma possibilities_topics b topics bs : (exists p, p ∈ bs /\ contains b p) ->
  Forall (fun o => forall ts, o = Some ts -> exists t, t ∈ ts /\ contains b (topic_mask t)) topics ->
  exists p, p ∈ fold_left add_topic topics bs /\ contains b p.
Proof using shift_ok.
  intros Hp Ht. revert bs Hp. induction Ht as [|o topics Ho Ht IH]; intros bs Hp; [done|]. cbn [fold_left]. apply IH.
  destruct o as [ts|]; [|done]. destruct Hp as (p & Hp & Hc). destruct (Ho ts eq_refl) as (t & Hts & Htc).
  exists (Z.lor p (topic_mask t)). split; [|by apply contains_lor]. apply list_elem_of_bind. exists p. split; [|done].
  apply list_elem_of_fmap. exists t. by rw shift_ok.
Qed.

Lemma matches_possible f e : filter_matches f e = true -> topics_given f ->
  exists p, p ∈ bloom_possibilities shift_bloomed f /\ contains (bloom e) p.
Proof using shift_ok with_ok from_ok.
  unfold filter_matches. intros [Ha Ht]%andb_true_iff Hg. destruct (bloom_contains e) as [Hba Hbt].
  apply possibilities_topics.
  - destruct (f_address f) as [[|a l]|]; [by exists 0; split; [left|apply contains_0]| |by exists 0; split; [left|apply contains_0]].
    apply existsb_exists in Ha as (a' & Hin & Heq). apply Z.eqb_eq in Heq. exists (shift_bloomed 0 (crypt_hash (to_be 20 (log_address e)))).
    split; [|by rw shift_ok Z.lor_0_l]. apply list_elem_of_fmap. exists a'. rw Heq. split; [done|]. by apply list_elem_of_In.
  - apply Forall_lookup. intros i o Hi ts ->. pose proof (Forall_lookup_1 _ _ _ _ Hg Hi) as Hne.
    rw forallb_forall in Ht. specialize (Ht (i, Some ts)). destruct ts as [|t0 ts]; [done|]. 
    assert (Hx : existsb (fun t => bool_decide (log_topics e !! i = Some t)) (t0 :: ts) = true).
    { apply Ht, list_elem_of_In, elem_of_lookup_imap. by exists i, (Some (t0 :: ts)). }
    apply existsb_exists in Hx as (t & Hin & Heq). apply bool_decide_eq_true in Heq. exists t. split; [by apply list_elem_of_In|by eapply Hbt].
Qed.
End filters.

(** ** Lists of blocks *)
Lemma filter_concat {A} (P : A -> Prop) `{forall x, Decision (P x)} (ls : list (list A)) :
  filter P (concat ls) = concat (filter P <$> ls).
Proof. induction ls as [|l ls IH]; [done|]. cbn [concat fmap list_fmap]. by rw filter_app IH. Qed.

Lemma filter_none {A} (P : A -> Prop) `{forall x, Decision (P x)} l : (forall x, x ∈ l -> ~ P x) -> filter P l = [].
Proof.
  induction l as [|x l IH]; intros Hl; [done|]. rw filter_cons_False; [apply Hl; by left|].
  apply IH. intros y Hy. apply Hl. by right.
Qed.

Lemma concat_skip {A B} (P : A -> Prop) `{forall x, Decision (P x)} (f : A -> list B) l :
  (forall x, x ∈ l -> ~ P x -> f x = []) -> concat (f <$> filter P l) = concat (f <$> l).
Proof.
  induction l as [|x l IH]; intros Hf; [done|]. cbn [fmap list_fmap concat]. destruct (decide (P x)) as [Hx|Hx].
  - rw filter_cons_True; [done|]. cbn [fmap list_fmap concat]. rw IH; [|done]. intros y Hy. apply Hf. by right.
  - rw filter_cons_False; [done|]. rw Hf; [by left|done|]. apply IH. intros y Hy. apply Hf. by right.
Qed.

Lemma seqZ_sorted a n : StronglySorted Z.le (seqZ a n).
Proof.
  destruct (decide (0 <= n)) as [Hn|Hn]; [|rw seqZ_nil; [lia|constructor]].
  revert a. pattern n. apply natlike_ind; [|clear n Hn; intros n Hn IH a|done].
  - intros a. rw seqZ_nil; [lia|constructor].
  - rw seqZ_cons; [lia|]. replace (Z.pred (Z.succ n)) with n by lia. apply StronglySorted_cons. split; [|apply IH].
    apply Forall_forall. intros x Hx. apply elem_of_seqZ in Hx. lia.
Qed.

(** Different numbers of a range in order. *)
Lemma merge_sort_range l a n : NoDup l -> Forall (fun x => a <= x < a + n) l ->
  merge_sort Z.le l = filter (fun x => x ∈ l) (seqZ a n).
Proof.
  intros Hnd Hr. apply (StronglySorted_unique Z.le).
  - apply StronglySorted_merge_sort; apply _.
  - pose proof (seqZ_sorted a n) as Hs. revert Hs. generalize (seqZ a n). intros k. induction 1 as [|x k Hk IH Hx]; [constructor|].
    destruct (decide (x ∈ l)); [rw filter_cons_True; [done|]|rw filter_cons_False; done].
    apply StronglySorted_cons. split; [|done].
    apply Forall_forall. intros y [_ Hy]%list_elem_of_filter. by rw Forall_forall in Hx; apply Hx.
  - rw merge_sort_Permutation. apply NoDup_Permutation; [done|by apply NoDup_filter, NoDup_seqZ|].
    intros x. rw list_elem_of_filter elem_of_seqZ. rw Forall_forall in Hr. naive_solver.
Qed.

(** ** The search *)
Section search.
  Context {HR : RlpLib} {HRok : RlpLibOk} {HU : Util} {HB : RlpBytes} (pubkey_to_address : Z -> Address).
  Context (hash_fits : forall b, fits 256 (crypt_hash b)).
  Context {Proof_ : Type} {Proof_eq : EqDecision Proof_} {HP : Rlp Proof_}.
  Context {D : Type} {HD : KvDb D} {AccountGasLimit : Type} {BloomGroup : Type} {HG : Rlp BloomGroup}.
Abbreviation Lookup := (Z * Z -> outcome void (option BloomGroup)).
  Context (with_bloom : Lookup -> Z -> Z -> Z -> outcome void (list Z)).
  Context (mask : H256 -> Z) (shift_bloomed : Z -> H256 -> Z) (from_bloomed : H256 -> Z) (with_bloomed : Z -> H256 -> Z).
  Context (shift_ok : forall b h, shift_bloomed b h = Z.lor b (mask h)) (with_ok : forall b h, with_bloomed b h = Z.lor b (mask h)).
  Context (from_ok : forall h, from_bloomed h = mask h) (mask_nonzero : forall h, mask h <> 0).
Abbreviation Ch := (Chain (Proof_ := Proof_) (D := D) (AccountGasLimit := AccountGasLimit) (BloomGroup := BloomGroup)).
Abbreviation good := (good pubkey_to_address (Proof_ := Proof_) (D := D) (BloomGroup := BloomGroup)).
Abbreviation index_ok := (index_ok pubkey_to_address (Proof_ := Proof_) (D := D)).
Abbreviation answers := (answers pubkey_to_address (Proof_ := Proof_) (D := D) (AccountGasLimit := AccountGasLimit)
  (BloomGroup := BloomGroup)).
Abbreviation logs_at := (logs_at pubkey_to_address).
Abbreviation bloom := (log_entry_bloom from_bloomed with_bloomed).

(** What the bloom library finds in the groups that are stored: all blocks of
    the range whose bloom is as wanted, and maybe others of the range. *)
Definition blooms_found (c : Ch) : Prop :=
  forall (lookup : Lookup) p from to,
    (forall q, position_ok q -> lookup q = Ok (view (blooms_t (BloomGroup := BloomGroup)) (db c) q)) ->
    fits 64 from -> fits 64 to ->
    exists l, with_bloom lookup from to p = Ok l /\ Forall (fun n => from <= n <= to) l /\
      forall n hdr, from <= n <= to -> header_at c n = Some hdr -> log_bloom hdr <> 0 -> contains (log_bloom hdr) p -> n ∈ l.

(** The bloom of a block has the blooms of its logs. *)
Definition blooms_cover (c : Ch) (n : Z) : Prop :=
  forall hdr e, header_at c n = Some hdr -> e ∈ logs_at c n -> contains (log_bloom hdr) (bloom (ll_entry e)).

Lemma candidate_blocks_answers f blooms F T c : good (db c) (caches c) -> blooms_found c ->
  id_ok (f_from_block f) -> id_ok (f_to_block f) -> id_number c (f_from_block f) = Some F -> id_number c (f_to_block f) = Some T ->
  fits 64 F -> fits 64 T ->
  answers (candidate_blocks with_bloom f blooms)
    (fun l => Forall (fun n => F <= n <= T) l /\
       forall n hdr p, p ∈ blooms -> F <= n <= T -> header_at c n = Some hdr -> log_bloom hdr <> 0 -> contains (log_bloom hdr) p ->
       n ∈ l) c.
Proof using.
  intros Hg Hbf Hf Ht HF HT HfF HfT. revert c Hg Hbf HF HT.
  induction blooms as [|p blooms IH]; intros c Hg Hbf HF HT; [apply answers_ret; [done|]; split; [constructor|by inversion 1]|].
  eapply answers_bind; [eapply answers_bind; [by apply block_number_answers|]|].
  { intros o k Hk ->. eapply answers_bind; [by apply block_number_answers|]. intros o k' Hk' ->. apply answers_get.
    change (id_number (with_db (db c) k c)) with (id_number c). rw HF HT.
    destruct (Hbf (blooms_at (with_db (db c) k' c)) p F T) as (l & Hl & Hr & Hm); [|done|done|].
    { intros q Hq. by apply (blooms_at_view pubkey_to_address q (with_db (db c) k' c)). }
    eapply answers_lift; [exact Hl|]. apply (answers_ret _ _ (fun o => exists l, o = Some l /\ Forall (fun n => F <= n <= T) l /\
      forall n hdr, F <= n <= T -> header_at c n = Some hdr -> log_bloom hdr <> 0 -> contains (log_bloom hdr) p -> n ∈ l)); [done|eauto]. }
  intros o k Hk (l & -> & Hr & Hm). eapply answers_bind; [by apply (IH (with_db (db c) k c))|]. intros rest k' Hk' [Hr' Hm'].
  apply answers_ret; [done|]. cbn [default from_option id]. split; [by apply Forall_app|]. intros n hdr q Hq Hn Hh H0 Hc.
  apply elem_of_app. apply elem_of_cons in Hq as [->|Hq]; [left; by eapply Hm|right; by eapply (Hm' n hdr q)].
Qed.

Lemma logs_header (c : Ch) n e : e ∈ logs_at c n -> is_Some (header_at c n).
Proof using. unfold ChainLogs.logs_at, receipts_at. destruct (header_at c n); [done|by inversion 1]. Qed.

(** A block with a log that matches has a bloom of the filter. *)
Lemma found_block f (c : Ch) n hdr e : blooms_cover c n -> header_at c n = Some hdr -> e ∈ logs_at c n ->
  filter_matches f (ll_entry e) = true -> topics_given f ->
  exists p, p ∈ bloom_possibilities shift_bloomed f /\ log_bloom hdr <> 0 /\ contains (log_bloom hdr) p.
Proof using shift_ok with_ok from_ok mask_nonzero.
  intros Hcov Hh He Hm Htg. pose proof (Hcov hdr e Hh He) as Hc.
  destruct (matches_possible mask shift_bloomed from_bloomed with_bloomed shift_ok with_ok from_ok f (ll_entry e) Hm Htg) as (p & Hp & Hcp).
  exists p. split_and!; [done| |by eapply contains_trans].
  destruct (bloom_contains mask from_bloomed with_bloomed with_ok from_ok (ll_entry e)) as [Ha _].
  eapply bloom_nonzero; [eapply contains_trans; [exact Hc|exact Ha]|apply mask_nonzero].
Qed.

(** The search gives the logs of the range that match, the newest ones when
    there is a limit. *)
Lemma get_logs_answers f F T top c : good (db c) (caches c) -> index_ok (db c) top -> blooms_found c -> topics_given f ->
  id_ok (f_from_block f) -> id_ok (f_to_block f) -> id_number c (f_from_block f) = Some F -> id_number c (f_to_block f) = Some T ->
  fits 64 F -> fits 64 T ->
  (forall n, F <= n <= T -> complete pubkey_to_address c n /\ blooms_cover c n) ->
  answers (get_logs pubkey_to_address with_bloom shift_bloomed f)
    (fun l => l = newest (f_limit f) (filter (fun e => filter_matches f (ll_entry e) = true)
                                        (concat (logs_at c <$> seqZ F (T - F + 1))))) c.
Proof using HRok hash_fits shift_ok with_ok from_ok mask_nonzero.
  intros Hg Hix Hbf Htg Hf Ht HF HT HfF HfT Hn. eapply answers_bind; [by apply (candidate_blocks_answers f _ F T)|].
  intros l k Hk [Hr Hm]. eapply answers_impl.
  { apply (logs_answers pubkey_to_address hash_fits (remove_dups l) (filter_matches f) (f_limit f) top (with_db (db c) k c)); [done|done|].
    apply Forall_forall. intros n Hin. rw elem_of_remove_dups in Hin. rw Forall_forall in Hr. specialize (Hr n Hin).
    unfold fits in *; lia. }
  intros r Hl. rw Hl.
  { apply Forall_forall. intros n Hin. rw elem_of_remove_dups in Hin. rw Forall_forall in Hr. apply (Hn n (Hr n Hin)). }
  f_equal. rw filter_concat -list_fmap_compose. rw (merge_sort_range _ F (T - F + 1)).
  - apply NoDup_remove_dups.
  - apply Forall_forall. intros n Hin. rw elem_of_remove_dups in Hin. rw Forall_forall in Hr. specialize (Hr n Hin). lia.
  - apply concat_skip. intros n Hin Hnot. apply elem_of_seqZ in Hin. rw elem_of_remove_dups in Hnot.
    apply filter_none. intros e He Hme. apply Hnot. change (logs_at (with_db (db c) k c) n) with (logs_at c n) in He.
    destruct (logs_header c n e He) as [hdr Hh]. destruct (Hn n ltac:(lia)) as [_ Hcov].
    destruct (found_block f c n hdr e Hcov Hh He Hme Htg) as (p & Hp & H0 & Hcp). by apply (Hm n hdr p); [|lia|..].
Qed.
End search.
