(* ===== verification/ChainIndex.v ===== *)
(** * The index of the chain under writes

    Blocks that were executed keep what is stored of them, and the result of
    the next block extends the index by this block. *)

From S2P Require Import Prelude Evm Account Executive Block Codec CodecSpec ChainDb Chain ChainSpec ChainInv ChainReads.
From stdpp Require Import base gmap list.
Local Open Scope Z_scope.
Local Open Scope cita_scope.

Section index.
  Context {HR : RlpLib} {HRok : RlpLibOk} {HU : Util} {HB : RlpBytes} {HBok : RlpBytesOk}.
  Context (hash_fits : forall b, fits 256 (crypt_hash b)) (pubkey_to_address : Z -> Address).
  Context {Proof_ : Type} {Proof_eq : EqDecision Proof_} {HP : Rlp Proof_} (proof_ok : Proof_ -> Prop).
  Context {HPok : RlpOk Proof_ proof_ok} (Proof_new : Proof_) (Proof_new_ok : proof_ok Proof_new).
  Context (get_field_type : Proof_ -> ProofType) (tendermint_height : Proof_ -> Z).
  Context {D : Type} {HD : KvDb D} {HDok : KvDbOk D} {AccountGasLimit : Type}.
  Context {BloomGroup : Type} {HG : Rlp BloomGroup} (group_ok : BloomGroup -> Prop) {HGok : RlpOk BloomGroup group_ok}.
Abbreviation Ch := (Chain (Proof_ := Proof_) (D := D) (AccountGasLimit := AccountGasLimit) (BloomGroup := BloomGroup)).
Abbreviation Blk := (Block (Proof_ := Proof_)).
Abbreviation Hdr := (Header (Proof_ := Proof_)).
Abbreviation Res := (ExecutedResult (AccountGasLimit := AccountGasLimit)).
Abbreviation Headers := (headers_t (Proof_ := Proof_)).
Abbreviation Bodies := (bodies_t pubkey_to_address).
Abbreviation Proofs := (proof_t (Proof_ := Proof_)).
Abbreviation good := (good pubkey_to_address (Proof_ := Proof_) (D := D) (BloomGroup := BloomGroup)).
Abbreviation index_ok := (index_ok pubkey_to_address (Proof_ := Proof_) (D := D)).
Abbreviation block_stored := (block_stored pubkey_to_address (Proof_ := Proof_) (D := D)).
Abbreviation block_ok := (block_ok pubkey_to_address proof_ok).
Abbreviation stored := (stored pubkey_to_address (AccountGasLimit := AccountGasLimit) (BloomGroup := BloomGroup)).
Abbreviation hash_of ret b := (header_hash rlp_out (result_header (er_header ret) b)).

(** ** The index under writes *)

(** The parts of the database the index up to [top] depends on. *)
Record same_index (d d' : D) (top : Z) : Prop := {
  si_headers n : fits 64 n -> n <= top -> view Headers d' n = view Headers d n;
  si_bodies n : fits 64 n -> n <= top -> view Bodies d' n = view Bodies d n;
  si_numbers h : plain h -> view numbers_t d' h = view numbers_t d h;
  si_addresses h : fits 256 h -> view addresses_t d' h = view addresses_t d h;
  si_receipts h : fits 256 h -> view receipts_t d' h = view receipts_t d h;
}.

Lemma number_fits (d : D) h n : view numbers_t d h = Some n -> fits 64 n.
Proof using HRok.
  unfold view. intros H. repeat (apply bind_Some in H as (? & _ & H)). by apply (uint_range 64) in H.
Qed.

Lemma block_stored_same d d' top n hdr b : same_index d d' top -> fits 64 n -> n <= top -> block_stored d n hdr b -> block_stored d' n hdr b.
Proof using.
  intros [] Hn Ht []. split; [by rw si_headers0|done|done|by rw si_numbers0|by rw si_bodies0| |].
  - eapply Forall_impl; [done|]. intros h [Hh Ha]. by rw si_addresses0.
  - intros Hb. rw si_receipts0; [apply bs_plain|by auto].
Qed.

Lemma index_same d d' top : same_index d d' top -> fits 64 top -> index_ok d top -> index_ok d' top.
Proof using HRok.
  intros Hs Ht [Hb Hn Ha Hr]. pose proof Hs as [Sh Sb Sn Sa Sr].
  assert (Hle : forall h n, plain h -> view numbers_t d h = Some n -> fits 64 n /\ n <= top).
  { intros h n Hh Hv. split; [by eapply number_fits|by apply (Hn h)]. }
  split.
  - intros n Hlt. destruct (Hb n Hlt) as (hdr & b & H). exists hdr, b. eapply block_stored_same; [done| |lia|done].
    unfold fits in *. lia.
  - intros h n Hh. rw Sn; [done|]. intros Hv. destruct (Hle h n Hh Hv). rw Sh; [done|done|]. by apply Hn.
  - intros h a Hh. rw Sa; [done|]. intros Hv. destruct (Ha h a Hh Hv) as (Hp & n & b & i & H0 & Hv' & Hbo & H1 & H2).
    split; [done|]. destruct (Hle _ _ Hp Hv'). exists n, b, i. rw Sn; [done|]. by rw Sb.
  - intros h l Hh. rw Sr; [done|]. intros Hv. destruct (Hr h l Hh Hv) as (Hp & n & b & H0 & Hv' & Hbo & H1).
    split; [done|]. destruct (Hle _ _ Hp Hv'). exists n, b. rw Sn; [done|]. by rw Sb.
Qed.

Ltac same_tac := split; intros; view_tac; rw ?bool_decide_eq_false_2; try done; lia.

Lemma same_body d n b top : fits 64 n -> top < n -> same_index d (db_write (put Bodies n b) d) top.
Proof using HDok HBok. same_tac. Qed.
Lemma same_height d n top : same_index d (db_write (put height_t tt n) d) top.
Proof using HDok HBok. same_tac. Qed.
Lemma same_proof d p top : same_index d (db_write (put Proofs tt p) d) top.
Proof using HDok HBok. same_tac. Qed.

(** The result of a new block: its hash is new, its receipts are those of its
    transactions. *)
Record new_result (d : D) (ret : Res) (b : Blk) : Prop := {
  nr_ok : result_ok pubkey_to_address proof_ok ret b;
  nr_hash : view numbers_t d (hash_of ret b) = None \/ view numbers_t d (hash_of ret b) = Some (eh_height (er_header ret));
  nr_receipts : length (er_receipts ret) = length (body b);
}.

(** The result [ret] of [b] is stored over the index up to [top]. *)
Section extend.
  Context (ret : Res) (b : Blk) (blooms : list ((Z * Z) * BloomGroup)) (sb : bool) (d : D) (top : Z).
Abbreviation n := (eh_height (er_header ret)).
Abbreviation hash := (hash_of ret b).
Abbreviation hdr := (result_header (er_header ret) b).
Abbreviation d' := (stored ret b blooms sb d).
  Context (Hix : index_ok d top) (Hnew : new_result d ret b) (Hbl : blooms_ok group_ok blooms).
  Context (Hn : n = top + 1 \/ (n = 0 /\ top = 0 /\ body b = [] /\ sb = false /\
    forall h, plain h -> view numbers_t d h = Some 0 -> h = hash)).
  Context (Htop : 0 <= top).
  Context (Hbody : sb = true \/ view Bodies d n = Some (body b) \/ n = 0).

Lemma ext_n : fits 64 n.
Proof using Hnew. apply (ho_number _ _ (rk_header _ _ _ _ (nr_ok _ _ _ Hnew))). Qed.

Lemma ext_body k : fits 64 k -> 0 < k -> view Bodies d' k = if bool_decide (k = n) then Some (body b) else view Bodies d k.
Proof using HRok HDok HBok HPok HGok Hnew Hbl Hn Hbody.
  intros Hk H0. rw (stored_body _ proof_ok group_ok); [apply Hnew|done|done|].
  case_bool_decide as Heq; destruct sb; cbn; try done. destruct Hbody as [?|[?|?]]; [done|by subst|clear -H0 Heq H; lia].
Qed.

(** The new hash is not one of a block above the first. *)
Lemma ext_other h k : plain h -> view numbers_t d h = Some k -> 0 < k -> h <> hash.
Proof using Hix Hnew Hn.
  intros Hh Hv H0 ->. pose proof (proj1 (ix_number _ _ _ Hix _ _ Hh Hv)). destruct (nr_hash _ _ _ Hnew); [congruence|].
  assert (k = n) by congruence. lia.
Qed.

Lemma ext_number h : plain h -> view numbers_t d' h = if bool_decide (h = hash) then Some n else view numbers_t d h.
Proof using HRok HDok HBok HPok HGok Hnew Hbl. intros Hh. apply (stored_number _ proof_ok group_ok); [apply Hnew|done|done]. Qed.

Lemma ext_header k : fits 64 k -> view Headers d' k = if bool_decide (k = n) then Some hdr else view Headers d k.
Proof using HRok HDok HBok HPok HGok Hnew Hbl. intros Hh. apply (stored_header _ proof_ok group_ok); [apply Hnew|done|done]. Qed.

Lemma ext_hash : plain hash.
Proof using Hnew. apply Hnew. Qed.
Lemma ext_new_number : view numbers_t d' hash = Some n.
Proof using HRok HDok HBok HPok HGok Hnew Hbl. rw ext_number; [apply ext_hash|]. by rw bool_decide_eq_true_2. Qed.
Lemma ext_old_number h k : plain h -> view numbers_t d h = Some k -> 0 < k -> view numbers_t d' h = Some k.
Proof using HRok HDok HBok HPok HGok Hix Hnew Hbl Hn.
  intros Hh Hv H0. rw ext_number; [done|]. rw bool_decide_eq_false_2; [|done]. by eapply ext_other.
Qed.
Lemma ext_old_body k : fits 64 k -> 0 < k <= top -> view Bodies d' k = view Bodies d k.
Proof using HRok HDok HBok HPok HGok Hnew Hbl Hn Hbody.
  intros Hf Hk. rw ext_body; [done|lia|]. rw bool_decide_eq_false_2; [lia|done].
Qed.
Lemma ext_old_header k : fits 64 k -> 0 < k <= top -> view Headers d' k = view Headers d k.
Proof using HRok HDok HBok HPok HGok Hnew Hbl Hn.
  intros Hf Hk. rw ext_header; [done|]. rw bool_decide_eq_false_2; [lia|done].
Qed.
Lemma ext_address h : fits 256 h -> view addresses_t d' h =
  match transaction_addresses hash (body b) !! h with Some a => Some a | None => view addresses_t d h end.
Proof using HRok HDok HBok HPok HGok Hnew Hbl. intros Hh. apply (stored_address _ proof_ok group_ok); [apply Hnew|done|done]. Qed.
Lemma ext_receipts h : fits 256 h -> view receipts_t d' h =
  if negb (zlen (er_receipts ret) =? 0) && bool_decide (h = hash) then decoded receipts_t (er_receipts ret)
  else view receipts_t d h.
Proof using HRok HDok HBok HPok HGok Hnew Hbl. intros Hh. apply (stored_receipts _ proof_ok group_ok); [apply Hnew|done|done]. Qed.

(** The new block. *)
Lemma ext_block_new : 0 < n -> block_stored d' n hdr (body b).
Proof using HRok HDok HBok HPok HGok Hnew Hbl Hn Hbody.
  intros H0. pose proof ext_n as Hfn. destruct (nr_ok _ _ _ Hnew) as [Hh Hp Hb Hl Hr].
  split; [|done|done|apply ext_new_number| |apply Forall_forall; intros h Hin|].
  - rw ext_header; [done|]. by rw bool_decide_eq_true_2.
  - rw ext_body; [done|done|]. by rw bool_decide_eq_true_2.
  - assert (fits 256 h). { apply list_elem_of_fmap in Hin as (s & -> & Hs). apply (proj1 (Forall_forall _ _) Hb s Hs). }
    split; [done|]. rw ext_address; [done|]. by destruct (hash_has_address hash (body b) h Hin) as [a ->].
  - intros Hne. rw ext_receipts; [apply ext_hash|]. rw bool_decide_eq_true_2; [done|]. destruct (storable_survives _ Hr) as (l & -> & _).
    pose proof (nr_receipts _ _ _ Hnew) as Hlen. destruct (body b); [done|]. unfold zlen. by rw Hlen.
Qed.

(** The blocks before. *)
Lemma ext_block_old k h0 b0 : 0 < k <= top -> block_stored d k h0 b0 -> block_stored d' k h0 b0.
Proof using HRok HDok HBok HPok HGok Hix Hnew Hbl Hn Hbody.
  intros Hk []. pose proof (number_fits _ _ _ bs_hash) as Hf.
  split; [by rw ext_old_header|done|done|apply ext_old_number; [done|done|lia]|by rw ext_old_body| |].
  - eapply Forall_impl; [done|]. intros h [Hh Ha]. split; [done|]. rw ext_address; [done|]. by case_match.
  - intros Hb0. rw ext_receipts; [apply bs_plain|]. rw bool_decide_eq_false_2; [eapply ext_other; [done|done|lia]|].
    rw andb_false_r. by auto.
Qed.

Lemma ext_ix_number h k : plain h -> view numbers_t d' h = Some k ->
  k <= n /\ exists hdr, view Headers d' k = Some hdr /\ number hdr = k /\ header_hash rlp_out hdr = h.
Proof using HRok HDok HBok HPok HGok Hix Hnew Hbl Hn.
  intros Hh. pose proof ext_n as Hfn. rw ext_number; [done|]. case_bool_decide as Heq.
  - intros [= <-]. split; [done|]. exists hdr. rw ext_header; [done|]. rw bool_decide_eq_true_2; [done|]. by subst.
  - intros Hv. destruct (ix_number _ _ _ Hix h k Hh Hv) as (Hk & h0 & Hh0). pose proof (number_fits _ _ _ Hv) as Hfk.
    split; [lia|]. exists h0. rw ext_header; [done|]. rw bool_decide_eq_false_2; [|done]. intros ->.
    destruct Hn as [|(H0 & _ & _ & _ & Hu)]; [lia|]. apply Heq, Hu; [done|congruence].
Qed.

Lemma ext_ix_address h a : fits 256 h -> view addresses_t d' h = Some a ->
  plain (ta_block_hash a) /\ exists k b0 i, 0 < k /\ view numbers_t d' (ta_block_hash a) = Some k /\
    view Bodies d' k = Some b0 /\ ta_index a = Z.of_nat i /\ transaction_hashes b0 !! i = Some h.
Proof using HRok HDok HBok HPok HGok Hix Hnew Hbl Hn Htop Hbody.
  intros Hh. pose proof ext_n as Hfn. pose proof ext_hash as Hp. rw ext_address; [done|].
  destruct (transaction_addresses hash (body b) !! h) as [a0|] eqn:Ha.
  - intros [= <-]. apply address_of_transaction in Ha as (i & -> & Hi). split; [done|]. cbn [ta_block_hash ta_index].
    assert (0 < n) by (destruct Hn as [|(_ & _ & Hb0 & _)]; [lia|by rw Hb0 in Hi]).
    exists n, (body b), i. rw ext_new_number ext_body; [done|done|]. by rw bool_decide_eq_true_2.
  - intros Hv. destruct (ix_address _ _ _ Hix h a Hh Hv) as (Hpa & k & b0 & i & H0 & Hv' & Hb0 & Hi & Hx).
    pose proof (proj1 (ix_number _ _ _ Hix _ _ Hpa Hv')). pose proof (number_fits _ _ _ Hv'). split; [done|]. exists k, b0, i.
    rw ext_old_body; [done|lia|]. by rw (ext_old_number _ k).
Qed.

Lemma ext_ix_receipts h l : fits 256 h -> view receipts_t d' h = Some l ->
  plain h /\ exists k b0, 0 < k /\ view numbers_t d' h = Some k /\ view Bodies d' k = Some b0 /\ length l = length b0.
Proof using HRok HDok HBok HPok HGok Hix Hnew Hbl Hn Htop Hbody.
  intros Hh. pose proof ext_n as Hfn. rw ext_receipts; [done|]. destruct (negb _ && _) eqn:Hcase.
  - apply andb_true_iff in Hcase as [Hne Heq%bool_decide_eq_true]. subst h. intros Hd. split; [apply ext_hash|].
    pose proof (nr_receipts _ _ _ Hnew) as Hlen. destruct (storable_survives _ (rk_receipts _ _ _ _ (nr_ok _ _ _ Hnew))) as (l0 & Hl0 & Hs).
    assert (l0 = l) as -> by congruence.
    assert (0 < n). { destruct Hn as [|(_ & _ & Hb0 & _)]; [lia|]. rw Hb0 in Hlen. by destruct (er_receipts ret). }
    exists n, (body b). rw ext_new_number ext_body; [done|done|]. rw bool_decide_eq_true_2; [done|]. split_and!; try done.
    by rw -Hlen (Forall2_length _ _ _ Hs).
  - intros Hv. destruct (ix_receipts _ _ _ Hix h l Hh Hv) as (Hp & k & b0 & H0 & Hv' & Hb0 & Hlen). split; [done|].
    pose proof (proj1 (ix_number _ _ _ Hix _ _ Hp Hv')). pose proof (number_fits _ _ _ Hv'). exists k, b0.
    rw ext_old_body; [done|lia|]. by rw (ext_old_number _ k).
Qed.

(** The index with the new block. *)
Lemma ext_index : index_ok d' n.
Proof using HRok HDok HBok HPok HGok Hix Hnew Hbl Hn Htop Hbody.
  split; [|apply ext_ix_number|apply ext_ix_address|apply ext_ix_receipts].
  intros k Hk. destruct (decide (k = n)) as [->|Hne]; [exists hdr, (body b); apply ext_block_new; lia|].
  destruct (ix_block _ _ _ Hix k ltac:(lia)) as (h0 & b0 & Hb0). exists h0, b0. apply ext_block_old; [lia|done].
Qed.
End extend.
End index.
