(* ===== verification/ChainStep.v ===== *)
(** * The steps of the chain

    The invariant of the chain service, and that its messages keep it: results
    of execution extend the chain by one block, and blocks that were executed
    do not change. *)

From S2P Require Import Prelude Evm Account Executive Block Codec CodecSpec ChainDb Chain Forward ChainSpec ChainInv ChainReads ChainIndex.
From stdpp Require Import base gmap list.
Local Open Scope Z_scope.
Local Open Scope cita_scope.

Section steps.
  Context {HR : RlpLib} {HRok : RlpLibOk} {HU : Util} {HB : RlpBytes} {HBok : RlpBytesOk}.
  Context (hash_fits : forall b, fits 256 (crypt_hash b)) (pubkey_to_address : Z -> Address).
  Context {Proof_ : Type} {Proof_eq : EqDecision Proof_} {HP : Rlp Proof_} (proof_ok : Proof_ -> Prop).
  Context {HPok : RlpOk Proof_ proof_ok} (Proof_new : Proof_) (Proof_new_ok : proof_ok Proof_new).
  Context (get_field_type : Proof_ -> ProofType) (tendermint_height : Proof_ -> Z).
  Context {D : Type} {HD : KvDb D} {HDok : KvDbOk D} {AccountGasLimit : Type}.
  Context {BloomGroup : Type} {HG : Rlp BloomGroup} (group_ok : BloomGroup -> Prop) {HGok : RlpOk BloomGroup group_ok}.
Abbreviation Ch := (Chain (Proof_ := Proof_) (D := D) (AccountGasLimit := AccountGasLimit) (BloomGroup := BloomGroup)).
Abbreviation Blk := (Block (Proof_ := Proof_)).
Abbreviation Hdr := (Header (Proof_ := Proof_)).
Abbreviation Res := (ExecutedResult (AccountGasLimit := AccountGasLimit)).
Abbreviation Headers := (headers_t (Proof_ := Proof_)).
Abbreviation Bodies := (bodies_t pubkey_to_address).
Abbreviation Proofs := (proof_t (Proof_ := Proof_)).
Abbreviation good := (good pubkey_to_address (Proof_ := Proof_) (D := D) (BloomGroup := BloomGroup)).
Abbreviation index_ok := (index_ok pubkey_to_address (Proof_ := Proof_) (D := D)).
Abbreviation block_stored := (block_stored pubkey_to_address (Proof_ := Proof_) (D := D)).
Abbreviation same_index := (same_index pubkey_to_address (Proof_ := Proof_) (D := D)).
Abbreviation block_ok := (block_ok pubkey_to_address proof_ok).
Abbreviation stored := (stored pubkey_to_address (AccountGasLimit := AccountGasLimit) (BloomGroup := BloomGroup)).
Abbreviation hash_of ret b := (header_hash rlp_out (result_header (er_header ret) b)).

Definition queued (q : BlockInQueue (Proof_ := Proof_)) : Blk :=
  match q with Proposal b | ConsensusBlock b _ | SyncBlock b _ => b end.

(** A block that can be stored. *)
Definition storable_block (b : Blk) : Prop := block_ok b /\ fits 64 (zlen (body b)).

(** The current header is the stored one, or nothing was executed. *)
Definition current_stored (c : Ch) : Prop :=
  let h := header_hash rlp_out (current_header c) in
  (plain h /\ view current_t (db c) tt = Some h /\ view numbers_t (db c) h = Some (number (current_header c)) /\
     view Headers (db c) (number (current_header c)) = Some (current_header c)) \/
  (view current_t (db c) tt = None /\ current_header c = Header_default Proof_new /\
     forall h, plain h -> view numbers_t (db c) h = None).

(** Queued blocks are stored under their numbers. *)
Definition queue_ok (d : D) (q : gmap Z (BlockInQueue (Proof_ := Proof_))) : Prop :=
  forall h e, q !! h = Some e -> fits 64 h /\ number (header (queued e)) = h /\ storable_block (queued e) /\
    view Bodies d h = Some (body (queued e)).

Record chain_inv (c : Ch) : Prop := {
  ci_good : good (db c) (caches c);
  ci_header : fits 64 (get_current_height c + 1);
  ci_nonneg : 0 <= get_current_height c;
  ci_max : max_height c = get_current_height c;
  ci_store : 0 <= max_store_height c < 2 ^ 64 - 1;
  ci_height : default 0 (view height_t (db c) tt) = max_store_height c;
  ci_queue : queue_ok (db c) (block_map c);
  ci_index : index_ok (db c) (get_current_height c);
  ci_current : current_stored c;
  ci_prooftype : get_chain_prooftype c = Some Tendermint;
}.

(** Executed blocks keep everything that belongs to them. *)
Definition history_kept (d d' : D) (top : Z) : Prop :=
  forall n hdr b, 0 < n <= top -> block_stored d n hdr b -> block_stored d' n hdr b.

Lemma history_same d d' top : fits 64 top -> same_index d d' top -> history_kept d d' top.
Proof using. intros Ht Hs n hdr b Hn. apply (block_stored_same _ d d' top); [done| |lia]. unfold fits in *. lia. Qed.

Lemma inv_top c : chain_inv c -> fits 64 (get_current_height c).
Proof using. intros []. unfold fits in *. lia. Qed.

Lemma inv_caches c k : chain_inv c -> good (db c) k -> chain_inv (with_db (db c) k c).
Proof using. intros [] Hk. by split. Qed.

Lemma inv_send c m : chain_inv c -> chain_inv (send m c).
Proof using. intros []. by split. Qed.

Lemma inv_sync c x : chain_inv c -> chain_inv (with_sync x c).
Proof using. intros []. by split. Qed.

Lemma inv_config c ret : chain_inv c -> chain_inv (set_db_config ret c).
Proof using. intros []. by split. Qed.

Lemma inv_queue c q : chain_inv c -> (forall h e, q !! h = Some e -> exists e', block_map c !! h = Some e' /\ queued e = queued e') ->
  chain_inv (with_queue q c).
Proof using.
  intros [] Hq. split; try done. intros h e He. destruct (Hq h e He) as (e' & He' & ->). by apply ci_queue0.
Qed.

Lemma inv_status c : chain_inv c -> chain_inv (broadcast_current_status c).
Proof using.
  intros Hc. unfold broadcast_current_status. assert (H1 : chain_inv (delivery_current_rich_status c)).
  { unfold delivery_current_rich_status. case_match; [done|by apply inv_send]. }
  case_match; [done|]. unfold broadcast_status. case_match; [done|by apply inv_send].
Qed.

(** Writes that are not part of the chain so far. *)
Lemma inv_written c d k :
  chain_inv c -> good d k -> same_index (db c) d (get_current_height c) ->
  view current_t d tt = view current_t (db c) tt -> view height_t d tt = view height_t (db c) tt -> queue_ok d (block_map c) ->
  chain_inv (with_db d k c).
Proof using HRok.
  intros Hc Hg Hs Hcur Hh Hq. pose proof (inv_top c Hc) as Ht. destruct Hc. split; try done; cbn [db with_db].
  - by rw Hh.
  - by apply (index_same _ (db c)).
  - unfold current_stored in *. cbn [db with_db current_header]. rw Hcur. destruct ci_current0 as [(H1 & H2 & H3 & H4)|(H1 & H2 & H3)]; [left|right; split_and!; [done|done|]; intros h Hp; rw (si_numbers _ _ _ _ Hs); by auto].
    rw (si_numbers _ _ _ _ Hs); [done|]. rw (si_headers _ _ _ _ Hs); [done|done|]. done.
Qed.

(** The proof of the current block is written. *)
Lemma inv_proof c p : chain_inv c -> proof_ok p -> chain_inv (save_current_block_poof p c).
Proof using HRok HDok HBok HPok.
  intros Hc Hp. change (chain_inv (with_db (db_write (put Proofs tt p) (db c)) (caches c) c)).
  apply inv_written; [done| | |by view_tac|by view_tac|].
  - apply good_proof; [done|apply Hc|]. by apply survives_exact, (proof_decoded proof_ok).
  - by apply same_proof.
  - intros h e He. destruct (ci_queue _ Hc h e He) as (Hh & H1 & H2 & H3). split_and!; try done. by view_tac.
Qed.

(** A body above the chain is written and its block is queued. *)
Lemma inv_body c c' h b : chain_inv c -> storable_block b -> number (header b) = h -> get_current_height c < h < 2 ^ 64 - 1 ->
  db c' = db_write (put height_t tt h) (db_write (put Bodies h (body b)) (db c)) ->
  caches c' = with_bodies (<[h := body b]> (block_bodies (caches c))) (caches c) ->
  current_header c' = current_header c -> max_height c' = max_height c -> max_store_height c' = h ->
  check_prooftype c' = check_prooftype c ->
  (forall h' e, block_map c' !! h' = Some e -> (h' = h /\ queued e = b) \/
     (h' <> h /\ exists e', block_map c !! h' = Some e' /\ queued e = queued e')) ->
  chain_inv c' /\ same_index (db c) (db c') (get_current_height c).
Proof using HRok HDok HBok.
  intros Hc [Hb Hl] Hn Hh Hd Hk Hcur Hmax Hst Hpt Hq. pose proof (inv_top c Hc) as Ht. pose proof (proj2 Hb) as Hbo.
  assert (Hfh : fits 64 h) by (unfold fits in *; pose proof (ci_nonneg _ Hc); lia).
  assert (Hg : good (db c') (caches c')).
  { rw Hd Hk. apply good_height; [done| |by apply survives_exact, height_decoded].
    apply good_body; [done|apply Hc|done|]. by apply survives_exact, body_decoded. }
  assert (Hs : same_index (db c) (db c') (get_current_height c)).
  { rw Hd. split; intros; view_tac; rw ?bool_decide_eq_false_2; try done; lia. }
  assert (Hh' : get_current_height c' = get_current_height c) by by rw /get_current_height Hcur.
  split; [|done]. destruct Hc. split; rw ?Hh' ?Hst; try done; try lia.
  - rw Hd. view_tac. by rw height_decoded.
  - intros h' e He. destruct (Hq h' e He) as [[-> <-]|(Hne & e' & He' & ->)].
    + split_and!; try done. rw Hd. view_tac. rw bool_decide_eq_true_2; [done|]. by rw body_decoded.
    + destruct (ci_queue0 h' e' He') as (H1 & H2 & H3 & H4). split_and!; try done. rw Hd. view_tac. by rw bool_decide_eq_false_2.
  - by apply (index_same _ (db c)).
  - unfold current_stored in *. rw Hcur. destruct ci_current0 as [(H1 & H2 & H3 & H4)|(H1 & H2 & H3)];
    [left|right; split_and!; [rw Hd; by view_tac|done|]; intros h' Hp; rw (si_numbers _ _ _ _ Hs); by auto].
    rw (si_numbers _ _ _ _ Hs); [done|]. rw (si_headers _ _ _ _ Hs); [done|done|]. split_and!; try done. rw Hd. by view_tac.
  - unfold get_chain_prooftype in *. by rw Hpt.
Qed.

(** A step that does not execute a block. *)
Definition same_chain (c c' : Ch) : Prop :=
  chain_inv c' /\ current_header c' = current_header c /\ same_index (db c) (db c') (get_current_height c).

#[local] Instance same_index_refl top : Reflexive (fun d d' => same_index d d' top).
Proof using. by split. Qed.
#[local] Instance same_index_trans top : Transitive (fun d d' => same_index d d' top).
Proof using.
  intros d1 d2 d3 [Ah Ab An Aa Ar] [Bh Bb Bn Ba Br].
  split; intros; [by rw Bh // Ah|by rw Bb // Ab|by rw Bn // An|by rw Ba // Aa|by rw Br // Ar].
Qed.

Lemma same_chain_refl c : chain_inv c -> same_chain c c.
Proof using. intros Hc. split_and!; [done|done|]. apply same_index_refl. Qed.

Lemma same_chain_trans c1 c2 c3 : same_chain c1 c2 -> same_chain c2 c3 -> same_chain c1 c3.
Proof using.
  intros (H1 & H2 & H3) (H4 & H5 & H6). split_and!; [done|congruence|]. unfold get_current_height in *. rw H2 in H6.
  by eapply same_index_trans.
Qed.

Definition none {S} (e : void) (s : S) : Prop := False.

(** A block of consensus that is new. *)
Definition new_block (c : Ch) (b : Blk) : Prop := storable_block b /\ get_current_height c < number (header b) < 2 ^ 64 - 1.

Lemma consensus_block_enqueue_keeps b p c : chain_inv c -> proof_ok p -> new_block c b ->
  wp (consensus_block_enqueue pubkey_to_address b p) (fun _ c' => same_chain c c') none c.
Proof using HRok HDok HBok HPok.
  intros Hc Hp [Hb Hn]. pose proof (ci_store _ Hc) as Hst. apply wp_bind, wp_get. rw add_ok; [lia|]. apply wp_bind, wp_ret.
  cbv beta zeta. destruct (number (header b) =? _) eqn:Heq; [|by apply wp_ret, same_chain_refl]. apply Z.eqb_eq in Heq.
  apply wp_modify. cbv zeta. pose proof (inv_proof c p Hc Hp) as Hc1.
  assert (Hs1 : same_index (db c) (db (save_current_block_poof p c)) (get_current_height c)) by by apply same_proof.
  match goal with |- same_chain c ?c' => destruct (inv_body (save_current_block_poof p c) c' (number (header b)) b) as [Hc2 Hs2]; try done end.
  - cbn. intros h' e. rw lookup_insert_Some. intros [[<- <-]|[Hne He]]; [by left|right; split; [done|by exists e]].
  - split; [exact Hc2|]. split; [done|]. by eapply same_index_trans.
Qed.

(** A block of a peer that is new, or carries a proof only. *)
Definition new_sync (c : Ch) (b : Blk) : Prop :=
  storable_block b /\ (number (header b) = USIZE_MAX \/ get_current_height c < number (header b) < USIZE_MAX).

Lemma set_proof_queued h p q h' e : set_proof h p q !! h' = Some e -> exists e', q !! h' = Some e' /\ queued e = queued e'.
Proof using.
  unfold set_proof. destruct (q !! h) as [[b|b p'|b [p'|]]|] eqn:Hq; try (intros He; by exists e).
  rw lookup_insert_Some. intros [[<- <-]|[_ He]]; [by exists (SyncBlock b None)|by exists e].
Qed.

Lemma add_sync_block_keeps b c : chain_inv c -> new_sync c b ->
  wp (add_sync_block pubkey_to_address Proof_new get_field_type tendermint_height b) (fun _ c' => same_chain c c') none c.
Proof using HRok HDok HBok HPok.
  intros Hc [Hb Hn]. apply wp_bind, wp_get. rw (ci_prooftype _ Hc). case_bool_decide as Hpt; [|by apply wp_ret, same_chain_refl].
  rw -Hpt. cbn [negb]. cbv zeta. destruct (number (header b) =? USIZE_MAX) eqn:Hmax; cbn [negb].
  - case_match; [|by apply wp_ret, same_chain_refl]. apply wp_modify. split; [|done]. apply inv_queue; [done|]. apply set_proof_queued.
  - apply Z.eqb_neq in Hmax. destruct Hn as [|Hn]; [done|]. case_match; [|by apply wp_ret, same_chain_refl]. apply wp_modify.
    match goal with |- same_chain c ?c' => destruct (inv_body c c' (number (header b)) b) as [Hc2 Hs2]; try done end.
    cbn. intros h' e. rw lookup_insert_Some. intros [[<- <-]|[Hne He]]; [by left|right; split; [done|]]. by eapply set_proof_queued.
Qed.

Lemma new_sync_same c c' b : same_chain c c' -> new_sync c b -> new_sync c' b.
Proof using. intros (_ & Hcur & _). unfold new_sync, get_current_height. by rw Hcur. Qed.

Lemma deal_sync_blocks_keeps check_hash blocks c : chain_inv c -> Forall (new_sync c) blocks ->
  wp (deal_sync_blocks pubkey_to_address Proof_new get_field_type tendermint_height check_hash blocks) (fun _ c' => same_chain c c') none c.
Proof using HRok HDok HBok HPok.
  revert c. induction blocks as [|b blocks IH]; intros c Hc Hb; [by apply wp_ret, same_chain_refl|]. apply Forall_cons in Hb as [Hb Hbs].
  apply wp_bind, wp_get. cbv zeta. case_match; [by apply IH|]. case_match; [by apply wp_ret, same_chain_refl|].
  apply wp_bind. eapply wp_conseq; [by apply add_sync_block_keeps| |done]. intros u c1 Hs. cbv beta in Hs. eapply wp_conseq; [apply IH| |done].
  - apply Hs.
  - eapply Forall_impl; [exact Hbs|]. intros b'. by apply new_sync_same.
  - intros ? c2. by apply same_chain_trans.
Qed.

(** ** Requests *)
Abbreviation answers := (answers pubkey_to_address (Proof_ := Proof_) (D := D) (AccountGasLimit := AccountGasLimit)
  (BloomGroup := BloomGroup)).

(** What a peer gets for a height: the block, and the proof of the current
    block. *)
Definition sync_answer (c : Ch) (h : Z) : list Blk :=
  match block_at pubkey_to_address c h with
  | Some b => b :: if h =? get_current_height c then from_option (fun p => [proof_block p]) [] (view Proofs (db c) tt) else []
  | None => []
  end.

Lemma sync_blocks_answers heights c : good (db c) (caches c) -> Forall (fits 64) heights ->
  answers (sync_blocks pubkey_to_address heights) (fun l => l = concat (sync_answer c <$> heights)) c.
Proof using.
  revert c. induction heights as [|h heights IH]; intros c Hg Hh; [by apply answers_ret|]. apply Forall_cons in Hh as [Hf Hh].
  cbn [sync_blocks]. eapply answers_bind; [by apply (block_by_height_answers _ h c)|]. intros o k Hk ->. apply answers_get.
  eapply (answers_bind _ _ _ (fun l => l = sync_answer c h)).
  - unfold sync_answer. destruct (block_at pubkey_to_address c h) as [b|]; [|by apply answers_ret].
    change (get_current_height (with_db (db c) k c)) with (get_current_height c). case_match; [|by apply answers_ret].
    eapply answers_lift; [apply (read_view Proofs); [apply Hk|done]|]. by apply answers_ret.
  - intros l k' Hk' ->. eapply answers_bind; [by apply (IH (with_db (db c) k' c))|]. intros l k2 Hk2 ->. by apply answers_ret.
Qed.

Lemma answers_same {A} (m : M void Ch A) Q c : chain_inv c -> answers m Q c -> wp m (fun a c' => same_chain c c' /\ Q a) none c.
Proof using.
  intros Hc Hm. eapply wp_conseq; [exact Hm| |done]. intros a c' [(k & -> & Hk) HQ]. split; [|done].
  split; [by apply inv_caches|]. split; [done|]. apply same_index_refl.
Qed.

Lemma same_chain_send c c' m : same_chain c c' -> same_chain c (send m c').
Proof using. intros (H1 & H2 & H3). split; [by apply inv_send|done]. Qed.

Lemma reply_syn_req_keeps heights origin c : chain_inv c -> Forall (fits 64) heights ->
  wp (reply_syn_req pubkey_to_address heights origin) (fun _ c' => same_chain c c') none c.
Proof using.
  intros Hc Hh. apply wp_bind. eapply wp_conseq; [apply answers_same; [done|by apply sync_blocks_answers, Hh; apply Hc]| |done].
  intros l c' [Hs _]. cbv beta. case_match; [|by apply wp_ret]. by apply wp_modify, same_chain_send.
Qed.

Lemma deal_block_tx_req_keeps h c : chain_inv c -> fits 64 h ->
  wp (deal_block_tx_req pubkey_to_address h) (fun _ c' => same_chain c c') none c.
Proof using HRok.
  intros Hc Hh. apply wp_bind. eapply wp_conseq; [apply (answers_same _ (fun _ => True)); [done|]| |done].
  - eapply answers_bind; [apply block_body_answers; [apply Hc|exact Hh|by apply inv_top]|]. intros o k Hk ->. by apply answers_ret.
  - intros o c' [Hs _]. cbv beta. case_match; [by apply wp_modify, same_chain_send|by apply wp_ret].
Qed.

(** ** Results of execution *)
Abbreviation Lookup := (Z * Z -> outcome void (option BloomGroup)).
Abbreviation blooms_ok := (blooms_ok group_ok).
  Context (bloom_insert : Lookup -> Z -> Z -> outcome void (list ((Z * Z) * BloomGroup))).
  (** The bloom library adds a bloom when the groups can be looked up; the
      positions fit their keys for the block numbers below 2^32. *)
  Context (insert_ok : forall (lookup : Lookup) n bloom,
    (forall q, position_ok q -> exists o, lookup q = Ok o) -> 0 <= n < 2 ^ 32 -> fits 2048 bloom ->
    exists l, bloom_insert lookup n bloom = Ok l /\ blooms_ok l).
Abbreviation hdr_of ret b := (result_header (er_header ret) b).

(** The result [ret] of [b] became the end of the chain. *)
Record executes (c c' : Ch) (ret : Res) (b : Blk) : Prop := {
  ex_inv : chain_inv c';
  ex_header : current_header c' = hdr_of ret b;
  ex_block : 0 < eh_height (er_header ret) -> block_stored (db c') (eh_height (er_header ret)) (hdr_of ret b) (body b);
  ex_history : history_kept (db c) (db c') (get_current_height c);
}.

(** [b] is the next block, or the first one. *)
Definition next_block (c : Ch) (ret : Res) (b : Blk) : Prop :=
  let n := eh_height (er_header ret) in
  (n = get_current_height c + 1 /\ exists e, block_map c !! n = Some e /\ queued e = b) \/
  (n = 0 /\ get_current_height c = 0 /\ body b = [] /\
     forall h, plain h -> view numbers_t (db c) h = Some 0 -> h = hash_of ret b).

Lemma result_blooms (c : Ch) (ret : Res) b : good (db c) (caches c) -> result_ok pubkey_to_address proof_ok ret b ->
  eh_height (er_header ret) < 2 ^ 32 ->
  exists l, (if eh_log_bloom (er_header ret) =? 0 then Ok []
             else bloom_insert (blooms_at c) (eh_height (er_header ret)) (eh_log_bloom (er_header ret))) = Ok l /\ blooms_ok l.
Proof using insert_ok.
  intros Hg Hr Hn. case_match; [by exists []; split; [|constructor]|]. apply insert_ok.
  - intros q Hq. eexists. by apply (blooms_at_view pubkey_to_address).
  - pose proof (ho_number _ _ (rk_header _ _ _ _ Hr)) as Hf. cbn in Hf. unfold fits in Hf. lia.
  - exact (ho_bloom _ _ (rk_header _ _ _ _ Hr)).
Qed.

(** The effect on the state. *)
Lemma stored_executes c c' ret b l : chain_inv c -> new_result pubkey_to_address proof_ok (db c) ret b -> blooms_ok l ->
  eh_height (er_header ret) < 2 ^ 32 -> next_block c ret b ->
  db c' = stored ret b l (max_store_height c <? eh_height (er_header ret)) (db c) -> good (db c') (caches c') ->
  current_header c' = hdr_of ret b -> max_height c' = eh_height (er_header ret) -> max_store_height c' = max_store_height c ->
  block_map c' = block_map c -> check_prooftype c' = check_prooftype c -> executes c c' ret b.
Proof using HRok HDok HBok HPok HGok.
  intros Hc Hnew Hbl Hlt Hnext Hd Hg Hcur Hmax Hst Hq Hpt. set (n := eh_height (er_header ret)) in *. set (sb := max_store_height c <? n) in *.
  pose proof (ci_nonneg _ Hc) as H0. pose proof (ext_n _ _ _ _ _ Hnew) as Hfn. fold n in Hfn. pose proof (nr_ok _ _ _ _ _ Hnew) as Hrk.
  assert (Hn : n = get_current_height c + 1 \/ (n = 0 /\ get_current_height c = 0 /\ body b = [] /\ sb = false /\
    forall h, plain h -> view numbers_t (db c) h = Some 0 -> h = hash_of ret b)).
  { destruct Hnext as [[Hn _]|(Hn & Ht & Hb & Hu)]; [by left|right]. split_and!; try done. apply Z.ltb_ge. pose proof (ci_store _ Hc). fold n in Hn. lia. }
  assert (Hbody : sb = true \/ view Bodies (db c) n = Some (body b) \/ n = 0).
  { destruct Hnext as [(_ & e & He & <-)|(Hn0 & _)]; [right; left|by right; right]. apply (ci_queue _ Hc n e He). }
  assert (Hheight : get_current_height c' = n) by by rw /get_current_height Hcur.
  assert (Hix : index_ok (db c') n).
  { rw Hd. exact (ext_index pubkey_to_address proof_ok group_ok ret b l sb (db c) _ (ci_index _ Hc) Hnew Hbl Hn H0 Hbody). }
  split; [|done| |].
  - destruct Hc. split; rw ?Hheight ?Hst; try done; [unfold fits in *; lia|unfold fits in *; lia|..].
    + rw Hd (stored_height _ proof_ok group_ok); done.
    + intros h e. rw Hq. intros He. destruct (ci_queue0 h e He) as (Hh & He1 & He2 & He3). split_and!; try done.
      rw Hd (stored_body _ proof_ok group_ok); [done|done|done|]. destruct (sb && _) eqn:Hsb; [|done].
      apply andb_true_iff in Hsb as [Hsb ->%bool_decide_eq_true].
      destruct Hnext as [(_ & e' & He' & <-)|(Hn0 & _)]; [by fold n in He'; simplify_eq|]. destruct Hn as [|(_ & _ & _ & ? & _)]; [lia|congruence].
    + left. rw Hcur Hd. split_and!; [apply Hrk|by apply (stored_current _ proof_ok group_ok)| |].
      * by apply (ext_new_number _ proof_ok group_ok).
      * rw (ext_header _ proof_ok group_ok); [done|done|done|]. by rw bool_decide_eq_true_2.
    + unfold get_chain_prooftype in *. by rw Hpt.
  - intros Hpos. rw Hd. by apply (ext_block_new pubkey_to_address proof_ok group_ok ret b l sb (db c) (get_current_height c)).
  - intros k h0 b0 Hk Hb0. rw Hd. by apply (ext_block_old pubkey_to_address proof_ok group_ok ret b l sb (db c) _ (ci_index _ Hc)).
Qed.

Lemma set_db_result_executes c ret b : chain_inv c -> new_result pubkey_to_address proof_ok (db c) ret b ->
  eh_height (er_header ret) < 2 ^ 32 -> next_block c ret b ->
  wp (set_db_result pubkey_to_address bloom_insert ret b)
    (fun _ c' => executes c c' ret b /\ block_map c' = block_map c) none c.
Proof using HRok HDok HBok HPok HGok insert_ok.
  intros Hc Hnew Hlt Hnext. apply wp_bind, wp_modify, wp_bind, wp_get.
  destruct (result_blooms (set_db_config ret c) ret b) as (l & Hl & Hbl); [apply Hc|apply Hnew|done|]. apply wp_bind. rw Hl. apply wp_ret.
  cbv beta zeta. change (max_store_height (set_db_config ret c)) with (max_store_height c).
  change (caches (set_db_config ret c)) with (caches c). set (sb := max_store_height c <? eh_height (er_header ret)).
  pose proof (result_good _ proof_ok group_ok ret b l sb (db c) (caches c) (ci_good _ Hc) (nr_ok _ _ _ _ _ Hnew) Hbl) as Hg.
  rw result_stored in Hg. pose proof (result_stored pubkey_to_address ret b l sb (db c) (caches c)) as Hd.
  destruct (result_writes pubkey_to_address ret b l sb (caches c)) as [batch k] eqn:Hw. apply wp_modify.
  cbn [fst snd] in Hd, Hg. split; [|done]. apply (stored_executes c _ ret b l); try done; cbn; by rw Hd.
Qed.

(** What a result may do: nothing to the chain, or extend it by its block.  A
    block of consensus has the hash of the block before. *)
Definition extends (c c' : Ch) (ret : Res) : Prop :=
  exists b, next_block c ret b /\ executes c c' ret b /\
    forall b' p, 0 < eh_height (er_header ret) -> block_map c !! eh_height (er_header ret) = Some (ConsensusBlock b' p) ->
      parent_hash (header b') = get_current_hash c.

(** The result belongs to the next block: it is queued, and the hash before it
    fits when it comes from consensus.  The result of the first block is
    always taken. *)
Definition ready (c : Ch) (ret : Res) : Prop :=
  let n := eh_height (er_header ret) in
  n = 0 \/
  (n = get_current_height c + 1 /\
   match block_map c !! n with
   | Some (ConsensusBlock b _) => parent_hash (header b) = get_current_hash c
   | Some (SyncBlock _ _) => True
   | _ => False
   end).

Definition outcome_of (c : Ch) (ret : Res) (c' : Ch) : Prop :=
  (ready c ret /\ extends c c' ret) \/ (~ ready c ret /\ same_chain c c').

(** Updates that leave the header and the database as they are. *)
Lemma extends_same c ret c1 c2 : extends c c1 ret -> chain_inv c2 -> current_header c2 = current_header c1 -> db c2 = db c1 ->
  extends c c2 ret.
Proof using.
  intros (b & Hb & [] & Hp) Hi Hh Hd. exists b. split_and!; [done| |done]. split; rw ?Hh ?Hd; done.
Qed.

Lemma outcome_same c ret c1 c2 : outcome_of c ret c1 -> chain_inv c2 -> current_header c2 = current_header c1 -> db c2 = db c1 ->
  outcome_of c ret c2.
Proof using.
  intros H Hi Hh Hd. destruct H as [[Hr He]|[Hr (H1 & H2 & H3)]]; [left; split; [done|by eapply extends_same]|].
  right. split; [done|]. split; [done|]. rw Hh Hd. done.
Qed.

Lemma extends_inv c ret c' : extends c c' ret -> chain_inv c'.
Proof using. by intros (b & _ & [] & _). Qed.

Lemma outcome_inv c ret c' : outcome_of c ret c' -> chain_inv c'.
Proof using. intros [[_ He]|[_ (H & _)]]; [by eapply extends_inv|done]. Qed.

Lemma status_same (c : Ch) : current_header (broadcast_current_status c) = current_header c /\ db (broadcast_current_status c) = db c.
Proof using.
  unfold broadcast_current_status, delivery_current_rich_status, broadcast_status. by repeat case_match.
Qed.

Lemma outcome_status c ret c' : outcome_of c ret c' -> outcome_of c ret (broadcast_current_status c').
Proof using.
  intros H. destruct (status_same c') as [H1 H2]. eapply outcome_same; [exact H|by apply inv_status, (outcome_inv c ret)|done|done].
Qed.

Lemma extends_status c ret c' : extends c c' ret -> extends c (broadcast_current_status c') ret.
Proof using.
  intros H. destruct (status_same c') as [H1 H2]. eapply extends_same; [exact H|by apply inv_status, (extends_inv c ret)|done|done].
Qed.

Definition acceptable_result (c : Ch) (ret : Res) : Prop :=
  let n := eh_height (er_header ret) in
  n < 2 ^ 32 /\
  (n = 0 -> get_current_height c = 0 /\ new_result pubkey_to_address proof_ok (db c) ret (Block_default Proof_new) /\
     forall h, plain h -> view numbers_t (db c) h = Some 0 -> h = hash_of ret (Block_default Proof_new)) /\
  (n <> 0 -> forall e, block_map c !! n = Some e -> n = get_current_height c + 1 ->
     new_result pubkey_to_address proof_ok (db c) ret (queued e)).

(** The block of the queue is stored. *)
Lemma queued_extends c ret e : chain_inv c -> acceptable_result c ret -> eh_height (er_header ret) <> 0 ->
  block_map c !! eh_height (er_header ret) = Some e -> ready c ret ->
  wp (set_db_result pubkey_to_address bloom_insert ret (queued e)) (fun _ c' => extends c c' ret) none c.
Proof using HRok HDok HBok HPok HGok insert_ok.
  intros Hc (Hlt & _ & Hres) H0 Hq [?|[Hn Hm]]; [done|].
  assert (Hnb : next_block c ret (queued e)) by (left; split; [done|by exists e]).
  eapply wp_conseq; [by apply set_db_result_executes; [|apply (Hres H0 e)|..]| |done].
  intros u c' [He _]. exists (queued e). split_and!; [done|done|]. intros b' p _ Hb'. by rw Hb' in Hm.
Qed.

Lemma finish_queued_outcome c ret : chain_inv c -> acceptable_result c ret -> eh_height (er_header ret) <> 0 ->
  wp (finish_queued pubkey_to_address bloom_insert ret (block_map c !! eh_height (er_header ret))) (fun _ c' => outcome_of c ret c') none c.
Proof using HRok HDok HBok HPok HGok insert_ok.
  intros Hc Ha H0. pose proof (ci_header _ Hc) as Hh. unfold fits in Hh. apply wp_bind, wp_get.
  assert (Hskip : ~ ready c ret -> outcome_of c ret c) by (intros; right; split; [done|by apply same_chain_refl]).
  pose proof (queued_extends c ret) as Hrun.
  destruct (block_map c !! eh_height (er_header ret)) as [[b|b p|b p]|] eqn:Hq; try (apply wp_ret, Hskip; intros [?|[_ Hm]]; [done|by rw Hq in Hm]).
  - apply wp_bind, wp_lift. unfold validate_height. rw add_ok; [lia|]. cbv beta iota zeta delta [obind owp].
    destruct (ci_queue _ Hc _ _ Hq) as (_ & Hnum & _). cbn [queued] in Hnum.
    destruct (_ && _) eqn:Hv; [apply andb_true_iff in Hv as [Hn%Z.eqb_eq Hp%Z.eqb_eq]|apply wp_ret, Hskip].
    + apply wp_bind. assert (Hr : ready c ret) by (right; rw Hq; split; [lia|done]).
      eapply wp_conseq; [by apply (Hrun (ConsensusBlock b p))| |done].
      intros u c' He. apply wp_modify. left. split; [exact Hr|by apply extends_status].
    + unfold ready. rw Hq. intros [?|[Hn Hp]]; [done|]. apply andb_false_iff in Hv as [Hv%Z.eqb_neq|Hv%Z.eqb_neq]; [lia|congruence].
  - rw add_ok; [lia|]. apply wp_bind, wp_ret. destruct (_ =? _) eqn:Hn; [apply Z.eqb_eq in Hn|apply Z.eqb_neq in Hn; apply wp_ret, Hskip; intros [?|[? _]]; done].
    assert (Hr : ready c ret) by (right; rw Hq; split; [lia|done]).
    apply wp_bind. eapply wp_conseq; [by apply (Hrun (SyncBlock b p))| |done].
    intros u c' He. do 2 apply wp_bind, wp_modify. apply wp_modify. left. split; [exact Hr|].
    assert (H1 : extends c (with_sync true c') ret) by (eapply extends_same; [exact He|by apply inv_sync, (extends_inv c ret)|done|done]).
    apply extends_status in H1. eapply extends_same; [exact H1|by apply inv_sync, (extends_inv c ret)|done|done].
Qed.

(** The result of the first block. *)
Lemma genesis_outcome c ret : chain_inv c -> acceptable_result c ret -> eh_height (er_header ret) = 0 ->
  wp (_ <~ set_db_result pubkey_to_address bloom_insert ret (Block_default Proof_new) ;;
      _ <~ smodify (delivery_block_tx_hashes (eh_height (er_header ret)) []) ;;
      smodify broadcast_current_status)
    (fun _ c' => extends c c' ret) none c.
Proof using HRok HDok HBok HPok HGok insert_ok.
  intros Hc (Hlt & Hres & _) H0. destruct (Hres H0) as (Htop & Hnew & Hu).
  assert (Hnb : next_block c ret (Block_default Proof_new)) by by right.
  apply wp_bind. eapply wp_conseq; [by apply set_db_result_executes| |done]. intros u c' [He _].
  apply wp_bind, wp_modify, wp_modify. set (c1 := delivery_block_tx_hashes _ _ c').
  destruct (status_same c1) as [H1 H2]. exists (Block_default Proof_new). split_and!; [done| |lia].
  destruct He. split; rw ?H1 ?H2; try done. by apply inv_status, inv_send.
Qed.

Lemma set_excuted_result_outcome c ret : chain_inv c -> acceptable_result c ret ->
  wp (set_excuted_result pubkey_to_address Proof_new bloom_insert ret) (fun _ c' => outcome_of c ret c') none c.
Proof using HRok HDok HBok HPok HGok insert_ok.
  intros Hc Ha. unfold set_excuted_result. destruct (eh_height (er_header ret) =? 0) eqn:H0; apply wp_bind.
  - apply Z.eqb_eq in H0. eapply wp_conseq; [by apply genesis_outcome| |done]. intros u c' Hx. apply wp_bind, wp_get.
    assert (Hh : get_current_height c' = eh_height (er_header ret)).
    { destruct Hx as (b & _ & [] & _). by rw /get_current_height ex_header0. }
    rw Hh Z.eqb_refl. apply wp_bind, wp_modify, wp_modify. left. split; [by left|]. apply extends_status.
    eapply extends_same; [exact Hx|apply inv_config, (extends_inv c ret); done|done|done].
  - apply Z.eqb_neq in H0. apply wp_ret, wp_bind, wp_get. destruct (_ =? get_current_height c) eqn:Hh.
    { apply Z.eqb_eq in Hh. apply wp_bind, wp_modify, wp_modify, outcome_status. right. split; [intros [?|[? _]]; [done|lia]|].
      split; [by apply inv_config|]. split; [done|]. apply same_index_refl. }
    apply wp_bind. eapply wp_conseq; [by apply finish_queued_outcome| |done]. intros u c' Ho. apply wp_modify.
    eapply outcome_same; [exact Ho| |done|done]. apply inv_queue; [exact (outcome_inv c ret c' Ho)|].
    intros h e [He _]%map_lookup_filter_Some. by exists e.
Qed.

(** ** All messages *)
Abbreviation Msg := (Content (Proof_ := Proof_) (AccountGasLimit := AccountGasLimit)).

Definition acceptable (c : Ch) (m : Msg) : Prop :=
  match m with
  | BlockWithProof b p => new_block c b /\ proof_ok p
  | SyncRequest heights _ => Forall (fits 64) heights
  | SyncResponse blocks => Forall (new_sync c) blocks
  | BlockTxHashesReq h => fits 64 h
  | Executed ret => acceptable_result c ret
  end.

Definition step_of (c : Ch) (m : Msg) (c' : Ch) : Prop :=
  match m with Executed ret => outcome_of c ret c' | _ => same_chain c c' end.

Lemma dispatch_msg_step check_hash m c : chain_inv c -> acceptable c m ->
  wp (dispatch_msg pubkey_to_address Proof_new get_field_type tendermint_height bloom_insert check_hash m)
    (fun _ c' => step_of c m c') none c.
Proof using HRok HDok HBok HPok HGok insert_ok.
  intros Hc Ha. destruct m as [b p|heights origin|blocks|h|ret]; cbn in Ha |- *.
  - destruct Ha. by apply consensus_block_enqueue_keeps.
  - by apply reply_syn_req_keeps.
  - by apply deal_sync_blocks_keeps.
  - by apply deal_block_tx_req_keeps.
  - by apply set_excuted_result_outcome.
Qed.

Lemma chain_step_inv c m c' : step_of c m c' -> chain_inv c'.
Proof using. destruct m; cbn; try (intros H; apply H). apply outcome_inv. Qed.

Lemma same_chain_height c c' : chain_inv c -> same_chain c c' ->
  get_current_height c' = get_current_height c /\ history_kept (db c) (db c') (get_current_height c).
Proof using.
  intros Hc (H1 & H2 & H3). split; [by rw /get_current_height H2|]. apply history_same; [by apply inv_top|done].
Qed.

(** The height grows by one or stays, and executed blocks are kept. *)
Lemma outcome_height c ret c' : chain_inv c -> outcome_of c ret c' ->
  (get_current_height c' = get_current_height c \/ get_current_height c' = get_current_height c + 1) /\
  history_kept (db c) (db c') (get_current_height c).
Proof using.
  intros Hc [[_ (b & Hb & [] & _)]|[_ Hs]]; [|destruct (same_chain_height c c' Hc Hs); by split; [left|]].
  split; [|done]. unfold get_current_height at 1 3. rw ex_header0. cbn. destruct Hb as [[Hn _]|(Hn & Ht & _)]; [right|left]; lia.
Qed.

Lemma step_height c m c' : chain_inv c -> step_of c m c' ->
  (get_current_height c' = get_current_height c \/ get_current_height c' = get_current_height c + 1) /\
  history_kept (db c) (db c') (get_current_height c).
Proof using.
  intros Hc Hm. destruct m as [| | | |ret]; [..|by eapply (outcome_height c ret)]; 
    (destruct (same_chain_height c c' Hc Hm); by split; [left|]).
Qed.

(** ** Cache eviction *)
Lemma drop_good d k i : good d k -> good d (drop_id k i).
Proof using.
  intros [Hs []]. split; [done|]. destruct i; split; try done; intros ? ?; rw lookup_delete_Some; intros [_ ?]; eauto.
Qed.

Lemma collect_garbage_inv ids c : chain_inv c -> chain_inv (collect_garbage ids c).
Proof using.
  intros Hc. apply inv_caches; [done|]. assert (Hg := ci_good _ Hc). revert Hg. generalize (caches c).
  induction ids as [|i ids IH]; intros k Hk; [done|]. by apply IH, drop_good.
Qed.

(** ** Lookups of executed blocks *)
Abbreviation block_at := (block_at pubkey_to_address (Proof_ := Proof_) (D := D) (AccountGasLimit := AccountGasLimit)
  (BloomGroup := BloomGroup)).

Lemma header_at_stored c h n : chain_inv c -> plain h -> number_of c h = Some n ->
  header_at c n = view Headers (db c) n.
Proof using.
  intros Hc Hh Hn. unfold header_at. destruct (_ =? n) eqn:Heq; [apply Z.eqb_eq in Heq; subst n|done].
  destruct (ci_current _ Hc) as [(_ & _ & _ & ->)|(_ & _ & Hnone)]; [done|]. unfold number_of in Hn. rw Hnone in Hn; done.
Qed.

(** What is found under a hash has this hash. *)
Lemma block_of_hash c h b : chain_inv c -> plain h -> number_of c h ≫= block_at c = Some b -> header_hash rlp_out (header b) = h.
Proof using.
  intros Hc Hh (n & Hn & Hb)%bind_Some. unfold ChainReads.block_at in Hb. rw (header_at_stored c h n) in Hb; [done..|].
  destruct (ix_number _ _ _ (ci_index _ Hc) h n Hh Hn) as (_ & hdr & Hv & _ & Hhash). rw Hv in Hb. cbn in Hb.
  apply bind_Some in Hb as (bo & _ & [= <-]). done.
Qed.

(** A stored block is found by its number and its hash, its transactions are
    found by their hashes. *)
Record found (c : Ch) (n : Z) (hdr : Hdr) (b : BlockBody) : Prop := {
  fo_number : answers (Chain.block pubkey_to_address (BidNumber n)) (fun o => o = Some (mkBlock hdr b)) c;
  fo_hash : answers (Chain.block pubkey_to_address (BidHash (header_hash rlp_out hdr))) (fun o => o = Some (mkBlock hdr b)) c;
  fo_transactions i s : b !! i = Some s ->
    answers (transaction pubkey_to_address (u_hash (s_transaction s)))
      (fun o => exists s', o = Some s' /\ u_hash (s_transaction s') = u_hash (s_transaction s)) c;
}.

Lemma stored_found c n hdr b : chain_inv c -> 0 < n <= get_current_height c -> block_stored (db c) n hdr b -> found c n hdr b.
Proof using HRok.
  intros Hc Hn Hb. pose proof (inv_top c Hc) as Ht. pose proof (ci_good _ Hc) as Hg. pose proof (ci_index _ Hc) as Hix. pose proof Hb as [].
  assert (Hblock : block_at c n = Some (mkBlock hdr b)).
  { unfold ChainReads.block_at. rw (header_at_stored c _ n Hc bs_plain bs_hash) bs_header. cbn. by rw /body_at bs_body. }
  split.
  - eapply answers_impl; [apply block_answers; [done| |done]|]; [cbn; unfold fits in *; lia|]. by intros o ->.
  - eapply answers_impl; [apply block_answers; [done|done|done]|]. intros o ->. cbn. unfold number_of. by rw bs_hash.
  - intros i s Hs. pose proof (transaction_of_block _ _ _ _ _ _ _ _ Hix Hb Hs) as [s' Hs'].
    assert (Hf : fits 256 (u_hash (s_transaction s))).
    { apply (Forall_lookup_1 _ _ i (u_hash (s_transaction s)) bs_addresses). unfold transaction_hashes. by rw list_lookup_fmap Hs. }
    eapply answers_impl; [by eapply transaction_answers|]. intros o ->. exists s'. split; [done|]. exact (transaction_of_hash _ _ _ c s' Hix Hf Hs').
Qed.

(** ** Start *)
Definition start_ok (c : Ch) (limit : AccountGasLimit) (pt : Z) (c' : Ch) : Prop :=
  init_chain Proof_new (db c) limit pt = Ok c' /\ db c' = db c /\ current_header c' = current_header c /\
  max_store_height c' = max_store_height c /\ (pt = 2 -> chain_inv c').

(** A restart on the database finds the chain as it was. *)
Lemma restart c limit pt : chain_inv c -> exists c', start_ok c limit pt c'.
Proof using HRok.
  intros Hc. pose proof (ci_good _ Hc) as [Hs _]. pose proof Hs as [Rh Rb Rn Ra Rr Rbl Rc Rp Rhe].
  assert (Hget : exists o, get_chain (db c) = Ok o /\ default (Header_default Proof_new) o = current_header c).
  { unfold get_chain. rw (read_view current_t _ tt Rc I). cbn [obind].
    destruct (ci_current _ Hc) as [(Hp & -> & Hn & Hh)|(-> & -> & _)]; [|by exists None]. rw (read_view numbers_t _ _ Rn Hp) Hn. cbn [obind].
    eexists. split; [apply (read_view Headers _ _ Rh); by eapply number_fits|]. by rw Hh. }
  destruct Hget as (o & Ho & Hcur). unfold start_ok, init_chain. rw Ho. cbn [obind]. unfold get_chain_body_height.
  rw (read_view height_t _ tt Rhe I). cbn [obind]. eexists. split; [done|]. cbn [db current_header max_store_height].
  split_and!; [done|done|apply Hc|]. intros ->. destruct Hc. unfold get_current_height in *.
  split; unfold get_current_height; cbn [db caches current_header max_height max_store_height block_map]; rw ?Hcur; try done.
  by rw ci_height0.
Qed.

(** An empty database. *)
Lemma fresh_start (d : D) limit : (forall col key, db_get d col key = None) ->
  exists c, init_chain Proof_new d limit 2 = Ok c /\ chain_inv c /\ get_current_height c = 0.
Proof using.
  intros Hd. assert (Hv : forall K T (t : table K T) k, view t d k = None) by (intros; by rw /view Hd).
  unfold init_chain, get_chain, get_chain_body_height, read. rw !Hd. cbn [obind default from_option]. eexists. split; [done|]. split; [|done].
  assert (Hr : forall K T (t : table K T), readable t d) by (intros K T t k b _; by rw Hd).
  split; unfold get_current_height; cbn [db caches current_header max_height max_store_height block_map number Header_default]; try done.
  - by rw Hv.
  - split; [lia|intros h n _|intros h a _|intros h l _]; by rw Hv.
  - right. split_and!; [by rw Hv|done|]. intros h _. by rw Hv.
Qed.
End steps.
