(* ===== verification/SysConfig.v ===== *)
(** * The system configuration

    [GlobalSysConfig] of [cita-executor/core/src/libexecutor/executor.rs] and
    [AccountGasLimit] of [contracts/quota_manager.rs]: what the system
    contracts configure, and the queue of configurations with the heights at
    which they were seen.  A configuration takes effect some blocks after it
    was seen; the queue keeps what is not yet, or still, in force. *)

From S2P Require Import Prelude Evm.
From stdpp Require Import base gmap list.
Local Open Scope Z_scope.
Local Open Scope cita_scope.

Record AccountGasLimit : Set := {
  common_gas_limit : Z;
  specific_gas_limit : gmap Z Z;
}.

#[export] Instance AccountGasLimit_eq_dec : EqDecision AccountGasLimit.
Proof. solve_decision. Defined.

Definition AccountGasLimit_new : AccountGasLimit :=
  {| common_gas_limit := 4294967296; specific_gas_limit := ∅ |}.

Record GlobalSysConfig : Set := mkConfig {
  conf_senders : gset Z;
  conf_creators : gset Z;
  conf_nodes : list Address;
  conf_block_gas_limit : Z;
  conf_account_gas_limit : AccountGasLimit;
  delay_active_interval : Z;
  changed_height : Z;
  conf_check_quota : bool;
  conf_check_permission : bool;
}.

#[export] Instance GlobalSysConfig_eq_dec : EqDecision GlobalSysConfig.
Proof. solve_decision. Defined.

Definition GlobalSysConfig_new : GlobalSysConfig :=
  mkConfig ∅ ∅ [] (2 ^ 64 - 1) AccountGasLimit_new 1 0 false false.

Definition set_changed_height (c : GlobalSysConfig) (h : Z) : GlobalSysConfig :=
  mkConfig (conf_senders c) (conf_creators c) (conf_nodes c) (conf_block_gas_limit c) (conf_account_gas_limit c)
    (delay_active_interval c) h (conf_check_quota c) (conf_check_permission c).

(** The loop of [get_current_sys_conf]: the first configuration seen at least
    [delay] blocks before. *)
Fixpoint find_active (delay now : Z) (confs : list GlobalSysConfig) : outcome void (option GlobalSysConfig) :=
  match confs with
  | [] => Ok None
  | c :: confs =>
      from <- add_ 64 (changed_height c) delay ;;
      if from <=? now then Ok (Some c) else find_active delay now confs
  end.

(** The delay is the one of the newest configuration. *)
Definition get_current_sys_conf (confs : list GlobalSysConfig) (now : Z) : outcome void GlobalSysConfig :=
  match confs with
  | [] => Ok GlobalSysConfig_new
  | newest :: _ =>
      r <- find_active (delay_active_interval newest) now confs ;;
      Ok (default newest r)
  end.

(** The second half of [reload_config]: [conf] was read from the contracts,
    its height is still that of a new configuration.  The flag tells whether
    the queue is written to the database. *)
Definition note_config (conf : GlobalSysConfig) (max_height : Z) (confs : list GlobalSysConfig)
    : outcome void (list GlobalSysConfig * bool) :=
  match confs with
  | [] => Ok ([conf], true)
  | inconf :: _ =>
      let add_flag := negb (bool_decide (inconf = set_changed_height conf (changed_height inconf))) in
      from <- add_ 64 (changed_height inconf) (delay_active_interval inconf) ;;
      let confs := if from <=? max_height then take 1 confs else confs in
      Ok (if add_flag then (set_changed_height conf max_height :: confs, true) else (confs, false))
  end.

(** ** The queue against the full history

    The reference keeps every configuration that was seen. *)
Definition note_all (conf : GlobalSysConfig) (max_height : Z) (hist : list GlobalSysConfig) : list GlobalSysConfig :=
  match hist with
  | [] => [conf]
  | newest :: _ =>
      if bool_decide (newest = set_changed_height conf (changed_height newest)) then hist
      else set_changed_height conf max_height :: hist
  end.

(** The newest configuration seen at least [d] blocks before [now], or the
    newest one of all. *)
Definition in_force (d now : Z) (hist : list GlobalSysConfig) : GlobalSysConfig :=
  default (default GlobalSysConfig_new (head hist)) (head (filter (fun c => changed_height c + d <= now) hist)).

(** Reloads with what they read and the height they see, the last one first. *)
Fixpoint queue_after (l : list (GlobalSysConfig * Z)) : outcome void (list GlobalSysConfig) :=
  match l with
  | [] => Ok []
  | (conf, h) :: l => confs <- queue_after l ;; r <- note_config conf h confs ;; Ok r.1
  end.

Fixpoint history_after (l : list (GlobalSysConfig * Z)) : list GlobalSysConfig :=
  match l with
  | [] => []
  | (conf, h) :: l => note_all conf h (history_after l)
  end.

(** Reloads whose heights do not fall and whose configurations have the delay
    [d]; nothing overflows. *)
Fixpoint orderly (d : Z) (l : list (GlobalSysConfig * Z)) (top : Z) : Prop :=
  match l with
  | [] => 0 <= top
  | (conf, h) :: l =>
      orderly d l h /\ h <= top /\ top + d < 2 ^ 64 /\ delay_active_interval conf = d /\ changed_height conf = 0
  end.

(** The queue is the part of the history that can still matter at [top]. *)
Definition prefix_enough (d top : Z) (queue hist : list GlobalSysConfig) : Prop :=
  exists old, hist = queue ++ old /\
    (old = [] \/ Exists (fun c => changed_height c + d <= top) queue).

Definition bounded (d top : Z) (l : list GlobalSysConfig) : Prop :=
  Forall (fun c => delay_active_interval c = d /\ 0 <= changed_height c <= top) l.

Lemma bounded_mono d h top l : h <= top -> bounded d h l -> bounded d top l.
Proof. intros Hh Hl. eapply Forall_impl; [done|]. intros c [H1 H2]. split; [done|lia]. Qed.

Lemma find_active_filter d now l : 0 <= d -> now + d < 2 ^ 64 -> bounded d now l ->
  find_active d now l = Ok (head (filter (fun c => changed_height c + d <= now) l)).
Proof.
  intros Hd Hn Hl. induction Hl as [|c l [_ Hc] _ IH]; [done|]. cbn [find_active]. rw add_ok; [lia|]. cbn [obind].
  rw filter_cons. destruct (Z.leb_spec (changed_height c + d) now); [by rw decide_True|]. rw decide_False; [lia|done].
Qed.

Lemma current_in_force d now l : 0 <= d -> now + d < 2 ^ 64 -> bounded d now l ->
  get_current_sys_conf l now = Ok (in_force d now l).
Proof.
  intros Hd Hn Hl. destruct l as [|c l]; [done|]. unfold get_current_sys_conf. pose proof Hl as [[-> _] _]%Forall_cons.
  by rw find_active_filter.
Qed.

Lemma in_force_prefix d top now q hist : top <= now -> prefix_enough d top q hist -> in_force d now q = in_force d now hist.
Proof.
  intros Hn (old & -> & [->|Hex]); [by rw app_nil_r|]. unfold in_force. rw filter_app.
  destruct (filter _ q) as [|c l] eqn:E; [|done]. apply Exists_exists in Hex as (c & Hc & Hle).
  assert (Hin : c ∈ filter (fun c => changed_height c + d <= now) q) by (apply list_elem_of_filter; split; [lia|done]).
  rw E in Hin. by apply not_elem_of_nil in Hin.
Qed.

Lemma prefix_enough_mono d h top q hist : h <= top -> prefix_enough d h q hist -> prefix_enough d top q hist.
Proof.
  intros Hh (old & -> & [->|H]); [exists []|exists old]; (split; [done|]); [by left|right]. eapply Exists_impl; [done|]. intros c Hc. cbn in *. lia.
Qed.

(** One reload. *)
Lemma note_config_step d h conf q hist : 0 <= d -> h + d < 2 ^ 64 -> delay_active_interval conf = d -> changed_height conf = 0 ->
  0 <= h -> bounded d h hist -> prefix_enough d h q hist ->
  exists q' b, note_config conf h q = Ok (q', b) /\ prefix_enough d h q' (note_all conf h hist) /\ bounded d h (note_all conf h hist).
Proof.
  intros Hd Hh Hc Hz Hpos Hb (old & -> & Hold). destruct q as [|c q].
  { destruct Hold as [->|H]; [|by inversion H]. exists [conf], true. split; [done|]. split; [by exists []; split; [|left]|].
    cbn. apply Forall_singleton. split; [done|lia]. }
  pose proof Hb as [[Hdel Hch] _]%Forall_cons. cbn [note_config note_all app]. rw Hdel. rw add_ok; [lia|]. cbn [obind].
  set (q1 := if _ <=? h then _ else _).
  assert (H1 : prefix_enough d h q1 (c :: q ++ old)).
  { subst q1. destruct (Z.leb_spec (changed_height c + d) h); [|by exists old].
    exists (q ++ old). split; [done|]. right. by apply Exists_cons_hd. }
  case_bool_decide as E; cbn [negb].
  - exists q1, false. done.
  - eexists _, true. split; [done|]. split; [|apply Forall_cons; split; [split; [done|cbn; lia]|done]].
    destruct H1 as (old1 & -> & H1). exists old1. split; [done|]. destruct H1; [by left|right; by apply Exists_cons_tl].
Qed.

Lemma orderly_pos d l top : orderly d l top -> 0 <= top.
Proof. revert top. induction l as [|[c h] l IH]; intros top; [done|]. cbn. intros (H1 & H2 & _). specialize (IH _ H1). lia. Qed.

Lemma queue_step d l top : 0 <= d -> orderly d l top ->
  exists q, queue_after l = Ok q /\ prefix_enough d top q (history_after l) /\ bounded d top (history_after l).
Proof.
  intros Hd. revert top. induction l as [|[conf h] l IH]; intros top.
  { exists []. split; [done|]. split; [exists []; split; [done|by left]|constructor]. }
  intros (Ho & Hh & Hlt & Hc & Hz). destruct (IH h Ho) as (q & Hq & Hp & Hb). cbn [queue_after history_after]. rw Hq. cbn [obind].
  destruct (note_config_step d h conf q (history_after l)) as (q' & b & -> & Hp' & Hb'); try done; [lia|by eapply orderly_pos|].
  exists q'. split; [done|]. split; [by eapply prefix_enough_mono|by eapply bounded_mono].
Qed.

(** C14: The queue of configurations behaves like the full history when the
    configurations all have the same delay, the heights at which they are
    loaded do not fall, heights plus the delay stay below 2^64, and the height
    asked for is not below the last one loaded at: what is in force is then
    the newest configuration that was seen at least the delay before that
    height, or the newest of all when there is none, and dropping old
    configurations makes no difference. For a lower height, as set_sync_block
    asks for when blocks are queued ahead, the configuration that was in force
    may have been dropped, and nothing is claimed. *)
Theorem config_queue_exact d l top now : 0 <= d -> orderly d l top -> top <= now -> now + d < 2 ^ 64 ->
  exists q, queue_after l = Ok q /\ get_current_sys_conf q now = Ok (in_force d now (history_after l)).
Proof.
  intros Hd Ho Hn Hlt. destruct (queue_step d l top Hd Ho) as (q & Hq & Hp & Hb). exists q. split; [done|].
  rw -(in_force_prefix d top now q); [done..|]. apply current_in_force; [done|done|]. destruct Hp as (old & E & _).
  rw E in Hb. apply Forall_app in Hb as [Hb _]. by eapply bounded_mono.
Qed.

(** A configuration that raises the delay is in force at once: the old
    configuration, measured with the new delay, no longer is. *)
Theorem raised_delay_immediate a conf h now :
  changed_height a + delay_active_interval a <= h -> 0 <= changed_height a -> 0 <= delay_active_interval a ->
  h <= now -> now < changed_height a + delay_active_interval conf -> h + delay_active_interval conf < 2 ^ 64 ->
  exists q, note_config conf h [a] = Ok (q, true) /\ get_current_sys_conf q now = Ok (set_changed_height conf h).
Proof.
  intros Ha H0 Hd Hn Hc Hlt. cbn [note_config]. rw add_ok; [lia|]. cbn [obind]. rw (proj2 (Z.leb_le _ _) Ha).
  rw bool_decide_false; [intros E; apply (f_equal delay_active_interval) in E; cbn in E; lia|]. eexists. split; [done|].
  unfold get_current_sys_conf. cbn [find_active take]. cbn [changed_height delay_active_interval set_changed_height].
  rw add_ok; [lia|]. cbn [obind]. rw (proj2 (Z.leb_gt _ _)); [lia|]. rw add_ok; [lia|]. cbn [obind].
  by rw (proj2 (Z.leb_gt _ _)); [lia|].
Qed.

(** ** Instances *)
Definition with_delay (d limit : Z) : GlobalSysConfig := mkConfig ∅ ∅ [] limit AccountGasLimit_new d 0 false false.

(** Three reloads; at height 12 the configuration seen at 10 is in force. *)
Lemma config_queue_exact_witness :
  exists q, queue_after [(with_delay 2 30, 11); (with_delay 2 20, 10); (with_delay 2 10, 0)] = Ok q /\
    get_current_sys_conf q 12 = Ok (set_changed_height (with_delay 2 20) 10).
Proof.
  destruct (config_queue_exact 2 [(with_delay 2 30, 11); (with_delay 2 20, 10); (with_delay 2 10, 0)] 12 12) as (q & Hq & Hc);
    [done|by repeat split|done|done|].
  exists q. split; [exact Hq|]. rw Hc. reflexivity.
Defined.

Lemma raised_delay_immediate_witness :
  exists q, note_config (with_delay 9 20) 5 [with_delay 1 10] = Ok (q, true) /\
    get_current_sys_conf q 5 = Ok (set_changed_height (with_delay 9 20) 5).
Proof. apply (raised_delay_immediate (with_delay 1 10) (with_delay 9 20) 5 5); by cbn. Defined.
