(* ===== verification/Executor.v ===== *)
(** * The executor

    [cita-executor/core/src/libexecutor/executor.rs]: the headers of executed
    blocks in the database, the hashes of the last blocks, read-only calls of
    contracts, the configuration read from the system contracts
    ([contracts/]), and the blocks that are executed and written.  Here are
    the operations a thread does without looking at what other threads do;
    [Instance.v] puts them together.

    The key-value database with the state database in it is [S]; what
    [journaldb] and [StateDB] do with it is the class [StateStore].  A
    read-only call is one access to the shared state. *)

From S2P Require Import Prelude Lru Evm SharedCache Account State Executive Block NativeStorage Codec ChainDb Chain SysConfig.
From stdpp Require Import base gmap list strings.
Local Open Scope Z_scope.
Local Open Scope cita_scope.

(** [state_db]: a clone of the state database, without changes of its own;
    [journal_under] puts the changes of a state database into the store;
    [mark_canonical] forgets an era. *)
Class StateStore (S D : Type) : Type := {
  state_db : S -> D;
  journal_under : D -> Z -> H256 -> S -> S;
  latest_era : S -> option Z;
  earliest_era : S -> option Z;
  mark_canonical : Z -> H256 -> S -> S;
}.

(** [CurrentConfig] and the key of a block number. *)
Definition CurrentConfig : H256 := 0x7cabfb7709b29c16d9e876e876c9988d03f9c3414e1d3ff77ec1de2d0ee59f61.
Definition key_number (n : Z) : bytes := 3 :: to_be 4 n.

Definition Rlp_vec {HR : RlpLib} : Rlp bytes := {| to_rlp := put_bytes; of_rlp := get_bytes |}.

(** The types and values of the ABI library. *)
Inductive ParamType : Set := PUint (n : Z) | PAddress | PBool | PArray (p : ParamType).
Inductive Token : Set := TokUint (v : Z) | TokAddress (a : Address) | TokBool (b : bool) | TokArray (l : list Token).

Definition to_uint (t : Token) : option Z := match t with TokUint v => Some v | _ => None end.
Definition to_address (t : Token) : option Address := match t with TokAddress a => Some a | _ => None end.
Definition to_bool (t : Token) : option bool := match t with TokBool b => Some b | _ => None end.
Definition to_array (t : Token) : option (list Token) := match t with TokArray l => Some l | _ => None end.

Record CallRequest : Set := { cr_from : option Address; cr_to : Address; cr_data : option bytes }.

(** The errors of [CallError] that occur. *)
Inductive CallError : Set := StatePruned | CallExecution (e : ExecutionError).

(** [Transaction::fake_sign], and a stored transaction as [Executive.v] sees it. *)
Definition fake_sign (Signature_default : bytes) (t : Transaction) (from : Address) : SignedTx :=
  {| s_transaction := {| u_unsigned := t; u_signature := Signature_default; u_crypto_type := SECP; u_hash := 0 |};
     s_sender := from; s_public := 0; s_account_nonce := 0 |}.

Definition executable (s : SignedTx) : SignedTransaction :=
  let t := u_unsigned (s_transaction s) in
  {| tx_gas_price := t_gas_price t; tx_gas := t_gas t; tx_action := t_action t; tx_value := t_value t;
     tx_data := t_data t; tx_sender := s_sender s; tx_account_nonce := s_account_nonce s |}.

Inductive Stage : Set := ExecutingBlock | ExecutingProposal | WaitFinalized | Idle.

#[export] Instance Stage_eq_dec : EqDecision Stage.
Proof. solve_decision. Defined.

Module Executor.
Section executor.
  Context {HU : Util} {HR : RlpLib} {HB : RlpBytes}.
  Context {L : Type} {HL : LruCache Z L} {D : Type} {HD : Backend D} {J : Type} {HJ : LruCache BitSet J}.
  Context (sha3 : bytes -> H256) (encode_address_nonce : Address -> U256 -> bytes).
  Context (LOCAL_STACK_SIZE : Z) (native_factory : NativeFactory).
  Context (from_bloomed : H256 -> Z) (with_bloomed : Z -> H256 -> Z).
  Context {Proof_ : Type} {Proof_eq : EqDecision Proof_} {HP : Rlp Proof_}.
  Context {S : Type} {HS : KvDb S} {HSS : StateStore S D}.
  (** [merklehash], [bincode], the empty signature, the hash of the [sha3] library, and the decoder
      of the ABI library. *)
  Context (complete_merkle_root : list bytes -> H256).
  Context (bin_serialize : list GlobalSysConfig -> bytes) (bin_deserialize : bytes -> option (list GlobalSysConfig)).
  Context (Signature_default : bytes) (sha3_256 : bytes -> H256) (abi_decode : list ParamType -> bytes -> option (list Token)).
Abbreviation Blk := (Block (Proof_ := Proof_)).
Abbreviation Hdr := (Header (Proof_ := Proof_)).
Abbreviation Result := (ExecutedResult (AccountGasLimit := AccountGasLimit)).

Inductive BlockInQueue : Type :=
| Proposal (b : Blk)
| ConsensusBlock (b : Blk) (p : Proof_)
| SyncBlock (b : Blk) (p : option Proof_).

(** [Executor]; [db] and [state_db] are the store, of the factories the
    shared cache of jump tables changes. *)
Record t : Type := mk {
  current_header : Hdr;
  is_sync : bool;
  is_interrupted : bool;
  max_height : Z;
  block_map : gmap Z BlockInQueue;
  stage : Stage;
  store : S;
  jumps : J;
  last_hashes : list H256;
  executed_result : Result;
  check_prooftype : Z;
  sys_configs : list GlobalSysConfig;
}.
Abbreviation E := (M void t).

Definition set_header (h : Hdr) (e : t) : t :=
  mk h (is_sync e) (is_interrupted e) (max_height e) (block_map e) (stage e) (store e) (jumps e) (last_hashes e)
    (executed_result e) (check_prooftype e) (sys_configs e).
Definition set_sync (b : bool) (e : t) : t :=
  mk (current_header e) b (is_interrupted e) (max_height e) (block_map e) (stage e) (store e) (jumps e) (last_hashes e)
    (executed_result e) (check_prooftype e) (sys_configs e).
Definition set_interrupted (b : bool) (e : t) : t :=
  mk (current_header e) (is_sync e) b (max_height e) (block_map e) (stage e) (store e) (jumps e) (last_hashes e)
    (executed_result e) (check_prooftype e) (sys_configs e).
Definition set_max_height (n : Z) (e : t) : t :=
  mk (current_header e) (is_sync e) (is_interrupted e) n (block_map e) (stage e) (store e) (jumps e) (last_hashes e)
    (executed_result e) (check_prooftype e) (sys_configs e).
Definition set_block_map (m : gmap Z BlockInQueue) (e : t) : t :=
  mk (current_header e) (is_sync e) (is_interrupted e) (max_height e) m (stage e) (store e) (jumps e) (last_hashes e)
    (executed_result e) (check_prooftype e) (sys_configs e).
Definition set_stage (s : Stage) (e : t) : t :=
  mk (current_header e) (is_sync e) (is_interrupted e) (max_height e) (block_map e) s (store e) (jumps e) (last_hashes e)
    (executed_result e) (check_prooftype e) (sys_configs e).
Definition set_store (d : S) (e : t) : t :=
  mk (current_header e) (is_sync e) (is_interrupted e) (max_height e) (block_map e) (stage e) d (jumps e) (last_hashes e)
    (executed_result e) (check_prooftype e) (sys_configs e).
Definition set_jumps (j : J) (e : t) : t :=
  mk (current_header e) (is_sync e) (is_interrupted e) (max_height e) (block_map e) (stage e) (store e) j (last_hashes e)
    (executed_result e) (check_prooftype e) (sys_configs e).
Definition set_last_hashes (l : list H256) (e : t) : t :=
  mk (current_header e) (is_sync e) (is_interrupted e) (max_height e) (block_map e) (stage e) (store e) (jumps e) l
    (executed_result e) (check_prooftype e) (sys_configs e).
Definition set_result (r : Result) (e : t) : t :=
  mk (current_header e) (is_sync e) (is_interrupted e) (max_height e) (block_map e) (stage e) (store e) (jumps e) (last_hashes e)
    r (check_prooftype e) (sys_configs e).
Definition set_configs (l : list GlobalSysConfig) (e : t) : t :=
  mk (current_header e) (is_sync e) (is_interrupted e) (max_height e) (block_map e) (stage e) (store e) (jumps e) (last_hashes e)
    (executed_result e) (check_prooftype e) l.

(** ** Headers *)
Definition get_current_header (d : S) : outcome void (option Hdr) :=
  h <- read (H := Rlp_H256) d COL_EXTRA (key_hash CurrentHash) ;;
  match h with
  | Some hash => read d COL_HEADERS (key_hash hash)
  | None => Ok None
  end.

Definition block_hash (d : S) (index : Z) : outcome void (option H256) :=
  read (H := Rlp_H256) d COL_EXTRA (key_number index).

Definition get_current_height (e : t) : Z := number (current_header e).
Definition get_current_hash (e : t) : H256 := header_hash rlp_out (current_header e).
Definition current_state_root (e : t) : H256 := state_root (current_header e).

Definition block_header_by_hash (hash : H256) (e : t) : outcome void (option Hdr) :=
  if get_current_hash e =? hash then Ok (Some (current_header e)) else read (store e) COL_HEADERS (key_hash hash).

Definition block_header_by_height (n : Z) (e : t) : outcome void (option Hdr) :=
  if number (current_header e) =? n then Ok (Some (current_header e))
  else
    h <- block_hash (store e) n ;;
    match h with Some h => block_header_by_hash h e | None => Ok None end.

Definition block_header (id : BlockId) (e : t) : outcome void (option Hdr) :=
  match id with
  | Latest => block_header_by_height (get_current_height e) e
  | BidHash hash => block_header_by_hash hash e
  | BidNumber n => block_header_by_height n e
  | Earliest => block_header_by_height 0 e
  end.

Definition get_prooftype (e : t) : option ProofType :=
  match check_prooftype e with
  | 0 => Some AuthorityRound
  | 1 => Some Raft
  | 2 => Some Tendermint
  | _ => None
  end.

Definition validate_hash (h : H256) (e : t) : bool := get_current_hash e =? h.

Definition validate_height (n : Z) (e : t) : outcome void bool :=
  next <- add_ 64 (get_current_height e) 1 ;;
  Ok (next =? n).

(** ** Hashes of the last blocks *)

(** The loop of [build_last_hashes]: at most [n] hashes of the blocks below
    [height], up to the first one that is missing. *)
Fixpoint older_hashes (d : S) (n : nat) (height : Z) : outcome void (list H256) :=
  match n with
  | O => Ok []
  | Datatypes.S n =>
      if height <? 1 then Ok []
      else
        h <- block_hash d (height - 1) ;;
        match h with
        | Some h => l <- older_hashes d n (height - 1) ;; Ok (h :: l)
        | None => Ok []
        end
  end.

Definition build_last_hashes (prevhash : option H256) (parent_height : Z) : E (list H256) :=
  e <~ sget ;;
  parent_hash <~ slift (match prevhash with
                        | Some h => Ok h
                        | None => h <- block_hash (store e) parent_height ;; expect h
                        end) ;;
  if bool_decide (head (last_hashes e) = Some parent_hash) then sret (resize 256 0 (last_hashes e))
  else
    older <~ slift (older_hashes (store e) 255 parent_height) ;;
    let hashes := resize 256 0 (parent_hash :: older) in
    _ <~ smodify (set_last_hashes hashes) ;;
    sret hashes.

Definition update_last_hashes (hash : H256) (e : t) : t :=
  let hashes := if 255 <? zlen (last_hashes e) then removelast (last_hashes e) else last_hashes e in
  set_last_hashes (hash :: hashes) e.

(** ** Read-only calls *)
Definition gen_state (root : H256) (e : t) : option (State.t D L) :=
  match State.from_existing (state_db (store e)) root 0 with
  | Ok s => Some s
  | _ => None
  end.

Definition state_at (id : BlockId) (e : t) : outcome void (option (State.t D L)) :=
  h <- block_header id e ;; Ok (h ≫= fun h => gen_state (state_root h) e).

Definition permitted (conf : GlobalSysConfig) (s : State.t D L) : State.t D L :=
  State.mk (State.db s) (State.root s) (State.cache s) (State.checkpoints s) (State.account_start_nonce s)
    (conf_senders conf) (conf_creators conf).

Definition code_at (address : Address) (id : BlockId) (e : t) : outcome void (option (option bytes)) :=
  s <- state_at id e ;;
  match s with
  | None => Ok None
  | Some s =>
      match (State.code address s).1 with
      | Ok c => Ok (Some c)
      | Err _ => Ok None
      | Panic => Panic
      end
  end.

Definition nonce (address : Address) (id : BlockId) (e : t) : outcome void (option U256) :=
  s <- state_at id e ;;
  match s with
  | None => Ok None
  | Some s =>
      match (State.nonce address s).1 with
      | Ok n => Ok (Some n)
      | Err _ => Ok None
      | Panic => Panic
      end
  end.

Definition sign_call (r : CallRequest) : SignedTx :=
  fake_sign Signature_default
    {| t_nonce := from_bytes []; t_gas_price := 0; t_gas := 50000000; t_action := ActCall (cr_to r); t_value := 0;
       t_data := default [] (cr_data r); t_block_limit := 2 ^ 64 - 1 |} (default 0 (cr_from r)).

Definition call_info (h : Hdr) (hashes : list H256) : EnvInfo.t :=
  {| EnvInfo.number := number h; EnvInfo.author := 0; EnvInfo.timestamp := timestamp h; EnvInfo.difficulty := 0;
     EnvInfo.last_hashes := hashes; EnvInfo.gas_used := gas_used h; EnvInfo.gas_limit := gas_limit h;
     EnvInfo.account_gas_limit := 2 ^ 64 - 1 |}.

(** The permissions are not checked; the engine has no builtins. *)
Definition call (stx : SignedTx) (id : BlockId) : E (CallError + Executed) := fun e =>
  (h <~ slift (block_header id e) ;;
   match h with
   | None => sret (inl StatePruned)
   | Some h =>
       hashes <~ build_last_hashes None (number h) ;;
       s <~ slift (state_at id e) ;;
       match s with
       | None => sret (inl StatePruned)
       | Some s =>
           conf <~ slift (get_current_sys_conf (sys_configs e) (max_height e)) ;;
           fun e =>
             let '(r, ses) := transact sha3 encode_address_nonce LOCAL_STACK_SIZE ∅ native_factory (call_info h hashes)
               {| check_permission := false; check_quota := false |} (Session (permitted conf s) (jumps e) (executable stx)) in
             (match r with
              | Ok ex => Ok (inr ex)
              | Err err => Ok (inl (CallExecution err))
              | Panic => Panic
              end, set_jumps (ses_jumps ses) e)
       end
   end) e.

Definition eth_call (r : CallRequest) (id : BlockId) : E (CallError + bytes) :=
  r <~ call (sign_call r) id ;;
  sret (match r with inl e => inl e | inr ex => inr (exec_output ex) end).

(** ** System contracts *)
Definition bytes_of (name : string) : bytes := (fun a => Z.of_N (Ascii.N_of_ascii a)) <$> String.list_ascii_of_string name.
Definition encode_contract_name (name : string) : bytes := take 4 (to_be 32 (sha3_256 (bytes_of name))).

(** The loop of [parse_output_to_addresses]; an address beyond the data
    panics, which happens before [fuel] (the length of the data) is used up. *)
Fixpoint parse_addresses (fuel : nat) (data : bytes) (i num : Z) : outcome void (list Address) :=
  if num <=? i then Ok []
  else
    match fuel with
    | O => Panic
    | Datatypes.S fuel =>
        let start := 64 + i * 32 in
        key <- slice data (start + 12) (start + 32) ;;
        l <- parse_addresses fuel data (i + 1) num ;;
        Ok (of_be key :: l)
    end.

Definition parse_output_to_addresses (data : bytes) : outcome void (list Address) :=
  if 0 <? zlen data then
    num <- slice data 32 64 ;;
    _ <- assert_ (of_be num <? 2 ^ 64) ;;
    parse_addresses (length data) data 0 (of_be num)
  else Ok [].

(** An error panics. *)
Definition latest_call (r : CallRequest) : E bytes :=
  r <~ eth_call r Latest ;; slift (match r with inl _ => Panic | inr output => Ok output end).

Definition call_contract_method (address : Address) (method : bytes) : E bytes :=
  latest_call {| cr_from := None; cr_to := address; cr_data := Some method |}.

Definition account_manager : Address := 0x13241a4.
Definition node_manager : Address := 0x13241a2.
Definition quota_manager : Address := 0x13241a3.
Definition param_constant : Address := 0x31415926.

Definition query_users (permission : Z) : E (gset Z) :=
  output <~ latest_call {| cr_from := None; cr_to := account_manager;
              cr_data := Some (encode_contract_name "queryUsersOfPermission(uint8)" ++ to_be 32 permission) |} ;;
  l <~ slift (parse_output_to_addresses output) ;;
  sret (list_to_set l).

Definition load_senders : E (gset Z) := query_users 1.

Definition load_creators : E (gset Z) :=
  creators <~ query_users 2 ;;
  _ <~ slift (assert_ (negb (bool_decide (creators = ∅)))) ;;
  sret creators.

Definition read_nodes : E (list Address) :=
  output <~ call_contract_method node_manager (encode_contract_name "listNode()") ;;
  slift (parse_output_to_addresses output).

(** One value of the ABI: a missing or other value panics. *)
Definition query {A} (address : Address) (name : string) (p : ParamType) (get : Token -> option A) : E A :=
  output <~ call_contract_method address (encode_contract_name name) ;;
  slift (tokens <- expect (abi_decode [p] output) ;; token <- expect (head tokens) ;; expect (get token)).

Definition query_u64 (address : Address) (name : string) : E Z :=
  v <~ query address name (PUint 256) to_uint ;; sret (low_u64 v).

Definition quota : E (list Z) :=
  l <~ query quota_manager "getUsersQuota()" (PArray (PUint 256)) to_array ;;
  slift (l <- expect (mapM to_uint l) ;; Ok (low_u64 <$> l)).

Definition users : E (list Address) :=
  l <~ query quota_manager "getSpecialUsers()" (PArray PAddress) to_array ;;
  slift (expect (mapM to_address l)).

Definition specific : E (gmap Z Z) :=
  users <~ users ;;
  quota <~ quota ;;
  sret (fold_left (fun m '(k, v) => <[k := v]> m) (zip users quota) ∅).

Definition block_gas_limit : E Z := query_u64 quota_manager "getblockGasLimit()".
Definition account_gas_limit : E Z := query_u64 quota_manager "getAccountGasLimit()".
Definition valid_number : E Z := query_u64 param_constant "getNumber()".
Definition permission_check : E bool := query param_constant "getPermissionCheck()" PBool to_bool.
Definition quota_check : E bool := query param_constant "getQuotaCheck()" PBool to_bool.

(** ** Configuration *)
Definition read_config : E GlobalSysConfig :=
  senders <~ load_senders ;;
  creators <~ load_creators ;;
  nodes <~ read_nodes ;;
  limit <~ block_gas_limit ;;
  delay <~ valid_number ;;
  perm <~ permission_check ;;
  quota <~ quota_check ;;
  common <~ account_gas_limit ;;
  specific <~ specific ;;
  sret (mkConfig senders creators nodes limit {| common_gas_limit := common; specific_gas_limit := specific |}
          delay 0 quota perm).

Definition reload_config : E unit :=
  conf <~ read_config ;;
  e <~ sget ;;
  let! (confs, added) := slift (note_config conf (max_height e) (sys_configs e)) in
  _ <~ smodify (set_configs confs) ;;
  if added then
    smodify (fun e => set_store (db_write (write (H := Rlp_vec) COL_EXTRA (key_hash CurrentConfig) (bin_serialize confs))
                                   (store e)) e)
  else sret tt.

Definition load_config_from_db (d : S) : outcome void (option (list GlobalSysConfig)) :=
  r <- read (H := Rlp_vec) d COL_EXTRA (key_hash CurrentConfig) ;; Ok (r ≫= bin_deserialize).

Definition current_conf (e : t) : outcome void GlobalSysConfig := get_current_sys_conf (sys_configs e) (max_height e).

Definition set_gas_and_nodes : E unit :=
  conf <~ (e <~ sget ;; slift (current_conf e)) ;;
  smodify (fun e => let r := executed_result e in
    set_result {| er_header := er_header r; er_receipts := er_receipts r; er_nodes := conf_nodes conf;
                  er_block_gas_limit := conf_block_gas_limit conf;
                  er_account_gas_limit := conf_account_gas_limit conf |} e).

(** ** Blocks *)

(** [ClosedBlock]: of the body nothing is used any more. *)
Record ClosedBlock : Type := mkClosed {
  cb_header : Hdr;
  cb_receipts : BlockReceipts;
  cb_state : State.t D L;
}.

(** [OpenBlock::new]; [execute_block] unwraps the result. *)
Definition open_block (conf : GlobalSysConfig) (b : Blk) (root : H256) (hashes : list H256) (e : t)
    : outcome void (OpenBlock (D := D) (L := L) (J := J)) :=
  s <- expect (gen_state root e) ;;
  let h := header b in
  Ok {| b_number := number h; b_timestamp := timestamp h; b_gas_limit := gas_limit h; b_gas_used := gas_used h;
        b_transactions := executable <$> body b; b_receipts := []; b_state := permitted conf s; b_jumps := jumps e;
        b_current_gas_used := 0; b_last_hashes := hashes;
        b_account_gas_limit := common_gas_limit (conf_account_gas_limit conf);
        b_account_gas := specific_gas_limit (conf_account_gas_limit conf) |}.

(** [into_closed_block], with the gas [apply_transactions] recorded. *)
Definition into_closed_block (h : Hdr) (b : OpenBlock (D := D) (L := L) (J := J)) : ClosedBlock :=
  let receipts := b_receipts b in
  let h := mkHeader (parent_hash h) (timestamp h) (number h) (transactions_root h) (State.root (b_state b))
    (complete_merkle_root ((fun r => rlp_out (put_option to_rlp r)) <$> receipts))
    (fold_left Z.lor (rc_log_bloom <$> omap id receipts) 0) (b_gas_used b) (gas_limit h) (proof h) (version h) in
  mkClosed h receipts (b_state b).

(** The executed block, or [None] when the executor was interrupted;
    [interrupts] are the answers to the checks, one for 256 transactions. *)
Definition close_block (conf : GlobalSysConfig) (b : Blk) (root : H256) (hashes : list H256) (interrupts : list bool)
    : E (option ClosedBlock) := fun e =>
  match open_block conf b root hashes e with
  | Ok o =>
      let '(r, o) := apply_transactions sha3 encode_address_nonce LOCAL_STACK_SIZE native_factory from_bloomed with_bloomed
        (fun i => nth (Z.to_nat (i / 256)) interrupts false) (conf_check_permission conf) (conf_check_quota conf) o in
      match r with
      | Ok true => (Ok (Some (into_closed_block (header b) o)), set_jumps (b_jumps o) e)
      | Ok false => (Ok None, set_jumps (b_jumps o) e)
      | _ => (Panic, e)
      end
  | _ => (Panic, e)
  end.

(** [u64::from] of the gas used panics when it does not fit. *)
Definition executed_header (h : Hdr) : outcome void ExecutedHeader :=
  _ <- assert_ (gas_used h <? 2 ^ 64) ;;
  Ok {| eh_prevhash := parent_hash h; eh_timestamp := timestamp h; eh_height := number h; eh_state_root := state_root h;
        eh_transactions_root := transactions_root h; eh_receipts_root := receipts_root h; eh_log_bloom := log_bloom h;
        eh_gas_used := gas_used h; eh_gas_limit := low_u64 (gas_limit h) |}.

Definition set_executed_result (cb : ClosedBlock) : E unit :=
  _ <~ set_gas_and_nodes ;;
  h <~ slift (executed_header (cb_header cb)) ;;
  smodify (fun e => let r := executed_result e in
    set_result {| er_header := h; er_receipts := cb_receipts cb; er_nodes := er_nodes r;
                  er_block_gas_limit := er_block_gas_limit r; er_account_gas_limit := er_account_gas_limit r |} e).

(** The loop of [prune_ancient]; [None] when [fuel] is used up.  An era
    without a block hash is left, and the loop goes round. *)
Fixpoint prune_eras (fuel : nat) (number : Z) (d : S) : outcome void (option S) :=
  match fuel with
  | O => Ok None
  | Datatypes.S fuel =>
      match earliest_era d with
      | None => Ok (Some d)
      | Some era =>
          keep <- add_ 64 era 2 ;;
          if keep <=? number then
            h <- block_hash d era ;;
            match h with
            | Some hash => prune_eras fuel number (mark_canonical era hash d)
            | None => prune_eras fuel number d
            end
          else Ok (Some d)
      end
  end.

Definition prune_ancient (fuel : nat) (d : S) : outcome void (option S) :=
  match latest_era d with
  | Some number => prune_eras fuel number d
  | None => Ok (Some d)
  end.

(** The writes of [write_batch] and of [Genesis::save]. *)
Definition block_writes (h : Hdr) : DBTransaction :=
  let hash := header_hash rlp_out h in
  write COL_HEADERS (key_hash hash) h ++ write (H := Rlp_H256) COL_EXTRA (key_hash CurrentHash) hash ++
  write (H := Rlp_H256) COL_EXTRA (key_number (number h)) hash.

Definition write_block (h : Hdr) (d : D) (s : S) : S :=
  journal_under d (number h) (header_hash rlp_out h) (db_write (block_writes h) s).

(** A loop of [prune_ancient] that does not end is [Panic] here. *)
Definition write_batch (fuel : nat) (cb : ClosedBlock) : E unit := fun e =>
  match prune_ancient fuel (write_block (cb_header cb) (State.db (cb_state cb)) (store e)) with
  | Ok (Some d) => (Ok tt, set_store d e)
  | _ => (Panic, e)
  end.

(** ** Genesis and start *)

(** [Genesis], the strings of the specification parsed. *)
Record Genesis : Type := mkGenesis {
  g_alloc : list (Address * bytes * list (H256 * H256));
  g_prevhash : H256;
  g_timestamp : Z;
}.

Definition init_slots (address : Address) (l : list (H256 * H256)) : M TrieError (State.t D L) unit :=
  fold_right (fun '(k, v) rest => _ <~ State.set_storage address k v ;; rest) (sret tt) l.

Definition init_contracts (alloc : list (Address * bytes * list (H256 * H256))) : M TrieError (State.t D L) unit :=
  fold_right (fun '(address, code, slots) rest =>
    _ <~ State.new_contract address 0 ;;
    _ <~ State.init_code address code ;;
    _ <~ init_slots address slots ;;
    rest) (sret tt) alloc.

(** The assertion that the slots have the values of the specification. *)
Definition check_slots (address : Address) (l : list (H256 * H256)) : M TrieError (State.t D L) unit :=
  fold_right (fun '(k, v) rest =>
    r <~ State.storage_at address k ;; _ <~ slift (assert_ (v =? r)) ;; rest) (sret tt) l.

Definition check_contracts (alloc : list (Address * bytes * list (H256 * H256))) : M TrieError (State.t D L) unit :=
  fold_right (fun '(address, _, slots) rest => _ <~ check_slots address slots ;; rest) (sret tt) alloc.

  Context (Proof_new : Proof_).

(** The header of the first block, and the store with it; errors panic. *)
Definition lazy_execute (g : Genesis) (d : S) : outcome void (Hdr * S) :=
  let h0 := Header_default Proof_new in
  match State.from_existing (state_db d) (state_root h0) 0 with
  | Ok s =>
      match (_ <~ init_contracts (g_alloc g) ;; _ <~ State.commit ;; check_contracts (g_alloc g)) s with
      | (Ok _, s) =>
          let h := mkHeader (g_prevhash g) (g_timestamp g) 0 (transactions_root h0) (State.root s) (receipts_root h0)
                     (log_bloom h0) (gas_used h0) (gas_limit h0) (proof h0) 0 in
          Ok (h, write_block h (State.db s) d)
      | _ => Panic
      end
  | _ => Panic
  end.

(** [init_executor], from an empty cache of jump tables. *)
Definition init_executor (d : S) (g : Genesis) (check_prooftype : Z) : outcome void t :=
  h <- get_current_header d ;;
  start <- match h with
           | Some h => Ok (h, d)
           | None => lazy_execute g d
           end ;;
  let '(h, d) := start in
  eh <- executed_header h ;;
  let result := {| er_header := eh; er_receipts := []; er_nodes := []; er_block_gas_limit := 0;
                   er_account_gas_limit := {| common_gas_limit := 0; specific_gas_limit := ∅ |} |} in
  let e := mk h false false (number h) ∅ Idle d lru_empty [] result check_prooftype [] in
  match (_ <~ build_last_hashes (Some (get_current_hash e)) (number h) ;;
         confs <~ slift (load_config_from_db d) ;;
         _ <~ match confs with Some confs => smodify (set_configs confs) | None => sret tt end ;;
         _ <~ reload_config ;;
         set_gas_and_nodes) e with
  | (Ok _, e) => Ok e
  | _ => Panic
  end.
End executor.
End Executor.
