(* ===== verification/Threads.v ===== *)
(** * Threads over shared state

    A program of a thread is a sequence of atomic accesses to the state it
    shares with other threads: each lock that is taken, each atomic that is
    read or written.  [run] executes a program undisturbed; [safe] is what it
    guarantees when other threads act between any two of its accesses.  A
    panic ends the thread. *)

From S2P Require Import Prelude.
From stdpp Require Import base list relations.
Local Open Scope Z_scope.
Local Open Scope cita_scope.

Section threads.
  Context {S : Type}.

Inductive prog (A : Type) : Type :=
| Ret (a : A)
| Act {B : Type} (c : M void S B) (k : B -> prog A).
Arguments Ret {A} a.
Arguments Act {A B} c k.

Fixpoint pbind {A B} (p : prog A) (f : A -> prog B) : prog B :=
  match p with
  | Ret a => f a
  | Act c k => Act c (fun b => pbind (k b) f)
  end.

Definition act {A} (c : M void S A) : prog A := Act c Ret.

Fixpoint run {A} (p : prog A) : M void S A :=
  match p with
  | Ret a => sret a
  | Act c k => b <~ c ;; run (k b)
  end.

(** One access of a thread. *)
Inductive pstep {A} : S * prog A -> S * prog A -> Prop :=
| pstep_act {B} (c : M void S B) k s b s' : c s = (Ok b, s') -> pstep (s, Act c k) (s', k b).

(** [R] is what the other threads may do, [G] what this one does. *)
Fixpoint safe (R G : S -> S -> Prop) {A} (p : prog A) (Q : A -> S -> Prop) (s : S) : Prop :=
  match p with
  | Ret a => forall s', R s s' -> Q a s'
  | Act c k => forall s', R s s' -> forall b s'', c s' = (Ok b, s'') -> G s' s'' /\ safe R G (k b) Q s''
  end.

Section rules.
  Context (R G : S -> S -> Prop) {HR : Reflexive R} {HT : Transitive R}.

Lemma safe_rely {A} (p : prog A) Q s s' : R s s' -> safe R G p Q s -> safe R G p Q s'.
Proof using HT. destruct p as [a|B c k]; intros H Hp s1 H1; apply Hp; by etransitivity. Qed.

Lemma safe_mono {A} (p : prog A) (Q Q' : A -> S -> Prop) s :
  (forall a s, Q a s -> Q' a s) -> safe R G p Q s -> safe R G p Q' s.
Proof using.
  intros HQ. revert s. induction p as [a|B c k IH]; intros s Hp s1 H1; [by apply HQ, Hp|].
  intros b s2 Hc. destruct (Hp s1 H1 b s2 Hc) as [H2 H3]. split; [done|]. by apply IH.
Qed.

Lemma safe_bind {A B} (p : prog A) (f : A -> prog B) Q s :
  safe R G p (fun a s => safe R G (f a) Q s) s -> safe R G (pbind p f) Q s.
Proof using HR.
  revert s. induction p as [a|C c k IH]; intros s Hp; [by apply Hp|].
  intros s1 H1 b s2 Hc. destruct (Hp s1 H1 b s2 Hc) as [H2 H3]. split; [done|]. by apply IH.
Qed.

Lemma safe_seq {A B} (p : prog A) (f : A -> prog B) P Q s :
  safe R G p P s -> (forall a s, P a s -> safe R G (f a) Q s) -> safe R G (pbind p f) Q s.
Proof using HR. intros Hp Hf. apply safe_bind. by eapply safe_mono. Qed.

Lemma safe_ret {A} (a : A) (Q : A -> S -> Prop) s : (forall s', R s s' -> Q a s') -> safe R G (Ret a) Q s.
Proof using. done. Qed.

Lemma safe_act {A} (c : M void S A) (Q : A -> S -> Prop) s :
  (forall s', R s s' -> forall b s1, c s' = (Ok b, s1) -> G s' s1 /\ forall s2, R s1 s2 -> Q b s2) ->
  safe R G (act c) Q s.
Proof using. done. Qed.

Lemma safe_step {A} (p p' : prog A) Q s s' : safe R G p Q s -> pstep (s, p) (s', p') -> G s s' /\ safe R G p' Q s'.
Proof using HR. intros Hp H. inversion H; subst. by apply (Hp s). Qed.
End rules.

(** Undisturbed, a program guarantees what it guarantees under interference. *)
Lemma safe_run R G {HR : Reflexive R} {A} (p : prog A) Q s a s' :
  safe R G p Q s -> run p s = (Ok a, s') -> Q a s'.
Proof using.
  revert s. induction p as [b|B c k IH]; intros s Hp.
  - intros [= -> ->]. by apply Hp.
  - cbn [run]. unfold sbind. destruct (c s) as [[b|e|] s1] eqn:E; [|done|done]. intros H.
    destruct (Hp s (HR s) b s1 E) as [_ H1]. by eapply IH.
Qed.

Lemma run_bind {A B} (p : prog A) (f : A -> prog B) s :
  run (pbind p f) s = (a <~ run p ;; run (f a)) s.
Proof using.
  revert s. induction p as [a|C c k IH]; intros s; [done|]. cbn. unfold sbind in *.
  destruct (c s) as [[b|e|] s1]; [by rw IH|done|done].
Qed.

Lemma run_act {A} (c : M void S A) s : run (act c) s = c s.
Proof using. cbn. unfold sbind. by destruct (c s) as [[b|e|] s1]. Qed.

(** An undisturbed run is a sequence of accesses. *)
Lemma run_psteps {A} (p : prog A) s a s' : run p s = (Ok a, s') -> rtc pstep (s, p) (s', Ret a).
Proof using.
  revert s. induction p as [b|B c k IH]; intros s; [by intros [= -> ->]|]. cbn [run]. unfold sbind.
  destruct (c s) as [[b|e|] s1] eqn:E; [|done|done]. intros H%IH. eapply rtc_l; [by apply pstep_act|exact H].
Qed.
End threads.

Arguments prog S A : clear implicits.
Arguments Ret {S A} a.
Arguments Act {S A B} c k.

Notation "x <-- p ;; k" := (pbind p (fun x => k))
  (at level 100, p at next level, right associativity) : cita_scope.
