(* ===== verification/Instance.v ===== *)
(** * The executor process

    [cita-executor/src/executor_instance.rs], the threads of [main.rs], and
    the parts of [libexecutor/executor.rs] that execute and finalize blocks.
    One thread receives messages ([distribute_msg]) and puts blocks into the
    queue; the other executes them ([execute_block]).  Each program is the
    sequence of its accesses to the shared state, see [Threads.v].

    The process clones its [ExecutorInstance] for the first thread.  The
    executor and the channels are shared by the clones; the cell with the
    executed proposal is not, so there are two of them. *)

From S2P Require Import Prelude Lru Evm SharedCache Account State Executive Block Codec ChainDb Chain SysConfig Executor Threads.
From stdpp Require Import base gmap list strings.
Local Open Scope Z_scope.
Local Open Scope cita_scope.

Section instance.
  Context {HU : Util} {HR : RlpLib} {HB : RlpBytes}.
  Context {L : Type} {HL : LruCache Z L} {D : Type} {HD : Backend D} {J : Type} {HJ : LruCache BitSet J}.
  Context (sha3 : bytes -> H256) (encode_address_nonce : Address -> U256 -> bytes).
  Context (LOCAL_STACK_SIZE : Z) (native_factory : NativeFactory).
  Context (from_bloomed : H256 -> Z) (with_bloomed : Z -> H256 -> Z).
  Context {Proof_ : Type} {Proof_eq : EqDecision Proof_} {HP : Rlp Proof_}.
  Context (Proof_new : Proof_) (get_field_type : Proof_ -> ProofType).
  Context {S : Type} {HS : KvDb S} {HSS : StateStore S D}.
  Context (complete_merkle_root : list bytes -> H256) (bin_serialize : list GlobalSysConfig -> bytes).
  Context (Signature_default : bytes) (sha3_256 : bytes -> H256) (abi_decode : list ParamType -> bytes -> option (list Token)).
  (** [TendermintProof]: its height and the check of its signatures, the check
      of the transactions root of a block, and the number of rounds pruning
      may take. *)
  Context (tendermint_height : Proof_ -> Z) (proof_check : Proof_ -> Z -> list Address -> bool).
  Context (check_hash : Block (Proof_ := Proof_) -> bool) (prune_fuel : nat).
Abbreviation Blk := (Block (Proof_ := Proof_)).
Abbreviation Ex := (Executor.t (Proof_ := Proof_) (S := S) (J := J)).
Abbreviation Closed := (Executor.ClosedBlock (Proof_ := Proof_) (D := D) (L := L)).
Abbreviation Result := (ExecutedResult (AccountGasLimit := AccountGasLimit)).

(** Messages to the other services; a response carries the answer of a query. *)
Inductive Answer : Type :=
| CallAnswer (r : CallError + bytes)
| CountAnswer (n : Z)
| CodeAnswer (c : bytes).
Inductive Out : Type := ResultMsg (r : Result) | ResponseMsg (a : Answer).

Record Inst : Type := mkInst {
  ext : Ex;
  (** the cell of the executing thread and the cell of its clone *)
  closed_block : option Closed;
  clone_closed_block : option Closed;
  write_channel : list Z;
  ctx_pub : list Out;
}.

Definition with_ext (e : Ex) (i : Inst) : Inst :=
  mkInst e (closed_block i) (clone_closed_block i) (write_channel i) (ctx_pub i).
Definition with_closed (c : option Closed) (i : Inst) : Inst :=
  mkInst (ext i) c (clone_closed_block i) (write_channel i) (ctx_pub i).
Definition with_clone_closed (c : option Closed) (i : Inst) : Inst :=
  mkInst (ext i) (closed_block i) c (write_channel i) (ctx_pub i).
Definition write_send (n : Z) (i : Inst) : Inst :=
  mkInst (ext i) (closed_block i) (clone_closed_block i) (write_channel i ++ [n]) (ctx_pub i).
Definition publish (m : Out) (i : Inst) : Inst :=
  mkInst (ext i) (closed_block i) (clone_closed_block i) (write_channel i) (ctx_pub i ++ [m]).

Abbreviation P := (prog Inst).

(** An operation of the executor, a read, an update, and a result. *)
Definition on_ext {A} (c : M void Ex A) : P A :=
  act (fun i => let '(r, e) := c (ext i) in (r, with_ext e i)).
Definition get {A} (f : Ex -> A) : P A := on_ext (sgets f).
Definition put (f : Ex -> Ex) : P unit := on_ext (smodify f).
Definition lift {A} (c : outcome void A) : P A := act (slift c).
Definition modify (f : Inst -> Inst) : P unit := act (smodify f).
Definition set_stage (s : Stage) : P unit := put (Executor.set_stage s).

(** ** Executing blocks ([libexecutor/executor.rs]) *)
Definition send_executed_info_to_chain : P unit :=
  r <-- get Executor.executed_result ;; modify (publish (ResultMsg r)).

Definition reload_config : P unit :=
  on_ext (Executor.reload_config sha3 encode_address_nonce LOCAL_STACK_SIZE native_factory bin_serialize
            Signature_default sha3_256 abi_decode).

Definition finalize_block (cb : Closed) : P unit :=
  _ <-- reload_config ;;
  _ <-- on_ext (Executor.set_executed_result cb) ;;
  _ <-- send_executed_info_to_chain ;;
  _ <-- on_ext (Executor.write_batch prune_fuel cb) ;;
  _ <-- put (Executor.set_header (Executor.cb_header cb)) ;;
  hash <-- get Executor.get_current_hash ;;
  put (Executor.update_last_hashes hash).

(** The closed block with the timestamp and the proof of the coming one. *)
Definition finalized (cb : Closed) (comming : Blk) : Closed :=
  let h := Executor.cb_header cb in
  Executor.mkClosed
    (mkHeader (parent_hash h) (timestamp (header comming)) (number h) (transactions_root h) (state_root h) (receipts_root h)
       (log_bloom h) (gas_used h) (gas_limit h) (proof (header comming)) (version h))
    (Executor.cb_receipts cb) (Executor.cb_state cb).

Definition finalize_proposal (cb : Closed) (comming : Blk) : P unit := finalize_block (finalized cb comming).

(** The checks of [apply_transactions] for an interrupt, up to the first one
    that finds it.  The transactions between two checks touch nothing that is
    shared, so that they may as well run after the checks. *)
Fixpoint read_interrupts (n : nat) : P (list bool) :=
  match n with
  | O => Ret []
  | Datatypes.S n =>
      i <-- get Executor.is_interrupted ;;
      if i then Ret [true] else l <-- read_interrupts n ;; Ret (false :: l)
  end.

(** The common part of [execute_block] and [execute_proposal]. *)
Definition close_block (b : Blk) : P (option Closed) :=
  root <-- get Executor.current_state_root ;;
  hashes <-- get Executor.last_hashes ;;
  now <-- get Executor.max_height ;;
  confs <-- get Executor.sys_configs ;;
  conf <-- lift (get_current_sys_conf confs now) ;;
  interrupts <-- read_interrupts (Z.to_nat ((zlen (body b) + 255) / 256)) ;;
  on_ext (Executor.close_block sha3 encode_address_nonce LOCAL_STACK_SIZE native_factory from_bloomed with_bloomed
            complete_merkle_root conf b root hashes interrupts).

Definition ext_execute_block (b : Blk) : P unit :=
  cb <-- close_block b ;;
  match cb with
  | Some cb => finalize_block cb
  | None => Ret tt
  end.

Definition execute_proposal (b : Blk) : P (option Closed) := close_block b.

(** ** The executing thread ([executor_instance.rs]) *)
Definition validate_height (n : Z) : P bool :=
  e <-- get (fun e => e) ;; lift (Executor.validate_height n e).
Definition validate_hash (h : H256) : P bool := get (Executor.validate_hash h).

(** [a && b]: the second is not evaluated when the first is false. *)
Definition pand (a b : P bool) : P bool := x <-- a ;; if x then b else Ret false.

Definition valid_block (n : Z) (parent : H256) : P bool := pand (validate_height n) (validate_hash parent).

(** [usize::MAX] stands for no height. *)
Definition proof_height (p : Proof_) : Z :=
  if tendermint_height p =? 2 ^ 64 - 1 then 0 else tendermint_height p.

Definition set_sync_block (b : Blk) (p : Proof_) : P bool :=
  let n := number (header b) in
  confs <-- get Executor.sys_configs ;;
  conf <-- lift (get_current_sys_conf confs n) ;;
  v <-- valid_block n (parent_hash (header b)) ;;
  if v && proof_check p (proof_height p) (conf_nodes conf) then
    _ <-- ext_execute_block b ;; Ret true
  else Ret false.

(** The loop of [sync_blocks] over a copy of the queue, at most as many rounds
    as it has blocks; the result tells whether a block was invalid. *)
Fixpoint sync_loop (fuel : nat) (m : gmap Z (Executor.BlockInQueue (Proof_ := Proof_))) (n : Z) : P bool :=
  match fuel with
  | O => Ret false
  | Datatypes.S fuel =>
      match m !! n with
      | Some (Executor.SyncBlock b (Some p)) =>
          ok <-- set_sync_block b p ;;
          if ok then next <-- lift (add_ 64 n 1) ;; sync_loop fuel (delete n m) next
          else Ret true
      | _ => Ret false
      end
  end.

Definition sync_blocks (n : Z) : P unit :=
  _ <-- put (Executor.set_sync true) ;;
  m <-- get Executor.block_map ;;
  invalid <-- sync_loop (Datatypes.S (size m)) m n ;;
  _ <-- (if invalid then put (Executor.set_block_map ∅) else Ret tt) ;;
  put (Executor.set_sync false).

Definition clean_map : P unit :=
  put (fun e => Executor.set_block_map (filter (fun kv => Executor.get_current_height e <= kv.1) (Executor.block_map e)) e).

(** A block from consensus: [stage] was read before. *)
Definition run_consensus_block (stage : Stage) (b : Blk) : P unit :=
  i <-- get Executor.is_interrupted ;;
  if i then
    _ <-- put (Executor.set_interrupted false) ;;
    _ <-- set_stage ExecutingBlock ;;
    ext_execute_block b
  else
    match stage with
    | WaitFinalized =>
        cb <-- act (sgets closed_block) ;;
        _ <-- modify (with_closed None) ;;
        _ <-- set_stage ExecutingBlock ;;
        match cb with
        | Some cb => finalize_proposal cb b
        | None => ext_execute_block b
        end
    | Idle => _ <-- set_stage ExecutingBlock ;; ext_execute_block b
    | _ => Ret tt
    end.

(** After a proposal was executed: an interrupt drops it, a block with its
    transactions that has come meanwhile finalizes it, otherwise it waits. *)
Definition after_proposal (n : Z) (cb : Closed) : P unit :=
  i <-- get Executor.is_interrupted ;;
  if i then put (Executor.set_interrupted false)
  else
    m <-- get Executor.block_map ;;
    match m !! n with
    | Some (Executor.ConsensusBlock comming _) =>
        if transactions_root (header comming) =? transactions_root (Executor.cb_header cb) then
          _ <-- finalize_proposal cb comming ;; set_stage Idle
        else Ret tt
    | Some (Executor.Proposal _) =>
        _ <-- modify (with_closed (Some cb)) ;; set_stage WaitFinalized
    | _ => Ret tt
    end.

Definition run_proposal (n : Z) (b : Blk) : P unit :=
  i <-- get Executor.is_interrupted ;;
  _ <-- (if i then put (Executor.set_interrupted false) else Ret tt) ;;
  _ <-- set_stage ExecutingProposal ;;
  cb <-- execute_proposal b ;;
  match cb with
  | None => Ret tt
  | Some cb => after_proposal n cb
  end.

Definition execute_block (n : Z) : P unit :=
  m <-- get Executor.block_map ;;
  stage <-- get Executor.stage ;;
  match m !! n with
  | Some (Executor.ConsensusBlock b _) =>
      v <-- valid_block (number (header b)) (parent_hash (header b)) ;;
      if v then
        _ <-- run_consensus_block stage b ;;
        _ <-- set_stage Idle ;;
        clean_map
      else Ret tt
  | Some (Executor.SyncBlock _ (Some _)) =>
      height <-- get Executor.get_current_height ;;
      next <-- lift (add_ 64 height 1) ;;
      if n =? next then
        _ <-- set_stage ExecutingBlock ;;
        _ <-- sync_blocks n ;;
        _ <-- set_stage Idle ;;
        clean_map
      else Ret tt
  | Some (Executor.Proposal b) => run_proposal n b
  | _ => Ret tt
  end.

(** ** The receiving thread *)
Definition send_block (n : Z) (b : Blk) (p : Proof_) : P unit :=
  _ <-- put (fun e => Executor.set_block_map (<[n := Executor.ConsensusBlock b p]> (Executor.block_map e)) e) ;;
  _ <-- put (Executor.set_max_height n) ;;
  modify (write_send n).

Definition send_proposal (n : Z) (b : Blk) : P unit :=
  _ <-- put (fun e => Executor.set_block_map (<[n := Executor.Proposal b]> (Executor.block_map e)) e) ;;
  modify (write_send n).

(** The flag is set unless it is set. *)
Definition interrupt : P unit :=
  i <-- get Executor.is_interrupted ;;
  if i then Ret tt else put (Executor.set_interrupted true).

Definition consensus_block_enqueue (b : Blk) (p : Proof_) : P unit :=
  let n := number (header b) in
  height <-- get Executor.get_current_height ;;
  if n <=? height then Ret tt
  else
    m <-- get Executor.block_map ;;
    stage <-- get Executor.stage ;;
    v <-- valid_block n (parent_hash (header b)) ;;
    if v then
      match stage with
      | ExecutingProposal | WaitFinalized =>
          match m !! n with
          | Some (Executor.Proposal value) =>
              _ <-- (if transactions_root (header value) =? transactions_root (header b) then Ret tt else interrupt) ;;
              send_block n b p
          | _ => Ret tt
          end
      | Idle => send_block n b p
      | ExecutingBlock => Ret tt
      end
    else Ret tt.

Definition proposal_enqueue (b : Blk) : P unit :=
  let n := number (header b) in
  m <-- get Executor.block_map ;;
  stage <-- get Executor.stage ;;
  v <-- valid_block n (parent_hash (header b)) ;;
  if v then
    match stage with
    | ExecutingProposal | WaitFinalized =>
        match m !! n with
        | Some (Executor.Proposal value) =>
            if transactions_root (header value) =? transactions_root (header b) then Ret tt
            else
              _ <-- (if bool_decide (stage = ExecutingProposal) then interrupt else Ret tt) ;;
              send_proposal n b
        | _ => Ret tt
        end
    | Idle => send_proposal n b
    | ExecutingBlock => Ret tt
    end
  else Ret tt.

(** The proof of a queued block that has none. *)
Definition set_proof (h : Z) (p : Proof_) (m : gmap Z (Executor.BlockInQueue (Proof_ := Proof_))) :=
  match m !! h with
  | Some (Executor.SyncBlock b None) => <[h := Executor.SyncBlock b (Some p)]> m
  | _ => m
  end.

(** The queue is locked while a block is added. *)
Definition queue_sync_block (b : Blk) (e : Ex) : Ex :=
  let p := proof (header b) in
  let n := number (header b) in
  let ph := proof_height p in
  if negb (n =? 2 ^ 64 - 1) then
    if ph =? Executor.max_height e then
      Executor.set_max_height n
        (Executor.set_block_map (<[n := Executor.SyncBlock b None]> (set_proof ph p (Executor.block_map e))) e)
    else e
  else if Executor.get_current_height e <? ph then Executor.set_block_map (set_proof ph p (Executor.block_map e)) e
  else e.

(** Proofs other than those of Tendermint are not implemented. *)
Definition add_sync_block (b : Blk) : P unit :=
  let block_proof_type := proof_type Proof_new get_field_type (header b) in
  ext_proof_type <-- get Executor.get_prooftype ;;
  if bool_decide (ext_proof_type = block_proof_type) then
    match block_proof_type with
    | Some Tendermint => put (queue_sync_block b)
    | _ => lift Panic
    end
  else Ret tt.

(** [false] when a block ends the handling of the whole message. *)
Fixpoint sync_enqueue (l : list Blk) : P bool :=
  match l with
  | [] => Ret true
  | b :: l =>
      let n := number (header b) in
      top <-- get Executor.max_height ;;
      if n <? top then sync_enqueue l
      else if negb (n =? 2 ^ 64 - 1) && negb (check_hash b) then Ret true
      else
        height <-- get Executor.get_current_height ;;
        if n <=? height then Ret false
        else _ <-- add_sync_block b ;; sync_enqueue l
  end.

Definition deal_sync_blocks (l : list Blk) : P unit :=
  goes_on <-- sync_enqueue l ;;
  if goes_on then
    s <-- get Executor.is_sync ;;
    if s then Ret tt
    else
      _ <-- modify (with_clone_closed None) ;;
      height <-- get Executor.get_current_height ;;
      next <-- lift (add_ 64 height 1) ;;
      modify (write_send next)
  else Ret tt.

(** Queries; what cannot be read answers with nothing. *)
Inductive Query : Type :=
| QueryCall (r : CallRequest) (id : BlockId)
| QueryCount (a : Address) (id : BlockId)
| QueryCode (a : Address) (id : BlockId).

Definition eth_call (r : CallRequest) (id : BlockId) : P (CallError + bytes) :=
  on_ext (Executor.eth_call sha3 encode_address_nonce LOCAL_STACK_SIZE native_factory Signature_default r id).

Definition reply_request (q : Query) : P unit :=
  match q with
  | QueryCall r id => x <-- eth_call r id ;; modify (publish (ResponseMsg (CallAnswer x)))
  | QueryCount a id =>
      e <-- get (fun e => e) ;;
      n <-- lift (Executor.nonce (L := L) (D := D) a id e) ;;
      n <-- lift (_ <- assert_ (default 0 n <? 2 ^ 64) ;; Ok (default 0 n)) ;;
      modify (publish (ResponseMsg (CountAnswer n)))
  | QueryCode a id =>
      e <-- get (fun e => e) ;;
      c <-- lift (Executor.code_at (L := L) (D := D) a id e) ;;
      modify (publish (ResponseMsg (CodeAnswer (default [] (default None c)))))
  end.

Inductive Msg : Type :=
| Request (q : Query)
| BlockWithProof (b : Blk) (p : Proof_)
| SyncResponse (l : list Blk)
| SignedProposal (b : Blk)
| RawBytes.

Definition distribute_msg (m : Msg) : P unit :=
  match m with
  | Request q => reply_request q
  | BlockWithProof b p => consensus_block_enqueue b p
  | SyncResponse l => deal_sync_blocks l
  | SignedProposal b => s <-- get Executor.is_sync ;; if s then Ret tt else proposal_enqueue b
  | RawBytes => Ret tt
  end.

(** ** The process

    Between two of its own accesses a thread may be interrupted by the other
    one.  A thread without work takes the next number from the channel, or,
    after some time, sends the result once more; the other one takes the next
    message, one of those that may arrive. *)
Record process : Type := mkProcess {
  shared : Inst;
  executing : P unit;
  receiving : P unit;
}.

Definition take_number (i : Inst) (rest : list Z) : Inst :=
  mkInst (ext i) (closed_block i) (clone_closed_block i) rest (ctx_pub i).

Inductive step (arrives : Msg -> Prop) : process -> process -> Prop :=
| step_execute i i' p p' r : pstep (i, p) (i', p') -> step arrives (mkProcess i p r) (mkProcess i' p' r)
| step_receive i i' p r r' : pstep (i, r) (i', r') -> step arrives (mkProcess i p r) (mkProcess i' p r')
| step_next i n rest r : write_channel i = n :: rest ->
    step arrives (mkProcess i (Ret tt) r) (mkProcess (take_number i rest) (execute_block n) r)
| step_timeout i r : write_channel i = [] -> step arrives (mkProcess i (Ret tt) r) (mkProcess i send_executed_info_to_chain r)
| step_message i p m : arrives m -> step arrives (mkProcess i p (Ret tt)) (mkProcess i p (distribute_msg m)).
End instance.
