(* ===== verification/ExecutorSpec.v ===== *)
(** * What the executor keeps in its store and reads from it

    The laws of the state database in the store, what can be read after a
    block was written, and the operations of the executor that leave the
    headers alone; the window of the hashes of the last blocks, with the
    instruction [BLOCKHASH] on it, and the lists of addresses the system
    contracts answer with. *)

From S2P Require Import Prelude Lru Evm SharedCache Account State StateSpec CommitSpec Executive ExecutiveSpec Block NativeStorage.
From S2P Require Import Codec CodecSpec ChainDb Chain ChainSpec SysConfig Executor.
From stdpp Require Import base gmap list strings.
Local Open Scope Z_scope.
Local Open Scope cita_scope.

(** The state database lives in a column of its own: neither journalling its
    changes nor forgetting an era touches the headers and the extra data. *)
Class StateStoreOk (S D : Type) {HD : Backend D} {HS : KvDb S} {HSS : StateStore S D} : Prop := {
  journal_keeps d n h s c k : c = COL_HEADERS \/ c = COL_EXTRA -> db_get (journal_under d n h s) c k = db_get s c k;
  canonical_keeps n h s c k : c = COL_HEADERS \/ c = COL_EXTRA -> db_get (mark_canonical n h s) c k = db_get s c k;
}.

Section spec.
  Context {HU : Util} {HR : RlpLib} {HRok : RlpLibOk} {HB : RlpBytes} {HBok : RlpBytesOk}.
  Context (hash_fits : forall b, fits 256 (crypt_hash b)).
  Context {L : Type} {HL : LruCache Z L} {D : Type} {HD : Backend D} {J : Type} {HJ : LruCache BitSet J}.
  Context {Proof_ : Type} {HP : Rlp Proof_} (proof_ok : Proof_ -> Prop) {HPok : RlpOk Proof_ proof_ok}.
  Context {S : Type} {HS : KvDb S} {HSok : KvDbOk S} {HSS : StateStore S D} {HSSok : StateStoreOk S D}.
Abbreviation Hdr := (Header (Proof_ := Proof_)).
Abbreviation Ex := (Executor.t (Proof_ := Proof_) (S := S) (J := J)).
Abbreviation hash_of_header := (header_hash (Proof_ := Proof_) rlp_out).

(** ** Reading and writing *)
Lemma key_hash_number h n : key_hash h <> key_number n.
Proof using. intros E%(f_equal length). rw key_hash_length in E. cbn in E. by rw to_be_length in E. Qed.

Lemma config_apart : key_hash CurrentConfig <> key_hash CurrentHash.
Proof using. intros E. vm_compute in E. done. Qed.

Lemma key_number_inj n m : fits 32 n -> fits 32 m -> key_number n = key_number m -> n = m.
Proof using.
  intros Hn Hm E. apply (f_equal tail) in E. exact (to_be_inj 4 n m Hn Hm E).
Qed.

(** ** Blocks in the store *)

(** The store has [h] as the current header, under its hash and its number. *)
Record records (d : S) (h : Hdr) : Prop := {
  rec_current : db_get d COL_EXTRA (key_hash CurrentHash) = Some (rlp_out (to_rlp (Rlp := Rlp_H256) (hash_of_header h)));
  rec_header : db_get d COL_HEADERS (key_hash (hash_of_header h)) = Some (rlp_out (to_rlp h));
  rec_number : db_get d COL_EXTRA (key_number (number h)) = Some (rlp_out (to_rlp (Rlp := Rlp_H256) (hash_of_header h)));
}.

(** A header that has its types is found again. *)
Lemma records_read d h : header_ok proof_ok h -> records d h ->
  Executor.get_current_header d = Ok (Some h) /\ Executor.block_hash d (number h) = Ok (Some (hash_of_header h)).
Proof using HRok HBok HPok hash_fits.
  intros Hh [H1 H2 H3]. unfold Executor.get_current_header, Executor.block_hash, read. rw H1 H3.
  assert (Hr : of_rlp (Rlp := Rlp_H256) (to_rlp (Rlp := Rlp_H256) (hash_of_header h)) = Some (hash_of_header h)).
  { apply (hash_round 32), hash_fits. }
  rw !rlp_parse_out. cbn [mbind option_bind]. rw Hr. cbn [expect obind]. rw H2 rlp_parse_out. cbn [mbind option_bind].
  by rw (rlp_round h).
Qed.

Lemma get_write {T} `{Rlp T} (d : S) c k c' k' (v : T) :
  db_get (db_write (write c k v) d) c' k' = if bool_decide ((c', k') = (c, k)) then Some (rlp_out (to_rlp v)) else db_get d c' k'.
Proof using HSok. apply db_get_put. Qed.

Lemma get_write_eq {T} `{Rlp T} (d : S) c k (v : T) : db_get (db_write (write c k v) d) c k = Some (rlp_out (to_rlp v)).
Proof using HSok. rw get_write. by rw bool_decide_eq_true_2. Qed.

Lemma get_write_ne {T} `{Rlp T} (d : S) c k c' k' (v : T) : c' <> c \/ k' <> k ->
  db_get (db_write (write c k v) d) c' k' = db_get d c' k'.
Proof using HSok. intros Hne. rw get_write. rw bool_decide_eq_false_2; [|done]. intros E. destruct Hne as [Hc|Hk]; [by apply Hc, (f_equal fst E)|by apply Hk, (f_equal snd E)]. Qed.

Lemma headers_extra : COL_HEADERS <> COL_EXTRA.
Proof using. done. Qed.

Lemma write_block_records h (d : D) s : records (Executor.write_block h d s) h.
Proof using HSok HSSok.
  unfold Executor.write_block, Executor.block_writes. split; (rw journal_keeps; [auto|]); rw !db_write_app.
  - rw get_write_ne; [right; apply key_hash_number|]. apply get_write_eq.
  - do 2 (rw get_write_ne; [left; apply headers_extra|]). apply get_write_eq.
  - apply get_write_eq.
Qed.

(** Other numbers still have their hashes. *)
Lemma write_block_number h (d : D) s n : fits 32 n -> fits 32 (number h) -> n <> number h ->
  db_get (Executor.write_block h d s) COL_EXTRA (key_number n) = db_get s COL_EXTRA (key_number n).
Proof using HSok HSSok.
  intros Hn Hm Hne. unfold Executor.write_block, Executor.block_writes. rw journal_keeps; [auto|]. rw !db_write_app.
  rw get_write_ne; [right; intros E; by apply Hne, key_number_inj|].
  rw get_write_ne; [right; intros E; by eapply key_hash_number|].
  rw get_write_ne; [left; intros E; by apply headers_extra|done].
Qed.

(** Stores with the same headers and the same table of numbers. *)
Definition same_blocks (d d' : S) : Prop :=
  (forall k, db_get d' COL_HEADERS k = db_get d COL_HEADERS k) /\
  (forall n, db_get d' COL_EXTRA (key_number n) = db_get d COL_EXTRA (key_number n)) /\
  db_get d' COL_EXTRA (key_hash CurrentHash) = db_get d COL_EXTRA (key_hash CurrentHash).

#[export] Instance same_blocks_preorder : PreOrder same_blocks.
Proof using.
  split; [done|]. intros d1 d2 d3 (H1 & H2 & H3) (G1 & G2 & G3). split_and!; [intros k; by rw G1|intros n; by rw G2|by rw G3].
Qed.

Lemma records_same d d' h : same_blocks d d' -> records d h -> records d' h.
Proof using. intros (H1 & H2 & H3) []. by split; rw ?H1 ?H2 ?H3. Qed.

Lemma config_same (v : bytes) s : same_blocks s (db_write (write (H := Rlp_vec) COL_EXTRA (key_hash CurrentConfig) v) s).
Proof using HSok.
  split_and!; intros; (rw get_write_ne; [|done]); [left; apply headers_extra|right; intros E; by eapply key_hash_number|].
  right. intros E. by apply config_apart.
Qed.

Lemma prune_same fuel n s s' : Executor.prune_eras fuel n s = Ok (Some s') -> same_blocks s s'.
Proof using HSSok.
  revert s. induction fuel as [|fuel IH]; intros s; [done|]. cbn [Executor.prune_eras].
  destruct (earliest_era s) as [era|]; [|by intros [= ->]]. destruct (add_ 64 era 2) as [keep| |]; [|done..]. cbn [obind].
  destruct (keep <=? n); [|by intros [= ->]]. destruct (Executor.block_hash s era) as [[hash|]| |]; [|by apply IH|done..]. cbn [obind].
  intros H%IH. etransitivity; [|exact H]. split_and!; intros; apply canonical_keeps; auto.
Qed.

Lemma write_batch_records fuel cb (e : Ex) e' : Executor.write_batch (L := L) (D := D) fuel cb e = (Ok tt, e') ->
  exists d, e' = Executor.set_store d e /\ records d (Executor.cb_header cb).
Proof using HSok HSSok.
  unfold Executor.write_batch, Executor.prune_ancient. set (s := Executor.write_block _ _ _).
  assert (Hs : records s (Executor.cb_header cb)) by apply write_block_records.
  destruct (latest_era s) as [n|]; [|intros [= <-]; by eexists].
  destruct (Executor.prune_eras fuel n s) as [[d|]| |] eqn:E; [|done..]. intros [= <-]. eexists. split; [done|].
  eapply records_same; [by eapply prune_same|done].
Qed.

(** ** Read-only calls *)

(** Only the cached hashes and the cache of jump tables change. *)
Definition calls (e e' : Ex) : Prop := exists l j, e' = Executor.set_jumps j (Executor.set_last_hashes l e).

#[export] Instance calls_preorder : PreOrder calls.
Proof using.
  split; [intros e; exists (Executor.last_hashes e), (Executor.jumps e); by destruct e|]. intros [] e2 e3 (l & j & ->) (l' & j' & ->). by exists l', j'.
Qed.

(** An operation that moves the executor along a preorder. *)
Definition moves (R : relation Ex) {A} (c : M void Ex A) : Prop := forall e, R e (c e).2.

Definition calling {A} (c : M void Ex A) : Prop := moves calls c.

Section moves.
  Context (R : relation Ex) {R_pre : PreOrder R}.

Lemma moves_ret {A} (a : A) : moves R (sret a).
Proof using R_pre. intros e. reflexivity. Qed.
Lemma moves_lift {A} (c : outcome void A) : moves R (slift c).
Proof using R_pre. intros e. reflexivity. Qed.
Lemma moves_get : moves R sget.
Proof using R_pre. intros e. reflexivity. Qed.
Lemma moves_bind_at {A B} (c : M void Ex A) (k : A -> M void Ex B) e :
  R e (c e).2 -> (forall a, moves R (k a)) -> R e (sbind c k e).2.
Proof using R_pre.
  intros Hc Hk. unfold sbind. destruct (c e) as [[a|err|] e1]; [|done|done]. by etransitivity; [|apply Hk].
Qed.
Lemma moves_bind {A B} (c : M void Ex A) (k : A -> M void Ex B) : moves R c -> (forall a, moves R (k a)) -> moves R (sbind c k).
Proof using R_pre. intros Hc Hk e. by apply moves_bind_at. Qed.
End moves.

Lemma calling_hashes l : calling (smodify (Executor.set_last_hashes l)).
Proof using. intros e. exists l, (Executor.jumps e). by destruct e. Qed.

Lemma build_last_hashes_calling p n : calling (Executor.build_last_hashes p n).
Proof using.
  unfold calling, Executor.build_last_hashes. apply moves_bind; [apply _|apply moves_get, _|]. intros e.
  apply moves_bind; [apply _|apply moves_lift, _|]. intros h. case_bool_decide; [apply moves_ret, _|].
  apply moves_bind; [apply _|apply moves_lift, _|]. intros l. apply moves_bind; [apply _|apply calling_hashes|]. intros _.
  apply moves_ret, _.
Qed.

  Context (sha3 : bytes -> H256) (encode_address_nonce : Address -> U256 -> bytes).
  Context (LOCAL_STACK_SIZE : Z) (native_factory : NativeFactory).
  Context (bin_serialize : list GlobalSysConfig -> bytes) (Signature_default : bytes).
  Context (sha3_256 : bytes -> H256) (abi_decode : list ParamType -> bytes -> option (list Token)).
Abbreviation Call := (Executor.call (L := L) (Proof_ := Proof_) sha3 encode_address_nonce LOCAL_STACK_SIZE native_factory).

Lemma call_calling stx id : calling (Call stx id).
Proof using.
  intros e0. unfold Executor.call. apply (moves_bind_at calls (slift _)); [reflexivity|]. intros [h|]; [|apply moves_ret, _].
  apply moves_bind; [apply _|apply build_last_hashes_calling|]. intros l. apply moves_bind; [apply _|apply moves_lift, _|].
  intros [s|]; [|apply moves_ret, _]. apply moves_bind; [apply _|apply moves_lift, _|]. intros conf e.
  destruct (transact _ _ _ _ _ _ _ _) as [r ses]. exists (Executor.last_hashes e), (ses_jumps ses). by destruct e.
Qed.

(** A call leaves the hashes it was given. *)
Lemma call_hashes stx id h e : Executor.block_header id e = Ok (Some h) ->
  Executor.last_hashes (Call stx id e).2 = Executor.last_hashes (Executor.build_last_hashes None (number h) e).2.
Proof using.
  intros Hh. unfold Executor.call. unfold sbind at 1, slift at 1. rw Hh. unfold sbind at 1.
  destruct (Executor.build_last_hashes None (number h) e) as [[l|err|] e1]; [|done|done].
  unfold sbind at 1, slift at 1. destruct (Executor.state_at id e) as [[s|]|err|]; [|done..].
  unfold sbind, slift. destruct (get_current_sys_conf _ _) as [conf|err|]; [|done..]. by destruct (transact _ _ _ _ _ _ _ _).
Qed.

(** Every reader of a system contract. *)
Ltac moves_tac :=
  repeat first
    [ apply moves_ret, _ | apply moves_lift, _ | apply moves_get, _
    | apply moves_bind; [apply _| |intros ?] ].

Abbreviation read_config := (Executor.read_config (L := L) (Proof_ := Proof_) (S := S) (J := J) sha3 encode_address_nonce LOCAL_STACK_SIZE
  native_factory Signature_default sha3_256 abi_decode).

(** Reading the configuration calls at the latest block only. *)
Lemma read_config_moves (R : relation Ex) {R_pre : PreOrder R} : (forall stx, moves R (Call stx Latest)) -> moves R read_config.
Proof using.
  intros Hc. unfold Executor.read_config, Executor.load_senders, Executor.load_creators, Executor.query_users, Executor.read_nodes,
    Executor.block_gas_limit, Executor.account_gas_limit, Executor.valid_number, Executor.permission_check, Executor.quota_check,
    Executor.specific, Executor.users, Executor.quota, Executor.query_u64, Executor.query, Executor.call_contract_method,
    Executor.latest_call, Executor.eth_call.
  repeat first [apply Hc|moves_tac].
Qed.

(** Reloading the configuration changes the queue of configurations and its
    record in the store. *)
Definition reloads (e e' : Ex) : Prop :=
  exists e1 confs d, calls e e1 /\ same_blocks (Executor.store e1) d /\ e' = Executor.set_store d (Executor.set_configs confs e1).

Lemma reload_config_reloads e e' :
  Executor.reload_config sha3 encode_address_nonce LOCAL_STACK_SIZE native_factory bin_serialize Signature_default sha3_256 abi_decode e
    = (Ok tt, e') -> reloads e e'.
Proof using HSok.
  unfold Executor.reload_config, sbind. pose proof (read_config_moves calls (fun stx => call_calling stx Latest) e) as Hc.
  destruct (read_config e) as [[conf|err|] e1]; [|done|done]. cbn [fst snd sget] in *.
  unfold slift. destruct (note_config _ _ _) as [[confs [|]]|err|]; [..|done|done]; intros [= <-].
  - exists e1, confs. eexists. split; [done|]. split; [apply config_same|]. by destruct e1.
  - exists e1, confs, (Executor.store e1). split; [done|]. split; [reflexivity|]. by destruct e1.
Qed.
End spec.

(** ** Hashes of the last blocks *)

(** The hashes of the 256 blocks up to [n], the newest one first. *)
Definition hash_at (hash : Z -> H256) (k : Z) : H256 := if 0 <=? k then hash k else 0.
Definition window (hash : Z -> H256) (n : Z) : list H256 := (fun i => hash_at hash (n - Z.of_nat i)) <$> seq 0 256.

Lemma hash_window_length hash n : length (window hash n) = 256%nat.
Proof. unfold window. by rw length_fmap length_seq. Qed.

Lemma window_lookup hash n i : (i < 256)%nat -> window hash n !! i = Some (hash_at hash (n - Z.of_nat i)).
Proof. intros Hi. unfold window. rw list_lookup_fmap lookup_seq_lt; [done|done]. Qed.

Lemma window_head hash n : 0 <= n -> head (window hash n) = Some (hash n).
Proof. intros Hn. change (Some (hash_at hash (n - 0)) = Some (hash n)). unfold hash_at. rw Z.sub_0_r. by rw (proj2 (Z.leb_le _ _) Hn). Qed.

Lemma window_fits hash n : (forall k, fits 256 (hash k)) -> Forall (fits 256) (window hash n).
Proof. intros Hf. apply Forall_fmap, Forall_true. intros i. cbn. unfold hash_at. by case_match. Qed.

(** The window moves by one block. *)
Lemma window_next hash n : 0 <= n + 1 -> window hash (n + 1) = hash (n + 1) :: removelast (window hash n).
Proof.
  intros Hn. unfold window at 1. change (seq 0 256) with (0%nat :: seq 1 255). rw fmap_cons Z.sub_0_r. unfold hash_at at 1. rw (proj2 (Z.leb_le _ _) Hn). f_equal.
  unfold window. rw (seq_app 255 1 0) fmap_app (removelast_last _ (hash_at hash (n - Z.of_nat 255))). apply list_eq_same_length with 255%nat; [by rw length_fmap length_seq..|].
  intros i x y Hi. rw !list_lookup_fmap !lookup_seq_lt; [done|done|]. cbn. intros [= <-] [= <-]. f_equal. lia.
Qed.

Section hashes.
  Context {HU : Util} {HR : RlpLib} {HB : RlpBytes}.
  Context {L : Type} {HL : LruCache Z L} {D : Type} {HD : Backend D} {J : Type} {HJ : LruCache BitSet J}.
  Context {Proof_ : Type} {HP : Rlp Proof_} {S : Type} {HS : KvDb S} {HSS : StateStore S D}.
Abbreviation Ex := (Executor.t (Proof_ := Proof_) (S := S) (J := J)).

(** The store has the hashes of the blocks up to [n]. *)
Definition hashes_upto (d : S) (hash : Z -> H256) (n : Z) : Prop :=
  forall k, 0 <= k <= n -> Executor.block_hash d k = Ok (Some (hash k)).

Lemma older_hashes_exact d hash m n : hashes_upto d hash (n - 1) ->
  Executor.older_hashes d m n = Ok ((fun i => hash (n - 1 - Z.of_nat i)) <$> seq 0 (min m (Z.to_nat n))).
Proof using.
  revert n. induction m as [|m IH]; intros n Hd; [done|]. cbn [Executor.older_hashes].
  destruct (Z.ltb_spec n 1) as [Hlt|Hle]; [by rw (_ : Z.to_nat n = 0%nat); [lia|]|].
  rw (Hd (n - 1)); [lia|]. cbn [obind]. rw (IH (n - 1)); [intros k Hk; apply Hd; lia|]. cbn [obind].
  rw (_ : min (Datatypes.S m) (Z.to_nat n) = Datatypes.S (min m (Z.to_nat (n - 1)))); [lia|]. cbn [seq fmap list_fmap].
  rw Z.sub_0_r -fmap_S_seq. do 2 f_equal. rw -list_fmap_compose. apply list_fmap_ext. intros i x _. cbn. f_equal. lia.
Qed.

Lemma window_built d hash n : 0 <= n -> hashes_upto d hash (n - 1) -> exists l, Executor.older_hashes d 255 n = Ok l /\
  resize 256 0 (hash n :: l) = window hash n.
Proof using.
  intros Hn Hd. eexists. split; [by apply older_hashes_exact|]. set (m := min 255 (Z.to_nat n)).
  apply list_eq_same_length with 256%nat; [apply hash_window_length|apply length_resize|]. intros i x y Hi.
  rw window_lookup; [done|]. intros Hx [= <-]. revert Hx. unfold hash_at.
  destruct i as [|i]; [cbn; intros [= <-]; by rw Z.sub_0_r (proj2 (Z.leb_le _ _) Hn)|].
  destruct (Nat.lt_ge_cases i m) as [Hlt|Hge].
  - rw lookup_resize; [done|rw length_cons length_fmap length_seq; fold m; lia|]. cbn [lookup list_lookup].
    rw list_lookup_fmap lookup_seq_lt; [done|]. cbn. intros [= <-]. rw (proj2 (Z.leb_le _ _)); [lia|]. f_equal. lia.
  - rw lookup_resize_new; [rw length_cons length_fmap length_seq; fold m; lia|done|]. intros [= <-]. by rw (proj2 (Z.leb_gt _ _)); [lia|].
Qed.

Lemma build_window (e : Ex) hash p n : 0 <= n -> hashes_upto (Executor.store e) hash n -> p = None \/ p = Some (hash n) ->
  head (Executor.last_hashes e) <> Some (hash n) ->
  Executor.build_last_hashes p n e = (Ok (window hash n), Executor.set_last_hashes (window hash n) e).
Proof using.
  intros Hn Hd Hp Hh. unfold Executor.build_last_hashes, sbind, sget, slift, sret, smodify.
  assert (Hv : match p with Some h => Ok h | None => h <- Executor.block_hash (Executor.store e) n ;; expect h end = Ok (hash n)).
  { destruct Hp as [-> | ->]; [|done]. by rw Hd; [lia|]. }
  rw Hv bool_decide_eq_false_2; [done|].
  destruct (window_built (Executor.store e) hash n Hn) as (l & -> & ->); [intros k Hk; apply Hd; lia|done].
Qed.

(** The cached hashes are the window that ends at the current block, and the
    store has the hashes of all blocks up to it. *)
Record in_window (hash : Z -> H256) (e : Ex) : Prop := {
  iw_number : fits 32 (number (Executor.current_header e));
  iw_current : hash (number (Executor.current_header e)) = Executor.get_current_hash e;
  iw_store : hashes_upto (Executor.store e) hash (number (Executor.current_header e));
  iw_hashes : Executor.last_hashes e = window hash (number (Executor.current_header e));
}.

Lemma resize_window hash n : resize 256 0 (window hash n) = window hash n.
Proof using. apply resize_all_alt. by rw hash_window_length. Qed.

(** Looking at the current block leaves the window. *)
Lemma build_known hash e : in_window hash e ->
  Executor.build_last_hashes None (number (Executor.current_header e)) e = (Ok (Executor.last_hashes e), e).
Proof using.
  intros [Hn Hc Hs Hl]. unfold Executor.build_last_hashes, sbind, sget, slift, sret. rw Hs; [destruct Hn; lia|]. cbn [obind expect].
  rw bool_decide_eq_true_2; [rw Hl; apply window_head; destruct Hn; lia|]. by rw Hl resize_window.
Qed.

Lemma in_window_jumps hash j e : in_window hash e -> in_window hash (Executor.set_jumps j e).
Proof using. by intros []. Qed.

(** The relation between executors that differ in their jump tables. *)
Definition rejumped (hash : Z -> H256) (e e' : Ex) : Prop := in_window hash e -> exists j, e' = Executor.set_jumps j e.

#[export] Instance rejumped_preorder hash : PreOrder (rejumped hash).
Proof using.
  split; [intros e _; exists (Executor.jumps e); by destruct e|]. intros e1 e2 e3 H1 H2 Hw.
  destruct (H1 Hw) as [j ->]. destruct (H2 (in_window_jumps _ _ _ Hw)) as [j' ->]. by exists j'.
Qed.
End hashes.

(** ** Blocks and the window *)
Section windows.
  Context {HU : Util} {HR : RlpLib} {HRok : RlpLibOk} {HB : RlpBytes} {HBok : RlpBytesOk} (hash_fits : forall b, fits 256 (crypt_hash b)).
  Context {L : Type} {HL : LruCache Z L} {D : Type} {HD : Backend D} {J : Type} {HJ : LruCache BitSet J}.
  Context {Proof_ : Type} {HP : Rlp Proof_}.
  Context {S : Type} {HS : KvDb S} {HSok : KvDbOk S} {HSS : StateStore S D} {HSSok : StateStoreOk S D}.
  Context (sha3 : bytes -> H256) (encode_address_nonce : Address -> U256 -> bytes).
  Context (LOCAL_STACK_SIZE : Z) (native_factory : NativeFactory).
  Context (bin_serialize : list GlobalSysConfig -> bytes) (Signature_default : bytes).
  Context (sha3_256 : bytes -> H256) (abi_decode : list ParamType -> bytes -> option (list Token)).
Abbreviation Ex := (Executor.t (Proof_ := Proof_) (S := S) (J := J)).
Abbreviation Call := (Executor.call (L := L) (Proof_ := Proof_) sha3 encode_address_nonce LOCAL_STACK_SIZE native_factory).

(** A call at the current block leaves the window. *)
Lemma call_rejumps hash stx id (e : Ex) : Executor.block_header id e = Ok (Some (Executor.current_header e)) ->
  rejumped hash e (Call stx id e).2.
Proof using.
  intros Hh Hw. unfold Executor.call. unfold sbind at 1, slift at 1. rw Hh. unfold sbind at 1. rw (build_known hash e Hw).
  assert (Hid : exists j, e = Executor.set_jumps j e) by (exists (Executor.jumps e); by destruct e).
  unfold sbind at 1, slift at 1. destruct (Executor.state_at id e) as [[s|]|err|]; [|done..].
  unfold sbind, slift. destruct (get_current_sys_conf _ _) as [conf|err|]; [|done..].
  destruct (transact _ _ _ _ _ _ _ _) as [r ses]. by eexists.
Qed.

Lemma latest_header (e : Ex) : Executor.block_header Latest e = Ok (Some (Executor.current_header e)).
Proof using. cbn. unfold Executor.block_header_by_height, Executor.get_current_height. by rw Z.eqb_refl. Qed.

Lemma same_blocks_hash (d d' : S) n : same_blocks d d' -> Executor.block_hash d' n = Executor.block_hash d n.
Proof using. intros (_ & H & _). unfold Executor.block_hash, read. by rw H. Qed.

(** So does reloading the configuration. *)
Lemma reload_window hash (e e' : Ex) : in_window hash e ->
  Executor.reload_config sha3 encode_address_nonce LOCAL_STACK_SIZE native_factory bin_serialize Signature_default sha3_256 abi_decode e
    = (Ok tt, e') -> in_window hash e' /\ Executor.current_header e' = Executor.current_header e.
Proof using HSok.
  intros Hw. unfold Executor.reload_config, sbind.
  destruct (read_config_moves sha3 encode_address_nonce LOCAL_STACK_SIZE native_factory Signature_default sha3_256 abi_decode
    (rejumped hash) (fun stx e => call_rejumps hash stx Latest e (latest_header e)) e Hw) as [j Hj].
  destruct (Executor.read_config _ _ _ _ _ _ _ e) as [[conf|err|] e1]; [|done|done]. cbn [fst snd sget] in *. subst e1.
  destruct Hw as [Hn Hc Hs Hl].
  unfold slift. destruct (note_config _ _ _) as [[confs [|]]|err|]; [..|done|done]; intros [= <-]; (split; [split|]; try done).
  intros k Hk. rw -Hs; [done|]. apply same_blocks_hash, config_same.
Qed.

(** Writing the next block records its hash and keeps the others. *)
Lemma write_batch_hashes fuel (cb : Executor.ClosedBlock (L := L) (D := D) (Proof_ := Proof_)) (e : Ex) e' hash n :
  let h := Executor.cb_header cb in
  fits 32 n -> number h = n + 1 -> fits 32 (number h) -> hashes_upto (Executor.store e) hash n ->
  Executor.write_batch fuel cb e = (Ok tt, e') ->
  exists d, e' = Executor.set_store d e /\
    hashes_upto d (fun k => if k =? n + 1 then header_hash rlp_out h else hash k) (n + 1).
Proof using HRok HBok HSok HSSok hash_fits.
  intros h [Hn0 Hn1] Hh Hf Hs. unfold Executor.write_batch, Executor.prune_ancient. set (s := Executor.write_block _ _ _).
  assert (Hw : hashes_upto s (fun k => if k =? n + 1 then header_hash rlp_out h else hash k) (n + 1)).
  { intros k Hk. unfold Executor.block_hash, read, s. destruct (decide (k = n + 1)) as [->|Hne].
    - rw -Hh (rec_number _ _ (write_block_records h _ _)) rlp_parse_out. cbn [mbind option_bind].
      assert (Hr : of_rlp (Rlp := Rlp_H256) (to_rlp (Rlp := Rlp_H256) (header_hash rlp_out h)) = Some (header_hash rlp_out h))
        by apply (hash_round 32), hash_fits. by rw Hr Z.eqb_refl.
    - rw (proj2 (Z.eqb_neq _ _) Hne) write_block_number; [split; lia|done|unfold h in *; lia|]. apply Hs. lia. }
  destruct (latest_era s) as [m|]; [|intros [= <-]; by exists s].
  destruct (Executor.prune_eras fuel m s) as [[d|]| |] eqn:E; [|done..]. intros [= <-]. exists d. split; [done|].
  intros k Hk. rw -Hw; [done|]. eapply same_blocks_hash, prune_same, E.
Qed.

(** Finalizing the next block moves the window along. *)
Lemma next_window hash (e : Ex) d h : in_window hash e -> number h = number (Executor.current_header e) + 1 -> fits 32 (number h) ->
  let hash' k := if k =? number h then header_hash rlp_out h else hash k in
  hashes_upto d hash' (number h) ->
  in_window hash' (Executor.update_last_hashes (header_hash rlp_out h) (Executor.set_header h (Executor.set_store d e))).
Proof using.
  intros [[Hn _] Hc Hs Hl] Hh Hf hash' Hd. split; [done|cbn; unfold hash', Executor.get_current_hash; by rw Z.eqb_refl|done|].
  unfold Executor.update_last_hashes. cbn [Executor.last_hashes Executor.set_last_hashes Executor.set_header Executor.set_store Executor.current_header].
  rw Hl. unfold zlen. rw hash_window_length. cbn [Z.ltb Z.compare Z.of_nat].
  rw Hh window_next; [lia|]. unfold hash' at 1. rw -Hh Z.eqb_refl. f_equal. f_equal.
  unfold window. apply list_fmap_ext. intros k x _. unfold hash_at, hash'. case_match; [|done].
  rw (proj2 (Z.eqb_neq _ _)); [lia|done].
Qed.
End windows.

(** ** [BLOCKHASH] *)
Section blockhash.
  Context {L : Type} {D : Type} {J : Type}.

(** On a window that ends [d] blocks below the block executed, the hashes are
    those of other blocks unless [d] is 1. *)
Lemma blockhash_window hash info n k (x : env (L := L) (D := D) (J := J)) :
  EnvInfo.last_hashes info = window hash n -> fits 64 (EnvInfo.number info) -> 0 <= k < EnvInfo.number info ->
  EnvInfo.number info - 256 <= k ->
  env_blockhash info k x = (Ok (hash_at hash (n - (EnvInfo.number info - k - 1))), x).
Proof using.
  intros Hl Hf Hk Hr. destruct Hf as [_ Hf]. unfold env_blockhash. rw (proj2 (Z.ltb_lt _ _)); [lia|]. rw low_u64_small; [split; lia|].
  rw (proj2 (Z.leb_le _ _)); [lia|]. unfold slift. rw sub_ok; [lia|]. cbn [obind]. rw sub_ok; [lia|]. cbn [obind].
  set (i := EnvInfo.number info - k - 1). rw Hl. rw (proj2 (Z.ltb_lt i _)); [unfold zlen; rw hash_window_length; unfold i; lia|].
  cbn [assert_ obind]. unfold index. rw (proj2 (Z.leb_le 0 i)); [unfold i; lia|]. rw window_lookup; [unfold i; lia|].
  by rw Z2Nat.id; [unfold i; lia|].
Qed.

Lemma blockhash_outside info k (x : env (L := L) (D := D) (J := J)) : fits 64 (EnvInfo.number info) -> fits 256 k ->
  k < EnvInfo.number info - 256 \/ EnvInfo.number info <= k -> env_blockhash info k x = (Ok 0, x).
Proof using.
  intros [_ Hf] [Hk _] Hr. unfold env_blockhash. destruct (Z.ltb_spec k (EnvInfo.number info)) as [Hlt|]; [|done].
  rw low_u64_small; [split; lia|]. by rw (proj2 (Z.leb_gt _ _)); [lia|].
Qed.
End blockhash.

(** ** Lists of addresses *)

(** A list of addresses the way the ABI encodes it: the offset of the list,
    its length, and 32 bytes for each address. *)
Definition abi_addresses (l : list Address) : bytes := to_be 32 32 ++ to_be 32 (zlen l) ++ concat (to_be 32 <$> l).

Lemma words_length (l : list Z) : length (concat (to_be 32 <$> l)) = (32 * length l)%nat.
Proof. induction l as [|a l IH]; [done|]. cbn [fmap list_fmap concat length]. rw length_app to_be_length IH. lia. Qed.

Lemma zlen_abi n l : zlen (to_be 32 32 ++ to_be 32 n ++ concat (to_be 32 <$> l)) = 64 + zlen l * 32.
Proof. rw (zlen_app (to_be 32 32)) (zlen_app (to_be 32 n)). unfold zlen. rw (to_be_length 32 32) (to_be_length 32 n) words_length. lia. Qed.

Lemma abi_split l l' : abi_addresses (l ++ l') = (to_be 32 32 ++ to_be 32 (zlen (l ++ l')) ++ concat (to_be 32 <$> l)) ++ concat (to_be 32 <$> l').
Proof. unfold abi_addresses. by rw fmap_app concat_app -(app_assoc (to_be 32 32)) -(app_assoc (to_be 32 _)). Qed.

Lemma to_be_app m n x : to_be (m + n) x = to_be m (x / 256 ^ Z.of_nat n) ++ to_be n x.
Proof.
  revert x. induction n as [|n IH]; intros x; [by rw Nat.add_0_r Z.div_1_r app_nil_r|].
  rw Nat.add_succ_r /to_be -/to_be IH -app_assoc Z.div_div; [done|lia|]. do 3 f_equal. rw Nat2Z.inj_succ Z.pow_succ_r; lia.
Qed.

Lemma word_slice {E} (pre w post : bytes) k : length w = 32%nat -> (k <= 32)%nat ->
  slice (E := E) (pre ++ w ++ post) (zlen pre + Z.of_nat k) (zlen pre + 32) = Ok (drop k w).
Proof.
  intros Hw Hk. rw slice_ok; [unfold zlen; lia|lia|rw !zlen_app; unfold zlen; lia|]. f_equal. unfold zlen.
  rw (_ : Z.to_nat (Z.of_nat (length pre) + Z.of_nat k) = (length pre + k)%nat); [lia|]. rw drop_app_add drop_app_le; [lia|].
  rw take_app_length'; [rw length_drop; lia|done].
Qed.

Lemma drop_word a : drop 12 (to_be 32 a) = to_be 20 a.
Proof. rw (to_be_app 12 20) (drop_app_length' (to_be 12 _)); [by rw to_be_length|done]. Qed.

Section parse.
  Context {HU : Util}.

Lemma parse_addresses_ok l1 l2 fuel : Forall (fits 160) l2 -> (length l2 <= fuel)%nat ->
  Executor.parse_addresses fuel (abi_addresses (l1 ++ l2)) (zlen l1) (zlen (l1 ++ l2)) = Ok l2.
Proof using.
  revert l1 fuel. induction l2 as [|a l2 IH]; intros l1 fuel Hf Hl.
  { rw app_nil_r. destruct fuel; cbn; by rw Z.leb_refl. }
  destruct fuel as [|fuel]; [cbn in Hl; lia|]. apply Forall_cons in Hf as [Ha Hf]. cbn [Executor.parse_addresses].
  rw (proj2 (Z.leb_gt _ _)); [rw zlen_app zlen_cons; pose proof (zlen_nonneg l2); lia|].
  set (n := zlen (l1 ++ a :: l2)). assert (Hw := word_slice (E := void) (to_be 32 32 ++ to_be 32 n ++ concat (to_be 32 <$> l1)) (to_be 32 a)
    (concat (to_be 32 <$> l2)) 12 (to_be_length _ _) ltac:(lia)).
  rw zlen_abi in Hw.
  rw abi_split. cbn [fmap list_fmap concat]. fold n. rw Hw. cbn [obind].
  rw drop_word of_be_to_be Z.mod_small; [exact Ha|]. specialize (IH (l1 ++ [a]) fuel Hf ltac:(cbn in Hl; lia)).
  rw -app_assoc zlen_app in IH. cbn [app] in IH. rw abi_split in IH. cbn [fmap list_fmap concat] in IH. fold n in IH.
  change (zlen [a]) with 1 in IH. by rw IH.
Qed.

Lemma parse_abi l : Forall (fits 160) l -> zlen l < 2 ^ 64 -> Executor.parse_output_to_addresses (abi_addresses l) = Ok l.
Proof using.
  intros Hf Hl. assert (Hn : zlen (abi_addresses l) = 64 + zlen l * 32) by apply zlen_abi.
  unfold Executor.parse_output_to_addresses. pose proof (zlen_nonneg l). rw (proj2 (Z.ltb_lt _ _)); [lia|].
  assert (Hw := word_slice (E := void) (to_be 32 32) (to_be 32 (zlen l)) (concat (to_be 32 <$> l)) 0 (to_be_length _ _) ltac:(lia)).
  change (zlen (to_be 32 32) + Z.of_nat 0) with 32 in Hw. change (zlen (to_be 32 32) + 32) with 64 in Hw.
  unfold abi_addresses at 1. rw Hw. cbn [obind drop]. rw of_be_to_be Z.mod_small; [split; [lia|]; transitivity (2 ^ 64); [lia|done]|].
  rw (proj2 (Z.ltb_lt _ _) Hl). cbn [assert_ obind]. apply (parse_addresses_ok [] l); [done|]. unfold zlen in Hn. lia.
Qed.
End parse.
