(* ===== verification/InstanceSpec.v ===== *)
(** * The executing thread under interference

    What the executing thread does to the headers, whatever the receiving
    thread does at the same time: the store always has the current header, or
    the next one when a block is being finalized, and every block executed
    directly follows the current one. *)

From S2P Require Import Prelude Lru Evm SharedCache Account State Executive Block Codec CodecSpec ChainDb Chain SysConfig.
From S2P Require Import Executor Threads Instance ExecutorSpec.
From stdpp Require Import base gmap list strings.
Local Open Scope Z_scope.
Local Open Scope cita_scope.

Section spec.
  Context {HU : Util} {HR : RlpLib} {HB : RlpBytes}.
  Context {L : Type} {HL : LruCache Z L} {D : Type} {HD : Backend D} {J : Type} {HJ : LruCache BitSet J}.
  Context (sha3 : bytes -> H256) (encode_address_nonce : Address -> U256 -> bytes).
  Context (LOCAL_STACK_SIZE : Z) (native_factory : NativeFactory).
  Context (from_bloomed : H256 -> Z) (with_bloomed : Z -> H256 -> Z).
  Context {Proof_ : Type} {Proof_eq : EqDecision Proof_} {HP : Rlp Proof_}.
  Context (Proof_new : Proof_) (get_field_type : Proof_ -> ProofType).
  Context {S : Type} {HS : KvDb S} {HSok : KvDbOk S} {HSS : StateStore S D} {HSSok : StateStoreOk S D}.
  Context (complete_merkle_root : list bytes -> H256) (bin_serialize : list GlobalSysConfig -> bytes).
  Context (Signature_default : bytes) (sha3_256 : bytes -> H256) (abi_decode : list ParamType -> bytes -> option (list Token)).
  Context (tendermint_height : Proof_ -> Z) (proof_check : Proof_ -> Z -> list Address -> bool).
  Context (check_hash : Block (Proof_ := Proof_) -> bool) (prune_fuel : nat).
Abbreviation Hdr := (Header (Proof_ := Proof_)).
Abbreviation Blk := (Block (Proof_ := Proof_)).
Abbreviation Closed := (Executor.ClosedBlock (Proof_ := Proof_) (D := D) (L := L)).
Abbreviation Queue := (gmap Z (Executor.BlockInQueue (Proof_ := Proof_))).
Abbreviation I := (Inst (Proof_ := Proof_) (S := S) (J := J) (D := D) (L := L)).
Abbreviation current i := (Executor.current_header (ext i)).
Abbreviation finalize_block := (finalize_block (D := D) (L := L) sha3 encode_address_nonce LOCAL_STACK_SIZE native_factory bin_serialize
  Signature_default sha3_256 abi_decode prune_fuel).
Abbreviation ext_execute_block := (ext_execute_block (D := D) (L := L) sha3 encode_address_nonce LOCAL_STACK_SIZE native_factory
  from_bloomed with_bloomed complete_merkle_root bin_serialize Signature_default sha3_256 abi_decode prune_fuel).
Abbreviation close_block := (close_block (D := D) (L := L) (S := S) (J := J) sha3 encode_address_nonce LOCAL_STACK_SIZE native_factory
  from_bloomed with_bloomed complete_merkle_root).

(** [h'] is the header of a block that follows [h]. *)
Definition linked (h h' : Hdr) : Prop := number h' = number h + 1 /\ parent_hash h' = header_hash rlp_out h.

(** How headers may follow each other. *)
Context (Link : Hdr -> Hdr -> Prop) (link_linked : forall h h', linked h h' -> Link h h') (start : Hdr).

(** Without proposals, unless any header may follow any other. *)
Definition calm (m : Queue) : Prop := (forall h h', Link h h') \/ forall n b, m !! n <> Some (Executor.Proposal b).

(** What only the executing thread changes. *)
Record owned (i i' : I) : Prop := {
  ow_header : current i' = current i;
  ow_sync : Executor.is_sync (ext i') = Executor.is_sync (ext i);
  ow_stage : Executor.stage (ext i') = Executor.stage (ext i);
  ow_store : Executor.store (ext i') = Executor.store (ext i);
  ow_result : Executor.executed_result (ext i') = Executor.executed_result (ext i);
  ow_prooftype : Executor.check_prooftype (ext i') = Executor.check_prooftype (ext i);
  ow_configs : Executor.sys_configs (ext i') = Executor.sys_configs (ext i);
  ow_closed : closed_block i' = closed_block i;
}.

Definition rely (i i' : I) : Prop := owned i i' /\ (calm (Executor.block_map (ext i)) -> calm (Executor.block_map (ext i'))).

#[local] Instance rely_refl : Reflexive rely.
Proof using. intros i. split; [by split|done]. Qed.
#[local] Instance rely_trans : Transitive rely.
Proof using.
  intros i1 i2 i3 [[] H1] [[] H2]. split; [split; congruence|]. auto.
Qed.

(** At every moment. *)
Definition disk (i : I) : Prop :=
  exists h, records (Executor.store (ext i)) h /\ (h = current i \/ Link (current i) h).
Definition sound (i : I) : Prop := disk i /\ rtc Link start (current i).

Lemma sound_rely i i' : rely i i' -> sound i -> sound i'.
Proof using.
  intros [Ho _] [(h & H1 & H2) H3]. unfold sound, disk. rw (ow_header _ _ Ho) (ow_store _ _ Ho). split; [by exists h|done].
Qed.

Definition guar (_ i' : I) : Prop := sound i'.
Abbreviation Safe := (safe rely guar).

(** ** Rules *)
Lemma safe_on_ext {A B} (c : M void (Executor.t (Proof_ := Proof_) (S := S) (J := J)) A) (k : A -> prog I B) Q i :
  (forall i', rely i i' -> forall a e', c (ext i') = (Ok a, e') ->
     sound (with_ext e' i') /\ Safe (k a) Q (with_ext e' i')) ->
  Safe (pbind (on_ext c) k) Q i.
Proof using.
  intros H i' Hi a i2. cbn. specialize (H i' Hi). destruct (c (ext i')) as [r e'] eqn:E. intros [= -> <-].
  by destruct (H a e' eq_refl).
Qed.

Lemma safe_get {A B} (f : Executor.t (Proof_ := Proof_) (S := S) (J := J) -> A) (k : A -> prog I B) Q i : sound i ->
  (forall i', rely i i' -> sound i' -> Safe (k (f (ext i'))) Q i') -> Safe (pbind (get f) k) Q i.
Proof using.
  intros Hs H. apply safe_on_ext. intros i' Hi a e' [= <- <-]. pose proof (sound_rely i i' Hi Hs) as Hs'.
  assert (with_ext (ext i') i' = i') as -> by by destruct i'. split; [done|]. by apply H.
Qed.

Lemma safe_put {B} f (k : unit -> prog I B) Q i :
  (forall i', rely i i' -> sound (with_ext (f (ext i')) i') /\ Safe (k tt) Q (with_ext (f (ext i')) i')) ->
  Safe (pbind (put f) k) Q i.
Proof using. intros H. apply safe_on_ext. intros i' Hi [] e' [= <-]. by apply H. Qed.

Lemma safe_lift {A B} (c : outcome void A) (k : A -> prog I B) Q i : sound i ->
  (forall i' a, rely i i' -> sound i' -> c = Ok a -> Safe (k a) Q i') -> Safe (pbind (lift c) k) Q i.
Proof using.
  intros Hs H i' Hi a i2 [= -> <-]. pose proof (sound_rely i i' Hi Hs) as Hs'. split; [done|]. by apply H.
Qed.

Lemma safe_modify {B} f (k : unit -> prog I B) Q i :
  (forall i', rely i i' -> sound (f i') /\ Safe (k tt) Q (f i')) -> Safe (pbind (modify f) k) Q i.
Proof using. intros H i' Hi [] i2 [= <-]. by apply H. Qed.

(** ** Finalizing a block *)

(** No executed proposal waits, unless any header may follow any other. *)
Definition fine (i : I) : Prop :=
  calm (Executor.block_map (ext i)) /\ ((forall h h', Link h h') \/ closed_block i = None).

(** The header is current and in the store. *)
Record settled (h : Hdr) (i : I) : Prop := {
  st_records : records (Executor.store (ext i)) h;
  st_header : current i = h;
  st_chain : rtc Link start h;
  st_fine : fine i;
}.

Lemma settled_sound h i : settled h i -> sound i.
Proof using. intros [H1 H2 H3 _]. split; [exists h; split; [done|by left]|by rw H2]. Qed.

Lemma fine_rely i i' : rely i i' -> fine i -> fine i'.
Proof using. intros [Ho Hc] [H1 H2]. split; [by apply Hc|]. by rw (ow_closed _ _ Ho). Qed.

Lemma settled_rely h i i' : rely i i' -> settled h i -> settled h i'.
Proof using.
  intros Hr [H1 H2 H3 H4]. pose proof Hr as [Ho _]. split; [by rw (ow_store _ _ Ho)|by rw (ow_header _ _ Ho)|done|by eapply fine_rely].
Qed.

(** Programs that start and end with the header in the store. *)
Definition keeps {A} (p : prog I A) : Prop :=
  forall h i, settled h i -> Safe p (fun _ i' => exists h', settled h' i') i.

Lemma settled_with h i e' : settled h i -> Executor.current_header e' = current i ->
  same_blocks (Executor.store (ext i)) (Executor.store e') -> calm (Executor.block_map e') -> settled h (with_ext e' i).
Proof using.
  intros [H1 H2 H3 [H4 H5]] Hh Hd Hm. split; [by eapply records_same|cbn; congruence|done|by split].
Qed.

Lemma settled_calm h i : settled h i -> calm (Executor.block_map (ext i)).
Proof using. by intros [_ _ _ [H _]]. Qed.

(** An operation that leaves header, store and queue alone. *)
Lemma safe_neutral {A B} c (k : A -> prog I B) Q h i : settled h i ->
  (forall e a e', c e = (Ok a, e') -> Executor.current_header e' = Executor.current_header e /\
     same_blocks (Executor.store e) (Executor.store e') /\ Executor.block_map e' = Executor.block_map e) ->
  (forall i' a, settled h i' -> Safe (k a) Q i') -> Safe (pbind (on_ext c) k) Q i.
Proof using.
  intros Hs Hc Hk. apply safe_on_ext. intros i' Hi a e' (H1 & H2 & H3)%Hc.
  assert (Hs' : settled h (with_ext e' i')).
  { pose proof (settled_rely _ _ _ Hi Hs) as Hs'. apply settled_with; [done|done|done|]. rw H3. by eapply settled_calm. }
  split; [by eapply settled_sound|by apply Hk].
Qed.

Lemma safe_get_settled {A B} (f : _ -> A) (k : A -> prog I B) Q h i : settled h i ->
  (forall i', settled h i' -> Safe (k (f (ext i'))) Q i') -> Safe (pbind (get f) k) Q i.
Proof using. intros Hs Hk. apply safe_get; [by eapply settled_sound|]. intros i' Hi _. apply Hk. by eapply settled_rely. Qed.

Lemma set_executed_result_neutral (cb : Closed) (e : Executor.t (Proof_ := Proof_) (S := S) (J := J)) a e' :
  Executor.set_executed_result cb e = (Ok a, e') -> exists r, e' = Executor.set_result r e.
Proof using.
  unfold Executor.set_executed_result, Executor.set_gas_and_nodes, sbind, slift. cbn.
  destruct (Executor.current_conf e) as [conf|err|]; [|done|done]. cbn.
  destruct (Executor.executed_header _) as [h|err|]; [|done|done]. cbn. intros [= _ <-]. by eexists.
Qed.

Lemma safe_send {B} (k : unit -> prog I B) Q h i : settled h i -> (forall i', settled h i' -> Safe (k tt) Q i') ->
  Safe (pbind send_executed_info_to_chain k) Q i.
Proof using.
  intros Hs Hk. unfold send_executed_info_to_chain. cbn [pbind]. apply (safe_get_settled _ _ _ h); [done|]. intros i1 Hs1.
  apply safe_modify. intros i2 Hi. pose proof (settled_rely _ _ _ Hi Hs1) as [H1 H2 H3 H4].
  assert (settled h (publish (ResultMsg (Executor.executed_result (ext i1))) i2)) as Hs2 by done.
  split; [by eapply settled_sound|by apply Hk].
Qed.

Lemma finalize_block_safe h (cb : Closed) i : settled h i -> Link h (Executor.cb_header cb) ->
  Safe (finalize_block cb) (fun _ => settled (Executor.cb_header cb)) i.
Proof using HSok HSSok.
  intros Hs Hl. unfold Instance.finalize_block, Instance.reload_config. apply (safe_neutral _ _ _ h); [done| |].
  { intros e [] e' (e2 & confs & d & (l & j & ->) & Hd & ->)%reload_config_reloads. by destruct e. }
  intros i1 [] Hs1. apply (safe_neutral _ _ _ h); [done| |].
  { intros e a e' [r ->]%set_executed_result_neutral. by destruct e. }
  intros i2 [] Hs2. apply (safe_send _ _ h); [done|]. intros i3 Hs3.
  apply safe_on_ext. intros i4 Hi4 [] e4 (d & -> & Hd)%write_batch_records. pose proof (settled_rely _ _ _ Hi4 Hs3) as [_ B2 B3 B4].
  split; [split; [exists (Executor.cb_header cb); split; [done|right]|]; cbn; by rw B2|].
  apply safe_put. intros i5 [Ho5 Hc5].
  assert (Hs5 : settled (Executor.cb_header cb) (with_ext (Executor.set_header (Executor.cb_header cb) (ext i5)) i5)).
  { split; [cbn; by rw (ow_store _ _ Ho5)|done|by eapply rtc_r|]. split; [by apply Hc5, B4|]. cbn. rw (ow_closed _ _ Ho5). apply B4. }
  split; [by eapply settled_sound|]. apply (safe_get_settled _ _ _ (Executor.cb_header cb)); [done|]. intros i6 Hs6.
  apply (safe_neutral _ Ret _ (Executor.cb_header cb)); [done| |].
  { intros e a e' [= _ <-]. by destruct e. }
  intros i7 [] Hs7. apply safe_ret. intros i8 Hi8. by eapply settled_rely.
Qed.

(** ** Executing a block *)

(** The header of a closed block has the place of its block in the chain. *)
Definition placed (b : Blk) (cb : Closed) : Prop :=
  number (Executor.cb_header cb) = number (header b) /\ parent_hash (Executor.cb_header cb) = parent_hash (header b).

Lemma close_block_placed conf b root hashes l (e : Executor.t (Proof_ := Proof_) (S := S) (J := J)) r e' :
  Executor.close_block (D := D) (L := L) sha3 encode_address_nonce LOCAL_STACK_SIZE native_factory from_bloomed with_bloomed complete_merkle_root
    conf b root hashes l e = (Ok r, e') ->
  (exists j, e' = Executor.set_jumps j e) /\ forall cb, r = Some cb -> placed b cb.
Proof using.
  unfold Executor.close_block. destruct (Executor.open_block _ _ _ _ _) as [o|err|]; [|done|done].
  destruct (apply_transactions _ _ _ _ _ _ _ _ _ _) as [[[|]|err|] o']; try done; intros [= <- <-].
  - split; [by eexists|]. by intros cb [= <-].
  - split; [by eexists|done].
Qed.

Lemma ret_settled {A} (a : A) (P : A -> Prop) h i : settled h i -> P a -> Safe (Ret a) (fun a i' => settled h i' /\ P a) i.
Proof using. intros Hs Ha i' Hi. split; [by eapply settled_rely|done]. Qed.

Lemma read_interrupts_safe n h i : settled h i -> Safe (read_interrupts n) (fun _ => settled h) i.
Proof using.
  revert i. induction n as [|n IH]; intros i Hs; [intros i' Hi; by eapply settled_rely|]. cbn [read_interrupts].
  apply (safe_get_settled _ _ _ h); [done|]. intros i1 Hs1.
  destruct (Executor.is_interrupted (ext i1)); [intros i' Hi; by eapply settled_rely|].
  eapply safe_seq; [apply _|by apply IH|]. intros l i2 Hs2 i' Hi. by eapply settled_rely.
Qed.

Lemma close_block_safe b h i : settled h i ->
  Safe (close_block b) (fun r i' => settled h i' /\ forall cb, r = Some cb -> placed b cb) i.
Proof using.
  intros Hs. unfold Instance.close_block. do 4 (apply (safe_get_settled _ _ _ h); [done|]; intros ? ?).
  apply safe_lift; [by eapply settled_sound|]. intros i5 conf Hi5 _ _.
  eapply safe_seq; [apply _|apply (read_interrupts_safe _ h); by eapply settled_rely|]. intros l i6 Hs6.
  apply (safe_on_ext _ Ret). intros i7 Hi7 r e' [(j & ->) Hp]%close_block_placed.
  assert (Hs7 : settled h (with_ext (Executor.set_jumps j (ext i7)) i7)).
  { pose proof (settled_rely _ _ _ Hi7 Hs6) as Hs7. apply settled_with; [done|done|reflexivity|by eapply settled_calm]. }
  split; [by eapply settled_sound|by apply ret_settled].
Qed.

Lemma ext_execute_block_safe b h i : settled h i -> linked h (header b) ->
  Safe (ext_execute_block b) (fun _ i' => exists h', settled h' i') i.
Proof using HSok HSSok link_linked.
  intros Hs [Hn Hp]. unfold Instance.ext_execute_block. eapply safe_seq; [apply _|by apply (close_block_safe b h)|].
  intros [cb|] i1 [Hs1 Hcb].
  - destruct (Hcb cb eq_refl) as [H1 H2]. eapply safe_mono; [|apply (finalize_block_safe h); [done|apply link_linked; split; congruence]].
    intros a i2 H. eexists. exact H.
  - intros i2 Hi. eexists. by eapply settled_rely.
Qed.

Lemma valid_block_safe n p h i : settled h i ->
  Safe (valid_block n p) (fun v i' => settled h i' /\ (v = true -> n = number h + 1 /\ p = header_hash rlp_out h)) i.
Proof using.
  intros Hs. unfold valid_block, pand, Instance.validate_height.
  eapply safe_seq with (P := fun (v : bool) i' => settled h i' /\ (v = true -> n = number h + 1)); [apply _| |].
  - apply (safe_get_settled _ _ _ h); [done|]. intros i1 Hs1. apply (safe_lift _ Ret); [by eapply settled_sound|].
    intros i2 v Hi2 _ Hv. apply ret_settled; [by eapply settled_rely|]. intros ->. unfold Executor.validate_height in Hv.
    unfold Executor.get_current_height in Hv. rw (st_header _ _ Hs1) in Hv. unfold add_ in Hv. destruct (_ <? _); [|done]. cbn in Hv.
    injection Hv as Hv%Z.eqb_eq. lia.
  - intros [|] i3 [Hs3 Hv]; [|by apply ret_settled]. apply (safe_get_settled _ Ret _ h); [done|]. intros i4 Hs4.
    apply ret_settled; [done|]. unfold Executor.validate_hash, Executor.get_current_hash. rw (st_header _ _ Hs4). intros H%Z.eqb_eq. auto.
Qed.

(** ** The programs of the thread *)
Abbreviation set_sync_block := (set_sync_block (D := D) (L := L) sha3 encode_address_nonce LOCAL_STACK_SIZE native_factory
  from_bloomed with_bloomed complete_merkle_root bin_serialize Signature_default sha3_256 abi_decode tendermint_height proof_check prune_fuel).
Abbreviation sync_loop := (sync_loop (D := D) (L := L) sha3 encode_address_nonce LOCAL_STACK_SIZE native_factory
  from_bloomed with_bloomed complete_merkle_root bin_serialize Signature_default sha3_256 abi_decode tendermint_height proof_check prune_fuel).
Abbreviation sync_blocks := (sync_blocks (D := D) (L := L) sha3 encode_address_nonce LOCAL_STACK_SIZE native_factory
  from_bloomed with_bloomed complete_merkle_root bin_serialize Signature_default sha3_256 abi_decode tendermint_height proof_check prune_fuel).
Abbreviation run_consensus_block := (run_consensus_block (D := D) (L := L) sha3 encode_address_nonce LOCAL_STACK_SIZE native_factory
  from_bloomed with_bloomed complete_merkle_root bin_serialize Signature_default sha3_256 abi_decode prune_fuel).
Abbreviation run_proposal := (run_proposal (D := D) (L := L) sha3 encode_address_nonce LOCAL_STACK_SIZE native_factory
  from_bloomed with_bloomed complete_merkle_root bin_serialize Signature_default sha3_256 abi_decode prune_fuel).
Abbreviation execute_block := (execute_block (D := D) (L := L) sha3 encode_address_nonce LOCAL_STACK_SIZE native_factory
  from_bloomed with_bloomed complete_merkle_root bin_serialize Signature_default sha3_256 abi_decode tendermint_height proof_check prune_fuel).
Abbreviation somewhere := (fun i => exists h, settled h i).

Lemma somewhere_ret {A} (a : A) i : somewhere i -> Safe (Ret a) (fun _ => somewhere) i.
Proof using. intros [h Hs] i' Hi. exists h. by eapply settled_rely. Qed.

(** A change of the flags, or of the queue to a calm one. *)
Lemma safe_put_settled {B} f (k : unit -> prog I B) Q h i : settled h i ->
  (forall e, Executor.current_header (f e) = Executor.current_header e /\ Executor.store (f e) = Executor.store e) ->
  (forall e, calm (Executor.block_map e) -> calm (Executor.block_map (f e))) ->
  (forall i', settled h i' -> Safe (k tt) Q i') -> Safe (pbind (put f) k) Q i.
Proof using.
  intros Hs Hf Hm Hk. apply safe_put. intros i' Hi. pose proof (settled_rely _ _ _ Hi Hs) as Hs'.
  assert (settled h (with_ext (f (ext i')) i')) as Hs2.
  { destruct (Hf (ext i')) as [H1 H2]. apply settled_with; [done|done|by rw H2|]. by eapply Hm, settled_calm. }
  split; [by eapply settled_sound|by apply Hk].
Qed.

Ltac flag := (apply (safe_put_settled _ _ _ _ _ ltac:(eassumption)); [by intros []|by intros []|intros ? ?]).

Lemma set_sync_block_safe b p h i : settled h i -> Safe (set_sync_block b p) (fun _ => somewhere) i.
Proof using HSok HSSok link_linked.
  intros Hs. unfold Instance.set_sync_block. apply (safe_get_settled _ _ _ h); [done|]. intros i1 Hs1.
  apply safe_lift; [by eapply settled_sound|]. intros i2 conf Hi2 _ _.
  eapply safe_seq; [apply _|apply (valid_block_safe _ _ h); by eapply settled_rely|]. intros v i3 [Hs3 Hv].
  destruct (v && _) eqn:E; [|apply somewhere_ret; by exists h]. apply andb_true_iff in E as [-> _]. destruct (Hv eq_refl) as [H1 H2].
  eapply safe_seq; [apply _|by apply (ext_execute_block_safe b h)|]. intros a i4 H4. by apply somewhere_ret.
Qed.

Lemma sync_loop_safe fuel m n i : somewhere i -> Safe (sync_loop fuel m n) (fun _ => somewhere) i.
Proof using HSok HSSok link_linked.
  revert m n i. induction fuel as [|fuel IH]; intros m n i Hi; [by apply somewhere_ret|]. cbn [Instance.sync_loop].
  destruct (m !! n) as [[b|b p|b [p|]]|]; try by apply somewhere_ret. destruct Hi as [h Hs].
  eapply safe_seq; [apply _|by apply (set_sync_block_safe b p h)|]. intros [|] i1 [h1 Hs1]; [|apply somewhere_ret; by exists h1].
  apply safe_lift; [by eapply settled_sound|]. intros i2 next Hi2 _ _. apply IH. exists h1. by eapply settled_rely.
Qed.

Lemma calm_empty : calm ∅.
Proof using. right. intros n b. by rw lookup_empty. Qed.

Lemma sync_blocks_safe n h i : settled h i -> Safe (sync_blocks n) (fun _ => somewhere) i.
Proof using HSok HSSok link_linked.
  intros Hs. unfold Instance.sync_blocks. flag. apply (safe_get_settled _ _ _ h); [done|]. intros i2 Hs2.
  eapply safe_seq; [apply _|apply sync_loop_safe; by exists h|]. intros invalid i3 [h3 Hs3].
  eapply safe_seq with (P := fun _ => settled h3); [apply _| |].
  - destruct invalid; [|intros i4 Hi; by eapply settled_rely].
    apply (safe_put_settled _ Ret _ h3); [done|by intros []|intros [] _; apply calm_empty|]. intros i4 Hs4 i5 Hi. by eapply settled_rely.
  - intros _ i4 Hs4. apply (safe_put_settled _ Ret _ h3); [done|by intros []|by intros []|]. intros i5 Hs5. apply somewhere_ret. by exists h3.
Qed.

Lemma execute_here b h i : settled h i -> linked h (header b) -> Safe (ext_execute_block b) (fun _ => somewhere) i.
Proof using HSok HSSok link_linked. apply ext_execute_block_safe. Qed.

(** The cell of the thread is emptied, or filled where any header may follow. *)
Lemma safe_closed {B} c (k : unit -> prog I B) Q h i : settled h i -> c = None \/ (forall h h', Link h h') ->
  (forall i', settled h i' -> Safe (k tt) Q i') -> Safe (pbind (modify (with_closed c)) k) Q i.
Proof using.
  intros Hs Hc Hk. apply safe_modify. intros i' Hi. pose proof (settled_rely _ _ _ Hi Hs) as [H1 H2 H3 [H4 H5]].
  assert (settled h (with_closed c i')) as Hs2 by (split; [done|done|done|]; split; [done|by destruct Hc; [right|left]]).
  split; [by eapply settled_sound|by apply Hk].
Qed.

Lemma run_consensus_block_safe stage b h i : settled h i -> linked h (header b) ->
  Safe (run_consensus_block stage b) (fun _ => somewhere) i.
Proof using HSok HSSok link_linked.
  intros Hs Hl. unfold Instance.run_consensus_block. apply (safe_get_settled _ _ _ h); [done|]. intros i1 Hs1.
  destruct (Executor.is_interrupted (ext i1)).
  { flag. flag. by apply (execute_here b h). }
  destruct stage; try (apply somewhere_ret; by exists h).
  - intros i2 Hi2 cb i3 [= <- <-]. pose proof (settled_rely _ _ _ Hi2 Hs1) as Hs2. split; [by eapply settled_sound|].
    apply (safe_closed _ _ _ h); [done|by left|]. intros i4 Hs4. flag. destruct (closed_block i2) as [cb|] eqn:Ecb.
    + eapply safe_mono; [|apply (finalize_block_safe h); [done|]]; [intros a i5 Hx; eexists; exact Hx|].
      destruct (st_fine _ _ Hs2) as [_ [Ht|Ht]]; [apply Ht|congruence].
    + by apply (execute_here b h).
  - flag. by apply (execute_here b h).
Qed.

Lemma run_proposal_safe n b h i : settled h i -> (forall h h', Link h h') -> Safe (run_proposal n b) (fun _ => somewhere) i.
Proof using HSok HSSok.
  intros Hs Ht. unfold Instance.run_proposal, after_proposal. apply (safe_get_settled _ _ _ h); [done|]. intros i1 Hs1.
  eapply safe_seq with (P := fun _ => settled h); [apply _| |].
  { destruct (Executor.is_interrupted (ext i1)); [|intros i2 Hi; by eapply settled_rely].
    apply (safe_put_settled _ Ret _ h); [done|by intros []|by intros []|]. intros i2 Hs2 i3 Hi. by eapply settled_rely. }
  intros _ i2 Hs2. flag. eapply safe_seq; [apply _|by apply (close_block_safe b h)|]. intros [cb|] i4 [Hs4 _]; [|apply somewhere_ret; by exists h].
  apply (safe_get_settled _ _ _ h); [done|]. intros i5 Hs5. destruct (Executor.is_interrupted (ext i5)).
  { apply (safe_put_settled _ Ret _ h); [done|by intros []|by intros []|]. intros i6 Hs6. apply somewhere_ret. by exists h. }
  apply (safe_get_settled _ _ _ h); [done|]. intros i6 Hs6.
  destruct (Executor.block_map (ext i6) !! n) as [[b'|b' p|b' p]|]; try (apply somewhere_ret; by exists h).
  - apply (safe_closed _ _ _ h); [done|by right|]. intros i7 Hs7.
    apply (safe_put_settled _ Ret _ h); [done|by intros []|by intros []|]. intros i8 Hs8. apply somewhere_ret. by exists h.
  - destruct (_ =? _); [|apply somewhere_ret; by exists h].
    eapply safe_seq; [apply _|apply (finalize_block_safe h); [done|apply Ht]|]. intros [] i7 Hs7.
    apply (safe_put_settled _ Ret _ _ _ Hs7); [by intros []|by intros []|]. intros i8 Hs8. apply somewhere_ret. by eexists.
Qed.

Lemma calm_filter (P : Z * Executor.BlockInQueue -> Prop) {HPd : forall x, Decision (P x)} (m : Queue) : calm m -> calm (filter P m).
Proof using. intros [H|H]; [by left|right]. intros n b [E _]%map_lookup_filter_Some. by eapply H. Qed.

Lemma clean_map_safe h i : settled h i -> Safe clean_map (fun _ => somewhere) i.
Proof using.
  intros Hs. apply (safe_put_settled _ Ret _ h); [done|by intros []|intros []; apply calm_filter|].
  intros i1 Hs1. apply somewhere_ret. by exists h.
Qed.

(** From a header in the store to a header in the store. *)
Lemma execute_block_safe n i : somewhere i -> Safe (execute_block n) (fun _ => somewhere) i.
Proof using HSok HSSok link_linked.
  intros [h Hs]. unfold Instance.execute_block. apply (safe_get_settled _ _ _ h); [done|]. intros i1 Hs1.
  set (m := Executor.block_map (ext i1)). apply (safe_get_settled _ _ _ h); [done|]. intros i2 Hs2.
  set (stage := Executor.stage (ext i2)).
  destruct (m !! n) as [[b|b p|b [p|]]|] eqn:E; try (apply somewhere_ret; by exists h).
  - destruct (settled_calm _ _ Hs1) as [H|H]; [by apply (run_proposal_safe n b h)|]. by destruct (H n b).
  - eapply safe_seq; [apply _|by apply (valid_block_safe _ _ h)|]. intros [|] i3 [Hs3 Hv]; [|apply somewhere_ret; by exists h].
    eapply safe_seq; [apply _|by apply (run_consensus_block_safe stage b h); [|apply Hv]|]. intros _ i4 [h4 Hs4]. flag. by apply (clean_map_safe h4).
  - apply (safe_get_settled _ _ _ h); [done|]. intros i3 Hs3. apply safe_lift; [by eapply settled_sound|]. intros i4 next Hi4 _ _.
    assert (Hs4 : settled h i4) by by eapply settled_rely. destruct (n =? next); [|apply somewhere_ret; by exists h].
    flag. eapply safe_seq; [apply _|by apply (sync_blocks_safe n h)|]. intros _ i5 [h5 Hs5]. flag. by apply (clean_map_safe h5).
Qed.

(** ** The receiving thread *)
Abbreviation distribute_msg := (distribute_msg (D := D) (L := L) (S := S) (J := J) sha3 encode_address_nonce LOCAL_STACK_SIZE native_factory
  Proof_new get_field_type Signature_default tendermint_height check_hash).

(** The other thread may do anything. *)
Definition anything (_ _ : I) : Prop := True.
Lemma receiving_safe (r : prog I unit) i i' :
  safe anything (rely) r (fun _ _ => True) i -> safe anything rely r (fun _ _ => True) i'.
Proof using. destruct r; intros H i1 _; by apply (H i1). Qed.
#[local] Instance anything_refl : Reflexive anything.
Proof using. done. Qed.
#[local] Instance anything_trans : Transitive anything.
Proof using. done. Qed.

(** Programs that disturb nothing the other thread relies on. *)
Definition mild {A} (p : prog I A) : Prop := forall i, safe anything rely p (fun _ _ => True) i.

Lemma mild_ret {A} (a : A) : mild (Ret a).
Proof using. done. Qed.
Lemma mild_bind {A B} (p : prog I A) (f : A -> prog I B) : mild p -> (forall a, mild (f a)) -> mild (pbind p f).
Proof using. intros Hp Hf i. eapply safe_seq; [apply _|apply Hp|]. intros a i' _. apply Hf. Qed.
Lemma mild_act {A} (c : M void I A) : (forall i a i', c i = (Ok a, i') -> rely i i') -> mild (act c).
Proof using. intros Hc i i1 _ a i2 H. split; [by eapply Hc|done]. Qed.
Lemma mild_get {A} (f : _ -> A) : mild (get f).
Proof using. apply mild_act. intros i a i'. cbn. intros [= <- <-]. destruct i. apply rely_refl. Qed.
Lemma mild_lift {A} (c : outcome void A) : mild (lift c).
Proof using. apply mild_act. intros i a i' [= _ <-]. apply rely_refl. Qed.

(** Only fields that are not owned change, and the queue stays calm. *)
Lemma mild_put f :
  (forall e, Executor.current_header (f e) = Executor.current_header e /\ Executor.is_sync (f e) = Executor.is_sync e /\
     Executor.stage (f e) = Executor.stage e /\ Executor.store (f e) = Executor.store e /\
     Executor.executed_result (f e) = Executor.executed_result e /\ Executor.check_prooftype (f e) = Executor.check_prooftype e /\
     Executor.sys_configs (f e) = Executor.sys_configs e) ->
  (forall e, calm (Executor.block_map e) -> calm (Executor.block_map (f e))) -> mild (put f).
Proof using.
  intros Hf Hm. apply mild_act. intros i a i' [= _ <-]. destruct (Hf (ext i)) as (H1 & H2 & H3 & H4 & H5 & H6 & H7).
  split; [by split|apply Hm].
Qed.

Lemma mild_modify f : (forall i, ext (f i) = ext i /\ closed_block (f i) = closed_block i) -> mild (modify f).
Proof using.
  intros Hf. apply mild_act. intros i a i' [= _ <-]. destruct (Hf i) as [H1 H2]. split; [split; by rw ?H1|by rw H1].
Qed.

Lemma mild_calling {A} (c : M void _ A) : calling c -> mild (on_ext c).
Proof using.
  intros Hc. apply mild_act. intros i a i'. specialize (Hc (ext i)). destruct (c (ext i)) as [r e'].
  cbn [snd] in Hc. destruct Hc as (l & j & ->). intros [= _ <-]. by split.
Qed.

Lemma calm_insert n x (m : Queue) : (forall b, x <> Executor.Proposal b) -> calm m -> calm (<[n := x]> m).
Proof using.
  intros Hx [H|H]; [by left|right]. intros k b. rw lookup_insert_Some. intros [[_ E]|[_ E]]; [by apply (Hx b)|by eapply H].
Qed.

Lemma calm_set_proof ph p (m : Queue) : calm m -> calm (set_proof ph p m).
Proof using. intros H. unfold set_proof. destruct (m !! ph) as [[| |b [|]]|]; try done. by apply calm_insert. Qed.

Lemma mild_valid n p : mild (valid_block n p).
Proof using.
  unfold valid_block, pand, Instance.validate_height, Instance.validate_hash.
  apply mild_bind; [apply mild_bind; [apply mild_get|intros e; apply mild_lift]|]. intros [|]; [apply mild_get|apply mild_ret].
Qed.

Lemma mild_interrupt : mild interrupt.
Proof using.
  apply mild_bind; [apply mild_get|]. intros [|]; [apply mild_ret|]. apply mild_put; by intros [].
Qed.

Lemma mild_send_block n b p : mild (send_block n b p).
Proof using.
  apply mild_bind; [apply mild_put; [by intros []|]|].
  { intros e. apply calm_insert. done. }
  intros _. apply mild_bind; [apply mild_put; by intros []|]. intros _. apply mild_modify. done.
Qed.

Lemma mild_send_proposal n b : (forall h h', Link h h') -> mild (send_proposal n b).
Proof using.
  intros Ht. apply mild_bind; [apply mild_put; [by intros []|by left]|]. intros _. by apply mild_modify.
Qed.

Ltac mild_tac :=
  repeat first
    [ apply mild_ret | apply mild_get | apply mild_lift | apply mild_valid | apply mild_interrupt | apply mild_send_block
    | by apply mild_send_proposal | apply mild_bind; [|intros ?] | by apply mild_modify | case_match ].

Lemma mild_consensus b p : mild (consensus_block_enqueue b p).
Proof using. unfold consensus_block_enqueue. mild_tac. Qed.

Lemma mild_proposal b : (forall h h', Link h h') -> mild (proposal_enqueue b).
Proof using. intros Ht. unfold proposal_enqueue. mild_tac. Qed.

Lemma mild_add_sync_block b : mild (add_sync_block Proof_new get_field_type tendermint_height b).
Proof using.
  unfold add_sync_block. apply mild_bind; [apply mild_get|]. intros pt. case_bool_decide; [|apply mild_ret].
  destruct (proof_type _ _ _) as [[]|]; try apply mild_lift. apply mild_put; unfold queue_sync_block.
  - intros []. cbn. by repeat case_match.
  - intros e He. repeat case_match; try done; [apply calm_insert; [done|]|]; by apply calm_set_proof.
Qed.

Lemma mild_sync_enqueue l : mild (sync_enqueue Proof_new get_field_type tendermint_height check_hash l).
Proof using.
  induction l as [|b l IH]; [apply mild_ret|]. cbn [sync_enqueue]. apply mild_bind; [apply mild_get|]. intros top.
  case_match; [done|]. case_match; [apply mild_ret|]. apply mild_bind; [apply mild_get|]. intros n. case_match; [apply mild_ret|].
  apply mild_bind; [apply mild_add_sync_block|]. by intros _.
Qed.

(** Messages that keep a calm queue calm. *)
Definition harmless (m : Msg (Proof_ := Proof_)) : Prop :=
  match m with SignedProposal _ => forall h h', Link h h' | _ => True end.

Lemma distribute_msg_mild m : harmless m -> mild (distribute_msg m).
Proof using.
  destruct m as [[r id|a id|a id]|b p|l|b|]; intros Hm; cbn [Instance.distribute_msg reply_request].
  - apply mild_bind; [apply mild_calling|]; [|intros x; by apply mild_modify]. unfold Executor.eth_call.
    apply moves_bind; [apply _|apply call_calling|]. intros x. apply moves_ret, _.
  - mild_tac.
  - mild_tac.
  - apply mild_consensus.
  - unfold deal_sync_blocks. apply mild_bind; [apply mild_sync_enqueue|]. intros go. mild_tac.
  - apply mild_bind; [apply mild_get|]. intros [|]; [apply mild_ret|by apply mild_proposal].
  - apply mild_ret.
Qed.

(** ** Both threads *)
Abbreviation step := (step (D := D) (L := L) sha3 encode_address_nonce LOCAL_STACK_SIZE native_factory from_bloomed with_bloomed Proof_new
  get_field_type complete_merkle_root bin_serialize Signature_default sha3_256 abi_decode tendermint_height proof_check check_hash prune_fuel).

Record process_ok (p : process (Proof_ := Proof_) (S := S) (J := J) (D := D) (L := L)) : Prop := {
  po_sound : sound (shared p);
  po_executing : Safe (executing p) (fun _ => somewhere) (shared p);
  po_receiving : safe anything rely (receiving p) (fun _ _ => True) (shared p);
}.

Lemma take_number_rely i rest : rely i (take_number i rest).
Proof using. by split. Qed.

Lemma idle_somewhere i : Safe (Ret tt) (fun _ => somewhere) i -> somewhere i.
Proof using. intros H. apply H, rely_refl. Qed.

Lemma step_ok arrives p p' : (forall m, arrives m -> harmless m) -> step arrives p p' -> process_ok p -> process_ok p'.
Proof using HSok HSSok link_linked.
  intros Ha Hst [Hs He Hr]. destruct Hst as [i i' q q' r Hq|i i' q r r' Hq|i n rest r Hn|i r|i q m Hm]; cbn in *.
  - destruct (safe_step rely guar q q' _ i i' He Hq) as [H1 H2]. split; [done|done|]. by eapply receiving_safe.
  - destruct (safe_step anything rely r r' _ i i' Hr Hq) as [H1 H2].
    split; [by eapply sound_rely|by eapply safe_rely; [apply _|..]|done].
  - pose proof (take_number_rely i rest) as Ht. split; [by eapply sound_rely| |by eapply receiving_safe].
    apply execute_block_safe. destruct (idle_somewhere i He) as [h Hh]. exists h. by eapply settled_rely.
  - split; [done| |done]. destruct (idle_somewhere i He) as [h Hh]. unfold send_executed_info_to_chain.
    apply (safe_get_settled _ _ _ h); [done|]. intros i1 Hs1. apply (safe_modify _ Ret). intros i2 Hi.
    pose proof (settled_rely _ _ _ Hi Hs1) as [H1 H2 H3 H4].
    assert (settled h (publish (ResultMsg (Executor.executed_result (ext i1))) i2)) as Hs2 by done.
    split; [by eapply settled_sound|apply somewhere_ret; by exists h].
  - split; [done|done|]. by apply distribute_msg_mild, Ha.
Qed.

Lemma steps_ok arrives p p' : (forall m, arrives m -> harmless m) -> rtc (step arrives) p p' -> process_ok p -> process_ok p'.
Proof using HSok HSSok link_linked. intros Ha. induction 1 as [|p1 p2 p3 H1 _ IH]; [done|]. intros H. by eapply IH, step_ok. Qed.
End spec.
