(* ===== verification/InstanceRun.v ===== *)
(** * Undisturbed runs of the executor process

    What the programs of [Instance.v] compute when the other thread waits. *)

From S2P Require Import Prelude Lru Evm SharedCache Account State Executive Block Codec CodecSpec ChainDb Chain ChainSpec SysConfig.
From S2P Require Import Executor Threads Instance ExecutorSpec InstanceSpec.
From stdpp Require Import base gmap list strings.
Local Open Scope Z_scope.
Local Open Scope cita_scope.

Section runs.
  Context {HU : Util} {HR : RlpLib} {HB : RlpBytes}.
  Context {L : Type} {HL : LruCache Z L} {D : Type} {HD : Backend D} {J : Type} {HJ : LruCache BitSet J}.
  Context {Proof_ : Type} {Proof_eq : EqDecision Proof_} {HP : Rlp Proof_}.
  Context {S : Type} {HS : KvDb S} {HSS : StateStore S D}.
Abbreviation Hdr := (Header (Proof_ := Proof_)).
Abbreviation Blk := (Block (Proof_ := Proof_)).
Abbreviation Closed := (Executor.ClosedBlock (Proof_ := Proof_) (D := D) (L := L)).
Abbreviation Ex := (Executor.t (Proof_ := Proof_) (S := S) (J := J)).
Abbreviation I := (Inst (Proof_ := Proof_) (S := S) (J := J) (D := D) (L := L)).
Abbreviation current i := (Executor.current_header (ext i)).

Lemma run_on_ext {A B} (c : M void Ex A) (k : A -> prog I B) i :
  run (pbind (on_ext c) k) i =
  match c (ext i) with
  | (Ok a, e) => run (k a) (with_ext e i)
  | (Err err, e) => (Err err, with_ext e i)
  | (Panic, e) => (Panic, with_ext e i)
  end.
Proof using. cbn. unfold sbind. by destruct (c (ext i)) as [[a|err|] e]. Qed.

Lemma run_get {A B} (f : Ex -> A) (k : A -> prog I B) i : run (pbind (get f) k) i = run (k (f (ext i))) i.
Proof using. unfold get. rw run_on_ext. cbn. by destruct i. Qed.

Lemma run_put {B} (f : Ex -> Ex) (k : unit -> prog I B) i : run (pbind (put f) k) i = run (k tt) (with_ext (f (ext i)) i).
Proof using. unfold put. by rw run_on_ext. Qed.

Lemma run_put_last (f : Ex -> Ex) (i : I) : run (put f) i = (Ok tt, with_ext (f (ext i)) i).
Proof using. done. Qed.

Lemma run_lift {A B} (a : A) (k : A -> prog I B) i : run (pbind (lift (Ok a)) k) i = run (k a) i.
Proof using. done. Qed.

Lemma run_modify {B} f (k : unit -> prog I B) i : run (pbind (modify f) k) i = run (k tt) (f i).
Proof using. done. Qed.

Lemma run_modify_last f (i : I) : run (modify f) i = (Ok tt, f i).
Proof using. done. Qed.

(** A program whose run is known. *)
Lemma run_then {A B} (p : prog I A) (k : A -> prog I B) i a i' : run p i = (Ok a, i') -> run (pbind p k) i = run (k a) i'.
Proof using. intros H. rw run_bind. unfold sbind. by rw H. Qed.

(** [b] follows the current header. *)
Lemma run_valid {B} (b : Blk) (k : bool -> prog I B) i : linked (current i) (header b) -> number (header b) < 2 ^ 64 ->
  run (pbind (valid_block (number (header b)) (parent_hash (header b))) k) i = run (k true) i.
Proof using.
  intros [Hn Hp] Hlt. unfold valid_block, pand, Instance.validate_height. cbn [pbind].
  change (run (pbind (get (fun e => e)) (fun e => pbind (lift (Executor.validate_height (number (header b)) e)) (fun x =>
    pbind (if x then Instance.validate_hash (parent_hash (header b)) else Ret false) k))) i = run (k true) i).
  rw run_get. unfold Executor.validate_height, Executor.get_current_height. rw add_ok; [lia|]. cbn [obind]. rw run_lift.
  rw (proj2 (Z.eqb_eq _ _)); [lia|]. unfold Instance.validate_hash. rw run_get. unfold Executor.validate_hash, Executor.get_current_hash.
  by rw (proj2 (Z.eqb_eq _ _)).
Qed.

(** ** Queueing *)
Definition queued (n : Z) (x : Executor.BlockInQueue (Proof_ := Proof_)) (e : Ex) : Ex :=
  Executor.set_block_map (<[n := x]> (Executor.block_map e)) e.

Lemma run_send_block n (b : Blk) p (i : I) :
  run (send_block n b p) i = (Ok tt, write_send n (with_ext (Executor.set_max_height n (queued n (Executor.ConsensusBlock b p) (ext i))) i)).
Proof using. done. Qed.

Lemma run_send_proposal n (b : Blk) (i : I) :
  run (send_proposal n b) i = (Ok tt, write_send n (with_ext (queued n (Executor.Proposal b) (ext i)) i)).
Proof using. done. Qed.

Lemma run_interrupt (i : I) : run interrupt i = (Ok tt, with_ext (Executor.set_interrupted true (ext i)) i).
Proof using.
  unfold interrupt. rw run_get. destruct (Executor.is_interrupted (ext i)) eqn:E; [|done]. destruct i as [e c1 c2 w o]. cbn in *.
  unfold with_ext. cbn. destruct e. cbn in *. by rw E.
Qed.

(** A block from consensus that follows the current one, by stage. *)
Lemma run_consensus_idle (b : Blk) p (i : I) : linked (current i) (header b) -> number (header b) < 2 ^ 64 ->
  Executor.stage (ext i) = Idle -> run (consensus_block_enqueue b p) i = run (send_block (number (header b)) b p) i.
Proof using.
  intros Hl Hlt Hs. unfold consensus_block_enqueue. rw run_get. unfold Executor.get_current_height.
  rw (proj2 (Z.leb_gt _ _)); [destruct Hl; lia|]. rw run_get run_get. rw run_valid; [done|done|]. by rw Hs.
Qed.

Lemma run_consensus_proposed (b b0 : Blk) p (i : I) : linked (current i) (header b) -> number (header b) < 2 ^ 64 ->
  Executor.stage (ext i) = ExecutingProposal \/ Executor.stage (ext i) = WaitFinalized ->
  Executor.block_map (ext i) !! number (header b) = Some (Executor.Proposal b0) ->
  run (consensus_block_enqueue b p) i =
  run (send_block (number (header b)) b p)
    (if transactions_root (header b0) =? transactions_root (header b) then i else with_ext (Executor.set_interrupted true (ext i)) i).
Proof using.
  intros Hl Hlt Hs Hm. unfold consensus_block_enqueue. rw run_get. unfold Executor.get_current_height.
  rw (proj2 (Z.leb_gt _ _)); [destruct Hl; lia|]. rw run_get run_get. rw run_valid; [done|done|]. rw Hm.
  destruct Hs as [-> | ->]; (destruct (_ =? _); [done|]; by rw (run_then _ _ _ _ _ (run_interrupt i))).
Qed.

(** A proposal that follows the current block. *)
Lemma run_proposal_sent (b : Blk) (i : I) : linked (current i) (header b) -> number (header b) < 2 ^ 64 ->
  Executor.stage (ext i) = Idle \/
  (Executor.stage (ext i) = WaitFinalized /\ exists b0, Executor.block_map (ext i) !! number (header b) = Some (Executor.Proposal b0) /\
     transactions_root (header b0) <> transactions_root (header b)) ->
  run (proposal_enqueue b) i = run (send_proposal (number (header b)) b) i.
Proof using.
  intros Hl Hlt Hs. unfold proposal_enqueue. rw run_get run_get. rw run_valid; [done|done|].
  destruct Hs as [-> |(-> & b0 & -> & Hr)]; [done|]. by rw (proj2 (Z.eqb_neq _ _) Hr).
Qed.

  Context (sha3 : bytes -> H256) (encode_address_nonce : Address -> U256 -> bytes).
  Context (LOCAL_STACK_SIZE : Z) (native_factory : NativeFactory).
  Context (from_bloomed : H256 -> Z) (with_bloomed : Z -> H256 -> Z).
  Context (complete_merkle_root : list bytes -> H256) (bin_serialize : list GlobalSysConfig -> bytes).
  Context (Signature_default : bytes) (sha3_256 : bytes -> H256) (abi_decode : list ParamType -> bytes -> option (list Token)).
  Context (tendermint_height : Proof_ -> Z) (proof_check : Proof_ -> Z -> list Address -> bool) (prune_fuel : nat).
Abbreviation finalize_block := (finalize_block (D := D) (L := L) sha3 encode_address_nonce LOCAL_STACK_SIZE native_factory bin_serialize
  Signature_default sha3_256 abi_decode prune_fuel).
Abbreviation run_consensus_block := (run_consensus_block (D := D) (L := L) sha3 encode_address_nonce LOCAL_STACK_SIZE native_factory
  from_bloomed with_bloomed complete_merkle_root bin_serialize Signature_default sha3_256 abi_decode prune_fuel).
Abbreviation run_proposal := (run_proposal (D := D) (L := L) sha3 encode_address_nonce LOCAL_STACK_SIZE native_factory
  from_bloomed with_bloomed complete_merkle_root bin_serialize Signature_default sha3_256 abi_decode prune_fuel).
Abbreviation execute_block := (execute_block (D := D) (L := L) sha3 encode_address_nonce LOCAL_STACK_SIZE native_factory
  from_bloomed with_bloomed complete_merkle_root bin_serialize Signature_default sha3_256 abi_decode tendermint_height proof_check prune_fuel).

Lemma run_execute_consensus n (b : Blk) p (i : I) : Executor.block_map (ext i) !! n = Some (Executor.ConsensusBlock b p) ->
  linked (current i) (header b) -> number (header b) < 2 ^ 64 ->
  run (execute_block n) i = run (_ <-- run_consensus_block (Executor.stage (ext i)) b ;; _ <-- set_stage Idle ;; clean_map) i.
Proof using.
  intros Hm Hl Hlt. unfold Instance.execute_block. rw run_get run_get Hm. by rw run_valid.
Qed.

Lemma run_execute_proposal n (b : Blk) (i : I) : Executor.block_map (ext i) !! n = Some (Executor.Proposal b) ->
  run (execute_block n) i = run (run_proposal n b) i.
Proof using. intros Hm. unfold Instance.execute_block. by rw run_get run_get Hm. Qed.

(** After a block was finalized, its header is the current one. *)
Lemma run_finalize (cb : Closed) (i i' : I) : run (finalize_block cb) i = (Ok tt, i') -> current i' = Executor.cb_header cb.
Proof using.
  unfold Instance.finalize_block, Instance.reload_config. rw run_on_ext. destruct (Executor.reload_config _ _ _ _ _ _ _ _ _) as [[u|err|] e1]; [|done|done].
  rw run_on_ext. destruct (Executor.set_executed_result _ _) as [[u2|err|] e2]; [|done|done].
  rw run_bind. unfold sbind. destruct (run send_executed_info_to_chain _) as [[u3|err|] i3]; [|done|done].
  rw run_on_ext. destruct (Executor.write_batch _ _ _) as [[u4|err|] e4]; [|done|done]. rw run_put run_get run_put_last.
  intros [= <-]. done.
Qed.

Lemma run_waiting (b : Blk) (cb : Closed) (i : I) : Executor.is_interrupted (ext i) = false -> closed_block i = Some cb ->
  run (run_consensus_block WaitFinalized b) i =
  run (finalize_block (finalized cb b)) (with_ext (Executor.set_stage ExecutingBlock (ext i)) (with_closed None i)).
Proof using.
  intros Hi Hc. unfold Instance.run_consensus_block. rw run_get Hi.
  rw (run_then (act (sgets closed_block)) _ i (Some cb) i); [cbn; unfold sbind, sgets; by rw Hc|]. by rw run_modify run_put.
Qed.

(** A block that was executed or finalized, with what follows. *)
Lemma run_completed {A} (p : prog I A) i i' h :
  (forall a i1, run p i = (Ok a, i1) -> current i1 = h) ->
  run (_ <-- p ;; _ <-- set_stage Idle ;; clean_map) i = (Ok tt, i') -> current i' = h.
Proof using.
  intros Hp. rw run_bind. unfold sbind. destruct (run p i) as [[a|err|] i1]; [|done|done]. specialize (Hp a i1 eq_refl).
  unfold set_stage, clean_map. rw run_put run_put_last. intros [= <-]. done.
Qed.

(** ** Executing a block *)
Abbreviation Close := (Executor.close_block (D := D) (L := L) (S := S) (J := J) (Proof_ := Proof_) sha3 encode_address_nonce LOCAL_STACK_SIZE
  native_factory from_bloomed with_bloomed complete_merkle_root).

Definition checks (b : Blk) : nat := Z.to_nat ((zlen (body b) + 255) / 256).

Lemma run_read_interrupts n (i : I) : Executor.is_interrupted (ext i) = false ->
  run (read_interrupts n) i = (Ok (replicate n false), i).
Proof using.
  intros Hi. induction n as [|n IH]; [done|]. cbn [read_interrupts]. rw run_get Hi. by rw (run_then _ _ _ _ _ IH).
Qed.

Lemma run_close_block (b : Blk) conf (i : I) : Executor.is_interrupted (ext i) = false ->
  get_current_sys_conf (Executor.sys_configs (ext i)) (Executor.max_height (ext i)) = Ok conf ->
  run (close_block sha3 encode_address_nonce LOCAL_STACK_SIZE native_factory from_bloomed with_bloomed complete_merkle_root b) i =
  let '(r, e) := Close conf b (Executor.current_state_root (ext i)) (Executor.last_hashes (ext i)) (replicate (checks b) false) (ext i) in
  (r, with_ext e i).
Proof using.
  intros Hi Hc. unfold close_block. rw !run_get. rw Hc run_lift. rw (run_then _ _ _ _ _ (run_read_interrupts _ i Hi)).
  cbn. unfold sbind. fold (checks b). by destruct (Close _ _ _ _ _ _) as [[r|err|] e].
Qed.

(** Without an interrupt the transactions run to the end. *)
Lemma apply_loop_all f p q index txs (o : OpenBlock (D := D) (L := L) (J := J)) : (forall k, f k = false) ->
  pwp (apply_loop sha3 encode_address_nonce LOCAL_STACK_SIZE native_factory from_bloomed with_bloomed f p q index txs)
    (fun r _ => r <> None) (fun _ _ => True) o.
Proof using.
  intros Hf. revert index o. induction txs as [|t txs IH]; intros index o; [done|]. cbn [apply_loop]. rw Hf andb_false_r.
  apply pwp_bind. unfold pwp at 1. destruct (apply_transaction _ _ _ _ _ _ _ _ _ _) as [[t'|err|] o']; [|done|done].
  apply pwp_bind. eapply pwp_conseq; [apply IH| |done]. intros [l|] s' H; [|by destruct H]. unfold pwp. by cbn.
Qed.

Lemma nth_false n k : nth k (replicate n false) false = false.
Proof using. revert k. by induction n; intros []; cbn. Qed.

Lemma close_not_interrupted conf b root hashes n (e : Ex) r e' : Close conf b root hashes (replicate n false) e = (Ok r, e') ->
  exists cb, r = Some cb.
Proof using.
  unfold Executor.close_block. destruct (Executor.open_block _ _ _ _ _) as [o|err|]; [|done|done].
  unfold apply_transactions, sbind, sgets. cbv beta iota.
  pose proof (apply_loop_all (fun k => nth (Z.to_nat (k / 256)) (replicate n false) false) (conf_check_permission conf) (conf_check_quota conf) 0
    (b_transactions o) o (fun k => nth_false _ _)) as H. unfold pwp in H.
  destruct (apply_loop _ _ _ _ _ _ _ _ _ _ _ _) as [[[l|]|err|] o']; cbv beta iota; [|done|by intros [=]|by intros [=]].
  destruct (State.commit (b_state o')) as [[u|err|] s']; cbv beta iota; [|by intros [=]..]. intros [= <- _]. by eexists.
Qed.

(** Blocks with the same transactions and headers that differ in the proof and
    in what execution fills in. *)
Record same_execution (b b' : Blk) : Prop := {
  se_body : body b' = body b;
  se_parent : parent_hash (header b') = parent_hash (header b);
  se_timestamp : timestamp (header b') = timestamp (header b);
  se_number : number (header b') = number (header b);
  se_transactions : transactions_root (header b') = transactions_root (header b);
  se_gas_used : gas_used (header b') = gas_used (header b);
  se_gas_limit : gas_limit (header b') = gas_limit (header b);
  se_version : version (header b') = version (header b);
}.

(** Closing looks at the store and the jump tables only, and the proof goes
    into the header. *)
Lemma close_transparent conf b b' root hashes l (e e2 : Ex) cb e' : same_execution b b' ->
  Executor.store e2 = Executor.store e -> Executor.jumps e2 = Executor.jumps e ->
  Close conf b root hashes l e = (Ok (Some cb), e') ->
  (Close conf b' root hashes l e2).1 = Ok (Some (finalized cb b')).
Proof using.
  intros [] Hs Hj. unfold Executor.close_block, Executor.open_block, Executor.gen_state. rw Hs Hj.
  destruct (State.from_existing _ _ _) as [s|err|]; [|done|done]. cbn [expect obind].
  rw se_body0 se_timestamp0 se_number0 se_gas_used0 se_gas_limit0.
  destruct (apply_transactions _ _ _ _ _ _ _ _ _ _) as [[[|]|err|] o']; try done. intros [= <- _]. cbn.
  unfold Executor.into_closed_block, finalized. cbn. by rw se_parent0 se_timestamp0 se_number0 se_transactions0 se_gas_limit0 se_version0.
Qed.

(** The header after a block was executed directly. *)
Lemma run_ext_execute (b : Blk) conf (i i' : I) : Executor.is_interrupted (ext i) = false ->
  get_current_sys_conf (Executor.sys_configs (ext i)) (Executor.max_height (ext i)) = Ok conf ->
  run (ext_execute_block sha3 encode_address_nonce LOCAL_STACK_SIZE native_factory from_bloomed with_bloomed complete_merkle_root
         bin_serialize Signature_default sha3_256 abi_decode prune_fuel b) i = (Ok tt, i') ->
  exists cb e, Close conf b (Executor.current_state_root (ext i)) (Executor.last_hashes (ext i)) (replicate (checks b) false) (ext i)
    = (Ok (Some cb), e) /\ current i' = Executor.cb_header cb.
Proof using.
  intros Hi Hc. unfold ext_execute_block. rw run_bind. unfold sbind. rw (run_close_block b conf i Hi Hc).
  destruct (Close _ _ _ _ _ _) as [[r|err|] e] eqn:E; [|done|done]. destruct (close_not_interrupted _ _ _ _ _ _ _ _ E) as [cb ->].
  intros H%run_finalize. by exists cb, e.
Qed.

(** A proposal that is executed without an interrupt waits. *)
Lemma run_ahead n (b : Blk) conf (i i' : I) : Executor.is_interrupted (ext i) = false ->
  get_current_sys_conf (Executor.sys_configs (ext i)) (Executor.max_height (ext i)) = Ok conf ->
  Executor.block_map (ext i) !! n = Some (Executor.Proposal b) -> run (execute_block n) i = (Ok tt, i') ->
  exists cb j, (Close conf b (Executor.current_state_root (ext i)) (Executor.last_hashes (ext i)) (replicate (checks b) false)
      (Executor.set_stage ExecutingProposal (ext i))).1 = Ok (Some cb) /\
    i' = with_ext (Executor.set_stage WaitFinalized (Executor.set_jumps j (ext i))) (with_closed (Some cb) i).
Proof using.
  intros Hi Hc Hm. rw (run_execute_proposal n b); [done|]. unfold Instance.run_proposal. rw run_get Hi.
  change (pbind (Ret tt) ?k) with (k tt). cbv beta. unfold set_stage at 1. rw run_put. set (i1 := with_ext _ i).
  rw run_bind. unfold sbind, execute_proposal. rw (run_close_block b conf i1); [done|done|].
  destruct (Close _ _ _ _ _ _) as [[r|err|] e] eqn:E; [|done|done]. destruct (close_not_interrupted _ _ _ _ _ _ _ _ E) as [cb ->].
  destruct (close_block_placed _ _ _ _ _ _ _ _ _ _ _ _ _ _ _ E) as [[j ->] _].
  unfold after_proposal. rw run_get. cbn [ext with_ext i1 Executor.is_interrupted Executor.set_jumps Executor.set_stage]. rw Hi run_get.
  cbn [ext with_ext i1 Executor.block_map Executor.set_jumps Executor.set_stage]. rw Hm run_modify. unfold set_stage. rw run_put_last.
  intros [= <-]. exists cb, j. by split.
Qed.
End runs.

(** ** The hashes of the last blocks while blocks are executed *)
Section windows.
  Context {HU : Util} {HR : RlpLib} {HRok : RlpLibOk} {HB : RlpBytes} {HBok : RlpBytesOk} (hash_fits : forall b, fits 256 (crypt_hash b)).
  Context {L : Type} {HL : LruCache Z L} {D : Type} {HD : Backend D} {J : Type} {HJ : LruCache BitSet J}.
  Context {Proof_ : Type} {HP : Rlp Proof_}.
  Context {S : Type} {HS : KvDb S} {HSok : KvDbOk S} {HSS : StateStore S D} {HSSok : StateStoreOk S D}.
  Context (sha3 : bytes -> H256) (encode_address_nonce : Address -> U256 -> bytes).
  Context (LOCAL_STACK_SIZE : Z) (native_factory : NativeFactory).
  Context (from_bloomed : H256 -> Z) (with_bloomed : Z -> H256 -> Z).
  Context (complete_merkle_root : list bytes -> H256) (bin_serialize : list GlobalSysConfig -> bytes).
  Context (bin_deserialize : bytes -> option (list GlobalSysConfig)).
  Context (Signature_default : bytes) (sha3_256 : bytes -> H256) (abi_decode : list ParamType -> bytes -> option (list Token)).
  Context (prune_fuel : nat) (Proof_new : Proof_).
Abbreviation Hdr := (Header (Proof_ := Proof_)).
Abbreviation Blk := (Block (Proof_ := Proof_)).
Abbreviation Closed := (Executor.ClosedBlock (Proof_ := Proof_) (D := D) (L := L)).
Abbreviation I := (Inst (Proof_ := Proof_) (S := S) (J := J) (D := D) (L := L)).
Abbreviation current i := (Executor.current_header (ext i)).
Abbreviation finalize_block := (finalize_block (D := D) (L := L) sha3 encode_address_nonce LOCAL_STACK_SIZE native_factory bin_serialize
  Signature_default sha3_256 abi_decode prune_fuel).
Abbreviation ext_execute_block := (ext_execute_block (D := D) (L := L) sha3 encode_address_nonce LOCAL_STACK_SIZE native_factory
  from_bloomed with_bloomed complete_merkle_root bin_serialize Signature_default sha3_256 abi_decode prune_fuel).
Abbreviation call := (Executor.call (L := L) (Proof_ := Proof_) (S := S) (J := J) sha3 encode_address_nonce LOCAL_STACK_SIZE native_factory).
Abbreviation init_executor := (Executor.init_executor (L := L) (Proof_ := Proof_) (S := S) (J := J) sha3 encode_address_nonce LOCAL_STACK_SIZE
  native_factory bin_serialize bin_deserialize Signature_default sha3_256 abi_decode Proof_new).

(** The window has moved on: the hashes up to [n] are the same. *)
Definition advanced (hash : Z -> H256) (n : Z) (i : I) : Prop :=
  n <= number (current i) /\ exists hash', in_window hash' (ext i) /\ forall k, k <= n -> hash' k = hash k.

Lemma run_finalize_window hash (cb : Closed) (i i' : I) :
  in_window hash (ext i) -> number (Executor.cb_header cb) = number (current i) + 1 -> fits 32 (number (Executor.cb_header cb)) ->
  run (finalize_block cb) i = (Ok tt, i') -> advanced hash (number (current i)) i'.
Proof using HRok HBok HSok HSSok hash_fits.
  intros Hw Hn Hf. unfold Instance.finalize_block, Instance.reload_config. rw run_on_ext.
  destruct (Executor.reload_config _ _ _ _ _ _ _ _ _) as [[[]|err|] e1] eqn:E1; [|done|done].
  destruct (reload_window _ _ _ _ _ _ _ _ hash _ _ Hw E1) as [Hw1 Hh1].
  rw run_on_ext. destruct (Executor.set_executed_result _ _) as [[u2|err|] e2] eqn:E2; [|done|done].
  apply set_executed_result_neutral in E2 as [r ->]. unfold send_executed_info_to_chain. rw run_get run_modify run_on_ext.
  destruct (Executor.write_batch _ _ _) as [[[]|err|] e4] eqn:E4; [|done|done]. rw run_put run_get run_put_last.
  rw -Hh1 in Hn. eapply (write_batch_hashes hash_fits prune_fuel cb _ _ hash (number (Executor.current_header e1))) in E4
    as (d & -> & Hd); [|apply Hw1|done|done|apply Hw1].
  rw -Hn in Hd. intros [= <-]. split; [cbn; rw Hn -Hh1; lia|]. eexists. split.
  - apply (next_window hash (Executor.set_result r e1) d (Executor.cb_header cb)); [by destruct Hw1|done|done|exact Hd].
  - intros k Hk. cbn beta. rw -Hh1 in Hk. rw (proj2 (Z.eqb_neq _ _)); [lia|done].
Qed.

Lemma run_read_any n (i : I) : exists l, run (read_interrupts n) i = (Ok l, i).
Proof using.
  induction n as [|n [l IH]]; [by exists []|]. cbn [read_interrupts]. rw run_get.
  destruct (Executor.is_interrupted (ext i)); [by exists [true]|]. exists (false :: l). by rw (run_then _ _ _ _ _ IH).
Qed.

(** Closing a block, interrupted or not, leaves the window. *)
Lemma run_close_any (b : Blk) (i i' : I) r :
  run (close_block sha3 encode_address_nonce LOCAL_STACK_SIZE native_factory from_bloomed with_bloomed complete_merkle_root b) i = (Ok r, i') ->
  (exists j, ext i' = Executor.set_jumps j (ext i)) /\ forall cb, r = Some cb -> placed b cb.
Proof using.
  unfold close_block. rw !run_get. destruct (get_current_sys_conf _ _) as [conf|err|]; [|done|done]. rw run_lift.
  destruct (run_read_any (Z.to_nat ((zlen (body b) + 255) / 256)) i) as [l Hl]. rw (run_then _ _ _ _ _ Hl).
  cbn. unfold sbind. destruct (Executor.close_block _ _ _ _ _ _ _ _ _ _ _ _ _) as [[x|err|] e] eqn:E; [|done|done].
  apply close_block_placed in E as [[j ->] Hp]. intros [= <- <-]. split; [by exists j|done].
Qed.

Lemma run_execute_window hash (b : Blk) (i i' : I) :
  in_window hash (ext i) -> number (header b) = number (current i) + 1 -> fits 32 (number (header b)) ->
  run (ext_execute_block b) i = (Ok tt, i') -> advanced hash (number (current i)) i'.
Proof using HRok HBok HSok HSSok hash_fits.
  intros Hw Hn Hf. unfold Instance.ext_execute_block. rw run_bind. unfold sbind.
  destruct (run (close_block _ _ _ _ _ _ _ _) i) as [[r|err|] i1] eqn:E; [|done|done].
  apply run_close_any in E as [[j Hj] Hp]. assert (Hw1 : in_window hash (ext i1)) by (rw Hj; by apply in_window_jumps).
  assert (Hc : current i1 = current i) by by rw Hj. destruct r as [cb|].
  - destruct (Hp cb eq_refl) as [Hcb _]. rw -Hc. apply run_finalize_window; [done|by rw Hcb Hc|by rw Hcb].
  - cbn. intros [= <-]. split; [rw Hc; lia|]. by exists hash.
Qed.

(** What the executor does between two blocks and for a block: it executes a
    block, finalizes an executed proposal, or answers a call at the current
    block. *)
Inductive quiet_step (i i' : I) : Prop :=
| quiet_execute b : number (header b) = number (current i) + 1 -> fits 32 (number (header b)) ->
    run (ext_execute_block b) i = (Ok tt, i') -> quiet_step i i'
| quiet_finalize cb b : number (Executor.cb_header cb) = number (current i) + 1 -> fits 32 (number (Executor.cb_header cb)) ->
    run (finalize_proposal sha3 encode_address_nonce LOCAL_STACK_SIZE native_factory bin_serialize Signature_default sha3_256 abi_decode
           prune_fuel cb b) i = (Ok tt, i') -> quiet_step i i'
| quiet_call stx id : Executor.block_header id (ext i) = Ok (Some (current i)) ->
    i' = with_ext (call stx id (ext i)).2 i -> quiet_step i i'.

Lemma quiet_window hash i i' : in_window hash (ext i) -> quiet_step i i' -> advanced hash (number (current i)) i'.
Proof using HRok HBok HSok HSSok hash_fits.
  intros Hw [b Hn Hf Hr|cb b Hn Hf Hr|stx id Hh ->].
  - by eapply run_execute_window.
  - by eapply (run_finalize_window hash (finalized cb b)).
  - destruct (call_rejumps sha3 encode_address_nonce LOCAL_STACK_SIZE native_factory hash stx id (ext i) Hh Hw) as [j Hj].
    split; [cbn; rw Hj; cbn; lia|]. exists hash. split; [|done]. cbn. rw Hj. by apply in_window_jumps.
Qed.

Lemma quiet_windows hash i i' : in_window hash (ext i) -> rtc quiet_step i i' -> advanced hash (number (current i)) i'.
Proof using HRok HBok HSok HSSok hash_fits.
  intros Hw Hr. revert hash Hw. induction Hr as [i|i i1 i2 Hs _ IH]; intros hash Hw.
  - split; [lia|]. by exists hash.
  - destruct (quiet_window hash i i1 Hw Hs) as [Hle (hash1 & Hw1 & H1)]. destruct (IH hash1 Hw1) as [Hle2 (hash2 & Hw2 & H2)].
    split; [lia|]. exists hash2. split; [done|]. intros k Hk. rw H2; [lia|]. by apply H1.
Qed.

(** The executor starts with the window of the stored block. *)
Lemma init_window (d : S) g pt h hash (e : Executor.t (Proof_ := Proof_) (S := S) (J := J)) :
  Executor.get_current_header d = Ok (Some h) -> fits 32 (number h) -> hash (number h) = header_hash rlp_out h ->
  hashes_upto d hash (number h) -> init_executor d g pt = Ok e -> in_window hash e /\ Executor.current_header e = h.
Proof using HSok.
  intros Hd Hf Hh Hs. unfold Executor.init_executor. rw Hd. cbn [obind]. destruct (Executor.executed_header h) as [eh|err|]; [|done|done].
  cbn [obind]. set (e0 := Executor.mk _ _ _ _ _ _ _ _ _ _ _ _). unfold sbind at 1.
  rw (build_window e0 hash (Some (Executor.get_current_hash e0)) (number h)); [destruct Hf; lia|exact Hs|right; by rw Hh|done|].
  set (e1 := Executor.set_last_hashes _ e0). assert (Hw1 : in_window hash e1) by by split.
  unfold sbind at 1, slift. destruct (Executor.load_config_from_db _ d) as [confs|err|]; [|done|done]. unfold sbind at 1.
  set (c := match confs with Some _ => _ | None => _ end).
  assert (Hc : exists e2, c e1 = (Ok tt, e2) /\ in_window hash e2 /\ Executor.current_header e2 = h).
  { unfold c. destruct confs as [confs|]; eexists; (split; [done|]); by split. }
  destruct Hc as (e2 & -> & Hw2 & Hh2). unfold sbind.
  destruct (Executor.reload_config _ _ _ _ _ _ _ _ e2) as [[[]|err|] e3] eqn:E; [|done|done].
  destruct (reload_window _ _ _ _ _ _ _ _ hash _ _ Hw2 E) as [Hw3 Hh3]. unfold Executor.set_gas_and_nodes, sbind, sget, slift, smodify.
  destruct (Executor.current_conf e3) as [conf|err|]; [|done|done]. intros [= <-]. split; [by destruct Hw3|cbn; congruence].
Qed.
End windows.
