(* ===== verification/AuthVerifier.v ===== *)
(** * The verifier of the authentication service

    [cita-auth/src/verifier.rs]: the hashes of the transactions of the last
    [BLOCKLIMIT] blocks, against which new transactions are checked, and the
    types of the requests and answers of the service.

    A transaction may be admitted once: its hash must not be in the window of
    known blocks, and the block it is valid until bounds how far back the
    window has to reach ([AuthTheorems.admission_once]). *)

From S2P Require Import Prelude.
From stdpp Require Import base gmap list list_numbers strings.
Local Open Scope Z_scope.
Local Open Scope cita_scope.

(** ** Requests and answers *)

(** [libproto::Ret], the values the service uses. *)
Inductive Ret : Set := RetOK | Dup | InvalidUntilBlock | BadSig | NotReady | Busy | InvalidNonce.

#[export] Instance Ret_eq_dec : EqDecision Ret.
Proof. solve_decision. Defined.

Inductive Crypto : Set := SECP | SM2.

(** [libproto::VerifyTxReq]. *)
Record VerifyTxReq : Set := {
  req_valid_until_block : Z;
  req_hash : bytes;
  req_crypto : Crypto;
  req_signature : bytes;
  req_nonce : bytes;
  req_signer : bytes;
  req_tx_hash : bytes;
}.

(** [libproto::VerifyTxResp]. *)
Record VerifyTxResp : Set := {
  resp_ret : Ret;
  resp_signer : bytes;
  resp_tx_hash : bytes;
}.

Inductive VerifyResult : Set := VerifyNotBegin | VerifyOngoing | VerifyFailed | VerifySucceeded.

#[export] Instance VerifyResult_eq_dec : EqDecision VerifyResult.
Proof. solve_decision. Defined.

Inductive VerifyType : Set := SingleVerify | BlockVerify.

Inductive VerifyRequestID : Set :=
| SingleVerifyRequestID (id : bytes)
| BlockVerifyRequestID (id : Z).

Record BlockVerifyStatus : Set := {
  request_id : Z;
  block_verify_result : VerifyResult;
  verify_success_cnt_required : Z;
  verify_success_cnt_capture : Z;
  cache_hit : Z;
}.

(** ** The window of known hashes *)
Module Verifier.
Record t : Set := mk {
  inited : bool;
  height_latest : option Z;
  height_low : option Z;
  hashes : gmap Z (gset Z);
}.

Definition default : t := mk false None None ∅.

Section verifier.
  (** The utility library: the size of the window, a hash from its bytes, the
      length of a signature and the recovery of the signer. *)
  Context (BLOCKLIMIT : Z) (from_slice : bytes -> H256).
  Context (SIGNATURE_BYTES_LEN : Z) (recover : bytes -> H256 -> option bytes).

(** The heights asked for, one message each. *)
Definition send_txhashs_req (low high : Z) : list Z := seqZ low (high - low).

(** [if h < BLOCKLIMIT { Some(0) } else { Some(h - BLOCKLIMIT + 1) }]. *)
Definition low_for (h : Z) : outcome void Z :=
  if h <? BLOCKLIMIT then Ok 0
  else d <- sub_ h BLOCKLIMIT ;; add_ 64 d 1.

(** [for i in low..high { self.hashes.remove(&i); }]. *)
Definition forget (m : gmap Z (gset Z)) (low high : Z) : gmap Z (gset Z) :=
  fold_left (fun m i => delete i m) (seqZ low (high - low)) m.

(** The end of [update_hashes]. *)
Definition insert_hashes (h : Z) (hs : gset Z) (v : t) : outcome void t :=
  let m := <[h := hs]> (hashes v) in
  latest <- expect (height_latest v) ;;
  low <- expect (height_low v) ;;
  d <- sub_ latest low ;;
  n <- add_ 64 d 1 ;;
  Ok (mk (if Z.of_nat (size m) =? n then true else inited v) (height_latest v) (height_low v) m).

(** The new verifier and the heights asked of the chain. *)
Definition update_hashes (h : Z) (hs : gset Z) (v : t) : outcome void (t * list Z) :=
  match height_latest v, height_low v with
  | None, None =>
      low <- low_for h ;;
      v <- insert_hashes h hs (mk (inited v) (Some h) (Some low) (hashes v)) ;;
      Ok (v, send_txhashs_req low h)
  | latest, low =>
      current_height <- expect latest ;;
      current_height_low <- expect low ;;
      next <- add_ 64 current_height 1 ;;
      if h =? next then
        low <- low_for h ;;
        v <- (let v := mk (inited v) (Some h) (Some low) (forget (hashes v) current_height_low low) in
              if h <? low then Ok v else insert_hashes h hs v) ;;
        Ok (v, [])
      else if next <? h then
        high <- add_ 64 h 1 ;;
        Ok (v, send_txhashs_req next high)
      else if h <? current_height_low then Ok (v, [])
      else
        v <- insert_hashes h hs v ;;
        Ok (v, [])
  end.

Definition check_hash_exist (hash : H256) (v : t) : bool :=
  if inited v
  then existsb (fun kv : Z * gset Z => bool_decide (hash ∈ kv.2)) (map_to_list (hashes v))
  else true.

Definition verify_sig (req : VerifyTxReq) : option bytes :=
  let hash := from_slice (req_hash req) in
  if negb (zlen (req_signature req) =? SIGNATURE_BYTES_LEN) then None
  else match req_crypto req with
       | SECP => recover (req_signature req) hash
       | SM2 => None
       end.

Definition verfiy_tx (req : VerifyTxReq) (v : t) : VerifyTxResp :=
  let resp ret signer := {| resp_ret := ret; resp_signer := signer; resp_tx_hash := req_tx_hash req |} in
  if 128 <? zlen (req_nonce req) then resp InvalidNonce []
  else if check_hash_exist (from_slice (req_tx_hash req)) v then
    resp (if inited v then Dup else NotReady) []
  else match verify_sig req with
       | None => resp BadSig []
       | Some signer =>
           if negb (bool_decide (req_signer req = [])) && negb (bool_decide (req_signer req = signer))
           then resp BadSig []
           else resp RetOK signer
       end.

Definition verify_valid_until_block (valid_until_block : Z) (v : t) : outcome void bool :=
  match height_latest v with
  | Some height =>
      if height <? valid_until_block
      then limit <- add_ 64 height BLOCKLIMIT ;; Ok (valid_until_block <=? limit)
      else Ok false
  | None => Ok false
  end.

(** The answer is decided by the first check that fails. *)
Definition admits (v : t) (req : VerifyTxReq) (signer : bytes) : Prop :=
  zlen (req_nonce req) <= 128 /\ check_hash_exist (from_slice (req_tx_hash req)) v = false /\
  verify_sig req = Some signer /\ (req_signer req = [] \/ req_signer req = signer).

Lemma verfiy_tx_admits v req signer :
  verfiy_tx req v = {| resp_ret := RetOK; resp_signer := signer; resp_tx_hash := req_tx_hash req |} <->
  admits v req signer.
Proof.
  rw /verfiy_tx /admits. destruct (Z.ltb_spec 128 (zlen (req_nonce req))); [split; [done|lia]|].
  destruct (check_hash_exist _ _); [split; [by destruct (inited v)|naive_solver]|].
  destruct (verify_sig req) as [s|]; [|split; [done|naive_solver]].
  destruct (bool_decide_reflect (req_signer req = [])); destruct (bool_decide_reflect (req_signer req = s));
    cbn [negb andb]; naive_solver.
Qed.
(** ** The invariant of the window

    The known heights lie in the window of [BLOCKLIMIT] blocks that ends in
    the latest one; once the verifier is ready they fill it. *)
Definition window_low (latest : Z) : Z := Z.max 0 (latest - BLOCKLIMIT + 1).

Inductive wf : t -> Prop :=
| wf_new : wf default
| wf_window ready latest m :
    0 <= latest ->
    (forall h, is_Some (m !! h) -> window_low latest <= h <= latest) ->
    (ready = true -> forall h, window_low latest <= h <= latest -> is_Some (m !! h)) ->
    wf (mk ready (Some latest) (Some (window_low latest)) m).

Context (limit_pos : 0 < BLOCKLIMIT).

Lemma low_for_ok h : 0 <= h < 2 ^ 64 -> low_for h = Ok (window_low h).
Proof.
  intros Hh. rw /low_for /window_low. destruct (Z.ltb_spec h BLOCKLIMIT).
  - by rw Z.max_l; [lia|].
  - rw sub_ok; [lia|]. cbn [obind]. rw add_ok; [lia|]. rw Z.max_r; [lia|]. done.
Qed.

Lemma forget_lookup m low high h :
  forget m low high !! h = if bool_decide (low <= h < high) then None else m !! h.
Proof using.
  rw /forget. rw (_ : bool_decide (low <= h < high) = bool_decide (h ∈ seqZ low (high - low))).
  { apply bool_decide_ext. rw elem_of_seqZ. lia. }
  generalize (seqZ low (high - low)). intros l. revert m. induction l as [|i l IH]; intros m; [done|].
  cbn [fold_left]. rw IH. case_bool_decide as H1; case_bool_decide as H2; rw elem_of_cons in H2; try done.
  - destruct H2. by right.
  - destruct H2 as [->|?]; [apply lookup_delete_eq|done].
  - apply lookup_delete_ne. intros ->. apply H2. by left.
Qed.

(** Heights of the window, counted: when there are as many as fit, there is
    one for each height. *)
Lemma window_full (m : gmap Z (gset Z)) low latest :
  low <= latest -> (forall h, is_Some (m !! h) -> low <= h <= latest) ->
  Z.of_nat (size m) = latest - low + 1 -> forall h, low <= h <= latest -> is_Some (m !! h).
Proof.
  intros Hle Hin Hsize h Hh. apply elem_of_dom.
  set (W := list_to_set (seqZ low (latest - low + 1)) : gset Z).
  assert (dom m = W) as ->; [|apply elem_of_list_to_set, elem_of_seqZ; lia].
  apply set_subseteq_size_eq.
  - intros i Hi%elem_of_dom%Hin. apply elem_of_list_to_set, elem_of_seqZ. lia.
  - rw size_dom /W size_list_to_set; [apply NoDup_seqZ|]. rw length_seqZ. lia.
Qed.

Lemma insert_hashes_ok h hs ready latest m :
  0 <= latest < 2 ^ 64 - 1 -> window_low latest <= h <= latest ->
  (forall i, is_Some (m !! i) -> window_low latest <= i <= latest) ->
  (ready = true -> forall i, window_low latest <= i <= latest -> i <> h -> is_Some (m !! i)) ->
  exists ready', (ready = true -> ready' = true) /\
    insert_hashes h hs (mk ready (Some latest) (Some (window_low latest)) m) =
      Ok (mk ready' (Some latest) (Some (window_low latest)) (<[h := hs]> m)) /\
    wf (mk ready' (Some latest) (Some (window_low latest)) (<[h := hs]> m)).
Proof.
  intros Hl Hh Hin Hfull. assert (0 <= window_low latest <= latest) by (unfold window_low; lia).
  rw /insert_hashes. cbn [height_latest height_low hashes inited expect obind].
  rw sub_ok; [lia|]. cbn [obind]. rw add_ok; [lia|]. cbn [obind].
  eexists. split; [|split; [done|]]; [by intros ->; destruct (_ =? _)|].
  assert (forall i, is_Some (<[h := hs]> m !! i) -> window_low latest <= i <= latest) as Hin'.
  { intros i [? [[-> _]|[? ?]]%lookup_insert_Some]; [done|]. apply Hin. by eexists. }
  constructor; [lia|done|]. intros Hready i Hi. destruct (Z.eqb_spec (Z.of_nat (size (<[h := hs]> m)))
    (latest - window_low latest + 1)) as [Hsize|_].
  - apply (window_full _ (window_low latest) latest); [lia|done|lia|done].
  - destruct (decide (i = h)) as [->|Hne]; [by rw lookup_insert_eq|]. rw lookup_insert_ne; [done|]. by apply Hfull.
Qed.

Lemma update_hashes_ok h hs v :
  wf v -> 0 <= h < 2 ^ 64 - 1 -> (forall l, height_latest v = Some l -> l < 2 ^ 64 - 2) ->
  exists v' out, update_hashes h hs v = Ok (v', out) /\ wf v' /\
    (inited v = true -> inited v' = true) /\
    (height_latest v' = height_latest v \/
     height_latest v' = Some h /\ forall l, height_latest v = Some l -> h = l + 1) /\
    (hashes v' = hashes v \/
     exists low high, hashes v' = <[h := hs]> (forget (hashes v) low high)).
Proof.
  intros Hv Hh Hmax. destruct Hv as [|ready latest m Hl Hin Hfull]; rw /update_hashes; cbn [height_latest height_low].
  - rw low_for_ok; [lia|]. cbn [obind].
    destruct (insert_hashes_ok h hs false h ∅) as (r & Hmono & Hr & Hwf); [lia| |by intros i [? ?]|done|].
    { unfold window_low; lia. }
    cbn [inited hashes default] in Hr |- *. rw Hr. cbn [obind]. eexists _, _. split; [done|]. split; [done|].
    split; [done|]. split; [by right|]. right. by exists 0, 0.
  - specialize (Hmax latest eq_refl). cbn [expect obind]. rw add_ok; [lia|]. cbn [obind inited hashes].
    destruct (Z.eqb_spec h (latest + 1)) as [->|Hne]; [|destruct (Z.ltb_spec (latest + 1) h) as [Hgt|Hle]];
      [..|destruct (Z.ltb_spec h (window_low latest)) as [Hlow|Hlow]].
    + rw low_for_ok; [lia|]. cbn [obind].
      rw (proj2 (Z.ltb_ge (latest + 1) (window_low (latest + 1)))); [unfold window_low; lia|].
      destruct (insert_hashes_ok (latest + 1) hs ready (latest + 1)
        (forget m (window_low latest) (window_low (latest + 1)))) as (r & Hmono & Hr & Hwf);
        [lia|unfold window_low; lia|..].
      * intros i Hi. rw forget_lookup in Hi. case_bool_decide as Hd; [by destruct Hi|].
        apply Hin in Hi. unfold window_low in *. lia.
      * intros Hr i Hi Hne. rw forget_lookup. unfold window_low in *. rw bool_decide_eq_false_2; [lia|].
        apply Hfull; [done|]. lia.
      * rw Hr. cbn [obind]. eexists _, _. split; [done|]. split; [done|]. split; [done|].
        split; [right; split; [done|by intros ? [= <-]]|]. right. by eexists _, _.
    + rw add_ok; [lia|]. cbn [obind]. eexists _, _. split; [done|]. split; [by constructor|]. split; [done|]. by split; left.
    + eexists _, _. split; [done|]. split; [by constructor|]. split; [done|]. by split; left.
    + destruct (insert_hashes_ok h hs ready latest m) as (r & Hmono & Hr & Hwf); [lia|lia|done| |].
      { intros Hr i Hi _. by apply Hfull. }
      rw Hr. cbn [obind]. eexists _, _. split; [done|]. split; [done|]. split; [done|].
      split; [by left|]. right. by exists 0, 0.
Qed.

(** ** The verifier fed by a chain

    [blocks h] are the hashes of the transactions of block [h]. *)
Context (blocks : Z -> gset Z).

Inductive fed : t -> Prop :=
| fed_new : fed default
| fed_update v h v' out :
    fed v -> 0 <= h < 2 ^ 63 -> update_hashes h (blocks h) v = Ok (v', out) -> fed v'.

Definition agrees (v : t) : Prop := forall h hs, hashes v !! h = Some hs -> hs = blocks h.

Lemma fed_ok v : fed v ->
  wf v /\ agrees v /\ forall l, height_latest v = Some l -> 0 <= l < 2 ^ 63.
Proof.
  intros Hv. induction Hv as [|v h v' out Hv (Hwf & Ha & Hb) Hh Hu]; [split; [constructor|by split]|].
  destruct (update_hashes_ok h (blocks h) v Hwf) as (v2 & out2 & Hu2 & Hwf' & _ & Hlatest & Hm); [lia| |].
  { intros l Hl. specialize (Hb l Hl). lia. }
  rw Hu in Hu2. injection Hu2 as <- <-. split; [done|]. split.
  - destruct Hm as [Hm|(low & high & Hm)]; intros i hs; rw Hm; [apply Ha|].
    rw lookup_insert_Some. intros [[<- <-]|[_ Hi]]; [done|]. rw forget_lookup in Hi.
    case_bool_decide; [done|]. by apply Ha.
  - intros l Hl. destruct Hlatest as [Hlatest|[Hlatest _]]; rw Hlatest in Hl; [by apply Hb|].
    injection Hl as <-. lia.
Qed.

(** What a ready verifier finds is what the blocks of the window hold. *)
Lemma check_hash_exact v latest hash : fed v -> height_latest v = Some latest -> inited v = true ->
  check_hash_exist hash v = true <->
  exists h, window_low latest <= h <= latest /\ hash ∈ blocks h.
Proof.
  intros (Hwf & Ha & _)%fed_ok Hl Hi. rw /check_hash_exist Hi existsb_exists.
  destruct Hwf as [|ready l m _ Hin Hfull]; [done|]. cbn [height_latest inited hashes] in *.
  injection Hl as <-. split.
  - intros ([h hs] & Hm & Hh%bool_decide_eq_true). apply list_elem_of_In, elem_of_map_to_list in Hm.
    exists h. split; [apply Hin; by eexists|]. by rw -(Ha h hs Hm).
  - intros (h & Hh & Hx). destruct (Hfull Hi h Hh) as [hs Hs]. exists (h, hs).
    split; [by apply list_elem_of_In, elem_of_map_to_list|]. rw (Ha h hs Hs). exact (bool_decide_eq_true_2 (hash ∈ blocks h) Hx).
Qed.

Lemma valid_until_exact v u l : height_latest v = Some l -> verify_valid_until_block u v = Ok true ->
  l < u <= l + BLOCKLIMIT.
Proof.
  rw /verify_valid_until_block => ->. destruct (Z.ltb_spec l u); [|done].
  rw /add_. destruct (_ <? _); [|done]. cbn [obind]. intros [= Hle%Z.leb_le]. lia.
Qed.

End verifier.
End Verifier.
