(* ===== verification/AuthHandler.v ===== *)
(** * The message handlers of the authentication service

    [cita-auth/src/handler.rs]: requests to verify a transaction or a
    proposed block, the cache of answers, the groups of requests handed to
    the thread pool, and the results that come back.  The channels between the
    threads of [main.rs] are lists in the state, the newest element last. *)

From S2P Require Import Prelude AuthVerifier.
From stdpp Require Import base gmap list strings.
Local Open Scope Z_scope.
Local Open Scope cita_scope.

(** [libproto::SubModules]: only the JSON-RPC gateway is told apart. *)
Inductive SubModules : Set := Jsonrpc | OtherModule.

#[export] Instance SubModules_eq_dec : EqDecision SubModules.
Proof. solve_decision. Defined.

(** The [Debug] form of [Ret], sent as the status of a transaction. *)
Definition Ret_debug (r : Ret) : string :=
  match r with
  | RetOK => "OK"
  | Dup => "Dup"
  | InvalidUntilBlock => "InvalidUntilBlock"
  | BadSig => "BadSig"
  | NotReady => "NotReady"
  | Busy => "Busy"
  | InvalidNonce => "InvalidNonce"
  end.

(** [jsonrpc_types::rpctypes::TxResponse]. *)
Record TxResponse : Set := { txr_hash : H256; txr_status : string }.

Inductive RpcResult : Set :=
| RpcError (msg : string)
| RpcTxState (tx_state : TxResponse).

Section handler.
  (** Unverified transactions and account gas limits are passed on only. *)
  Context {UnTx AccountGasLimit : Type}.

(** [libproto::blockchain::SignedTransaction]. *)
Record SignedTx : Type := {
  stx_with_sig : UnTx;
  stx_signer : bytes;
  stx_tx_hash : bytes;
}.

(** What the service publishes, by routing key. *)
Inductive Published : Type :=
| BlkTxHashsReq (height : Z)
| VerifyBlkRes (id : Z) (ret : Ret)
| AuthRpc (request_id : bytes) (result : RpcResult)
| AuthTx (requests : list (bytes * UnTx))
| AuthBlockTxs (height : Z) (txs : list SignedTx).

Inductive VerifyRequestResponse : Set :=
| AuthRequest (req : VerifyTxReq)
| AuthResponse (resp : VerifyTxResp).

(** The time stamp is only logged. *)
Record Info : Type := {
  sub_module : SubModules;
  verify_type : VerifyType;
  info_request_id : VerifyRequestID;
  req_resp : VerifyRequestResponse;
  un_tx : option UnTx;
}.

Definition with_req_resp (i : Info) (r : VerifyRequestResponse) : Info :=
  {| sub_module := sub_module i; verify_type := verify_type i; info_request_id := info_request_id i;
     req_resp := r; un_tx := un_tx i |}.

(** The shared objects and the channels of the service. *)
Record Auth : Type := {
  verifier : Verifier.t;
  cache : gmap Z VerifyTxResp;
  status : BlockVerifyStatus;
  tx_pub : list Published;
  tx_req_single : list Info;
  txs_sender : list (Z * gset Z * Z * AccountGasLimit);
  resp_sender : list Info;
  tx_sender : list (SubModules * bytes * TxResponse * SignedTx);
  (** the groups handed to the thread pool *)
  pool : list (list Info);
}.

Definition with_verifier (a : Auth) (v : Verifier.t) : Auth :=
  Build_Auth v (cache a) (status a) (tx_pub a) (tx_req_single a) (txs_sender a) (resp_sender a) (tx_sender a) (pool a).
Definition with_cache (a : Auth) (c : gmap Z VerifyTxResp) : Auth :=
  Build_Auth (verifier a) c (status a) (tx_pub a) (tx_req_single a) (txs_sender a) (resp_sender a) (tx_sender a) (pool a).
Definition with_status (a : Auth) (s : BlockVerifyStatus) : Auth :=
  Build_Auth (verifier a) (cache a) s (tx_pub a) (tx_req_single a) (txs_sender a) (resp_sender a) (tx_sender a) (pool a).
Definition publish (a : Auth) (l : list Published) : Auth :=
  Build_Auth (verifier a) (cache a) (status a) (tx_pub a ++ l) (tx_req_single a) (txs_sender a) (resp_sender a) (tx_sender a) (pool a).
Definition send_single (a : Auth) (l : list Info) : Auth :=
  Build_Auth (verifier a) (cache a) (status a) (tx_pub a) (tx_req_single a ++ l) (txs_sender a) (resp_sender a) (tx_sender a) (pool a).
Definition send_txs (a : Auth) (t : Z * gset Z * Z * AccountGasLimit) : Auth :=
  Build_Auth (verifier a) (cache a) (status a) (tx_pub a) (tx_req_single a) (txs_sender a ++ [t]) (resp_sender a) (tx_sender a) (pool a).
Definition respond (a : Auth) (i : Info) : Auth :=
  Build_Auth (verifier a) (cache a) (status a) (tx_pub a) (tx_req_single a) (txs_sender a) (resp_sender a ++ [i]) (tx_sender a) (pool a).
Definition send_tx (a : Auth) (t : SubModules * bytes * TxResponse * SignedTx) : Auth :=
  Build_Auth (verifier a) (cache a) (status a) (tx_pub a) (tx_req_single a) (txs_sender a) (resp_sender a) (tx_sender a ++ [t]) (pool a).
Definition pool_execute (a : Auth) (l : list (list Info)) : Auth :=
  Build_Auth (verifier a) (cache a) (status a) (tx_pub a) (tx_req_single a) (txs_sender a) (resp_sender a) (tx_sender a) (pool a ++ l).

  Context (BLOCKLIMIT : Z) (from_slice : bytes -> H256).
  Context (SIGNATURE_BYTES_LEN : Z) (recover : bytes -> H256 -> option bytes).
  Context (tx_verify_req_msg : UnTx -> VerifyTxReq).

(** ** Single requests *)

Definition process_flow_control_failed (verify_info : Info) (a : Auth) : Auth :=
  match req_resp verify_info with
  | AuthRequest req =>
      respond a (with_req_resp verify_info
        (AuthResponse {| resp_ret := Busy; resp_signer := []; resp_tx_hash := req_tx_hash req |}))
  | AuthResponse _ => a
  end.

(** A round of the loop of [verify_tx_group_service] locks the verifier for
    reading and then the cache for writing; between the two another thread may
    run. *)
Definition store_response (req_info : Info) (req : VerifyTxReq) (response : VerifyTxResp) (a : Auth) : Auth :=
  let a := with_cache a (<[from_slice (req_tx_hash req) := response]> (cache a)) in
  respond a (with_req_resp req_info (AuthResponse response)).

Definition verify_one (req_info : Info) (a : Auth) : Auth :=
  match req_resp req_info with
  | AuthRequest req =>
      let response := Verifier.verfiy_tx from_slice SIGNATURE_BYTES_LEN recover req (verifier a) in
      store_response req_info req response a
  | AuthResponse _ => a
  end.

(** [while let Some(req) = req_grp.pop()]: the last request first. *)
Definition verify_tx_group_service (req_grp : list Info) (a : Auth) : Auth :=
  fold_left (fun a i => verify_one i a) (rev req_grp) a.

Definition get_resp_from_cache (tx_hash : H256) (a : Auth) : option VerifyTxResp := cache a !! tx_hash.

Definition is_single (t : VerifyType) : bool :=
  match t with SingleVerify => true | BlockVerify => false end.

Definition check_verify_request_preprocess (req_info : Info) (a : Auth) : outcome void (VerifyResult * Auth) :=
  match req_resp req_info with
  | AuthRequest req =>
      let tx_hash := from_slice (req_tx_hash req) in
      let is_single_verify := is_single (verify_type req_info) in
      expired <- (if is_single_verify
                  then b <- Verifier.verify_valid_until_block BLOCKLIMIT (req_valid_until_block req)
                              (verifier a) ;; Ok (negb b)
                  else Ok false) ;;
      let processed :=
        if expired : bool
        then Some {| resp_ret := InvalidUntilBlock; resp_signer := []; resp_tx_hash := req_tx_hash req |}
        else get_resp_from_cache tx_hash a in
      match processed with
      | Some final_response =>
          let result := match resp_ret final_response with RetOK => VerifySucceeded | _ => VerifyFailed end in
          Ok (result, if is_single_verify
                      then respond a (with_req_resp req_info (AuthResponse final_response)) else a)
      | None => Ok (VerifyNotBegin, a)
      end
  | AuthResponse _ => Ok (VerifyNotBegin, a)
  end.

(** ** Messages from other services *)
Record NewTx : Type := { new_request_id : bytes; new_un_tx : UnTx }.

Inductive Request : Type :=
| BatchReq (new_tx_requests : list NewTx)
| UnTxReq (tx : NewTx)
| OtherReq.

Inductive MsgClass : Type :=
| BlockTxHashes (height : Z) (tx_hashes : list bytes) (block_gas_limit : Z) (account_gas_limit : AccountGasLimit)
| VerifyBlockReq (id : Z) (reqs : list VerifyTxReq)
| MsgRequest (newtx_req : Request)
| OtherMsg.

Definition handle_block_tx_hashes (height : Z) (tx_hashes : list bytes) (block_gas_limit : Z)
    (account_gas_limit : AccountGasLimit) (a : Auth) : outcome void Auth :=
  let hashes := from_slice <$> tx_hashes in
  let tx_hashes_in_h256 := list_to_set hashes : gset Z in
  let a := with_cache a (fold_left (fun c h => delete h c) hashes (cache a)) in
  let* (v, asked) := Verifier.update_hashes BLOCKLIMIT height tx_hashes_in_h256 (verifier a) in
  let a := publish (with_verifier a v) (BlkTxHashsReq <$> asked) in
  let flag := match Verifier.height_latest (verifier a) with Some h => height =? h | None => true end in
  Ok (if flag then send_txs a (height, tx_hashes_in_h256, block_gas_limit, account_gas_limit) else a).

Definition block_info (submodule : SubModules) (id : Z) (req : VerifyTxReq) : Info :=
  {| sub_module := submodule; verify_type := BlockVerify; info_request_id := BlockVerifyRequestID id;
     req_resp := AuthRequest req; un_tx := None |}.

Definition publish_block_verification_result (id : Z) (ret : Ret) (a : Auth) : Auth :=
  publish a [VerifyBlkRes id ret].

Definition publish_block_verification_fail_result (id : Z) (hash : H256) (a : Auth) : Auth :=
  let ret := match get_resp_from_cache hash a with Some resp => resp_ret resp | None => BadSig end in
  publish_block_verification_result id ret a.

Definition capture (s : BlockVerifyStatus) (hit : Z) : outcome void BlockVerifyStatus :=
  n <- add_ 64 (verify_success_cnt_capture s) 1 ;;
  Ok {| request_id := request_id s; block_verify_result := block_verify_result s;
        verify_success_cnt_required := verify_success_cnt_required s; verify_success_cnt_capture := n;
        cache_hit := cache_hit s + hit |}.

Definition with_result (s : BlockVerifyStatus) (r : VerifyResult) : BlockVerifyStatus :=
  {| request_id := request_id s; block_verify_result := r;
     verify_success_cnt_required := verify_success_cnt_required s;
     verify_success_cnt_capture := verify_success_cnt_capture s; cache_hit := cache_hit s |}.

(** The loop over the requests of a block: the requests left to verify.  The
    statement [block_verify_result == VerifyFailed;] of the failing branch is
    a comparison, so the status stays what it was. *)
Fixpoint block_loop (submodule : SubModules) (id : Z) (reqs : list VerifyTxReq) (a : Auth)
    : outcome void (list Info * Auth) :=
  match reqs with
  | [] => Ok ([], a)
  | req :: reqs =>
      let* (result, a) := check_verify_request_preprocess (block_info submodule id req) a in
      match result with
      | VerifySucceeded =>
          s <- capture (status a) 1 ;;
          block_loop submodule id reqs (with_status a s)
      | VerifyFailed =>
          let resp_ret :=
            match get_resp_from_cache (from_slice (req_tx_hash req)) a with
            | Some resp => resp_ret resp
            | None => BadSig
            end in
          Ok ([], publish_block_verification_result id resp_ret a)
      | _ =>
          let* (need, a) := block_loop submodule id reqs a in
          Ok (block_info submodule id req :: need, a)
      end
  end.

Definition handle_verify_block_req (submodule : SubModules) (per_thread : nat) (id : Z)
    (reqs : list VerifyTxReq) (a : Auth) : outcome void Auth :=
  if negb (zlen reqs =? 0) then
    let a := with_status a
      {| request_id := id; block_verify_result := VerifyOngoing; verify_success_cnt_required := zlen reqs;
         verify_success_cnt_capture := 0; cache_hit := 0 |} in
    let* (tx_need_verify, a) := block_loop submodule id reqs a in
    if negb (zlen tx_need_verify =? 0) then
      groups <- chunks per_thread tx_need_verify ;;
      Ok (pool_execute a groups)
    else if verify_success_cnt_capture (status a) =? verify_success_cnt_required (status a) then
      Ok (publish_block_verification_result id RetOK (with_status a (with_result (status a) VerifySucceeded)))
    else Ok a
  else Ok a.

Definition single_info (submodule : SubModules) (tx : NewTx) : Info :=
  {| sub_module := submodule; verify_type := SingleVerify;
     info_request_id := SingleVerifyRequestID (new_request_id tx);
     req_resp := AuthRequest (tx_verify_req_msg (new_un_tx tx)); un_tx := Some (new_un_tx tx) |}.

Definition handle_request (submodule : SubModules) (r : Request) (a : Auth) : Auth :=
  match r with
  | BatchReq txs => send_single a (single_info submodule <$> txs)
  | UnTxReq tx => send_single a [single_info submodule tx]
  | OtherReq => a
  end.

Definition handle_remote_msg (submodule : SubModules) (per_thread : nat) (msg : MsgClass) (a : Auth)
    : outcome void Auth :=
  match msg with
  | BlockTxHashes height hs bgl agl => handle_block_tx_hashes height hs bgl agl a
  | VerifyBlockReq id reqs => handle_verify_block_req submodule per_thread id reqs a
  | MsgRequest r => Ok (handle_request submodule r a)
  | OtherMsg => Ok a
  end.

(** ** Results of verification *)
Definition handle_single_result (i : Info) (resp : VerifyTxResp) (a : Auth) : outcome void Auth :=
  let tx_hash := from_slice (resp_tx_hash resp) in
  match info_request_id i with
  | SingleVerifyRequestID id =>
      let result := Ret_debug (resp_ret resp) in
      match resp_ret resp with
      | RetOK =>
          un <- expect (un_tx i) ;;
          Ok (send_tx a (sub_module i, id, {| txr_hash := tx_hash; txr_status := result |},
                {| stx_with_sig := un; stx_signer := resp_signer resp; stx_tx_hash := to_be 32 tx_hash |}))
      | _ =>
          Ok (if bool_decide (sub_module i = Jsonrpc)
              then publish a [AuthRpc id (RpcError result)] else a)
      end
  | BlockVerifyRequestID _ => Ok a
  end.

Definition handle_block_result (i : Info) (resp : VerifyTxResp) (a : Auth) : outcome void Auth :=
  match info_request_id i with
  | BlockVerifyRequestID id =>
      match resp_ret resp with
      | RetOK =>
          if id =? request_id (status a) then
            s <- capture (status a) 0 ;;
            if verify_success_cnt_capture s =? verify_success_cnt_required s then
              Ok (publish_block_verification_result id RetOK (with_status a (with_result s VerifySucceeded)))
            else Ok (with_status a s)
          else Ok a
      | result =>
          if (id =? request_id (status a)) &&
             negb (bool_decide (block_verify_result (status a) = VerifyFailed))
          then Ok (publish_block_verification_result id result
                     (with_status a (with_result (status a) VerifyFailed)))
          else Ok a
      end
  | SingleVerifyRequestID _ => Ok a
  end.

(** One message received from the channel of results. *)
Definition handle_verificaton_result (i : Info) (a : Auth) : outcome void Auth :=
  match req_resp i with
  | AuthResponse resp =>
      match verify_type i with
      | SingleVerify => handle_single_result i resp a
      | BlockVerify => handle_block_result i resp a
      end
  | AuthRequest _ => Ok a
  end.

Fixpoint handle_results (l : list Info) (a : Auth) : outcome void Auth :=
  match l with
  | [] => Ok a
  | i :: l => a <- handle_verificaton_result i a ;; handle_results l a
  end.

(** The thread of [main.rs] that takes single requests from the channel: the
    group of requests that is handed to the pool.  [capacity] is the room
    left in the transaction pool. *)
Fixpoint collect_requests (tx_pool_limit capacity : Z) (per_thread : Z) (queue : list Info) (req_grp : list Info)
    (a : Auth) : outcome void (list Info * list Info * Auth) :=
  match queue with
  | [] => Ok (req_grp, [], a)
  | i :: queue =>
      if negb (tx_pool_limit =? 0) && (capacity =? 0) then
        collect_requests tx_pool_limit capacity per_thread queue req_grp (process_flow_control_failed i a)
      else
        let* (r, a) := check_verify_request_preprocess i a in
        match r with
        | VerifyNotBegin =>
            let req_grp := req_grp ++ [i] in
            if per_thread <? zlen req_grp then Ok (req_grp, queue, a)
            else collect_requests tx_pool_limit capacity per_thread queue req_grp a
        | _ => collect_requests tx_pool_limit capacity per_thread queue req_grp a
        end
  end.

(** ** The service, one message at a time

    [blocks h] are the hashes of block [h].  A message is handled, a request
    is verified, or something happens that changes neither the verifier nor
    the cache. *)
Inductive reached (blocks : Z -> gset Z) : Auth -> Prop :=
| reached_start a :
    verifier a = Verifier.default -> cache a = ∅ -> reached blocks a
| reached_block a h hs bgl agl a' :
    reached blocks a -> 0 <= h < 2 ^ 63 -> list_to_set (from_slice <$> hs) = blocks h ->
    handle_block_tx_hashes h hs bgl agl a = Ok a' -> reached blocks a'
| reached_verify a i : reached blocks a -> reached blocks (verify_one i a)
| reached_other a a' :
    reached blocks a -> verifier a' = verifier a -> cache a' = cache a -> reached blocks a'.

(** Answers in the cache agree with the blocks known. *)
Definition cache_fresh (blocks : Z -> gset Z) (a : Auth) : Prop :=
  forall hash resp, cache a !! hash = Some resp -> resp_ret resp = RetOK ->
    Verifier.inited (verifier a) = true /\
    forall h latest, Verifier.height_latest (verifier a) = Some latest ->
      Verifier.window_low BLOCKLIMIT latest <= h <= latest -> hash ∉ blocks h.

Lemma purge_lookup (hs : list Z) (c : gmap Z VerifyTxResp) hash resp :
  fold_left (fun c h => delete h c) hs c !! hash = Some resp -> c !! hash = Some resp /\ hash ∉ hs.
Proof.
  revert c. induction hs as [|h hs IH]; intros c Hc; [split; [done|]; by apply not_elem_of_nil|].
  cbn [fold_left] in Hc. apply IH in Hc as [Hc Hn]. apply lookup_delete_Some in Hc as [Hne Hc].
  split; [done|]. rw elem_of_cons. naive_solver.
Qed.

  Context (limit_pos : 0 < BLOCKLIMIT).

Lemma handle_block_spec h hs bgl agl a a' : handle_block_tx_hashes h hs bgl agl a = Ok a' ->
  exists out, Verifier.update_hashes BLOCKLIMIT h (list_to_set (from_slice <$> hs)) (verifier a) = Ok (verifier a', out) /\
    cache a' = fold_left (fun c h => delete h c) (from_slice <$> hs) (cache a).
Proof.
  rw /handle_block_tx_hashes. cbn [verifier with_cache].
  destruct (Verifier.update_hashes _ _ _ _) as [[v out]| |]; [|done..]. cbn [obind]. intros [= <-]. exists out.
  by destruct (match _ with Some _ => _ | None => _ end).
Qed.

Lemma cache_fresh_block blocks a h hs bgl agl a' :
  Verifier.fed BLOCKLIMIT blocks (verifier a) -> cache_fresh blocks a -> 0 <= h < 2 ^ 63 ->
  list_to_set (from_slice <$> hs) = blocks h -> handle_block_tx_hashes h hs bgl agl a = Ok a' ->
  Verifier.fed BLOCKLIMIT blocks (verifier a') /\ cache_fresh blocks a'.
Proof.
  intros Hf Hc Hh Hs (out & Hu & Hca)%handle_block_spec. rw Hs in Hu.
  assert (Verifier.fed BLOCKLIMIT blocks (verifier a')) as Hf' by by eapply Verifier.fed_update.
  split; [done|]. intros hash resp Hr Hok. rw Hca in Hr. apply purge_lookup in Hr as [Hr Hn].
  destruct (Hc hash resp Hr Hok) as [Hi Hw]. destruct (Verifier.fed_ok _ limit_pos _ _ Hf) as (Hwf & _ & Hb).
  destruct (Verifier.update_hashes_ok BLOCKLIMIT limit_pos h (blocks h) (verifier a) Hwf)
    as (v & out' & Hu' & _ & Hi' & Hl & _); [lia|by intros l Hl%Hb; lia|].
  rw Hu in Hu'. injection Hu' as <- _. split; [by apply Hi'|]. intros h' latest Hlatest Hwin.
  destruct Hl as [Hl|[Hl Hnext]]; rw Hl in Hlatest; [by eapply Hw|]. injection Hlatest as ->.
  destruct (decide (h' = latest)) as [->|Hne]; [rw -Hs elem_of_list_to_set; done|].
  destruct (Verifier.height_latest (verifier a)) as [l|] eqn:El.
  - specialize (Hnext l eq_refl). apply (Hw h' l eq_refl). unfold Verifier.window_low in *. lia.
  - exfalso. destruct Hwf; [cbn in Hi|cbn in El]; done.
Qed.

Lemma cache_fresh_verify blocks a i :
  Verifier.fed BLOCKLIMIT blocks (verifier a) -> cache_fresh blocks a -> cache_fresh blocks (verify_one i a).
Proof.
  intros Hf Hc. rw /verify_one. destruct (req_resp i) as [req|]; [|done].
  intros hash resp. cbn [cache verifier store_response respond with_cache].
  rw lookup_insert_Some. intros [[<- <-]|[_ Hr]] Hok; [|by eapply Hc].
  destruct (Verifier.verfiy_tx_admits from_slice SIGNATURE_BYTES_LEN recover (verifier a) req
    (resp_signer (Verifier.verfiy_tx from_slice SIGNATURE_BYTES_LEN recover req (verifier a)))) as [Had _].
  destruct Had as (_ & Hex & _).
  { revert Hok. rw /Verifier.verfiy_tx. repeat case_match; cbn; congruence. }
  destruct (Verifier.inited (verifier a)) eqn:Hi; [|by rw /Verifier.check_hash_exist Hi in Hex].
  split; [done|]. intros h latest Hl Hw Hin. rw (proj2 (Verifier.check_hash_exact BLOCKLIMIT limit_pos blocks
    (verifier a) latest _ Hf Hl Hi)) in Hex; [by exists h|done].
Qed.

Lemma reached_ok blocks a : reached blocks a ->
  Verifier.fed BLOCKLIMIT blocks (verifier a) /\ cache_fresh blocks a.
Proof.
  intros Hr. induction Hr as [a Hv Hc|a h hs bgl agl a' _ [Hf Hc] Hh Hs Ha|a i _ [Hf Hc]|a a' _ [Hf Hc] Hv Hca].
  - rw Hv /cache_fresh Hc. split; [constructor|]. intros ? ? ?%lookup_empty_Some. done.
  - by eapply cache_fresh_block.
  - split; [|by apply cache_fresh_verify]. rw /verify_one. by destruct (req_resp i).
  - rw /cache_fresh Hv Hca. done.
Qed.

(** ** The answer to a block request *)

(** What was published about block requests. *)
Definition block_answers (l : list Published) : list (Z * Ret) :=
  omap (fun p => match p with VerifyBlkRes id ret => Some (id, ret) | _ => None end) l.

(** [r] answers the request [i]. *)
Definition answered (i r : Info) : Prop := exists resp, r = with_req_resp i (AuthResponse resp).

Definition ret_of (r : Info) : Ret :=
  match req_resp r with AuthResponse resp => resp_ret resp | AuthRequest _ => NotReady end.

(** The first answer that is not [OK], or [OK]. *)
Definition first_bad (l : list Ret) : Ret := default RetOK (head (filter (fun r => r <> RetOK) l)).

(** While the results of block [id] come in: [left] of them are missing. *)
Record counting (id left : Z) (a : Auth) : Prop := {
  cn_id : request_id (status a) = id;
  cn_result : block_verify_result (status a) = VerifyOngoing;
  cn_count : verify_success_cnt_capture (status a) + left = verify_success_cnt_required (status a);
  cn_nonneg : 0 <= verify_success_cnt_capture (status a);
  cn_bound : verify_success_cnt_required (status a) < 2 ^ 64;
}.

(** After a failure: the results can no longer be complete. *)
Record failed (id left : Z) (a : Auth) : Prop := {
  fl_id : request_id (status a) = id;
  fl_result : block_verify_result (status a) = VerifyFailed;
  fl_count : verify_success_cnt_capture (status a) + left < verify_success_cnt_required (status a);
  fl_nonneg : 0 <= verify_success_cnt_capture (status a);
  fl_bound : verify_success_cnt_required (status a) < 2 ^ 64;
}.

Definition block_answer (id : Z) (r : Info) : Prop :=
  verify_type r = BlockVerify /\ info_request_id r = BlockVerifyRequestID id /\
  exists resp, req_resp r = AuthResponse resp.

Lemma failed_silent id l a :
  Forall (block_answer id) l -> failed id (zlen l) a ->
  exists a', handle_results l a = Ok a' /\ tx_pub a' = tx_pub a.
Proof.
  intros Hl. revert a. induction Hl as [|r l (Ht & Hi & resp & Hr) _ IH]; intros a Hf; [by eexists|].
  rw zlen_cons in Hf. destruct Hf as [Hid Hres Hc Hn Hb]. pose proof (zlen_nonneg l).
  cbn [handle_results]. rw /handle_verificaton_result Hr Ht /handle_block_result Hi Hid Z.eqb_refl.
  destruct (resp_ret resp) eqn:Eret; cbn [andb]; try (
    rw Hres bool_decide_eq_true_2; [done|]; cbn [negb obind]; apply IH; by split; [..|lia|lia|lia]).
  rw /capture add_ok; [lia|]. cbn [obind verify_success_cnt_capture verify_success_cnt_required].
  rw (proj2 (Z.eqb_neq _ _)); [lia|]. cbn [obind].
  destruct (IH (with_status a {| request_id := request_id (status a); block_verify_result := block_verify_result (status a);
    verify_success_cnt_required := verify_success_cnt_required (status a);
    verify_success_cnt_capture := verify_success_cnt_capture (status a) + 1;
    cache_hit := cache_hit (status a) + 0 |})) as (a' & Ha & Hp); [|by exists a'].
  split; cbn; [done|done|lia|lia|lia].
Qed.

(** A result that completes the block, or the first failure, is published. *)
Lemma counting_answers id l a :
  Forall (block_answer id) l -> counting id (zlen l) a -> l <> [] ->
  exists a', handle_results l a = Ok a' /\
    tx_pub a' = tx_pub a ++ [VerifyBlkRes id (first_bad (ret_of <$> l))].
Proof.
  intros Hl. revert a. induction Hl as [|r l (Ht & Hi & resp & Hr) Hl IH]; intros a Hc Hne; [done|].
  rw zlen_cons in Hc. destruct Hc as [Hid Hres Hc Hn Hb]. pose proof (zlen_nonneg l).
  cbn [handle_results]. rw /handle_verificaton_result Hr Ht /handle_block_result Hi Hid Z.eqb_refl.
  rw fmap_cons. assert (ret_of r = resp_ret resp) as -> by by rw /ret_of Hr.
  destruct (decide (resp_ret resp = RetOK)) as [Eok|Ebad].
  - rw Eok /capture add_ok; [lia|]. cbn [obind verify_success_cnt_capture verify_success_cnt_required].
    rw /first_bad filter_cons_False; [by intros []|].
    destruct (Z.eqb_spec (verify_success_cnt_capture (status a) + 1) (verify_success_cnt_required (status a))) as [Hd|Hd].
    + destruct l; [|rw zlen_cons in Hc; pose proof (zlen_nonneg l); lia]. by eexists.
    + cbn [obind]. destruct (IH (with_status a {| request_id := request_id (status a);
        block_verify_result := block_verify_result (status a);
        verify_success_cnt_required := verify_success_cnt_required (status a);
        verify_success_cnt_capture := verify_success_cnt_capture (status a) + 1;
        cache_hit := cache_hit (status a) + 0 |})) as (a' & Ha & Hp); [..|by exists a'].
      * split; cbn; [done|done|lia|lia|lia].
      * intros ->. rw zlen_nil in Hc. lia.
  - assert (first_bad (resp_ret resp :: (ret_of <$> l)) = resp_ret resp) as ->.
    { by rw /first_bad filter_cons_True. }
    destruct (failed_silent id l (publish_block_verification_result id (resp_ret resp)
      (with_status a (with_result (status a) VerifyFailed)))) as (a' & Ha & Hp); [done|..].
    { split; cbn; [done|done|lia|done|done]. }
    exists a'. rw Hres bool_decide_eq_false_2; [done|]. cbn [negb andb].
    destruct (resp_ret resp); try done; cbn [obind]; by rw Ha Hp.
Qed.

(** The loop over a block of which no transaction is known to be bad. *)
Lemma block_loop_ok sub id reqs a :
  (forall req resp, req ∈ reqs -> cache a !! from_slice (req_tx_hash req) = Some resp -> resp_ret resp = RetOK) ->
  verify_success_cnt_capture (status a) + zlen reqs < 2 ^ 64 ->
  exists s, block_loop sub id reqs a =
      Ok (block_info sub id <$> filter (fun req => cache a !! from_slice (req_tx_hash req) = None) reqs,
          with_status a s) /\
    request_id s = request_id (status a) /\ block_verify_result s = block_verify_result (status a) /\
    verify_success_cnt_required s = verify_success_cnt_required (status a) /\
    verify_success_cnt_capture s + zlen (filter (fun req => cache a !! from_slice (req_tx_hash req) = None) reqs) =
      verify_success_cnt_capture (status a) + zlen reqs /\
    verify_success_cnt_capture (status a) <= verify_success_cnt_capture s.
Proof.
  revert a. induction reqs as [|req reqs IH]; intros a Hok Hb.
  { exists (status a). destruct a. cbn. split; [done|]. repeat split; lia. }
  rw zlen_cons in Hb. pose proof (zlen_nonneg reqs). cbn [block_loop].
  rw /check_verify_request_preprocess. cbn [req_resp block_info verify_type is_single obind].
  rw /get_resp_from_cache. destruct (cache a !! from_slice (req_tx_hash req)) as [resp|] eqn:Ec.
  - rw (Hok req resp); [by left|done|]. cbn [obind]. rw /capture add_ok; [lia|]. cbn [obind].
    rw filter_cons_False; [by rw Ec|]. rw zlen_cons.
    edestruct (IH (with_status a {| request_id := request_id (status a);
      block_verify_result := block_verify_result (status a);
      verify_success_cnt_required := verify_success_cnt_required (status a);
      verify_success_cnt_capture := verify_success_cnt_capture (status a) + 1;
      cache_hit := cache_hit (status a) + 1 |})) as (s & Hs & H1 & H2 & H3 & H4 & H5).
    { intros r resp' Hr. apply Hok. by right. }
    { cbn. lia. }
    exists s. cbn in Hs, H1, H2, H3, H4, H5. split; [done|]. repeat split; [done..|lia|lia].
  - cbn [obind]. rw filter_cons_True; [done|]. rw !zlen_cons.
    destruct (IH a) as (s & -> & H1 & H2 & H3 & H4 & H5); [|lia|].
    { intros r resp' Hr. apply Hok. by right. }
    exists s. cbn [obind]. split; [done|]. repeat split; [done..|lia|lia].
Qed.

(** The thread pool answers every request of a group. *)
Lemma group_service_answers g a :
  Forall (fun i => exists req, req_resp i = AuthRequest req) g ->
  exists rs, resp_sender (verify_tx_group_service g a) = resp_sender a ++ rs /\ Forall2 answered (rev g) rs.
Proof.
  intros Hg. rw /verify_tx_group_service. apply Forall_rev in Hg. revert a Hg. generalize (rev g). clear g.
  intros g. induction g as [|i g IH]; intros a Hg.
  { exists []. by rw app_nil_r. }
  apply Forall_cons in Hg as [[req Hi] Hg]. cbn [fold_left]. destruct (IH (verify_one i a) Hg) as (rs & Hrs & Hall).
  rw Hrs /verify_one Hi. cbn [resp_sender respond]. eexists (_ :: rs). rw -app_assoc. split; [done|].
  constructor; [|done]. by eexists.
Qed.

(** Answers to the requests of a block, in any order. *)
Lemma answers_of_block sub id (need : list VerifyTxReq) order results :
  (block_info sub id <$> need) ≡ₚ order -> Forall2 answered order results ->
  Forall (block_answer id) results /\ zlen results = zlen need.
Proof.
  intros Hp Hall. split.
  - apply Forall_forall. intros r Hr. apply list_elem_of_lookup in Hr as [k Hk].
    eapply Forall2_lookup_r in Hall as (i & Hi & resp & ->); [|exact Hk].
    assert (i ∈ block_info sub id <$> need) as (req & -> & _)%list_elem_of_fmap
      by (rw Hp; by eapply list_elem_of_lookup_2).
    split; [done|]. split; [done|]. by exists resp.
  - rw /zlen. apply Forall2_length in Hall. rw -Hall. apply Permutation_length in Hp. rw length_fmap in Hp. lia.
Qed.

(** ** What stays in the cache *)
Fixpoint handle_all (sub : SubModules) (per_thread : nat) (msgs : list MsgClass) (a : Auth) : outcome void Auth :=
  match msgs with
  | [] => Ok a
  | m :: msgs => a <- handle_remote_msg sub per_thread m a ;; handle_all sub per_thread msgs a
  end.

(** The message reports a block with the transaction. *)
Definition mentions (hash : H256) (m : MsgClass) : Prop :=
  match m with BlockTxHashes _ hs _ _ => hash ∈ from_slice <$> hs | _ => False end.

Lemma block_loop_cache sub id reqs a need a' : block_loop sub id reqs a = Ok (need, a') -> cache a' = cache a.
Proof.
  revert a need a'. induction reqs as [|req reqs IH]; intros a need a'; [by intros [= <- <-]|].
  cbn [block_loop]. rw /check_verify_request_preprocess. cbn [req_resp block_info verify_type is_single obind].
  destruct (get_resp_from_cache (from_slice (req_tx_hash req)) a) as [resp|] eqn:Ec; cbn [obind].
  - destruct (resp_ret resp); try by (intros [= <- <-]).
    rw /capture. destruct (add_ 64 _ 1); cbn [obind]; [|done..]. intros Hb. by apply IH in Hb.
  - destruct (block_loop sub id reqs a) as [[n a1]| |] eqn:Eb; cbn [obind]; [|done..]. intros [= <- <-]. by apply IH in Eb.
Qed.

Lemma purge_other (hs : list Z) (c : gmap Z VerifyTxResp) hash :
  hash ∉ hs -> fold_left (fun c h => delete h c) hs c !! hash = c !! hash.
Proof.
  revert c. induction hs as [|h hs IH]; intros c Hn; [done|]. apply not_elem_of_cons in Hn as [Hne Hn].
  cbn [fold_left]. rw IH; [done|]. by apply lookup_delete_ne.
Qed.

Lemma handle_remote_msg_cache sub n m a a' hash :
  handle_remote_msg sub n m a = Ok a' -> ~ mentions hash m -> cache a' !! hash = cache a !! hash.
Proof.
  destruct m as [h hs bgl agl|id reqs|r|]; cbn [handle_remote_msg mentions].
  - intros (out & _ & ->)%handle_block_spec Hn. by apply purge_other.
  - intros Hh _. f_equal. revert Hh. rw /handle_verify_block_req. destruct (negb _); [|by intros [= <-]].
    destruct (block_loop _ _ _ _) as [[need a1]| |] eqn:Eb; cbn [obind]; [|done..].
    apply block_loop_cache in Eb. destruct (negb _).
    + destruct (chunks _ _); cbn [obind]; [|done..]. by intros [= <-].
    + by destruct (_ =? _); intros [= <-].
  - intros [= <-] _. by destruct r.
  - by intros [= <-].
Qed.

Lemma handle_all_cache sub n msgs a a' hash :
  handle_all sub n msgs a = Ok a' -> Forall (fun m => ~ mentions hash m) msgs -> cache a' !! hash = cache a !! hash.
Proof.
  revert a. induction msgs as [|m msgs IH]; intros a; [by intros [= <-]|]. cbn [handle_all].
  destruct (handle_remote_msg sub n m a) as [a1| |] eqn:Em; cbn [obind]; [|done..].
  intros Ha [Hm Hms]%Forall_cons. rw (IH a1 Ha Hms). by eapply handle_remote_msg_cache.
Qed.
End handler.
