(* ===== verification/AuthDispatcher.v ===== *)
(** * The dispatcher of the authentication service

    [cita-auth/src/dispatcher.rs] and [txwal.rs]: verified transactions go
    into the pool and, in batches, to the peers; when a block was made, its
    transactions leave the pool and the next ones are packaged. *)

From S2P Require Import Prelude AuthVerifier AuthHandler.
From stdpp Require Import base gmap list strings.
Local Open Scope Z_scope.
Local Open Scope cita_scope.

(** [tx_pool::Pool]. *)
Class TxPool (P Tx AccountGasLimit : Type) : Type := {
  pool_enqueue : Tx -> P -> bool * P;
  pool_package : Z -> Z -> AccountGasLimit -> P -> list Tx * P;
  pool_update_with_hash : gset Z -> P -> P;
  pool_update : list Tx -> P -> P;
  pool_len : P -> Z;
}.

(** [util::kvdb::KeyValueDB]. *)
Class KeyValueDB (K : Type) : Type := {
  kv_put : bytes -> bytes -> K -> K;
  kv_delete : bytes -> K -> K;
  kv_iter : K -> list (bytes * bytes);
}.

Section dispatcher.
  Context {UnTx AccountGasLimit : Type}.
Abbreviation Tx := (SignedTx (UnTx := UnTx)).
Abbreviation Msg := (Published (UnTx := UnTx)).
  Context {P : Type} {HP : TxPool P Tx AccountGasLimit} {K : Type} {HK : KeyValueDB K}.
  (** Transactions as protobuf messages. *)
  Context (tx_encode : Tx -> bytes) (tx_decode : bytes -> option Tx).

(** ** The write-ahead log *)
Definition wal_write (tx : Tx) (w : K) : K := kv_put (stx_tx_hash tx) (tx_encode tx) w.
(** [delete] and [delete_with_hash], which differ in how the key is given. *)
Definition wal_delete (key : bytes) (w : K) : K := kv_delete key w.

(** Every record goes into the pool; one that cannot be parsed panics. *)
Fixpoint wal_read_loop (items : list (bytes * bytes)) (num : Z) (pool : P) : outcome void (Z * P) :=
  match items with
  | [] => Ok (num, pool)
  | (_, v) :: items =>
      tx <- expect (tx_decode v) ;;
      num <- add_ 64 num 1 ;;
      wal_read_loop items num (pool_enqueue tx pool).2
  end.

Definition wal_read (w : K) (pool : P) : outcome void (Z * P) := wal_read_loop (kv_iter w) 0 pool.

(** ** The dispatcher *)
Record Dispatcher : Type := mkDispatcher {
  txs_pool : P;
  tx_pool_cap : Z;
  wal : K;
  filter_wal : K;
  wal_enable : bool;
  pool_limit : Z;
  data_from_pool : bool;
  count_per_batch : Z;
  buffer_duration : Z;
  forward_stamp : Z;
  new_tx_request_buffer : list (bytes * UnTx);
  response_jsonrpc_cnt : Z;
  add_to_pool_cnt : Z;
  (** deletions from the log, each in a thread of its own *)
  deletions : list (list bytes);
}.

Definition set_pool (d : Dispatcher) (p : P) : Dispatcher :=
  mkDispatcher p (tx_pool_cap d) (wal d) (filter_wal d) (wal_enable d) (pool_limit d) (data_from_pool d)
    (count_per_batch d) (buffer_duration d) (forward_stamp d) (new_tx_request_buffer d)
    (response_jsonrpc_cnt d) (add_to_pool_cnt d) (deletions d).
Definition set_cap (d : Dispatcher) (c : Z) : Dispatcher :=
  mkDispatcher (txs_pool d) c (wal d) (filter_wal d) (wal_enable d) (pool_limit d) (data_from_pool d)
    (count_per_batch d) (buffer_duration d) (forward_stamp d) (new_tx_request_buffer d)
    (response_jsonrpc_cnt d) (add_to_pool_cnt d) (deletions d).
Definition set_wals (d : Dispatcher) (w f : K) : Dispatcher :=
  mkDispatcher (txs_pool d) (tx_pool_cap d) w f (wal_enable d) (pool_limit d) (data_from_pool d)
    (count_per_batch d) (buffer_duration d) (forward_stamp d) (new_tx_request_buffer d)
    (response_jsonrpc_cnt d) (add_to_pool_cnt d) (deletions d).
Definition set_from_pool (d : Dispatcher) (b : bool) : Dispatcher :=
  mkDispatcher (txs_pool d) (tx_pool_cap d) (wal d) (filter_wal d) (wal_enable d) (pool_limit d) b
    (count_per_batch d) (buffer_duration d) (forward_stamp d) (new_tx_request_buffer d)
    (response_jsonrpc_cnt d) (add_to_pool_cnt d) (deletions d).
Definition set_buffer (d : Dispatcher) (stamp : Z) (b : list (bytes * UnTx)) : Dispatcher :=
  mkDispatcher (txs_pool d) (tx_pool_cap d) (wal d) (filter_wal d) (wal_enable d) (pool_limit d) (data_from_pool d)
    (count_per_batch d) (buffer_duration d) stamp b
    (response_jsonrpc_cnt d) (add_to_pool_cnt d) (deletions d).
Definition set_counts (d : Dispatcher) (r a : Z) : Dispatcher :=
  mkDispatcher (txs_pool d) (tx_pool_cap d) (wal d) (filter_wal d) (wal_enable d) (pool_limit d) (data_from_pool d)
    (count_per_batch d) (buffer_duration d) (forward_stamp d) (new_tx_request_buffer d)
    r a (deletions d).
Definition spawn_deletion (d : Dispatcher) (keys : list bytes) : Dispatcher :=
  mkDispatcher (txs_pool d) (tx_pool_cap d) (wal d) (filter_wal d) (wal_enable d) (pool_limit d) (data_from_pool d)
    (count_per_batch d) (buffer_duration d) (forward_stamp d) (new_tx_request_buffer d)
    (response_jsonrpc_cnt d) (add_to_pool_cnt d) (deletions d ++ [keys]).

Definition update_capacity (d : Dispatcher) : Dispatcher :=
  let tx_pool_len := pool_len (txs_pool d) in
  set_cap d (if tx_pool_len <=? pool_limit d then pool_limit d - tx_pool_len else 0).

Definition read_tx_from_wal (d : Dispatcher) : outcome void (Z * Dispatcher) :=
  let* (size, p) := wal_read (wal d) (txs_pool d) in
  Ok (size, update_capacity (set_pool d p)).

(** [Dispatcher::new], on a new pool and the two logs. *)
Definition new_dispatcher (pool : P) (w f : K) (limit count_per_batch buffer_duration : Z) (wal_enable : bool)
    (now : Z) : outcome void Dispatcher :=
  let d := mkDispatcher pool limit w f wal_enable limit false count_per_batch buffer_duration now [] 0 0 [] in
  if wal_enable then
    let* (num, d) := read_tx_from_wal d in
    Ok (if 0 <? num then set_from_pool d true else d)
  else Ok d.

Definition add_tx_to_pool (tx : Tx) (d : Dispatcher) : bool * Dispatcher :=
  let '(success, p) := pool_enqueue tx (txs_pool d) in
  let d := set_pool d p in
  (success,
   if wal_enable d then
     if success then set_wals d (wal_write tx (wal d)) (filter_wal d)
     else set_wals d (wal d) (wal_write tx (filter_wal d))
   else d).

Definition batch_forward_tx_to_peer (now : Z) (d : Dispatcher) : Dispatcher * list Msg :=
  (set_buffer d now [], [AuthTx (new_tx_request_buffer d)]).

(** [Duration::subsec_nanos] of the time since the last batch; a clock that
    went back panics. *)
Definition elapsed_nanos (d : Dispatcher) (now : Z) : outcome void Z :=
  e <- sub_ now (forward_stamp d) ;; Ok (e mod 1000000000).

(** The answer to the gateway; an accepted transaction is queued for the
    peers.  [uuid] is the fresh request id, [now] the time. *)
Definition answer_jsonrpc (req_id uuid : bytes) (tx_response : TxResponse) (tx : Tx) (success : bool) (now : Z)
    (d : Dispatcher) : outcome void (Dispatcher * list Msg) :=
  let* (d, sent, result) :=
    if success then
      let d := set_buffer d (forward_stamp d) (new_tx_request_buffer d ++ [(uuid, stx_with_sig tx)]) in
      let count_buffered := zlen (new_tx_request_buffer d) in
      time_elapsed <- elapsed_nanos d now ;;
      let '(d, sent) :=
        if (count_per_batch d <? count_buffered) || (buffer_duration d <? time_elapsed)
        then batch_forward_tx_to_peer now d else (d, []) in
      Ok (d, sent, RpcTxState tx_response)
    else Ok (d, [], RpcError "Dup") in
  n <- add_ 64 (response_jsonrpc_cnt d) 1 ;;
  Ok (set_counts d n (add_to_pool_cnt d), sent ++ [AuthRpc req_id result]).

Definition deal_tx (submodule : SubModules) (req_id uuid : bytes) (tx_response : TxResponse) (tx : Tx) (now : Z)
    (d : Dispatcher) : outcome void (Dispatcher * list Msg) :=
  let '(success, d) := add_tx_to_pool tx d in
  let d := if success then update_capacity d else d in
  let* (d, sent) :=
    if bool_decide (submodule = Jsonrpc) then answer_jsonrpc req_id uuid tx_response tx success now d
    else Ok (d, []) in
  n <- add_ 64 (add_to_pool_cnt d) 1 ;;
  Ok (set_counts d (response_jsonrpc_cnt d) n, sent).

Definition get_txs_from_pool (height block_gas_limit : Z) (account_gas_limit : AccountGasLimit) (d : Dispatcher)
    : list Tx * Dispatcher :=
  if data_from_pool d then ([], set_from_pool d false)
  else let '(txs, p) := pool_package height block_gas_limit account_gas_limit (txs_pool d) in
       (txs, set_pool d p).

Definition del_txs_from_pool_with_hash (txs : gset Z) (d : Dispatcher) : Dispatcher :=
  let d := set_pool d (pool_update_with_hash txs (txs_pool d)) in
  if wal_enable d then spawn_deletion d (to_be 32 <$> elements txs) else d.

Definition del_txs_from_pool (txs : list Tx) (d : Dispatcher) : Dispatcher :=
  let d := set_pool d (pool_update txs (txs_pool d)) in
  if wal_enable d then spawn_deletion d (stx_tx_hash <$> txs) else d.

(** The rate of transactions that is logged is left out. *)
Definition deal_txs (height : Z) (txs : gset Z) (block_gas_limit : Z) (account_gas_limit : AccountGasLimit)
    (d : Dispatcher) : Dispatcher * list Msg :=
  let d := if bool_decide (txs = ∅) then d else del_txs_from_pool_with_hash txs d in
  let '(out_txs, d) := get_txs_from_pool height block_gas_limit account_gas_limit d in
  let d := update_capacity (set_counts d (response_jsonrpc_cnt d) 0) in
  (d, [AuthBlockTxs height out_txs]).

Definition wait_timeout_process (now : Z) (d : Dispatcher) : outcome void (Dispatcher * list Msg) :=
  _ <- elapsed_nanos d now ;;
  Ok (if negb (bool_decide (zlen (new_tx_request_buffer d) = 0)) then batch_forward_tx_to_peer now d else (d, [])).

(** A thread of deletions runs. *)
Definition run_deletion (d : Dispatcher) : Dispatcher :=
  match deletions d with
  | [] => d
  | keys :: rest =>
      mkDispatcher (txs_pool d) (tx_pool_cap d) (fold_left (fun w k => wal_delete k w) keys (wal d)) (filter_wal d)
        (wal_enable d) (pool_limit d) (data_from_pool d) (count_per_batch d) (buffer_duration d) (forward_stamp d)
        (new_tx_request_buffer d) (response_jsonrpc_cnt d) (add_to_pool_cnt d) rest
  end.

(** ** Sequences of operations *)
Inductive dop : Type :=
| DealTx (submodule : SubModules) (req_id uuid : bytes) (tx_response : TxResponse) (tx : Tx) (now : Z)
| DealTxs (height : Z) (txs : gset Z) (block_gas_limit : Z) (account_gas_limit : AccountGasLimit)
| WaitTimeout (now : Z)
| RunDeletion.

Definition run_dop (o : dop) (d : Dispatcher) : outcome void (Dispatcher * list Msg) :=
  match o with
  | DealTx sub req_id uuid tr tx now => deal_tx sub req_id uuid tr tx now d
  | DealTxs h txs bgl agl => Ok (deal_txs h txs bgl agl d)
  | WaitTimeout now => wait_timeout_process now d
  | RunDeletion => Ok (run_deletion d, [])
  end.

Fixpoint run_dops (ops : list dop) (d : Dispatcher) : outcome void (Dispatcher * list Msg) :=
  match ops with
  | [] => Ok (d, [])
  | o :: ops =>
      let* (d, sent) := run_dop o d in
      let* (d, sent') := run_dops ops d in
      Ok (d, sent ++ sent')
  end.

(** The transactions sent to the peers. *)
Definition forwarded (l : list Msg) : list (bytes * UnTx) :=
  concat (omap (fun m => match m with AuthTx r => Some r | _ => None end) l).

(** The gateway requests that were answered. *)
Definition rpc_answers (l : list Msg) : list bytes :=
  omap (fun m => match m with AuthRpc id _ => Some id | _ => None end) l.

Definition rpc_requests (ops : list dop) : list bytes :=
  omap (fun o => match o with DealTx Jsonrpc id _ _ _ _ => Some id | _ => None end) ops.

(** What an operation adds for the peers: a transaction of the gateway that
    the pool takes. *)
Definition taken (o : dop) (d : Dispatcher) : list (bytes * UnTx) :=
  match o with
  | DealTx Jsonrpc _ uuid _ tx _ =>
      if (pool_enqueue tx (txs_pool d)).1 then [(uuid, stx_with_sig tx)] else []
  | _ => []
  end.

Fixpoint all_taken (ops : list dop) (d : Dispatcher) : list (bytes * UnTx) :=
  match ops with
  | [] => []
  | o :: ops =>
      taken o d ++ match run_dop o d with Ok (d, _) => all_taken ops d | _ => [] end
  end.

(** The clock does not run backwards. *)
Definition time_of (o : dop) (t : Z) : Z :=
  match o with DealTx _ _ _ _ _ now | WaitTimeout now => now | _ => t end.

Fixpoint clock_ok (t : Z) (ops : list dop) : Prop :=
  match ops with
  | [] => True
  | o :: ops => t <= time_of o t /\ clock_ok (time_of o t) ops
  end.

Record dispatcher_ok (t left : Z) (d : Dispatcher) : Prop := {
  do_stamp : forward_stamp d <= t;
  do_buffer : zlen (new_tx_request_buffer d) <= count_per_batch d;
  do_counts : 0 <= response_jsonrpc_cnt d /\ 0 <= add_to_pool_cnt d;
  do_room : response_jsonrpc_cnt d + left < 2 ^ 64 /\ add_to_pool_cnt d + left < 2 ^ 64;
}.

Lemma dispatcher_ok_later t t' left left' d :
  t <= t' -> left' <= left -> dispatcher_ok t left d -> dispatcher_ok t' left' d.
Proof. intros ? ? [? ? [] []]. split; [lia|done|done|lia]. Qed.

Lemma forwarded_app l k : forwarded (l ++ k) = forwarded l ++ forwarded k.
Proof. by rw /forwarded omap_app concat_app. Qed.

Lemma rpc_answers_app l k : rpc_answers (l ++ k) = rpc_answers l ++ rpc_answers k.
Proof. apply omap_app. Qed.

Lemma add_tx_frame tx d :
  let '(s, d') := add_tx_to_pool tx d in
  s = (pool_enqueue tx (txs_pool d)).1 /\ forward_stamp d' = forward_stamp d /\
  new_tx_request_buffer d' = new_tx_request_buffer d /\ count_per_batch d' = count_per_batch d /\
  response_jsonrpc_cnt d' = response_jsonrpc_cnt d /\ add_to_pool_cnt d' = add_to_pool_cnt d.
Proof.
  rw /add_tx_to_pool. destruct (pool_enqueue tx (txs_pool d)) as [[] p]; cbn; by destruct (wal_enable d).
Qed.

(** An accepted transaction is queued; the queue is sent when it is full or
    old. *)
Lemma answer_jsonrpc_ok req_id uuid tr tx (s : bool) now d t left :
  dispatcher_ok t (left + 1) d -> t <= now -> 0 <= left ->
  exists d' sent, answer_jsonrpc req_id uuid tr tx s now d = Ok (d', sent) /\
    forward_stamp d' <= now /\ zlen (new_tx_request_buffer d') <= count_per_batch d' /\
    response_jsonrpc_cnt d' = response_jsonrpc_cnt d + 1 /\ add_to_pool_cnt d' = add_to_pool_cnt d /\
    new_tx_request_buffer d ++ (if s then [(uuid, stx_with_sig tx)] else []) =
      forwarded sent ++ new_tx_request_buffer d' /\
    rpc_answers sent = [req_id].
Proof.
  intros [Hs Hb [Hc1 Hc2] [Hr1 Hr2]] Ht Hl. rw /answer_jsonrpc. destruct s; cbn [obind].
  - rw /elapsed_nanos. cbn [forward_stamp set_buffer]. rw sub_ok; [lia|]. cbn [obind].
    cbn [new_tx_request_buffer set_buffer count_per_batch].
    destruct ((_ <? _) || _) eqn:E; rw /batch_forward_tx_to_peer; cbn [obind response_jsonrpc_cnt set_buffer];
      (rw add_ok; [lia|]); cbn [obind]; eexists _, _; (split; [done|]); cbn;
      repeat split; try done; try lia.
    + rw zlen_nil. pose proof (zlen_nonneg (new_tx_request_buffer d)). lia.
    + by rw !app_nil_r.
  - rw add_ok; [lia|]. cbn [obind]. eexists _, _. split; [done|]. cbn. repeat split; try done; try lia.
    by rw app_nil_r.
Qed.

Lemma run_dop_ok o d t left : dispatcher_ok t (left + 1) d -> t <= time_of o t -> 0 <= left ->
  exists d' sent, run_dop o d = Ok (d', sent) /\ dispatcher_ok (time_of o t) left d' /\
    new_tx_request_buffer d ++ taken o d = forwarded sent ++ new_tx_request_buffer d' /\
    rpc_answers sent = rpc_requests [o].
Proof.
  intros Hd Ht Hl. pose proof Hd as [Hs Hb [Hc1 Hc2] [Hr1 Hr2]]. destruct o as [sub req_id uuid tr tx now|h txs bgl agl|now|].
  - cbn [run_dop time_of] in *. rw /deal_tx. pose proof (add_tx_frame tx d) as Hf.
    destruct (add_tx_to_pool tx d) as [s d1]. destruct Hf as (Hes & F1 & F2 & F3 & F4 & F5).
    set (d2 := if s then update_capacity d1 else d1).
    assert (forward_stamp d2 = forward_stamp d /\ new_tx_request_buffer d2 = new_tx_request_buffer d /\
      count_per_batch d2 = count_per_batch d /\ response_jsonrpc_cnt d2 = response_jsonrpc_cnt d /\
      add_to_pool_cnt d2 = add_to_pool_cnt d) as (G1 & G2 & G3 & G4 & G5) by by destruct s.
    destruct sub.
    + rw bool_decide_eq_true_2; [done|].
      destruct (answer_jsonrpc_ok req_id uuid tr tx s now d2 t left) as (d3 & sent & -> & A1 & A2 & A3 & A4 & A5 & A6);
        [split; rw ?G1 ?G2 ?G3 ?G4 ?G5; lia|done|done|].
      cbn [obind]. rw add_ok; [lia|]. cbn [obind]. eexists _, sent. split; [done|]. split.
      * split; cbn; [done|done|lia|lia].
      * split; [|done]. cbn [taken new_tx_request_buffer set_counts]. by rw -Hes -A5 G2.
    + rw bool_decide_eq_false_2; [done|]. cbn [obind]. rw add_ok; [lia|]. cbn [obind]. eexists _, []. split; [done|].
      split; [split; cbn; rw ?G1 ?G2 ?G3 ?G4 ?G5; lia|]. cbn. by rw app_nil_r G2.
  - cbn [run_dop time_of] in *. rw /deal_txs.
    set (d1 := if bool_decide (txs = ∅) then d else _).
    assert (forward_stamp d1 = forward_stamp d /\ new_tx_request_buffer d1 = new_tx_request_buffer d /\
      count_per_batch d1 = count_per_batch d /\ response_jsonrpc_cnt d1 = response_jsonrpc_cnt d)
      as (G1 & G2 & G3 & G4).
    { rw /d1 /del_txs_from_pool_with_hash. destruct (bool_decide _); [done|]. cbn. by destruct (wal_enable d). }
    rw /get_txs_from_pool. destruct (data_from_pool d1); [|destruct (pool_package _ _ _ _)]; eexists _, _;
      (split; [done|]); (split; [split; cbn; rw ?G1 ?G2 ?G3 ?G4; lia|]); cbn; by rw app_nil_r G2.
  - cbn [run_dop time_of] in *. rw /wait_timeout_process /elapsed_nanos sub_ok; [lia|]. cbn [obind].
    destruct (bool_decide_reflect (zlen (new_tx_request_buffer d) = 0)); cbn [negb]; eexists _, _; (split; [done|]);
      (split; [split; cbn; try lia|]); cbn; try by rw !app_nil_r.
    rw zlen_nil. pose proof (zlen_nonneg (new_tx_request_buffer d)). lia.
  - cbn [run_dop time_of] in *. eexists _, _. split; [done|]. rw /run_deletion.
    destruct (deletions d); (split; [split; cbn; lia|]); cbn; by rw app_nil_r.
Qed.

Lemma run_dops_ok ops d t : dispatcher_ok t (zlen ops) d -> clock_ok t ops ->
  exists d' sent, run_dops ops d = Ok (d', sent) /\ (exists t', dispatcher_ok t' 0 d') /\
    new_tx_request_buffer d ++ all_taken ops d = forwarded sent ++ new_tx_request_buffer d' /\
    rpc_answers sent = rpc_requests ops.
Proof.
  revert d t. induction ops as [|o ops IH]; intros d t Hd Hc.
  { exists d, []. split; [done|]. split; [by exists t|]. by rw app_nil_r. }
  destruct Hc as [Ht Hc]. rw zlen_cons Z.add_comm in Hd.
  destruct (run_dop_ok o d t (zlen ops) Hd Ht (zlen_nonneg ops)) as (d1 & s1 & Ho & Hd1 & Hf1 & Hr1).
  destruct (IH d1 _ Hd1 Hc) as (d2 & s2 & Hops & Hd2 & Hf2 & Hr2). exists d2, (s1 ++ s2).
  cbn [run_dops all_taken]. rw Ho. cbn [obind]. rw Hops. split; [done|]. split; [done|].
  rw app_assoc Hf1 -app_assoc Hf2 forwarded_app -app_assoc. split; [done|].
  rw rpc_answers_app Hr1 Hr2. change (o :: ops) with ([o] ++ ops). by rw /rpc_requests omap_app.
Qed.
End dispatcher.
