(* ===== verification/AuthTheorems.v ===== *)
(** * Theorems on the authentication service

    The window of known transactions, admission of a transaction at most once,
    the answer to a block request, what stays in the cache, and the batches
    sent to the peers.  Each theorem has a concrete instance. *)

From S2P Require Import Prelude AuthVerifier AuthHandler AuthDispatcher.
From stdpp Require Import base gmap list list_numbers strings.
Local Open Scope Z_scope.
Local Open Scope cita_scope.

(** ** The verifier *)

(** C23: A verifier fed with blocks of the chain, in any order and with
    repetitions, never panics.  Once it is ready it holds the transactions of
    the last [BLOCKLIMIT] blocks up to the latest one, no more and no less. *)
Theorem verifier_window (BLOCKLIMIT : Z) (blocks : Z -> gset Z) (v : Verifier.t) (h : Z) :
  0 < BLOCKLIMIT -> Verifier.fed BLOCKLIMIT blocks v -> 0 <= h < 2 ^ 63 ->
  exists v' asked, Verifier.update_hashes BLOCKLIMIT h (blocks h) v = Ok (v', asked) /\
    (Verifier.inited v = true -> Verifier.inited v' = true) /\
    forall latest, Verifier.height_latest v' = Some latest -> Verifier.inited v' = true ->
      forall i, Verifier.hashes v' !! i =
        if bool_decide (Z.max 0 (latest - BLOCKLIMIT + 1) <= i <= latest) then Some (blocks i) else None.
Proof.
  intros Hpos Hf Hh. destruct (Verifier.fed_ok BLOCKLIMIT Hpos blocks v Hf) as (Hwf & _ & Hb).
  destruct (Verifier.update_hashes_ok BLOCKLIMIT Hpos h (blocks h) v Hwf) as (v' & out & Hu & Hwf' & Hmono & _ & _);
    [lia|by intros l Hl%Hb; lia|].
  exists v', out. split; [done|]. split; [done|]. intros latest Hl Hi i.
  assert (Verifier.fed BLOCKLIMIT blocks v') as (_ & Ha & _)%(Verifier.fed_ok _ Hpos) by by eapply Verifier.fed_update.
  destruct Hwf' as [|ready l m _ Hin Hfull]; [done|]. cbn in *. injection Hl as <-. case_bool_decide as Hw.
  - destruct (Hfull Hi i Hw) as [hs Hs]. rw Hs. f_equal. by apply Ha.
  - destruct (m !! i) eqn:E; [|done]. destruct Hw. apply Hin. by eexists.
Qed.

Section service.
  Context {UnTx AccountGasLimit : Type}.
  Context (BLOCKLIMIT : Z) (from_slice : bytes -> H256).
  Context (SIGNATURE_BYTES_LEN : Z) (recover : bytes -> H256 -> option bytes).
  Context (tx_verify_req_msg : UnTx -> VerifyTxReq).
Abbreviation Service := (Auth (UnTx := UnTx) (AccountGasLimit := AccountGasLimit)).
Abbreviation Item := (Info (UnTx := UnTx)).

(** ** Admission *)

(** C21: A service that handles messages one at a time does not admit a
    transaction a second time through a single request. The transaction passed
    the valid-until check when the service knew height l0, and it is in a
    block of the chain above l0 that the service knows now. Then a single
    request for it is not answered with success from the cache, and, if it
    still passes the valid-until check, the verifier does not accept it
    either. Nothing is claimed for requests to verify a block: they do not
    check the valid-until height, so a transaction older than BLOCKLIMIT
    blocks passes again in a proposal. *)
Theorem admission_once (blocks : Z -> gset Z) (a : Service) (i : Item) (req : VerifyTxReq) (latest : Z)
    (before : Verifier.t) (l0 h : Z) :
  0 < BLOCKLIMIT -> reached BLOCKLIMIT from_slice SIGNATURE_BYTES_LEN recover blocks a ->
  req_resp i = AuthRequest req -> verify_type i = SingleVerify ->
  Verifier.height_latest (verifier a) = Some latest ->
  Verifier.height_latest before = Some l0 ->
  Verifier.verify_valid_until_block BLOCKLIMIT (req_valid_until_block req) before = Ok true ->
  0 <= l0 < h -> h <= latest -> from_slice (req_tx_hash req) ∈ blocks h ->
  (forall a', check_verify_request_preprocess BLOCKLIMIT from_slice i a <> Ok (VerifySucceeded, a')) /\
  (Verifier.verify_valid_until_block BLOCKLIMIT (req_valid_until_block req) (verifier a) = Ok true ->
   resp_ret (Verifier.verfiy_tx from_slice SIGNATURE_BYTES_LEN recover req (verifier a)) <> RetOK).
Proof.
  intros Hpos Hr Hi Hs Hl Hl0 Hu0 Hh Hle Hin.
  destruct (reached_ok BLOCKLIMIT from_slice SIGNATURE_BYTES_LEN recover Hpos blocks a Hr) as [Hf Hc].
  pose proof (Verifier.valid_until_exact BLOCKLIMIT before _ l0 Hl0 Hu0) as Hu.
  assert (forall b, Verifier.verify_valid_until_block BLOCKLIMIT (req_valid_until_block req) (verifier a) = Ok b ->
    b = true -> Verifier.window_low BLOCKLIMIT latest <= h <= latest) as Hw.
  { intros b Hb ->. pose proof (Verifier.valid_until_exact BLOCKLIMIT (verifier a) _ latest Hl Hb).
    destruct (Verifier.fed_ok BLOCKLIMIT Hpos blocks _ Hf) as (_ & _ & Hbd). specialize (Hbd latest Hl).
    unfold Verifier.window_low. lia. }
  split.
  - intros a'. rw /check_verify_request_preprocess Hi Hs. cbn [is_single].
    destruct (Verifier.verify_valid_until_block BLOCKLIMIT (req_valid_until_block req) (verifier a)) as [b|[]|] eqn:Eb;
      [|discriminate]. cbn [obind].
    destruct b; cbn [negb]; [|cbn; discriminate]. rw /get_resp_from_cache.
    destruct (cache a !! from_slice (req_tx_hash req)) as [resp|] eqn:Ec; [|discriminate].
    intros Hk. destruct (Hc _ resp Ec) as [_ Hno]; [by destruct (resp_ret resp)|].
    by apply (Hno h latest Hl (Hw true eq_refl eq_refl)).
  - intros Hb Hok. destruct (cache_fresh_verify BLOCKLIMIT from_slice SIGNATURE_BYTES_LEN recover Hpos blocks a i Hf Hc
      (from_slice (req_tx_hash req)) (Verifier.verfiy_tx from_slice SIGNATURE_BYTES_LEN recover req (verifier a)))
      as [_ Hno]; [|done|].
    + rw /verify_one Hi. cbn. apply lookup_insert_eq.
    + assert (verifier (verify_one from_slice SIGNATURE_BYTES_LEN recover i a) = verifier a) as Hv.
      { rw /verify_one Hi. done. }
      rw Hv in Hno. by apply (Hno h latest Hl (Hw true Hb eq_refl)).
Qed.

(** ** Block requests *)

(** C22: A request to verify a block that is not empty and of which every
    transaction found in the cache has the answer OK gets exactly one answer,
    in whatever order the results of its transactions come in, as long as no
    other block request comes between. The transactions not found in the cache
    are handed to the pool, each once; when their results are in, the answer
    is OK if all of them are, and the first other result otherwise. (An empty
    request gets no answer, and one with a cached answer other than OK can get
    a second one.) *)
Theorem block_request_answered_once (sub : SubModules) (per_thread : nat) (id : Z) (reqs : list VerifyTxReq)
    (a : Service) :
  per_thread <> 0%nat -> reqs <> [] -> zlen reqs < 2 ^ 64 ->
  (forall req resp, req ∈ reqs -> cache a !! from_slice (req_tx_hash req) = Some resp -> resp_ret resp = RetOK) ->
  exists a' groups,
    handle_remote_msg BLOCKLIMIT from_slice tx_verify_req_msg sub per_thread (VerifyBlockReq id reqs) a = Ok a' /\
    pool a' = pool a ++ groups /\
    concat groups = block_info sub id <$> filter (fun req => cache a !! from_slice (req_tx_hash req) = None) reqs /\
    forall order results, concat groups ≡ₚ order -> Forall2 answered order results ->
      exists a'', handle_results from_slice results a' = Ok a'' /\
        block_answers (tx_pub a'') = block_answers (tx_pub a) ++ [(id, first_bad (ret_of <$> results))].
Proof.
  intros Hn Hne Hlen Hok. cbn [handle_remote_msg]. rw /handle_verify_block_req.
  assert (0 < zlen reqs) by (destruct reqs; [done|]; rw zlen_cons; pose proof (zlen_nonneg reqs); lia).
  rw (proj2 (Z.eqb_neq _ _)); [lia|]. cbn [negb]. set (a0 := with_status a _).
  destruct (block_loop_ok BLOCKLIMIT from_slice sub id reqs a0) as (s & -> & S1 & S2 & S3 & S4 & S5); [done|cbn; lia|].
  cbn in S1, S2, S3, S4, S5. cbn [obind]. set (need := filter _ reqs) in *.
  destruct (Z.eqb_spec (zlen (block_info (UnTx := UnTx) sub id <$> need)) 0) as [Hz|Hz]; cbn [negb].
  - assert (need = []) as Hnil by (rw /zlen length_fmap in Hz; apply length_zero_iff_nil; lia).
    rw Hnil zlen_nil in S4. cbn [status with_status]. rw S3 (proj2 (Z.eqb_eq _ _)); [lia|].
    eexists _, []. split; [done|]. cbn. rw app_nil_r Hnil. split; [done|]. split; [done|].
    intros order results Hp%Permutation_nil_l Hall. subst order. apply Forall2_nil_inv_l in Hall as ->.
    eexists. split; [done|]. cbn. by rw /block_answers omap_app.
  - destruct (chunks_ok (E := void) per_thread (block_info (UnTx := UnTx) sub id <$> need) Hn) as (groups & -> & Hg). cbn [obind].
    eexists _, groups. split; [done|]. split; [done|]. split; [done|]. intros order results Hp Hall.
    rw Hg in Hp. destruct (answers_of_block sub id need order results Hp Hall) as [Hba Hrl].
    assert (0 < zlen need) by (rw /zlen length_fmap in Hz |- *; lia).
    destruct (counting_answers from_slice id results (pool_execute (with_status a0 s) groups)) as (a'' & Ha & Hpub); [done|..].
    + split; cbn; [done|by rw S2|lia|lia|lia].
    + intros ->. rw zlen_nil in Hrl. lia.
    + exists a''. split; [done|]. rw Hpub /block_answers omap_app. done.
Qed.

(** ** The cache *)

(** An answer in the cache is final until a block with the transaction
    arrives, whatever other messages are handled.  The answer [NotReady],
    given while the verifier still collects the window, is cached like every
    other one, so the transaction is refused also when the verifier has become
    ready, and so is every block with it. *)
Theorem cached_answer_sticks (sub : SubModules) (per_thread : nat) (msgs : list MsgClass) (a a' : Service)
    (i : Item) (req : VerifyTxReq) (resp : VerifyTxResp) :
  cache a !! from_slice (req_tx_hash req) = Some resp -> resp_ret resp <> RetOK ->
  Forall (fun m => ~ mentions from_slice (from_slice (req_tx_hash req)) m) msgs ->
  handle_all BLOCKLIMIT from_slice tx_verify_req_msg sub per_thread msgs a = Ok a' ->
  req_resp i = AuthRequest req ->
  match verify_type i with
  | BlockVerify => check_verify_request_preprocess BLOCKLIMIT from_slice i a' = Ok (VerifyFailed, a')
  | SingleVerify =>
      Verifier.verify_valid_until_block BLOCKLIMIT (req_valid_until_block req) (verifier a') = Ok true ->
      check_verify_request_preprocess BLOCKLIMIT from_slice i a' =
        Ok (VerifyFailed, respond a' (with_req_resp i (AuthResponse resp)))
  end.
Proof.
  intros Hc Hr Hm Ha Hi. assert (cache a' !! from_slice (req_tx_hash req) = Some resp) as Hc'.
  { rw -Hc. by eapply handle_all_cache. }
  rw /check_verify_request_preprocess Hi. destruct (verify_type i); cbn [is_single].
  - intros ->. cbn [obind negb]. rw /get_resp_from_cache Hc'. by destruct (resp_ret resp).
  - cbn [obind]. rw /get_resp_from_cache Hc'. by destruct (resp_ret resp).
Qed.
End service.

(** ** A concrete service *)
Definition toy_service : Auth (UnTx := Z) (AccountGasLimit := Z) :=
  {| verifier := Verifier.default; cache := ∅;
     status := {| request_id := 0; block_verify_result := VerifyNotBegin; verify_success_cnt_required := 0;
                  verify_success_cnt_capture := 0; cache_hit := 0 |};
     tx_pub := []; tx_req_single := []; txs_sender := []; resp_sender := []; tx_sender := []; pool := [] |}.

(** Hashes of one byte, empty signatures, one signer. *)
Definition toy_recover (_ : bytes) (_ : H256) : option bytes := Some [1].

Definition toy_req (hash : Z) (until : Z) : VerifyTxReq :=
  {| req_valid_until_block := until; req_hash := [0]; req_crypto := SECP; req_signature := [];
     req_nonce := []; req_signer := []; req_tx_hash := [hash] |}.

Definition toy_item (req : VerifyTxReq) : Info (UnTx := Z) :=
  {| sub_module := Jsonrpc; verify_type := SingleVerify; info_request_id := SingleVerifyRequestID [9];
     req_resp := AuthRequest req; un_tx := Some 0 |}.

Definition toy_msg (m : MsgClass (AccountGasLimit := Z)) (a : Auth (UnTx := Z)) : outcome void Auth :=
  handle_remote_msg 100 of_be (fun _ => toy_req 0 0) OtherModule 2 m a.

(** A ready service: block 0 is known. *)
Definition ready_service : Auth (UnTx := Z) (AccountGasLimit := Z) :=
  match toy_msg (BlockTxHashes 0 [] 0 0) toy_service with Ok a => a | _ => toy_service end.

(** The verifier is read and the answer stored under two locks.  If block
    1 with transaction 7 arrives in between, the answer [OK] is stored after
    the block removed it from the cache, and a second request for the
    transaction is admitted although it is in the latest block. *)
Theorem stale_answer_admits :
  let req := toy_req 7 50 in
  let response := Verifier.verfiy_tx of_be 0 toy_recover req (verifier ready_service) in
  exists a a', toy_msg (BlockTxHashes 1 [[7]] 0 0) ready_service = Ok a /\
    check_verify_request_preprocess 100 of_be (toy_item req) (store_response of_be (toy_item req) req response a) =
      Ok (VerifySucceeded, a') /\
    Verifier.height_latest (verifier a') = Some 1 /\ Verifier.hashes (verifier a') !! 1 = Some {[7]} /\
    resp_ret (Verifier.verfiy_tx of_be 0 toy_recover req (verifier a')) = Dup.
Proof. eexists _, _. split; [vm_compute; reflexivity|]. split; [vm_compute; reflexivity|]. by vm_compute. Qed.

(** ** The dispatcher *)

(** C30: Every transaction the gateway submits and the pool takes is sent to
    the peers exactly once, in order: after any operations, what was sent and
    what is still buffered are together what was buffered before and what was
    taken since.  The buffer never holds more than a batch, a timeout empties
    it, and every request of the gateway gets one answer. *)
Theorem dispatcher_forwards_once {UnTx AccountGasLimit P K : Type}
    {HP : TxPool P (SignedTx (UnTx := UnTx)) AccountGasLimit} {HK : KeyValueDB K}
    (tx_encode : SignedTx (UnTx := UnTx) -> bytes) (ops : list (dop (AccountGasLimit := AccountGasLimit)))
    (d : Dispatcher (UnTx := UnTx) (P := P) (K := K)) (t : Z) :
  dispatcher_ok t (zlen ops) d -> clock_ok t ops ->
  exists d' sent, run_dops tx_encode ops d = Ok (d', sent) /\
    new_tx_request_buffer d ++ all_taken tx_encode ops d = forwarded sent ++ new_tx_request_buffer d' /\
    zlen (new_tx_request_buffer d') <= count_per_batch d' /\
    rpc_answers sent = rpc_requests ops /\
    forall now d'' sent', wait_timeout_process now d' = Ok (d'', sent') -> new_tx_request_buffer d'' = [].
Proof.
  intros Hd Hc. destruct (run_dops_ok tx_encode ops d t Hd Hc) as (d' & sent & Hr & [t' [_ Hb _ _]] & Hf & Ha).
  exists d', sent. split; [done|]. split; [done|]. split; [done|]. split; [done|]. intros now d'' sent'.
  rw /wait_timeout_process. destruct (elapsed_nanos d' now); cbn [obind]; [|done..].
  case_bool_decide as Hz; cbn [negb]; intros [= <- _]; [|done].
  rw /zlen in Hz. apply length_zero_iff_nil. lia.
Qed.

(** ** Instances *)
Definition toy_blocks (h : Z) : gset Z := if h =? 1 then {[7]} else ∅.

Lemma toy_fed : Verifier.fed 100 toy_blocks (verifier ready_service).
Proof. by eapply (Verifier.fed_update 100 toy_blocks Verifier.default 0); [constructor| |vm_compute; reflexivity]. Qed.

Lemma verifier_window_witness :
  exists v' asked, Verifier.update_hashes 100 1 (toy_blocks 1) (verifier ready_service) = Ok (v', asked) /\
    (Verifier.inited (verifier ready_service) = true -> Verifier.inited v' = true) /\
    forall latest, Verifier.height_latest v' = Some latest -> Verifier.inited v' = true ->
      forall i, Verifier.hashes v' !! i =
        if bool_decide (Z.max 0 (latest - 100 + 1) <= i <= latest) then Some (toy_blocks i) else None.
Proof. apply (verifier_window 100 toy_blocks (verifier ready_service) 1); [done|apply toy_fed|done]. Defined.

(** The service after block 1. *)
Definition later_service : Auth (UnTx := Z) (AccountGasLimit := Z) :=
  match toy_msg (BlockTxHashes 1 [[7]] 0 0) ready_service with Ok a => a | _ => ready_service end.

Lemma later_reached : reached 100 of_be 0 toy_recover toy_blocks later_service.
Proof.
  eapply (reached_block 100 of_be 0 toy_recover toy_blocks ready_service 1 [[7]] 0 0); [|done|done|by vm_compute].
  eapply (reached_block 100 of_be 0 toy_recover toy_blocks toy_service 0 [] 0 0); [|done|done|by vm_compute].
  by constructor.
Qed.

Lemma admission_once_witness :
  (forall a', check_verify_request_preprocess 100 of_be (toy_item (toy_req 7 50)) later_service
    <> Ok (VerifySucceeded, a')) /\
  (Verifier.verify_valid_until_block 100 50 (verifier later_service) = Ok true ->
   resp_ret (Verifier.verfiy_tx of_be 0 toy_recover (toy_req 7 50) (verifier later_service)) <> RetOK).
Proof.
  apply (admission_once 100 of_be 0 toy_recover toy_blocks later_service (toy_item (toy_req 7 50)) (toy_req 7 50) 1
    (verifier ready_service) 0 1).
  - done.
  - apply later_reached.
  - done.
  - done.
  - by vm_compute.
  - by vm_compute.
  - by vm_compute.
  - done.
  - done.
  - change (of_be (req_tx_hash (toy_req 7 50))) with 7. change (toy_blocks 1) with ({[7]} : gset Z). set_solver.
Defined.

Lemma block_request_answered_once_witness :
  exists a' groups,
    toy_msg (VerifyBlockReq 3 [toy_req 8 50; toy_req 9 50; toy_req 10 50]) ready_service = Ok a' /\
    pool a' = pool ready_service ++ groups /\
    concat groups = block_info OtherModule 3 <$>
      filter (fun req => cache ready_service !! of_be (req_tx_hash req) = None) [toy_req 8 50; toy_req 9 50; toy_req 10 50] /\
    forall order results, concat groups ≡ₚ order -> Forall2 answered order results ->
      exists a'', handle_results of_be results a' = Ok a'' /\
        block_answers (tx_pub a'') = block_answers (tx_pub ready_service) ++ [(3, first_bad (ret_of <$> results))].
Proof.
  apply (block_request_answered_once 100 of_be (fun _ => toy_req 0 0) OtherModule 2 3
    [toy_req 8 50; toy_req 9 50; toy_req 10 50] ready_service); [done|done|done|].
  intros req resp _ Hc. exfalso. revert Hc. rw (_ : cache ready_service = ∅); [by vm_compute|]. by rw lookup_empty.
Defined.

Definition not_ready : VerifyTxResp := {| resp_ret := NotReady; resp_signer := []; resp_tx_hash := [7] |}.

(** A request verified before block 0 arrived. *)
Definition early_service : Auth (UnTx := Z) (AccountGasLimit := Z) :=
  verify_one of_be 0 toy_recover (toy_item (toy_req 7 50)) toy_service.

Lemma cached_answer_sticks_witness :
  exists a', handle_all 100 of_be (fun _ => toy_req 0 0) OtherModule 2 [BlockTxHashes 0 [] 0 0] early_service = Ok a' /\
    Verifier.inited (verifier a') = true /\
    (Verifier.verify_valid_until_block 100 50 (verifier a') = Ok true ->
     check_verify_request_preprocess 100 of_be (toy_item (toy_req 7 50)) a' =
       Ok (VerifyFailed, respond a' (with_req_resp (toy_item (toy_req 7 50)) (AuthResponse not_ready)))).
Proof.
  eexists. split; [vm_compute; reflexivity|]. split; [done|].
  apply (cached_answer_sticks 100 of_be (fun _ => toy_req 0 0) OtherModule 2 [BlockTxHashes 0 [] 0 0] early_service _
    (toy_item (toy_req 7 50)) (toy_req 7 50) not_ready).
  - by vm_compute.
  - done.
  - constructor; [|constructor]. cbn. apply not_elem_of_nil.
  - vm_compute. reflexivity.
  - done.
Defined.

#[local] Instance toy_pool : TxPool (list (SignedTx (UnTx := Z))) SignedTx Z := {
  pool_enqueue tx p :=
    if existsb (fun x => bool_decide (stx_tx_hash x = stx_tx_hash tx)) p then (false, p) else (true, p ++ [tx]);
  pool_package _ _ _ p := (p, p);
  pool_update_with_hash hs p := filter (fun x => of_be (stx_tx_hash x) ∉ hs) p;
  pool_update txs p := filter (fun x => stx_tx_hash x ∉ stx_tx_hash <$> txs) p;
  pool_len p := zlen p;
}.

#[local] Instance toy_kv : KeyValueDB (list (bytes * bytes)) := {
  kv_put k v l := (k, v) :: filter (fun kv => kv.1 <> k) l;
  kv_delete k l := filter (fun kv => kv.1 <> k) l;
  kv_iter l := l;
}.

Definition toy_dispatcher : Dispatcher (UnTx := Z) (P := list (SignedTx (UnTx := Z))) (K := list (bytes * bytes)) :=
  mkDispatcher [] 100 [] [] true 100 false 2 300 0 [] 0 0 [].

Definition toy_tx (h : Z) : SignedTx (UnTx := Z) := {| stx_with_sig := h; stx_signer := [1]; stx_tx_hash := [h] |}.

Definition toy_deal (h now : Z) : dop (UnTx := Z) (AccountGasLimit := Z) :=
  DealTx Jsonrpc [h] [0; h] {| txr_hash := h; txr_status := "OK" |} (toy_tx h) now.

Lemma dispatcher_forwards_once_witness :
  exists d' sent, run_dops (fun _ => []) [toy_deal 1 10; toy_deal 1 20; toy_deal 2 30; toy_deal 3 400] toy_dispatcher =
      Ok (d', sent) /\
    [([0; 1], 1); ([0; 2], 2); ([0; 3], 3)] = forwarded sent ++ new_tx_request_buffer d' /\
    zlen (new_tx_request_buffer d') <= count_per_batch d' /\
    rpc_answers sent = [[1]; [1]; [2]; [3]] /\
    forall now d'' sent', wait_timeout_process now d' = Ok (d'', sent') -> new_tx_request_buffer d'' = [].
Proof.
  destruct (dispatcher_forwards_once (fun _ => []) [toy_deal 1 10; toy_deal 1 20; toy_deal 2 30; toy_deal 3 400]
    toy_dispatcher 0) as (d' & sent & Hr & Hf & Hrest).
  - by split.
  - done.
  - exists d', sent. split; [exact Hr|]. split; [|exact Hrest]. rw -Hf. vm_compute. reflexivity.
Defined.
