(* ===== verification/Synchronizer.v ===== *)
(** * Block synchronization

    [cita-network/src/synchronizer.rs]: the heights the peers report, the
    requests for missing blocks, and the blocks handed to the chain in order.
    The clock, the random generator and the number of peers are arguments. *)

From S2P Require Import Prelude.
From stdpp Require Import base gmap list list_numbers.
Local Open Scope Z_scope.
Local Open Scope cita_scope.

Definition SYNC_STEP : Z := 20.
Definition SYNC_TIME_OUT : Z := 60.
Definition U64_MAX : Z := 2 ^ 64 - 1.
Definition NANOS : Z := 1000000000.

Record Status : Set := { st_height : Z; st_hash : bytes }.

(** ** Ordered maps *)

(** [map.split_off(&k)]: the part from [k] on. *)
Definition split_off {V} (k : Z) (m : gmap Z V) : gmap Z V := filter (fun kv => k <= kv.1) m.

(** [iter().rfind(p)]: the greatest key whose entry satisfies [p]. *)
Definition rfind {V} (p : V -> bool) (m : gmap Z V) : option (Z * V) :=
  fold_left (fun best kv =>
    if p kv.2 then
      match best with
      | Some (k, _) => if k <? kv.1 then Some kv else best
      | None => Some kv
      end
    else best) (map_to_list m) None.

Section synchronizer.
  Context {Block : Type} (block_height : Block -> Z).

Inductive Out : Type :=
| BroadcastStatus (s : Status)
| SyncReq (heights : list Z) (origin : Z)
| PubBlocks (blocks : list Block).

Record Synchronizer : Type := mkSync {
  current_status : Status;
  global_status : Status;
  sync_end_height : Z;
  is_synchronizing : bool;
  latest_status_lists : gmap Z (list Z);
  block_lists : gmap Z Block;
  sync_time_out : Z;
}.

Definition new_synchronizer (now : Z) : Synchronizer :=
  mkSync {| st_height := 0; st_hash := [] |} {| st_height := 0; st_hash := [] |} 0 true ∅ ∅
    (now - SYNC_TIME_OUT * NANOS).

Definition set_current (s : Synchronizer) (c : Status) : Synchronizer :=
  mkSync c (global_status s) (sync_end_height s) (is_synchronizing s) (latest_status_lists s) (block_lists s)
    (sync_time_out s).
Definition set_global (s : Synchronizer) (g : Status) : Synchronizer :=
  mkSync (current_status s) g (sync_end_height s) (is_synchronizing s) (latest_status_lists s) (block_lists s)
    (sync_time_out s).
Definition set_end (s : Synchronizer) (e : Z) : Synchronizer :=
  mkSync (current_status s) (global_status s) e (is_synchronizing s) (latest_status_lists s) (block_lists s)
    (sync_time_out s).
Definition set_syncing (s : Synchronizer) (b : bool) : Synchronizer :=
  mkSync (current_status s) (global_status s) (sync_end_height s) b (latest_status_lists s) (block_lists s)
    (sync_time_out s).
Definition set_latest (s : Synchronizer) (m : gmap Z (list Z)) : Synchronizer :=
  mkSync (current_status s) (global_status s) (sync_end_height s) (is_synchronizing s) m (block_lists s)
    (sync_time_out s).
Definition set_blocks (s : Synchronizer) (m : gmap Z Block) : Synchronizer :=
  mkSync (current_status s) (global_status s) (sync_end_height s) (is_synchronizing s) (latest_status_lists s) m
    (sync_time_out s).
Definition set_time (s : Synchronizer) (t : Z) : Synchronizer :=
  mkSync (current_status s) (global_status s) (sync_end_height s) (is_synchronizing s) (latest_status_lists s)
    (block_lists s) t.

Abbreviation current_height s := (st_height (current_status s)).

(** ** Requests *)
Definition send_sync_req (heights : list Z) (origin : Z) : list Out :=
  if bool_decide (heights = []) then [] else [SyncReq heights origin].

(** The loop of [sync_strategy]; [step_sum] counts the heights that still fit
    into the request.  A round per height is enough. *)
Fixpoint strategy_loop (fuel : nat) (start_height end_height step_sum : Z) (heights : list Z) (origin : Z)
    : outcome void (list Out) :=
  if start_height <=? end_height then
    match fuel with
    | O => Panic
    | S fuel =>
        let '(step_sum, sent, heights) :=
          if step_sum =? 0 then (SYNC_STEP, send_sync_req heights origin, []) else (step_sum, [], heights) in
        let heights := heights ++ [start_height] in
        step_sum <- sub_ step_sum 1 ;;
        start_height <- add_ 64 start_height 1 ;;
        rest <- strategy_loop fuel start_height end_height step_sum heights origin ;;
        Ok (sent ++ rest)
    end
  else Ok (send_sync_req heights origin).

Definition sync_strategy (s : Synchronizer) (start_height end_height origin : Z) : outcome void (list Out) :=
  if (current_height s <=? start_height) && (start_height <=? end_height)
  then strategy_loop (Z.to_nat (end_height - start_height + 1)) start_height end_height SYNC_STEP [] origin
  else Ok [].

(** [2 / (3 * peers)]; a division by zero panics. *)
Definition quorum (peers : Z) : outcome void Z :=
  _ <- assert_ (negb (3 * peers =? 0)) ;; Ok (2 / (3 * peers)).

(** The closure of [rfind] runs only if there is an entry. *)
Definition best_height (s : Synchronizer) (peers : Z) : outcome void (option (Z * list Z)) :=
  if bool_decide (latest_status_lists s = ∅) then Ok None
  else q <- quorum peers ;; Ok (rfind (fun origins => q <=? zlen origins) (latest_status_lists s)).

(** [gen_range n] is a number below [n]. *)
Definition start_sync_req (gen_range : Z -> Z) (peers : Z) (s : Synchronizer) (start_height end_height : Z)
    : outcome void (list Out) :=
  found <- best_height s peers ;;
  match found with
  | Some (height, origins) =>
      if current_height s <? height then
        _ <- assert_ (negb (zlen origins =? 0)) ;;
        origin <- index origins (gen_range (zlen origins)) ;;
        end_height <- (if end_height =? 0 then add_ 64 height 1 else Ok end_height) ;;
        sync_strategy s start_height end_height origin
      else Ok []
  | None => Ok []
  end.

(** ** Blocks *)

(** The loop of [submit_blocks]. *)
Fixpoint take_run (fuel : nat) (height end_height : Z) (m : gmap Z Block) : outcome void (list Block * gmap Z Block) :=
  if height <=? end_height then
    match m !! height with
    | Some block =>
        match fuel with
        | O => Panic
        | S fuel =>
            height' <- add_ 64 height 1 ;;
            let* (blocks, m) := take_run fuel height' end_height (delete height m) in
            Ok (block :: blocks, m)
        end
    | None => Ok ([], m)
    end
  else Ok ([], m).

Definition pub_blocks (blocks : list Block) (s : Synchronizer) : outcome void (Synchronizer * list Out) :=
  if bool_decide (zlen blocks = 0) then Ok (s, [])
  else
    e <- add_ 64 (current_height s) (zlen blocks - 1) ;;
    Ok (set_end s e, [PubBlocks blocks]).

(** The last block published stays, to be submitted again with the next ones. *)
Definition keep_last (blocks : list Block) (m : gmap Z Block) : gmap Z Block :=
  match last blocks with Some block => <[block_height block := block]> m | None => m end.

(** The proof of the last block comes under the greatest height. *)
Definition add_proof (blocks : list Block) (m : gmap Z Block) : list Block * gmap Z Block :=
  match m !! U64_MAX with
  | Some proof =>
      if bool_decide (size m = 1%nat) then (blocks ++ [proof], delete U64_MAX m) else (blocks, keep_last blocks m)
  | None => (blocks, keep_last blocks m)
  end.

Definition submit_blocks (s : Synchronizer) : outcome void (Synchronizer * list Out) :=
  height <- add_ 64 (current_height s) 1 ;;
  let m := split_off height (block_lists s) in
  end_height <- add_ 64 height SYNC_STEP ;;
  let* (blocks, m) := take_run (Z.to_nat (SYNC_STEP + 1)) height end_height m in
  let '(blocks, m) := add_proof blocks m in
  pub_blocks blocks (set_blocks s m).

Definition process_sync (blocks : list Block) (s : Synchronizer) : outcome void (Synchronizer * list Out) :=
  submit_blocks
    (set_blocks s (fold_left (fun m b => <[block_height b := b]> m) blocks (block_lists s))).

(** ** Reports *)
Definition add_latest_sync_lists (height origin : Z) (s : Synchronizer) : Synchronizer :=
  set_latest s (<[height := default [] (latest_status_lists s !! height) ++ [origin]]> (latest_status_lists s)).

Section environment.
  Context (now : Z) (gen_range : Z -> Z) (peers : Z).

Definition update_current_status (latest_status : Status) (s : Synchronizer)
    : outcome void (Synchronizer * list Out) :=
  let old_height := current_height s in
  from <- add_ 64 (st_height latest_status) 1 ;;
  let s := set_current (set_latest s (split_off from (latest_status_lists s))) latest_status in
  let status := BroadcastStatus latest_status in
  if current_height s <=? old_height then
    let s := set_syncing s true in
    start_height <- add_ 64 (current_height s) 1 ;;
    sent <- start_sync_req gen_range peers s start_height 0 ;;
    Ok (s, status :: sent)
  else if current_height s <? sync_end_height s then
    start_height <- add_ 64 (current_height s) 1 ;;
    end_height <- add_ 64 (sync_end_height s) 1 ;;
    sent <- start_sync_req gen_range peers s start_height end_height ;;
    Ok (set_syncing (set_time s now) true, status :: sent)
  else if current_height s =? sync_end_height s then
    start_height <- add_ 64 (current_height s) 1 ;;
    second <- add_ 64 (current_height s) 2 ;;
    let* (s, sent) :=
      if bool_decide (is_Some (block_lists s !! start_height)) && bool_decide (is_Some (block_lists s !! second))
      then submit_blocks s
      else sent <- start_sync_req gen_range peers s start_height 0 ;; Ok (s, sent) in
    Ok (set_syncing (set_time s now) true, status :: sent)
  else Ok (set_syncing (set_end s (current_height s)) false, [status]).

Definition update_global_status (status : Status) (origin : Z) (s : Synchronizer)
    : outcome void (Synchronizer * list Out) :=
  let current := current_height s in
  let old_global := st_height (global_status s) in
  let s := if old_global <? st_height status then set_global s status else s in
  let grown := old_global <? st_height (global_status s) in
  next <- add_ 64 current 1 ;;
  if st_height status <? next then Ok (set_syncing s false, [])
  else if st_height status =? next then
    let s := add_latest_sync_lists (st_height status) origin s in
    if grown && is_synchronizing s then
      sent <- start_sync_req gen_range peers s (st_height status) (st_height status) ;;
      Ok (s, sent)
    else Ok (set_syncing s false, [])
  else
    let s := add_latest_sync_lists (st_height status) origin s in
    let* (s, sent) :=
      if (SYNC_TIME_OUT <? (now - sync_time_out s) / NANOS) || negb (is_synchronizing s) then
        let s := set_time s now in
        sent <- start_sync_req gen_range peers s next (st_height status) ;; Ok (s, sent)
      else if grown && is_synchronizing s then
        sent <- start_sync_req gen_range peers s (st_height status) (st_height status) ;; Ok (s, sent)
      else Ok (s, []) in
    Ok (set_syncing s true, sent).

(** ** Messages *)
Inductive Source : Set := LOCAL | REMOTE.

Inductive Content : Type :=
| MsgStatus (status : Status)
| MsgSyncResponse (blocks : list Block)
| MsgOther.

Definition receive (from : Source) (origin : Z) (content : Content) (s : Synchronizer)
    : outcome void (Synchronizer * list Out) :=
  match content, from with
  | MsgStatus status, LOCAL => update_current_status status s
  | MsgStatus status, REMOTE => update_global_status status origin s
  | MsgSyncResponse _, LOCAL => Ok (s, [])
  | MsgSyncResponse blocks, REMOTE => process_sync blocks s
  | MsgOther, _ => Ok (s, [])
  end.
End environment.
End synchronizer.
