(* ===== verification/SyncTheorems.v ===== *)
(** * Specification of block synchronization, and its properties

    What the helpers of [Synchronizer.v] compute, and the invariant: every
    message keeps the synchronizer well formed; requests cover the missing
    heights; the blocks published follow the current one.  Each theorem has a
    concrete instance. *)

From S2P Require Import Prelude Synchronizer.
From stdpp Require Import base gmap list list_numbers.
Local Open Scope Z_scope.
Local Open Scope cita_scope.

(** ** Ordered maps *)
Lemma split_off_lookup {V} k (m : gmap Z V) h v : split_off k m !! h = Some v <-> m !! h = Some v /\ k <= h.
Proof. by rw /split_off map_lookup_filter_Some. Qed.

(** [best] is the greatest entry of [l] that satisfies [p]. *)
Definition greatest {V} (p : V -> bool) (l : list (Z * V)) (best : option (Z * V)) : Prop :=
  match best with
  | Some kv => kv ∈ l /\ p kv.2 = true /\ forall kv', kv' ∈ l -> p kv'.2 = true -> kv'.1 <= kv.1
  | None => forall kv', kv' ∈ l -> p kv'.2 = false
  end.

Lemma rfind_greatest {V} (p : V -> bool) (m : gmap Z V) : greatest p (map_to_list m) (rfind p m).
Proof.
  rw /rfind. generalize (map_to_list m). intros l. induction l as [|[k v] l IH] using rev_ind.
  { intros kv' []%not_elem_of_nil. }
  rw fold_left_app. cbn [fold_left]. set (best := fold_left _ l None) in *.
  assert (forall kv', kv' ∈ l ++ [(k, v)] <-> kv' ∈ l \/ kv' = (k, v)) as Hin.
  { intros kv'. rw elem_of_app list_elem_of_singleton. done. }
  cbn [snd fst]. destruct (p v) eqn:Ep; destruct best as [[k0 v0]|]; cbn in IH |- *.
  - destruct IH as (H1 & H2 & H3). destruct (Z.ltb_spec k0 k).
    + split; [apply Hin; by right|]. split; [done|]. intros kv' [Hk| ->]%Hin Hp; [|done].
      specialize (H3 kv' Hk Hp). cbn in *. lia.
    + split; [apply Hin; by left|]. split; [done|]. intros kv' [Hk| ->]%Hin Hp; [by apply H3|]. cbn. lia.
  - split; [apply Hin; by right|]. split; [done|]. intros kv' [Hk| ->]%Hin Hp; [by rw (IH kv' Hk) in Hp|done].
  - destruct IH as (H1 & H2 & H3). split; [apply Hin; by left|]. split; [done|].
    intros kv' [Hk| ->]%Hin Hp; [by apply H3|]. cbn in Hp. congruence.
  - intros kv' [Hk| ->]%Hin; [by apply IH|done].
Qed.

Lemma rfind_total {V} (p : V -> bool) (m : gmap Z V) : m <> ∅ -> (forall h v, m !! h = Some v -> p v = true) ->
  exists k v, rfind p m = Some (k, v) /\ m !! k = Some v /\ forall k' v', m !! k' = Some v' -> k' <= k.
Proof.
  intros Hne Hp. pose proof (rfind_greatest p m) as Hg. destruct (rfind p m) as [[k v]|]; cbn in Hg.
  - destruct Hg as (Hin%elem_of_map_to_list & _ & Hmax). exists k, v. split; [done|]. split; [done|].
    intros k' v' Hk. apply (Hmax (k', v')); [by apply elem_of_map_to_list|]. by eapply Hp.
  - exfalso. destruct (map_choose m Hne) as (k & v & Hk).
    specialize (Hg (k, v) (proj2 (elem_of_map_to_list m k v) Hk)). cbn in Hg. by rw (Hp k v Hk) in Hg.
Qed.

Section spec.
  Context {Block : Type} (block_height : Block -> Z).
Abbreviation Sync := (Synchronizer (Block := Block)).
Abbreviation Msg := (Out (Block := Block)).
Abbreviation height_of s := (st_height (current_status s)).

(** ** Requests *)

(** Requests for the given heights, in order, at most twenty in each. *)
Definition requests (heights : list Z) (origin : Z) (out : list Msg) : Prop :=
  exists chunks, out = (fun hs => SyncReq hs origin) <$> chunks /\ concat chunks = heights /\
    Forall (fun hs => 0 < zlen hs <= SYNC_STEP) chunks.

Lemma send_sync_req_requests hs origin : zlen hs <= SYNC_STEP -> requests hs origin (send_sync_req hs origin).
Proof.
  intros Hl. rw /send_sync_req. case_bool_decide as Hn.
  - exists []. by rw Hn.
  - exists [hs]. split; [done|]. split; [apply app_nil_r|]. constructor; [|constructor]. split; [|done].
    destruct hs; [done|]. rw zlen_cons. pose proof (zlen_nonneg hs). lia.
Qed.

Lemma requests_app hs ks origin out out' :
  requests hs origin out -> requests ks origin out' -> requests (hs ++ ks) origin (out ++ out').
Proof.
  intros (c & -> & <- & Hc) (c' & -> & <- & Hc'). exists (c ++ c'). rw fmap_app concat_app. split; [done|].
  split; [done|]. by apply Forall_app.
Qed.

Lemma strategy_loop_ok fuel start stop step hs origin :
  stop < 2 ^ 64 - 1 -> stop - start + 1 <= Z.of_nat fuel -> 0 <= step -> zlen hs + step = SYNC_STEP ->
  exists out, strategy_loop fuel start stop step hs origin = Ok out /\
    requests (hs ++ seqZ start (stop - start + 1)) origin out.
Proof.
  revert start step hs. induction fuel as [|fuel IH]; intros start step hs Hs Hf Hst Hl; cbn [strategy_loop].
  all: destruct (Z.leb_spec start stop) as [Hle|Hgt].
  2,4: eexists; split; [done|]; rw seqZ_nil; [lia|]; rw app_nil_r; apply send_sync_req_requests; unfold SYNC_STEP in *; lia.
  - lia.
  - rw seqZ_cons; [lia|]. pose proof (zlen_nonneg hs). unfold SYNC_STEP in *.
    rw (_ : Z.pred (stop - start + 1) = stop - Z.succ start + 1); [lia|].
    destruct (Z.eqb_spec step 0) as [->|Hne].
    + rw sub_ok; [lia|]. cbn [obind]. rw add_ok; [lia|]. cbn [obind]. change (start + 1) with (Z.succ start).
      destruct (IH (Z.succ start) (20 - 1) ([] ++ [start])) as (out & -> & Hout); [lia|lia|lia|done|].
      cbn [obind]. eexists. split; [done|]. apply requests_app; [|exact Hout].
      apply send_sync_req_requests. unfold SYNC_STEP. lia.
    + rw sub_ok; [lia|]. cbn [obind]. rw add_ok; [lia|]. cbn [obind]. change (start + 1) with (Z.succ start).
      destruct (IH (Z.succ start) (step - 1) (hs ++ [start])) as (out & -> & Hout); [lia|lia|lia| |].
      { rw zlen_app zlen_cons zlen_nil. lia. }
      cbn [obind]. eexists. split; [done|]. rw -app_assoc in Hout. exact Hout.
Qed.

Lemma sync_strategy_ok (s : Sync) start stop origin : height_of s <= start -> stop < 2 ^ 64 - 1 ->
  exists out, sync_strategy s start stop origin = Ok out /\ requests (seqZ start (stop - start + 1)) origin out.
Proof.
  intros Hs He. rw /sync_strategy (proj2 (Z.leb_le _ _)); [done|]. cbn [andb].
  destruct (Z.leb_spec start stop).
  - apply (strategy_loop_ok _ start stop SYNC_STEP [] origin); [done|lia|done|done].
  - exists []. split; [done|]. rw seqZ_nil; [lia|]. by exists [].
Qed.

(** ** Runs of blocks *)

(** [bs] are the blocks of [m] at [height], [height + 1], ... *)
Definition run (m : gmap Z Block) (height : Z) (bs : list Block) : Prop :=
  forall i b, bs !! i = Some b -> m !! (height + Z.of_nat i) = Some b.

Lemma run_cons m height b bs :
  m !! height = Some b -> run m (height + 1) bs -> run m height (b :: bs).
Proof.
  intros Hb Hr [|i] b'; cbn [lookup list_lookup]; [intros [= <-]; by rw Z.add_0_r|].
  intros Hi. rw (_ : height + Z.of_nat (S i) = height + 1 + Z.of_nat i); [lia|]. by apply Hr.
Qed.

Lemma take_run_ok fuel height stop m :
  height <= stop + 1 -> stop < 2 ^ 64 - 1 -> stop - height + 1 <= Z.of_nat fuel ->
  exists bs m', take_run fuel height stop m = Ok (bs, m') /\ run m height bs /\
    height + zlen bs <= stop + 1 /\
    (height + zlen bs = stop + 1 \/ m !! (height + zlen bs) = None) /\
    forall h, m' !! h = if bool_decide (height <= h < height + zlen bs) then None else m !! h.
Proof.
  revert height m. induction fuel as [|fuel IH]; intros height m Hh Hs Hf; cbn [take_run].
  all: destruct (Z.leb_spec height stop) as [Hle|Hgt]; [destruct (m !! height) as [b|] eqn:Eb|].
  2,3,5,6: exists [], m; rw zlen_nil Z.add_0_r; split; [done|]; split; [by intros i b' Hi|];
    split; [lia|]; split; [first [by right|left; lia]|]; intros h; rw bool_decide_eq_false_2; [lia|done].
  - lia.
  - rw add_ok; [lia|]. cbn [obind].
    destruct (IH (height + 1) (delete height m)) as (bs & m' & -> & Hr & Hb & Hend & Hm); [lia|lia|lia|].
    cbn [obind]. exists (b :: bs), m'. rw zlen_cons. pose proof (zlen_nonneg bs).
    rw (_ : height + (1 + zlen bs) = height + 1 + zlen bs); [lia|]. split; [done|]. split; [|split; [done|split]].
    + apply run_cons; [done|]. intros i b' Hi. specialize (Hr i b' Hi). by apply lookup_delete_Some in Hr as [_ Hr].
    + destruct Hend as [Hend|Hend]; [by left|]. right. rw lookup_delete_ne in Hend; [lia|done].
    + intros h. rw Hm. destruct (decide (h = height)) as [->|Hne].
      * rw (bool_decide_eq_false_2 (height + 1 <= height < _)); [lia|]. rw bool_decide_eq_true_2; [lia|]. apply lookup_delete_eq.
      * rw lookup_delete_ne; [done|]. by rw (bool_decide_ext (height + 1 <= h < height + 1 + zlen bs)
          (height <= h < height + 1 + zlen bs)); [lia|].
Qed.

(** ** The invariant *)

(** Heights are of realistic size; the reports kept are of heights still
    missing, each by at least one peer; a block is stored under its height. *)
Record sync_ok (s : Sync) : Prop := {
  so_height : 0 <= height_of s < 2 ^ 63;
  so_end : 0 <= sync_end_height s < 2 ^ 63 + 32;
  so_reports : forall h os, latest_status_lists s !! h = Some os -> height_of s < h < 2 ^ 63 /\ os <> [];
  so_blocks : forall h b, block_lists s !! h = Some b -> block_height b = h;
}.

(** Requests are for heights above the current one; the blocks published
    follow it without a gap, up to a proof stored under the greatest height. *)
Definition out_ok (s : Sync) (o : Msg) : Prop :=
  match o with
  | BroadcastStatus st => st = current_status s
  | SyncReq hs _ => 0 < zlen hs <= SYNC_STEP /\ Forall (fun h => height_of s < h) hs
  | PubBlocks bs =>
      exists n, 0 <= n <= SYNC_STEP + 1 /\ bs <> [] /\
        (block_height <$> bs = seqZ (height_of s + 1) n \/
         block_height <$> bs = seqZ (height_of s + 1) n ++ [U64_MAX])
  end.

Lemma requests_ok (s : Sync) hs origin out :
  requests hs origin out -> Forall (fun h => height_of s < h) hs -> Forall (out_ok s) out.
Proof.
  intros (c & -> & <- & Hc) Hh. apply Forall_fmap. induction Hc as [|x c Hx _ IH]; [constructor|].
  cbn in Hh. apply Forall_app in Hh as [Hh1 Hh2]. constructor; [by split|]. by apply IH.
Qed.

  Context (gen_range : Z -> Z) (gen_range_ok : forall n, 0 < n -> 0 <= gen_range n < n).
  Context (peers : Z) (peers_ok : 0 < peers).

Lemma quorum_zero : quorum peers = Ok 0.
Proof using peers_ok.
  rw /quorum (proj2 (Z.eqb_neq _ _)); [lia|]. cbn. f_equal. apply Z.div_small. lia.
Qed.

(** With reports at hand, the request goes to one of the peers that reported
    the greatest height. *)
Lemma start_sync_req_ok (s : Sync) start stop :
  sync_ok s -> height_of s <= start -> stop < 2 ^ 64 - 1 ->
  exists out, start_sync_req gen_range peers s start stop = Ok out /\
    ((latest_status_lists s = ∅ /\ out = []) \/
     exists h os origin, latest_status_lists s !! h = Some os /\ origin ∈ os /\
       (forall h' os', latest_status_lists s !! h' = Some os' -> h' <= h) /\
       requests (seqZ start ((if stop =? 0 then h + 1 else stop) - start + 1)) origin out).
Proof using gen_range_ok peers_ok.
  intros [Hh _ Hr _] Hs He. rw /start_sync_req /best_height. case_bool_decide as Hn; cbn [obind].
  { exists []. split; [done|]. by left. }
  rw quorum_zero. cbn [obind].
  destruct (rfind_total (fun os : list Z => 0 <=? zlen os) (latest_status_lists s)) as (h & os & -> & Hl & Hmax); [done|..].
  { intros ? ? _. apply Z.leb_le, zlen_nonneg. }
  destruct (Hr h os Hl) as [Hhb Hos]. rw (proj2 (Z.ltb_lt _ _)); [lia|].
  assert (0 < zlen os) as Hlen by (destruct os; [done|]; rw zlen_cons; pose proof (zlen_nonneg os); lia).
  rw (proj2 (Z.eqb_neq _ _)); [lia|]. cbn [negb assert_ obind].
  pose proof (gen_range_ok (zlen os) Hlen) as Hg. rw /index (proj2 (Z.leb_le _ _)); [lia|].
  destruct (lookup_lt_is_Some_2 os (Z.to_nat (gen_range (zlen os)))) as [origin Ho]; [unfold zlen in *; lia|].
  rw Ho. cbn [expect obind].
  assert ((if stop =? 0 then add_ (E := void) 64 h 1 else Ok stop) = Ok (if stop =? 0 then h + 1 else stop)) as ->.
  { destruct (stop =? 0); [|done]. apply add_ok. lia. }
  cbn [obind]. destruct (sync_strategy_ok s start (if stop =? 0 then h + 1 else stop) origin) as (out & -> & Hout);
    [done|destruct (stop =? 0); lia|].
  exists out. split; [done|]. right. exists h, os, origin. split; [done|]. split; [by eapply list_elem_of_lookup_2|]. done.
Qed.

Lemma start_sync_req_out (s : Sync) start stop :
  sync_ok s -> height_of s < start -> stop < 2 ^ 64 - 1 ->
  exists out, start_sync_req gen_range peers s start stop = Ok out /\ Forall (out_ok s) out.
Proof using gen_range_ok peers_ok.
  intros Hs Hst He. destruct (start_sync_req_ok s start stop Hs) as (out & -> & Hout); [lia|done|].
  exists out. split; [done|]. destruct Hout as [[_ ->]|(h & os & origin & _ & _ & _ & Hr)]; [constructor|].
  eapply requests_ok; [exact Hr|]. apply Forall_seqZ. intros i Hi. lia.
Qed.

(** ** Publishing blocks *)
Lemma run_heights (s : Sync) bs start : (forall h b, block_lists s !! h = Some b -> block_height b = h) ->
  run (block_lists s) start bs -> block_height <$> bs = seqZ start (zlen bs).
Proof using.
  intros Hb Hr. apply list_eq. intros i. rw list_lookup_fmap. destruct (bs !! i) as [b|] eqn:E; cbn.
  - rw lookup_seqZ_lt; [apply lookup_lt_Some in E; unfold zlen; lia|]. f_equal. apply Hb. by apply Hr.
  - rw lookup_seqZ_ge; [apply lookup_ge_None in E; unfold zlen; lia|done].
Qed.

Lemma add_proof_ok (all m : gmap Z Block) bs :
  (forall h b, all !! h = Some b -> block_height b = h) -> (forall h b, m !! h = Some b -> all !! h = Some b) ->
  exists proof m', add_proof block_height bs m = (bs ++ proof, m') /\
    (proof = [] \/ exists b, proof = [b] /\ all !! U64_MAX = Some b) /\
    forall h b, m' !! h = Some b -> block_height b = h.
Proof using.
  intros Hall Hm. assert (forall h b, keep_last block_height bs m !! h = Some b -> block_height b = h) as Hkeep.
  { intros h b. rw /keep_last. destruct (last bs); [|by intros ?%Hm%Hall].
    rw lookup_insert_Some. intros [[<- <-]|[_ ?]]; [done|]. by apply Hall, Hm. }
  rw /add_proof. destruct (m !! U64_MAX) as [b|] eqn:Emax; [case_bool_decide|].
  - exists [b], (delete U64_MAX m). split; [done|]. split; [right; exists b; by split; [|apply Hm]|].
    intros h b' [_ ?]%lookup_delete_Some. by apply Hall, Hm.
  - exists [], (keep_last block_height bs m). rw app_nil_r. split; [done|]. by split; [left|].
  - exists [], (keep_last block_height bs m). rw app_nil_r. split; [done|]. by split; [left|].
Qed.

Lemma submit_blocks_ok (s : Sync) : sync_ok s ->
  exists s' out bs proof, submit_blocks block_height s = Ok (s', out) /\ sync_ok s' /\
    current_status s' = current_status s /\
    run (block_lists s) (height_of s + 1) bs /\ zlen bs <= SYNC_STEP + 1 /\
    (zlen bs = SYNC_STEP + 1 \/ block_lists s !! (height_of s + 1 + zlen bs) = None) /\
    (proof = [] \/ exists b, proof = [b] /\ block_lists s !! U64_MAX = Some b) /\
    out = (if bool_decide (zlen (bs ++ proof) = 0) then [] else [PubBlocks (bs ++ proof)]) /\
    sync_end_height s' = (if bool_decide (zlen (bs ++ proof) = 0) then sync_end_height s
                          else height_of s + zlen (bs ++ proof) - 1).
Proof using.
  intros [Hh He Hr Hb]. rw /submit_blocks. rw add_ok; [lia|]. cbn [obind]. rw add_ok; [unfold SYNC_STEP; lia|]. cbn [obind].
  set (c := height_of s) in *. set (m := split_off (c + 1) (block_lists s)).
  destruct (take_run_ok (Z.to_nat (SYNC_STEP + 1)) (c + 1) (c + 1 + SYNC_STEP) m) as (bs & m1 & -> & Hrun & Hlen & Hend & Hm1);
    [unfold SYNC_STEP; lia..|]. cbn [obind].
  assert (run (block_lists s) (c + 1) bs) as Hrun'.
  { intros i b Hi%Hrun. by apply split_off_lookup in Hi as [? _]. }
  assert (zlen bs <= SYNC_STEP + 1 /\ (zlen bs = SYNC_STEP + 1 \/ block_lists s !! (c + 1 + zlen bs) = None)) as [Hl1 Hl2].
  { split; [lia|]. destruct Hend as [?|Hn]; [left; lia|]. right. destruct (block_lists s !! (c + 1 + zlen bs)) as [b|] eqn:E; [|done].
    pose proof (zlen_nonneg bs). assert (m !! (c + 1 + zlen bs) = Some b) as Hs; [|by rw Hs in Hn].
    apply split_off_lookup. split; [done|lia]. }
  destruct (add_proof_ok (block_lists s) m1 bs Hb) as (proof & m2 & -> & Hproof & Hm2).
  { intros h b. rw Hm1. case_bool_decide; [done|]. by intros [? _]%split_off_lookup. }
  assert (zlen proof <= 1) by (destruct Hproof as [->|(? & -> & _)]; done). pose proof (zlen_nonneg (bs ++ proof)) as Hnn.
  rw /pub_blocks. destruct (bool_decide_reflect (zlen (bs ++ proof) = 0)) as [Hz|Hz].
  - eexists _, _, bs, proof. split; [done|]. split; [by split|]. do 5 (split; [done|]). by rw bool_decide_eq_true_2.
  - rw add_ok; [rw zlen_app in Hz |- *; cbn; unfold SYNC_STEP in *; lia|]. cbn [obind].
    eexists _, _, bs, proof. split; [done|]. split.
    + split; cbn; [done| |done|done]. rw zlen_app in Hz, Hnn |- *. unfold SYNC_STEP in *. lia.
    + do 5 (split; [done|]). rw bool_decide_eq_false_2; [done|]. split; [done|]. cbn. lia.
Qed.

Lemma submit_blocks_out (s : Sync) : sync_ok s ->
  exists s' out, submit_blocks block_height s = Ok (s', out) /\ sync_ok s' /\
    current_status s' = current_status s /\ Forall (out_ok s') out.
Proof using.
  intros Hs. destruct (submit_blocks_ok s Hs) as (s' & out & bs & proof & Hsub & Hs' & Hc & Hrun & Hlen & _ & Hproof & -> & _).
  exists s', (if bool_decide (zlen (bs ++ proof) = 0) then [] else [PubBlocks (bs ++ proof)]).
  split; [done|]. split; [done|]. split; [done|]. case_bool_decide as Hz; constructor; [|constructor].
  exists (zlen bs). split; [pose proof (zlen_nonneg bs); lia|]. split; [by intros Hn; rw Hn in Hz|].
  pose proof (run_heights s bs _ (so_blocks s Hs) Hrun) as Hh. rw fmap_app Hh Hc.
  destruct Hproof as [->|(b & -> & Hb)]; [left; by rw app_nil_r|right]. cbn. by rw (so_blocks s Hs _ _ Hb).
Qed.

Lemma process_sync_ok blocks (s : Sync) : sync_ok s ->
  exists s' out, process_sync block_height blocks s = Ok (s', out) /\ sync_ok s' /\ Forall (out_ok s') out.
Proof using.
  intros Hs. rw /process_sync. edestruct submit_blocks_out as (s' & out & -> & ? & _ & ?); [|by exists s', out].
  destruct Hs as [Hh He Hr Hb]. split; [done|done|done|]. cbn.
  revert Hb. generalize (block_lists s). clear Hh He Hr. induction blocks as [|b blocks IH]; intros m Hm; [done|].
  cbn [fold_left]. apply IH. intros h b'. rw lookup_insert_Some. intros [[<- <-]|[_ ?]]; [done|]. by apply Hm.
Qed.

  Context (now : Z).

Lemma set_syncing_ok (s : Sync) b : sync_ok s -> sync_ok (set_syncing s b).
Proof using. intros [? ? ? ?]. by split. Qed.

Lemma set_time_ok (s : Sync) t : sync_ok s -> sync_ok (set_time s t).
Proof using. intros [? ? ? ?]. by split. Qed.

Ltac sync_flags := repeat first [apply set_syncing_ok|apply set_time_ok].

Lemma out_ok_same (s s' : Sync) out : current_status s' = current_status s -> Forall (out_ok s) out -> Forall (out_ok s') out.
Proof using.
  intros Hc Ho. eapply Forall_impl; [exact Ho|]. intros [st|hs o|bs]; cbn; by rw ?Hc.
Qed.

Lemma update_current_status_ok st (s : Sync) : sync_ok s -> 0 <= st_height st < 2 ^ 63 ->
  exists s' out, update_current_status block_height now gen_range peers st s = Ok (s', out) /\ sync_ok s' /\
    current_status s' = st /\ Forall (out_ok s') out.
Proof using gen_range_ok peers_ok.
  intros [Hh He Hr Hb] Hst. rw /update_current_status. rw add_ok; [lia|]. cbn [obind].
  set (s1 := set_current (set_latest s _) st). assert (sync_ok s1) as Hs1.
  { split; [done|done| |done]. intros h os [Hl Hle]%split_off_lookup. cbn. destruct (Hr h os Hl). split; [lia|done]. }
  assert (current_status s1 = st) as Hc1 by done. assert (sync_end_height s1 = sync_end_height s) as He1 by done.
  clearbody s1. rw Hc1 He1. destruct (st_height st <=? height_of s); [|destruct (st_height st <? sync_end_height s);
    [|destruct (st_height st =? sync_end_height s)]].
  - destruct (start_sync_req_out (set_syncing s1 true) (st_height st + 1) 0) as (out & -> & Hout);
      [by apply set_syncing_ok|cbn; rw Hc1; lia|done|].
    cbn [obind]. eexists _, _. split; [done|]. split; [by sync_flags|]. split; [done|]. constructor; [by cbn; rw Hc1|done].
  - rw add_ok; [lia|]. cbn [obind].
    destruct (start_sync_req_out s1 (st_height st + 1) (sync_end_height s + 1)) as (out & -> & Hout); [done|rw Hc1; lia|lia|].
    cbn [obind]. eexists _, _. split; [done|]. split; [by sync_flags|]. split; [done|].
    constructor; [by cbn; rw Hc1|]. by apply (out_ok_same s1).
  - rw add_ok; [lia|]. cbn [obind]. destruct (_ && _).
    + destruct (submit_blocks_out s1 Hs1) as (s2 & out & -> & Hs2 & Hc2 & Hout). cbn [obind]. eexists _, _. split; [done|].
      split; [by sync_flags|]. split; [cbn; by rw Hc2|]. constructor; [cbn; by rw Hc2 Hc1|]. by apply (out_ok_same s2).
    + destruct (start_sync_req_out s1 (st_height st + 1) 0) as (out & -> & Hout); [done|rw Hc1; lia|done|].
      cbn [obind]. eexists _, _. split; [done|]. split; [by sync_flags|]. split; [done|].
      constructor; [by cbn; rw Hc1|]. by apply (out_ok_same s1).
  - eexists _, _. split; [done|]. destruct Hs1 as [? ? ? ?]. split; [split; cbn; [done| |done|done]; rw ?Hc1; lia|].
    split; [done|]. constructor; [by cbn; rw Hc1|constructor].
Qed.

Lemma add_latest_ok (s : Sync) h origin : sync_ok s -> height_of s < h < 2 ^ 63 -> sync_ok (add_latest_sync_lists h origin s).
Proof using.
  intros [Hh He Hr Hb] Hhb. split; [done|done| |done]. intros h' os. cbn. rw lookup_insert_Some.
  intros [[<- <-]|[_ Hl]]; [|by apply Hr]. split; [done|]. by intros ?%app_nil%proj2.
Qed.

Lemma update_global_status_ok st origin (s : Sync) : sync_ok s -> 0 <= st_height st < 2 ^ 63 ->
  exists s' out, update_global_status now gen_range peers st origin s = Ok (s', out) /\ sync_ok s' /\
    current_status s' = current_status s /\ Forall (out_ok s') out.
Proof using gen_range_ok peers_ok.
  intros Hs Hst. pose proof (so_height s Hs) as Hh. rw /update_global_status.
  set (s1 := if st_height (global_status s) <? st_height st then set_global s st else s).
  assert (sync_ok s1 /\ current_status s1 = current_status s) as [Hs1 Hc1].
  { rw /s1. destruct (_ <? _); [|done]. by destruct Hs. }
  set (grown := _ <? st_height (global_status s1)). clearbody s1 grown. rw add_ok; [lia|]. cbn [obind].
  destruct (Z.ltb_spec (st_height st) (height_of s + 1)); [|destruct (Z.eqb_spec (st_height st) (height_of s + 1))].
  - eexists _, _. split; [done|]. by split; [sync_flags|].
  - assert (sync_ok (add_latest_sync_lists (st_height st) origin s1)) as Hs2 by (apply add_latest_ok; [done|]; rw Hc1; lia).
    set (s2 := add_latest_sync_lists _ _ s1) in *. assert (current_status s2 = current_status s) as Hc2 by done. clearbody s2.
    destruct (grown && _).
    + destruct (start_sync_req_out s2 (st_height st) (st_height st)) as (out & -> & Hout); [done|rw Hc2; lia|lia|].
      cbn [obind]. by eexists _, _.
    + eexists _, _. split; [done|]. by split; [sync_flags|].
  - assert (sync_ok (add_latest_sync_lists (st_height st) origin s1)) as Hs2 by (apply add_latest_ok; [done|]; rw Hc1; lia).
    set (s2 := add_latest_sync_lists _ _ s1) in *. assert (current_status s2 = current_status s) as Hc2 by done. clearbody s2.
    destruct (_ || _); [|destruct (grown && _)].
    + destruct (start_sync_req_out (set_time s2 now) (height_of s + 1) (st_height st)) as (out & -> & Hout);
        [by apply set_time_ok|cbn; rw Hc2; lia|lia|].
      cbn [obind]. eexists _, _. split; [done|]. by split; [sync_flags|].
    + destruct (start_sync_req_out s2 (st_height st) (st_height st)) as (out & -> & Hout); [done|rw Hc2; lia|lia|].
      cbn [obind]. eexists _, _. split; [done|]. by split; [sync_flags|].
    + cbn [obind]. eexists _, _. split; [done|]. by split; [sync_flags|].
Qed.
End spec.

(** ** Properties *)
Section theorems.
  Context {Block : Type} (block_height : Block -> Z).
  Context (gen_range : Z -> Z) (gen_range_ok : forall n, 0 < n -> 0 <= gen_range n < n).

(** Heights reported by a message. *)
Definition content_ok (c : Content (Block := Block)) : Prop :=
  match c with MsgStatus st => 0 <= st_height st < 2 ^ 63 | _ => True end.

(** C24: While there are peers, every message, local or remote, is handled
    without a panic and keeps the synchronizer well formed, provided that the
    heights in status messages are below 2^63 (the computation on a peer's
    height near the maximum of u64 overflows). A request sent is for at most
    twenty heights, all above the current one, and the blocks published start
    right after the current one and have no gap, up to the proof that may end
    them. *)
Theorem sync_receive_safe (now peers : Z) (from : Source) (origin : Z) (c : Content)
    (s : Synchronizer (Block := Block)) :
  sync_ok block_height s -> 0 < peers -> content_ok c ->
  exists s' out, receive block_height now gen_range peers from origin c s = Ok (s', out) /\
    sync_ok block_height s' /\ Forall (out_ok block_height s') out.
Proof using gen_range_ok.
  intros Hs Hp Hc. destruct c as [st|blocks|]; destruct from; cbn [receive content_ok] in *.
  - destruct (update_current_status_ok block_height gen_range gen_range_ok peers Hp now st s Hs Hc)
      as (s' & out & ? & ? & _ & ?). by exists s', out.
  - destruct (update_global_status_ok block_height gen_range gen_range_ok peers Hp now st origin s Hs Hc)
      as (s' & out & ? & ? & _ & ?). by exists s', out.
  - by exists s, [].
  - by apply process_sync_ok.
  - by exists s, [].
  - by exists s, [].
Qed.

(** The requests for a range of heights above the current one name every
    height of it exactly once, in order, and at most twenty heights each. *)
Theorem sync_requests_exact (s : Synchronizer (Block := Block)) (start stop origin : Z) :
  st_height (current_status s) <= start <= stop -> stop < 2 ^ 64 - 1 ->
  exists chunks, sync_strategy s start stop origin = Ok ((fun hs => SyncReq hs origin) <$> chunks) /\
    concat chunks = seqZ start (stop - start + 1) /\ Forall (fun hs => 0 < zlen hs <= SYNC_STEP) chunks.
Proof using.
  intros [Hs Hle] He. destruct (sync_strategy_ok s start stop origin Hs He) as (out & Ho & c & -> & Hc & Hl).
  by exists c.
Qed.

(** [submit_blocks] publishes the longest run of stored blocks that
    follows the current height, at most twenty-one, then the proof if nothing
    else is left, and moves the end of synchronization accordingly. *)
Theorem submit_blocks_exact (s : Synchronizer (Block := Block)) :
  sync_ok block_height s ->
  let c := st_height (current_status s) in
  exists s' bs proof, submit_blocks block_height s =
      Ok (s', if bool_decide (zlen (bs ++ proof) = 0) then [] else [PubBlocks (bs ++ proof)]) /\
    sync_ok block_height s' /\
    (forall i b, bs !! i = Some b -> block_lists s !! (c + 1 + Z.of_nat i) = Some b) /\
    (zlen bs < SYNC_STEP + 1 -> block_lists s !! (c + 1 + zlen bs) = None) /\ zlen bs <= SYNC_STEP + 1 /\
    (proof = [] \/ exists b, proof = [b] /\ block_lists s !! U64_MAX = Some b) /\
    (bs ++ proof <> [] -> sync_end_height s' = c + zlen (bs ++ proof) - 1).
Proof using.
  intros Hs c. destruct (submit_blocks_ok block_height s Hs)
    as (s' & out & bs & proof & Ho & Hs' & _ & Hr & Hl & Hmax & Hp & -> & He).
  exists s', bs, proof. split; [done|]. split; [done|]. split; [done|]. split; [|split; [done|split; [done|]]].
  - intros Hlt. destruct Hmax as [Heq|?]; [lia|done].
  - intros Hne. rw He bool_decide_eq_false_2; [|done]. intros Hz. apply Hne. unfold zlen in Hz.
    apply length_zero_iff_nil. lia.
Qed.

(** The share of the peers that must report a height before it is synced
    to, [2 / (3 * peers)], is zero for any number of peers: the report of a
    single peer decides how far to sync and whom to ask.  Without peers the
    division panics as soon as there is a report. *)
Theorem single_report_decides (peers : Z) (s : Synchronizer (Block := Block)) (start : Z) :
  sync_ok block_height s -> 0 < peers -> latest_status_lists s <> ∅ -> st_height (current_status s) <= start ->
  (exists h os origin out, start_sync_req gen_range peers s start 0 = Ok out /\
     latest_status_lists s !! h = Some os /\ origin ∈ os /\
     (forall h' os', latest_status_lists s !! h' = Some os' -> h' <= h) /\
     requests (seqZ start (h + 1 - start + 1)) origin out) /\
  start_sync_req gen_range 0 s start 0 = Panic.
Proof using gen_range_ok.
  intros Hs Hp Hne Hst. split.
  - destruct (start_sync_req_ok block_height gen_range gen_range_ok peers Hp s start 0 Hs Hst) as (out & Ho & Hout); [done|].
    destruct Hout as [[? _]|(h & os & origin & ? & ? & ? & Hr)]; [done|]. by exists h, os, origin, out.
  - rw /start_sync_req /best_height. by rw bool_decide_eq_false_2.
Qed.
End theorems.

(** ** Instances

    Blocks that are just heights; the generator picks the last peer. *)
Definition pick_last (n : Z) : Z := n - 1.

Lemma pick_last_ok n : 0 < n -> 0 <= pick_last n < n.
Proof. rw /pick_last. lia. Qed.

(** Height 5, blocks 6, 7 and 9 at hand, height 30 reported by peer 3. *)
Definition toy_sync : Synchronizer (Block := Z) :=
  mkSync {| st_height := 5; st_hash := [] |} {| st_height := 30; st_hash := [] |} 5 true {[30 := [3]]}
    {[6 := 6; 7 := 7; 9 := 9]} 0.

Lemma toy_sync_ok : sync_ok id toy_sync.
Proof.
  split; [done|done| |].
  - intros h os. cbn. intros [<- <-]%lookup_singleton_Some. done.
  - intros h b. cbn. rw !lookup_insert_Some lookup_empty. naive_solver.
Qed.

Lemma sync_receive_safe_witness :
  exists s' out, receive id 0 pick_last 4 REMOTE 2 (MsgStatus {| st_height := 40; st_hash := [] |}) toy_sync = Ok (s', out) /\
    sync_ok id s' /\ Forall (out_ok id s') out.
Proof.
  apply (sync_receive_safe id pick_last pick_last_ok 0 4 REMOTE 2 (MsgStatus {| st_height := 40; st_hash := [] |}) toy_sync);
    [apply toy_sync_ok|done|done].
Defined.

Lemma sync_requests_exact_witness :
  exists chunks, sync_strategy toy_sync 6 50 3 = Ok ((fun hs => SyncReq hs 3) <$> chunks) /\
    concat chunks = seqZ 6 (50 - 6 + 1) /\ Forall (fun hs => 0 < zlen hs <= SYNC_STEP) chunks.
Proof. apply (sync_requests_exact toy_sync 6 50 3); done. Defined.

Lemma submit_blocks_exact_witness :
  exists s' bs proof, submit_blocks id toy_sync =
      Ok (s', if bool_decide (zlen (bs ++ proof) = 0) then [] else [PubBlocks (bs ++ proof)]) /\
    sync_ok id s' /\
    (forall i b, bs !! i = Some b -> block_lists toy_sync !! (5 + 1 + Z.of_nat i) = Some b) /\
    (zlen bs < SYNC_STEP + 1 -> block_lists toy_sync !! (5 + 1 + zlen bs) = None) /\ zlen bs <= SYNC_STEP + 1 /\
    (proof = [] \/ exists b, proof = [b] /\ block_lists toy_sync !! U64_MAX = Some b) /\
    (bs ++ proof <> [] -> sync_end_height s' = 5 + zlen (bs ++ proof) - 1).
Proof. apply (submit_blocks_exact id toy_sync). apply toy_sync_ok. Defined.

(** One of a hundred peers reported height 30. *)
Lemma single_report_decides_witness :
  (exists h os origin out, start_sync_req pick_last 100 toy_sync 6 0 = Ok out /\
     latest_status_lists toy_sync !! h = Some os /\ origin ∈ os /\
     (forall h' os', latest_status_lists toy_sync !! h' = Some os' -> h' <= h) /\
     requests (seqZ 6 (h + 1 - 6 + 1)) origin out) /\
  start_sync_req pick_last 0 toy_sync 6 0 = Panic.
Proof. apply (single_report_decides id pick_last pick_last_ok 100 toy_sync 6); [apply toy_sync_ok|done|done|done]. Defined.
