(* ===== verification/Network.v ===== *)
(** * The network service

    [cita-network/src/citaprotocol.rs]: the frames messages travel in;
    [connection.rs]: the peers of a node and the messages sent to them;
    [netserver.rs] and [network.rs]: where received messages go.

    Sockets and serialized messages are parameters: a stream has the bytes it
    accepted ([sent]), and a write says how many bytes it took, if it did not
    fail.  [Framed] of the library [tokio_io], which calls the decoder, is
    [drain]. *)

From S2P Require Import Prelude Evm NativeStorage Synchronizer.
From stdpp Require Import base gmap list strings pretty.
Local Open Scope Z_scope.
Local Open Scope cita_scope.

Definition str (s : string) : String_ :=
  from_bytes ((fun a => Z.of_N (Ascii.N_of_ascii a)) <$> String.list_ascii_of_string s).

#[export] Instance String_eq_dec : EqDecision String_.
Proof. solve_decision. Defined.

(** ** Frames *)
Definition NETMSG_START : Z := 0xDEADBEEF00000000.

Abbreviation CitaRequest := (String_ * bytes)%type.
Abbreviation CitaResponse := (option (String_ * bytes)).

(** Keys and messages that are too long are logged and sent nevertheless. *)
Definition pubsub_message_to_network_message (buf : bytes) (msg : CitaResponse) : outcome void bytes :=
  match msg with
  | Some (key, body) =>
      let length_key := zlen (into_bytes key) in
      n <- add_ 64 1 length_key ;;
      length_full <- add_ 64 n (zlen body) ;;
      request_id <- add_ 64 NETMSG_START length_full ;;
      Ok (buf ++ to_be 8 request_id ++ wrap 8 length_key :: into_bytes key ++ body)
  | None => Ok (buf ++ to_be 8 NETMSG_START)
  end.

(** The message, if there is one, and what is left of the buffer. *)
Definition network_message_to_pubsub_message (buf : bytes) : CitaResponse * bytes :=
  if zlen buf <? 8 then (None, buf)
  else
    let request_id := of_be (take 8 buf) in
    let netmsg_start := Z.land request_id 0xffffffff00000000 in
    let length_full := Z.land request_id 0x00000000ffffffff in
    if negb (netmsg_start =? NETMSG_START) then (None, buf)
    else if zlen buf <? length_full + 8 then (None, buf)
    else
      let payload := take (Z.to_nat length_full) (drop 8 buf) in
      let buf := drop (Z.to_nat length_full) (drop 8 buf) in
      match payload with
      | [] => (None, buf)
      | length_key :: payload =>
          if length_key =? 0 then (None, buf)
          else if zlen payload <? length_key then (None, buf)
          else
            let key_buf := take (Z.to_nat length_key) payload in
            match utf8_error 0 key_buf with
            | Some _ => (None, buf)
            | None => (Some (from_bytes key_buf, drop (Z.to_nat length_key) payload), buf)
            end
      end.

(** [Framed] asks the decoder until it gives no message; then it waits for
    more bytes. *)
Fixpoint drain (fuel : nat) (buf : bytes) : list CitaRequest * bytes :=
  match fuel with
  | O => ([], buf)
  | S fuel =>
      match network_message_to_pubsub_message buf with
      | (Some m, buf) => let '(l, buf) := drain fuel buf in (m :: l, buf)
      | (None, buf) => ([], buf)
      end
  end.

Definition bytes_arrive (chunk : bytes) (buf : bytes) : list CitaRequest * bytes :=
  drain (S (length (buf ++ chunk))) (buf ++ chunk).

Fixpoint chunks_arrive (chunks : list bytes) (buf : bytes) : list CitaRequest * bytes :=
  match chunks with
  | [] => ([], buf)
  | chunk :: chunks =>
      let '(l, buf) := bytes_arrive chunk buf in
      let '(l', buf) := chunks_arrive chunks buf in
      (l ++ l', buf)
  end.

(** ** Peers *)
Inductive OperateType : Set := BROADCAST | SINGLE | SUBTRACT.
#[export] Instance OperateType_eq_dec : EqDecision OperateType.
Proof. solve_decision. Defined.

(** TCP streams: what was written, and a write with the number of bytes it
    took. *)
Class Tcp (T : Type) : Type := {
  sent : T -> bytes;
  tcp_write : T -> bytes -> T * option Z;
}.

(** Serialized messages of [libproto]. *)
Inductive MsgContent : Set := RequestMsg (request_id : bytes) (has_peercount : bool) | OtherMsg.

Class Proto (P : Type) : Type := {
  get_origin : P -> Z;
  get_operate : P -> OperateType;
  set_origin : Z -> P -> P;
  take_content : P -> MsgContent;
  to_bytes : P -> bytes;
  try_from : bytes -> option P;
  peercount_response : bytes -> Z -> P;
}.

Record PeerConfig : Set := { pc_id_card : option Z; pc_ip : option string; pc_port : option Z }.
Record NetConfig : Set := { nc_id_card : option Z; nc_peers : option (list PeerConfig) }.

Definition peer_addr (p : PeerConfig) : outcome void string :=
  ip <- expect (pc_ip p) ;;
  port <- expect (pc_port p) ;;
  Ok (ip +:+ ":" +:+ pretty port).

Section connection.
  Context {T : Type} {HT : Tcp T} {P : Type} {HP : Proto P}.

Abbreviation Peer := (Z * string * option T)%type.
Record Connection : Type := mkConnection { id_card : Z; peers_pair : list Peer }.

Fixpoint configured (l : list PeerConfig) : outcome void (list Peer) :=
  match l with
  | [] => Ok []
  | p :: l =>
      id <- expect (pc_id_card p) ;;
      addr <- peer_addr p ;;
      rest <- configured l ;;
      Ok ((id, addr, None) :: rest)
  end.

Definition new_connection (c : NetConfig) : outcome void Connection :=
  id <- expect (nc_id_card c) ;;
  l <- configured (default [] (nc_peers c)) ;;
  Ok (mkConnection id l).

Definition is_send (id_card origin : Z) (operate : OperateType) : bool :=
  bool_decide (operate = BROADCAST) || (bool_decide (operate = SINGLE) && (id_card =? origin)) ||
  (bool_decide (operate = SUBTRACT) && negb (origin =? id_card)).

(** The loop of [update] over the configured peers: new addresses join the
    peers; all addresses are noted. *)
Fixpoint add_peers (l : list PeerConfig) (peers_addr config_addr : list string) (pairs : list Peer)
    : outcome void (list string * list string * list Peer) :=
  match l with
  | [] => Ok (peers_addr, config_addr, pairs)
  | p :: l =>
      id <- expect (pc_id_card p) ;;
      addr <- peer_addr p ;;
      if bool_decide (addr ∈ peers_addr) then add_peers l peers_addr (config_addr ++ [addr]) pairs
      else add_peers l (peers_addr ++ [addr]) (config_addr ++ [addr]) (pairs ++ [(id, addr, None)])
  end.

(** [iter().position(p)]. *)
Fixpoint position {A} (p : A -> bool) (l : list A) : option nat :=
  match l with
  | [] => None
  | x :: l => if p x then Some O else S <$> position p l
  end.

(** [Vec::remove]. *)
Definition vec_remove {A} (i : nat) (l : list A) : outcome void (list A) :=
  _ <- assert_ (Z.of_nat i <? zlen l) ;; Ok (delete i l).

(** The loop that removes peers; each round removes one. *)
Fixpoint remove_peers (fuel : nat) (peers_addr config_addr : list string) (pairs : list Peer) : outcome void (list Peer) :=
  match fuel with
  | O => Ok pairs
  | S fuel =>
      match position (fun addr => negb (bool_decide (addr ∈ config_addr))) peers_addr with
      | Some index =>
          peers_addr <- vec_remove index peers_addr ;;
          pairs <- vec_remove index pairs ;;
          remove_peers fuel peers_addr config_addr pairs
      | None => Ok pairs
      end
  end.

Definition update (c : NetConfig) (con : Connection) : outcome void Connection :=
  match nc_peers c with
  | Some peers =>
      r <- add_peers peers ((fun p : Peer => p.1.2) <$> peers_pair con) [] (peers_pair con) ;;
      let '(peers_addr, config_addr, pairs) := r in
      pairs <- remove_peers (S (length peers_addr)) peers_addr config_addr pairs ;;
      Ok (mkConnection (id_card con) pairs)
  | None => Ok (mkConnection (id_card con) [])
  end.

(** The result of a write is not looked at. *)
Definition send_to (buf : bytes) (origin : Z) (operate : OperateType) (p : Peer) : Peer :=
  let '(id, addr, stream) := p in
  match stream with
  | Some s => if is_send id origin operate then (id, addr, Some (tcp_write s buf).1) else p
  | None => p
  end.

Definition broadcast (key : String_) (msg : P) (con : Connection) : outcome void Connection :=
  let origin := get_origin msg in
  let operate := get_operate msg in
  buf <- pubsub_message_to_network_message [] (Some (key, to_bytes (set_origin (id_card con) msg))) ;;
  Ok (mkConnection (id_card con) (send_to buf origin operate <$> peers_pair con)).

Definition broadcast_rawbytes (key : String_) (data : bytes) (con : Connection) : outcome void Connection :=
  msg <- expect (try_from data) ;; broadcast key msg con.

(** A round of the thread of [connect]: every stream gets a frame without a
    message; a peer whose stream fails, or who has none, is connected anew. *)
Definition keep_alive (buf : bytes) (tcp_connect : string -> option T) (p : Peer) : Peer :=
  let '(id, addr, stream) := p in
  match stream with
  | Some s =>
      match tcp_write s buf with
      | (s, Some _) => (id, addr, Some s)
      | (_, None) => (id, addr, tcp_connect addr)
      end
  | None => (id, addr, tcp_connect addr)
  end.

Definition connect (tcp_connect : string -> option T) (con : Connection) : outcome void Connection :=
  buf <- pubsub_message_to_network_message [] None ;;
  Ok (mkConnection (id_card con) (keep_alive buf tcp_connect <$> peers_pair con)).

(** ** The service *)

(** The messages in the channels, and the connection shared by all threads. *)
Record NetWork : Type := mkNetWork {
  con : Connection;
  tx_pub : list (string * bytes);
  tx_sync : list (Source * bytes);
  tx_new_tx : list (string * bytes);
  tx_consensus : list (string * bytes);
}.
Abbreviation N := (M void NetWork).

Definition with_con (c : Connection) (n : NetWork) : NetWork :=
  mkNetWork c (tx_pub n) (tx_sync n) (tx_new_tx n) (tx_consensus n).
Definition publish (key : string) (data : bytes) (n : NetWork) : NetWork :=
  mkNetWork (con n) (tx_pub n ++ [(key, data)]) (tx_sync n) (tx_new_tx n) (tx_consensus n).
Definition to_sync (s : Source) (data : bytes) (n : NetWork) : NetWork :=
  mkNetWork (con n) (tx_pub n) (tx_sync n ++ [(s, data)]) (tx_new_tx n) (tx_consensus n).
Definition to_new_tx (key : string) (data : bytes) (n : NetWork) : NetWork :=
  mkNetWork (con n) (tx_pub n) (tx_sync n) (tx_new_tx n ++ [(key, data)]) (tx_consensus n).
Definition to_consensus (key : string) (data : bytes) (n : NetWork) : NetWork :=
  mkNetWork (con n) (tx_pub n) (tx_sync n) (tx_new_tx n) (tx_consensus n ++ [(key, data)]).

Definition connected (c : Connection) : Z := zlen (filter (fun p : Peer => is_Some p.2) (peers_pair c)).

Definition reply_rpc (data : bytes) : N unit :=
  msg <~ slift (expect (try_from data)) ;;
  match take_content msg with
  | RequestMsg id true =>
      smodify (fun n => publish "chain.rpc" (to_bytes (peercount_response id (wrap 32 (connected (con n))))) n)
  | _ => sret tt
  end.

Definition receiver (source : Source) (payload : CitaRequest) : N unit :=
  let '(key, data) := payload in
  match source with
  | LOCAL =>
      if bool_decide (key = str "chain.status") then smodify (to_sync source data)
      else if bool_decide (key = str "chain.blk") then
        n <~ sget ;;
        c <~ slift (broadcast_rawbytes (str "net.sync_resp") data (con n)) ;;
        smodify (with_con c)
      else if bool_decide (key = str "jsonrpc.net") then reply_rpc data
      else sret tt
  | REMOTE =>
      if bool_decide (key = str "net.sync_status" \/ key = str "net.sync_resp") then smodify (to_sync source data)
      else if bool_decide (key = str "net.sync_req") then smodify (publish "net.sync" data)
      else if bool_decide (key = str "auth.tx") then smodify (to_new_tx "net.tx" data)
      else if bool_decide (key = str "consensus.msg") then smodify (to_consensus "net.msg" data)
      else sret tt
  end.

(** The server hands on every message that arrives on a connection. *)
Fixpoint serve (l : list CitaRequest) : N unit :=
  match l with
  | [] => sret tt
  | m :: l => _ <~ receiver REMOTE m ;; serve l
  end.
End connection.
