(* ===== verification/NetworkTheorems.v ===== *)
(** * Frames, streams and peers, and properties of the network service

    What the decoder makes of the bytes of a connection however they are cut
    into pieces, what a peer's stream has after some traffic, and the peers
    after a change of the configuration.  Messages reach the peers they are
    meant for; the peers follow the configuration; what a short write and a
    wrong frame do to a connection.  Each theorem has a concrete instance. *)

From S2P Require Import Prelude Evm NativeStorage NativeSpec Synchronizer Network.
From stdpp Require Import base gmap list strings.
Local Open Scope Z_scope.
Local Open Scope cita_scope.

(** ** Frames *)

(** Messages that fit into a frame. *)
Definition sendable (m : CitaRequest) : Prop :=
  utf8_error 0 (into_bytes m.1) = None /\ 0 < zlen (into_bytes m.1) < 256 /\ 1 + zlen (into_bytes m.1) + zlen m.2 < 2 ^ 32.
Definition item_ok (x : CitaResponse) : Prop := forall m, x = Some m -> sendable m.

Definition frame_size (x : CitaResponse) : Z :=
  match x with Some (key, body) => 1 + zlen (into_bytes key) + zlen body | None => 0 end.
Definition frame (x : CitaResponse) : bytes :=
  to_be 8 (NETMSG_START + frame_size x) ++ match x with Some (key, body) => zlen (into_bytes key) :: into_bytes key ++ body | None => [] end.

(** The part of a frame before the body. *)
Definition frame_head_of (key : String_) (n : Z) : bytes :=
  to_be 8 (NETMSG_START + (1 + zlen (into_bytes key) + n)) ++ zlen (into_bytes key) :: into_bytes key.

Lemma frame_split key body : frame (Some (key, body)) = frame_head_of key (zlen body) ++ body.
Proof. unfold frame, frame_head_of. by rw -app_assoc. Qed.

Lemma frame_size_ok x : item_ok x -> 0 <= frame_size x < 2 ^ 32.
Proof.
  destruct x as [[key body]|]; [|done]. intros H. destruct (H _ eq_refl) as (_ & _ & Hs). cbn in *.
  pose proof (zlen_nonneg (into_bytes key)). pose proof (zlen_nonneg body). lia.
Qed.

Lemma encode_frame buf x : item_ok x -> pubsub_message_to_network_message buf x = Ok (buf ++ frame x).
Proof.
  intros Hx. pose proof (frame_size_ok x Hx) as Hs. destruct x as [[key body]|]; [|by rw /frame app_nil_r].
  destruct (Hx _ eq_refl) as (_ & Hk & _). cbn [fst snd frame_size] in *. cbn [pubsub_message_to_network_message].
  pose proof (zlen_nonneg body). rw add_ok; [lia|]. cbn [obind]. rw add_ok; [lia|]. cbn [obind]. rw add_ok; [unfold NETMSG_START; lia|].
  cbn [obind]. rw wrap_small; [split; lia|]. done.
Qed.

(** The two halves of the header. *)
Lemma low_half n : 0 <= n < 2 ^ 32 -> Z.land (NETMSG_START + n) 0xffffffff = n.
Proof.
  intros Hn. change 0xffffffff with (Z.ones 32). rw Z.land_ones; [lia|]. change NETMSG_START with (0xDEADBEEF * 2 ^ 32).
  rw Z.add_comm Z.mod_add; [done|]. by apply Z.mod_small.
Qed.

Lemma land_low a n : Z.land (Z.ones 32) a = 0 -> 0 <= n < 2 ^ 32 -> Z.land n a = 0.
Proof. intros Ha Hn. rw -(Z.mod_small n (2 ^ 32) Hn) -Z.land_ones; [lia|]. by rw -Z.land_assoc Ha Z.land_0_r. Qed.

Lemma high_half n : 0 <= n < 2 ^ 32 -> Z.land (NETMSG_START + n) 0xffffffff00000000 = NETMSG_START.
Proof.
  intros Hn. assert (Hz : Z.land NETMSG_START n = 0) by (rw Z.land_comm; by apply land_low).
  rw Z.add_nocarry_lxor; [done|]. rw Z.lxor_lor; [done|]. rw Z.land_lor_distr_l (land_low 0xffffffff00000000 n); [done|done|done].
Qed.

Lemma frame_head x rest : item_ok x -> of_be (take 8 (frame x ++ rest)) = NETMSG_START + frame_size x.
Proof.
  intros Hx. pose proof (frame_size_ok x Hx) as Hs. unfold frame. rw -app_assoc. rw (take_app_length' (to_be 8 _)); [by rw to_be_length|].
  rw of_be_to_be Z.mod_small; [|done]. unfold NETMSG_START. change (8 * Z.of_nat 8) with 64. lia.
Qed.

Lemma frame_length x : item_ok x -> zlen (frame x) = 8 + frame_size x.
Proof.
  intros Hx. unfold frame. rw zlen_app. unfold zlen at 1. rw to_be_length. destruct x as [[key body]|]; [|done].
  cbn [frame_size]. rw zlen_cons zlen_app. lia.
Qed.

Lemma decode_frame x rest : item_ok x -> network_message_to_pubsub_message (frame x ++ rest) = (x, rest).
Proof.
  intros Hx. pose proof (frame_size_ok x Hx) as Hs. pose proof (frame_length x Hx) as Hl. pose proof (zlen_nonneg rest).
  unfold network_message_to_pubsub_message. rw zlen_app Hl. rw (proj2 (Z.ltb_ge _ _)); [lia|]. rw (frame_head x rest Hx) high_half; [done|].
  rw low_half; [done|]. rw Z.eqb_refl. cbn [negb]. rw (proj2 (Z.ltb_ge _ _)); [lia|].
  unfold frame. rw -app_assoc (drop_app_length' (to_be 8 _)); [by rw to_be_length|]. destruct x as [[key body]|]; [|done].
  destruct (Hx _ eq_refl) as (Hu & Hk & _). cbn [fst snd frame_size] in *. pose proof (zlen_nonneg body).
  set (payload := zlen (into_bytes key) :: into_bytes key ++ body).
  assert (length payload = Z.to_nat (1 + zlen (into_bytes key) + zlen body)) as Hp by (cbn; rw length_app; unfold zlen; lia).
  rw -Hp take_app_length drop_app_length. unfold payload. rw (proj2 (Z.eqb_neq _ 0)); [lia|]. rw zlen_app (proj2 (Z.ltb_ge _ _)); [lia|].
  unfold zlen. rw !Nat2Z.id take_app_length drop_app_length Hu. by destruct key.
Qed.

Lemma decode_short x buf more : item_ok x -> frame x = buf ++ more -> more <> [] -> network_message_to_pubsub_message buf = (None, buf).
Proof.
  intros Hx Hf Hm. unfold network_message_to_pubsub_message. destruct (Z.ltb_spec (zlen buf) 8) as [|Hge]; [done|].
  assert (Ht : take 8 buf = take 8 (frame x ++ [])) by (rw app_nil_r Hf take_app_le; [unfold zlen in Hge; lia|done]).
  rw Ht (frame_head x [] Hx) high_half; [by apply frame_size_ok|]. rw low_half; [by apply frame_size_ok|]. rw Z.eqb_refl. cbn [negb].
  pose proof (f_equal zlen Hf) as Hz. rw (frame_length x Hx) zlen_app in Hz. destruct more as [|b more]; [done|]. rw zlen_cons in Hz.
  pose proof (zlen_nonneg more). by rw (proj2 (Z.ltb_lt _ _)); [lia|].
Qed.

(** ** Streams *)
Definition frames (l : list CitaResponse) : bytes := concat (frame <$> l).

(** The messages among the frames. *)
Definition messages (l : list CitaResponse) : list CitaRequest := omap id l.

Lemma frames_one x : frames [x] = frame x.
Proof. unfold frames. cbn [fmap list_fmap concat]. apply app_nil_r. Qed.

(** The decoder waits: what it has is a part of the next frame, or it has just
    seen a frame without a message. *)
Definition waiting (seen next : list CitaResponse) (buf : bytes) : Prop :=
  last seen = Some None \/ match next with [] => buf = [] | x :: _ => zlen buf < zlen (frame x) end.

Lemma cut (a b c d : bytes) : a ++ b = c ++ d -> (exists k, c = a ++ k /\ k <> []) \/ (exists k, a = c ++ k /\ k ++ b = d).
Proof.
  intros H. destruct (decide (length c <= length a)%nat) as [Hle|Hlt].
  - right. exists (drop (length c) a). pose proof (f_equal (take (length c)) H) as Ht. rw take_app_le in Ht; [done|].
    rw take_app_length in Ht. rw -{1}Ht take_drop. split; [done|].
    apply (f_equal (drop (length c))) in H. rw drop_app_le in H; [done|]. by rw drop_app_length in H.
  - left. exists (drop (length a) c). apply (f_equal (take (length a))) in H. rw take_app_length take_app_le in H; [lia|].
    rw {1}H take_drop. split; [done|]. intros E%(f_equal length). rw length_drop in E. cbn in E. lia.
Qed.

Lemma drain_frames fuel l buf rest : Forall item_ok l -> buf ++ rest = frames l -> (length buf < fuel)%nat ->
  exists l1 l2 buf', l = l1 ++ l2 /\ drain fuel buf = (messages l1, buf') /\ buf' ++ rest = frames l2 /\ waiting l1 l2 buf'.
Proof.
  revert l buf. induction fuel as [|fuel IH]; intros l buf Hl Hb Hf; [lia|]. cbn [drain]. destruct l as [|x l].
  { apply app_eq_nil in Hb as [-> ->]. exists [], [], []. split; [done|]. split; [done|]. split; [done|by right]. }
  apply Forall_cons in Hl as [Hx Hl]. destruct (cut _ _ _ _ Hb) as [(k & Hk & Hne)|(buf0 & -> & H0)].
  - rw (decode_short x buf k Hx Hk Hne). exists [], (x :: l), buf. split; [done|]. split; [done|]. split; [done|]. right. rw Hk zlen_app.
    destruct k as [|c k]; [done|]. rw zlen_cons. pose proof (zlen_nonneg k). lia.
  - rw (decode_frame x buf0 Hx). destruct x as [m|].
    + destruct (IH l buf0 Hl H0) as (l1 & l2 & buf' & -> & -> & H2 & Hw).
      { rw length_app in Hf. pose proof (frame_length (Some m) Hx) as Hz. pose proof (frame_size_ok (Some m) Hx). unfold zlen in Hz. lia. }
      exists (Some m :: l1), l2, buf'. split; [done|]. split; [done|]. split; [done|]. destruct Hw as [Hw|Hw]; [left|by right].
      by destruct l1 as [|y l1].
    + exists [None], l, buf0. split; [done|]. split; [done|]. split; [done|by left].
Qed.

Lemma chunks_frames chunks l seen buf rest : Forall item_ok l -> buf ++ concat chunks ++ rest = frames l -> waiting seen l buf ->
  exists l1 l2 buf', l = l1 ++ l2 /\ chunks_arrive chunks buf = (messages l1, buf') /\ buf' ++ rest = frames l2 /\
    waiting (seen ++ l1) l2 buf'.
Proof.
  revert l seen buf. induction chunks as [|c chunks IH]; intros l seen buf Hl Hb Hw.
  { exists [], l, buf. by rw app_nil_r. }
  cbn [chunks_arrive concat] in *. unfold bytes_arrive. rw -app_assoc app_assoc in Hb.
  destruct (drain_frames (S (length (buf ++ c))) l (buf ++ c) (concat chunks ++ rest) Hl Hb ltac:(lia)) as (l1 & l2 & b1 & -> & -> & H1 & Hw1).
  apply Forall_app in Hl as [_ Hl]. destruct (IH l2 (seen ++ l1) b1 Hl H1) as (l3 & l4 & b2 & -> & -> & H2 & Hw2).
  { destruct Hw1 as [Hw1|Hw1]; [left|by right]. by rw last_app Hw1. }
  exists (l1 ++ l3), l4, b2. split; [by rw app_assoc|]. split; [by rw /messages omap_app|]. split; [done|]. by rw app_assoc.
Qed.

(** At the end of the bytes nothing is left, unless the decoder stopped at a
    frame without a message. *)
Lemma waiting_done seen next : Forall item_ok next -> waiting seen next (frames next) -> next = [] \/ last seen = Some None.
Proof.
  intros Hn [|Hw]; [by right|left]. destruct next as [|x next]; [done|]. exfalso. change (frames (x :: next)) with (frame x ++ frames next) in Hw.
  rw zlen_app in Hw. pose proof (zlen_nonneg (frames next)). lia.
Qed.

Lemma last_is_Some (l : list CitaResponse) : Forall is_Some l -> last l <> Some None.
Proof. intros Hl H%last_Some_elem_of. eapply Forall_forall in Hl; [|exact H]. by destruct Hl. Qed.

Lemma stream_exact l chunks : Forall item_ok l -> concat chunks = frames l ->
  exists l1 l2, l = l1 ++ l2 /\ chunks_arrive chunks [] = (messages l1, frames l2) /\ (Forall is_Some l -> l2 = []).
Proof.
  intros Hl Hc. destruct (chunks_frames chunks l [] [] [] Hl) as (l1 & l2 & b & -> & Hr & Hb & Hw).
  { by rw app_nil_r. }
  { right. destruct l as [|x l]; [done|]. apply Forall_cons in Hl as [Hx _]. rw (frame_length x Hx). pose proof (frame_size_ok x Hx).
    change (zlen []) with 0. lia. }
  rw app_nil_r in Hb. subst b. exists l1, l2. split; [done|]. split; [done|]. intros Hs. apply Forall_app in Hl as [_ Hl], Hs as [Hs _].
  destruct (waiting_done _ _ Hl Hw) as [|Hlast]; [done|]. by apply last_is_Some in Hlast.
Qed.

(** The encoder, one message after the other. *)
Fixpoint encode_all (l : list CitaResponse) (buf : bytes) : outcome void bytes :=
  match l with
  | [] => Ok buf
  | x :: l => buf <- pubsub_message_to_network_message buf x ;; encode_all l buf
  end.

Lemma encode_all_frames l buf : Forall item_ok l -> encode_all l buf = Ok (buf ++ frames l).
Proof.
  intros Hl. revert buf. induction Hl as [|x l Hx _ IH]; intros buf; [by rw /= app_nil_r|]. cbn [encode_all].
  rw (encode_frame _ _ Hx). cbn [obind]. rw IH. unfold frames. cbn [fmap list_fmap concat]. by rw app_assoc.
Qed.

(** A buffer that does not start with the symbol is never left. *)
Definition malformed (buf : bytes) : Prop := 8 <= zlen buf /\ Z.land (of_be (take 8 buf)) 0xffffffff00000000 <> NETMSG_START.

Lemma malformed_app buf more : malformed buf -> malformed (buf ++ more).
Proof.
  intros [Hl Hm]. pose proof (zlen_nonneg more). split; [rw zlen_app; lia|]. rw take_app_le; [unfold zlen in Hl; lia|done].
Qed.

Lemma malformed_arrive buf chunk : malformed buf -> bytes_arrive chunk buf = ([], buf ++ chunk).
Proof.
  intros Hm. apply (malformed_app buf chunk) in Hm as [Hl Hm]. unfold bytes_arrive. cbn [drain]. unfold network_message_to_pubsub_message.
  rw (proj2 (Z.ltb_ge _ _) Hl) (proj2 (Z.eqb_neq _ _) Hm). done.
Qed.

Lemma malformed_chunks chunks buf : malformed buf -> chunks_arrive chunks buf = ([], buf ++ concat chunks).
Proof.
  revert buf. induction chunks as [|c chunks IH]; intros buf Hm; [by rw /= app_nil_r|]. cbn [chunks_arrive concat].
  rw (malformed_arrive buf c Hm) (IH _ (malformed_app _ _ Hm)). by rw app_assoc.
Qed.

(** ** Traffic *)
Class TcpOk (T : Type) {HT : Tcp T} : Prop := {
  write_some (s : T) b s' n : tcp_write s b = (s', Some n) -> 0 <= n <= zlen b /\ sent s' = sent s ++ take (Z.to_nat n) b;
  write_none (s : T) b s' : tcp_write s b = (s', None) -> sent s' = sent s;
}.

Section traffic.
  Context {T : Type} {HT : Tcp T} {HTok : TcpOk T} {P : Type} {HP : Proto P}.
Abbreviation Peer := (Z * string * option T)%type.
Abbreviation Con := (Connection (T := T)).

Inductive Traffic : Type := Broadcast (key : String_) (msg : P) | KeepAlive (tcp_connect : string -> option T).

Definition one_step (t : Traffic) (c : Con) : outcome void Con :=
  match t with
  | Broadcast key msg => broadcast key msg c
  | KeepAlive f => connect f c
  end.
Fixpoint run_traffic (l : list Traffic) (c : Con) : outcome void Con :=
  match l with [] => Ok c | t :: l => c <- one_step t c ;; run_traffic l c end.

(** The frame that peer [id] gets from node [me]. *)
Definition item (me id : Z) (t : Traffic) : list CitaResponse :=
  match t with
  | Broadcast key msg =>
      if is_send id (get_origin msg) (get_operate msg) then [Some (key, to_bytes (set_origin me msg))] else []
  | KeepAlive _ => [None]
  end.
Definition items (me id : Z) (l : list Traffic) : list CitaResponse := concat (item me id <$> l).

Definition traffic_ok (me : Z) (t : Traffic) : Prop :=
  match t with Broadcast key msg => sendable (key, to_bytes (set_origin me msg)) | KeepAlive _ => True end.

Lemma items_ok me id l : Forall (traffic_ok me) l -> Forall item_ok (items me id l).
Proof using.
  intros Hl. induction Hl as [|t l Ht _ IH]; [done|]. apply Forall_app. split; [|exact IH]. destruct t as [key msg|f]; cbn in *.
  - destruct (is_send _ _ _); [|done]. apply Forall_singleton. intros m [= <-]. exact Ht.
  - by apply Forall_singleton.
Qed.

Lemma items_some me id l : (forall f, KeepAlive f ∉ l) -> Forall is_Some (items me id l).
Proof using.
  induction l as [|t l IH]; intros Hk; [done|]. apply Forall_app. split; [|apply IH; intros f Hf; apply (Hk f); by right].
  destruct t as [key msg|f]; cbn; [|exfalso; apply (Hk f); left]. destruct (is_send _ _ _); [by apply Forall_singleton|done].
Qed.

(** Every write takes all bytes. *)
Definition full_writes : Prop := forall (s : T) b, (tcp_write s b).2 = Some (zlen b).

Lemma full_write (s : T) b : full_writes -> exists s', tcp_write s b = (s', Some (zlen b)) /\ sent s' = sent s ++ b.
Proof using HTok.
  intros Hf. specialize (Hf s b). destruct (tcp_write s b) as [s' r] eqn:E. cbn in Hf. subst r. exists s'. split; [done|].
  apply write_some in E as [_ ->]. unfold zlen. by rw Nat2Z.id firstn_all.
Qed.

Lemma one_step_stream t c i id addr s : full_writes -> traffic_ok (id_card c) t -> peers_pair c !! i = Some (id, addr, Some s) ->
  exists c' s', one_step t c = Ok c' /\ id_card c' = id_card c /\ peers_pair c' !! i = Some (id, addr, Some s') /\
    sent s' = sent s ++ frames (item (id_card c) id t).
Proof using HTok.
  intros Hf Ht Hi. destruct t as [key msg|f]; cbn [one_step item].
  - unfold broadcast. rw encode_frame; [by intros m [= <-]|]. cbn [obind app]. set (b := frame _). destruct (full_write s b Hf) as (s' & E & Hs).
    eexists. exists (if is_send id (get_origin msg) (get_operate msg) then s' else s). split; [done|]. split; [done|].
    cbn [peers_pair]. rw list_lookup_fmap Hi. cbn [fmap option_fmap option_map send_to]. rw E.
    destruct (is_send _ _ _); (split; [done|]); [by rw frames_one Hs|by rw app_nil_r].
  - unfold connect. rw encode_frame; [done|]. cbn [obind app]. set (b := frame _). destruct (full_write s b Hf) as (s' & E & Hs).
    eexists. exists s'. split; [done|]. split; [done|]. cbn [peers_pair]. rw list_lookup_fmap Hi. cbn [fmap option_fmap option_map keep_alive].
    rw E. split; [done|]. by rw frames_one Hs.
Qed.

Lemma traffic_stream l c i id addr s : full_writes -> Forall (traffic_ok (id_card c)) l -> peers_pair c !! i = Some (id, addr, Some s) ->
  exists c' s', run_traffic l c = Ok c' /\ peers_pair c' !! i = Some (id, addr, Some s') /\ sent s' = sent s ++ frames (items (id_card c) id l).
Proof using HTok.
  intros Hf. revert c s. induction l as [|t l IH]; intros c s Hl Hi; [exists c, s; by rw app_nil_r|]. apply Forall_cons in Hl as [Ht Hl].
  destruct (one_step_stream t c i id addr s Hf Ht Hi) as (c1 & s1 & H1 & Hid & Hi1 & Hs1). cbn [run_traffic]. rw H1. cbn [obind].
  destruct (IH c1 s1) as (c2 & s2 & H2 & Hi2 & Hs2); [by rw Hid|done|]. exists c2, s2. split; [done|]. split; [done|].
  rw Hs2 Hs1 Hid -app_assoc. unfold items, frames. cbn [fmap list_fmap concat]. by rw fmap_app concat_app.
Qed.
End traffic.

(** ** Routing *)
Section routing.
  Context {T : Type} {HT : Tcp T} {P : Type} {HP : Proto P}.
Abbreviation Net := (NetWork (T := T)).

Definition with_key (k : string) (l : list CitaRequest) : list bytes := snd <$> filter (fun m => m.1 = str k) l.
Definition of_sync (l : list CitaRequest) : list bytes :=
  snd <$> filter (fun m => m.1 = str "net.sync_status" \/ m.1 = str "net.sync_resp") l.

(** What the channels have after the messages [l] of a peer. *)
Record routed (l : list CitaRequest) (n n' : Net) : Prop := {
  routed_con : con n' = con n;
  routed_sync : tx_sync n' = tx_sync n ++ ((fun d => (REMOTE, d)) <$> of_sync l);
  routed_pub : tx_pub n' = tx_pub n ++ ((fun d => ("net.sync"%string, d)) <$> with_key "net.sync_req" l);
  routed_tx : tx_new_tx n' = tx_new_tx n ++ ((fun d => ("net.tx"%string, d)) <$> with_key "auth.tx" l);
  routed_consensus : tx_consensus n' = tx_consensus n ++ ((fun d => ("net.msg"%string, d)) <$> with_key "consensus.msg" l);
}.

Lemma routed_nil n : routed [] n n.
Proof using. split; cbn; by rw ?app_nil_r. Qed.

Lemma routed_cons m l n1 n2 n3 : routed [m] n1 n2 -> routed l n2 n3 -> routed (m :: l) n1 n3.
Proof using.
  intros [A1 A2 A3 A4 A5] [B1 B2 B3 B4 B5]. unfold of_sync, with_key in *.
  split; [by rw B1|rw B2 A2|rw B3 A3|rw B4 A4|rw B5 A5]; rw -app_assoc -fmap_app -fmap_app -filter_app; done.
Qed.

Ltac one_key := split; first [reflexivity | exact (eq_sym (app_nil_r _))].

Lemma receiver_routes m n : exists n', receiver (P := P) REMOTE m n = (Ok tt, n') /\ routed [m] n n'.
Proof using.
  destruct m as [key data]. cbn [receiver].
  destruct (bool_decide_reflect (key = str "net.sync_status" \/ key = str "net.sync_resp")) as [Hk|H1].
  { eexists. split; [done|]. destruct Hk as [-> | ->]; one_key. }
  destruct (bool_decide_reflect (key = str "net.sync_req")) as [->|H2]; [eexists; split; [done|one_key]|].
  destruct (bool_decide_reflect (key = str "auth.tx")) as [->|H3]; [eexists; split; [done|one_key]|].
  destruct (bool_decide_reflect (key = str "consensus.msg")) as [->|H4]; [eexists; split; [done|one_key]|].
  eexists. split; [done|]. split; [done|unfold of_sync|unfold with_key..]; (rw filter_cons_False; [done|]); cbn; by rw app_nil_r.
Qed.

Lemma serve_routes l n : exists n', serve (P := P) l n = (Ok tt, n') /\ routed l n n'.
Proof using.
  revert n. induction l as [|m l IH]; intros n; [exists n; split; [done|apply routed_nil]|].
  destruct (receiver_routes m n) as (n1 & H1 & R1). destruct (IH n1) as (n2 & H2 & R2). exists n2. cbn [serve]. unfold sbind. rw H1 H2.
  split; [done|by eapply routed_cons].
Qed.
End routing.

(** ** The peers after a change of the configuration *)
Section peers.
  Context {T : Type} {HT : Tcp T}.
Abbreviation Peer := (Z * string * option T)%type.
Definition addr_of (p : Peer) : string := p.1.2.
Abbreviation addrs l := (addr_of <$> l).

(** The configured peers with addresses that are not known, each once. *)
Fixpoint unknown (known : list string) (l : list Peer) : list Peer :=
  match l with
  | [] => []
  | p :: l => if bool_decide (addr_of p ∈ known) then unknown known l else p :: unknown (known ++ [addr_of p]) l
  end.

Lemma add_peers_exact l cfg known conf pairs : configured l = Ok cfg ->
  add_peers l known conf pairs = Ok (known ++ addrs (unknown known cfg), conf ++ addrs cfg, pairs ++ unknown known cfg).
Proof using.
  revert cfg known conf pairs. induction l as [|p l IH]; intros cfg known conf pairs; cbn [configured add_peers].
  { intros [= <-]. by rw !app_nil_r. }
  destruct (expect (pc_id_card p)) as [id| |]; [|done|done]. cbn [obind]. destruct (peer_addr p) as [addr| |]; [|done|done]. cbn [obind].
  destruct (configured l) as [rest| |]; [|done|done]. intros [= <-]. cbn [unknown]. change (addr_of (id, addr, None)) with addr.
  case_bool_decide; rw (IH rest _ _ _ eq_refl); cbn [fmap list_fmap]; by rw -?app_assoc.
Qed.

Lemma position_some {A} (p : A -> bool) l i : position p l = Some i ->
  exists l1 x l2, l = l1 ++ x :: l2 /\ length l1 = i /\ p x = true /\ Forall (fun y => p y = false) l1.
Proof using.
  revert i. induction l as [|x l IH]; intros i; [done|]. cbn [position]. destruct (p x) eqn:E; [intros [= <-]; by exists [], x, l|].
  intros (j & Hj & ->)%fmap_Some. destruct (IH j Hj) as (l1 & y & l2 & -> & <- & Hy & Hl). exists (x :: l1), y, l2. split_and!; try done.
  by constructor.
Qed.

Lemma position_none {A} (p : A -> bool) l : position p l = None -> Forall (fun y => p y = false) l.
Proof using.
  induction l as [|x l IH]; [done|]. cbn [position]. destruct (p x) eqn:E; [done|]. intros H%fmap_None. constructor; [done|by apply IH].
Qed.

Lemma vec_remove_app {A} (l1 l2 : list A) x : vec_remove (length l1) (l1 ++ x :: l2) = Ok (l1 ++ l2).
Proof using.
  unfold vec_remove, zlen. rw (proj2 (Z.ltb_lt _ _)); [rw length_app; cbn; lia|]. cbn [assert_ obind]. by rw delete_middle.
Qed.

Lemma filter_all {A} (Q : A -> Prop) `{forall x, Decision (Q x)} l : Forall Q l -> filter Q l = l.
Proof using. induction 1 as [|x l Hx _ IH]; [done|]. by rw filter_cons_True ?IH. Qed.

Lemma remove_peers_exact fuel conf (pairs : list Peer) : (length pairs < fuel)%nat ->
  remove_peers fuel (addrs pairs) conf pairs = Ok (filter (fun p => addr_of p ∈ conf) pairs).
Proof using.
  revert pairs. induction fuel as [|fuel IH]; intros pairs Hf; [lia|]. cbn [remove_peers].
  destruct (position _ _) as [i|] eqn:E.
  - apply position_some in E as (a1 & a & a2 & Ha & <- & Hn & _). apply fmap_app_inv in Ha as (l1 & l2 & -> & H2 & ->).
    symmetry in H2. destruct l2 as [|x l2]; [done|]. injection H2 as <- <-. rw fmap_app fmap_cons.
    rw (vec_remove_app (addrs l1) (addrs l2)). cbn [obind]. rw length_fmap vec_remove_app. cbn [obind]. rw -fmap_app.
    rw IH; [rw !length_app in Hf |- *; cbn in Hf; lia|]. apply negb_true_iff, bool_decide_eq_false in Hn.
    by rw !filter_app (filter_cons_False _ x).
  - apply position_none in E. f_equal. symmetry. apply filter_all, Forall_forall. intros p Hp.
    assert (Hp' : addr_of p ∈ addrs pairs) by (apply list_elem_of_fmap; by exists p).
    eapply Forall_forall in E; [|exact Hp']. by apply negb_false_iff, bool_decide_eq_true in E.
Qed.

Lemma unknown_subset known cfg : unknown known cfg ⊆ cfg.
Proof using.
  revert known. induction cfg as [|p cfg IH]; intros known x Hx; [done|]. cbn in Hx. case_bool_decide.
  - right. by eapply IH.
  - apply elem_of_cons in Hx as [->|Hx]; [left|right]. by eapply IH.
Qed.

Lemma unknown_covers known cfg p : p ∈ cfg -> addr_of p ∈ known ++ addrs (unknown known cfg).
Proof using.
  revert known. induction cfg as [|q cfg IH]; intros known Hp; [by apply not_elem_of_nil in Hp|]. cbn [unknown].
  apply elem_of_cons in Hp as [->|Hp]; case_bool_decide.
  - apply elem_of_app. by left.
  - apply elem_of_app. right. left.
  - by apply IH.
  - specialize (IH (known ++ [addr_of q]) Hp). rw -app_assoc in IH. exact IH.
Qed.

Lemma unknown_fresh known cfg : NoDup (addrs (unknown known cfg)) /\ forall a, a ∈ addrs (unknown known cfg) -> a ∉ known.
Proof using.
  revert known. induction cfg as [|p cfg IH]; intros known; [split; [apply NoDup_nil_2|by intros a ?%not_elem_of_nil]|]. cbn [unknown]. case_bool_decide as Hk; [apply IH|].
  destruct (IH (known ++ [addr_of p])) as [H1 H2]. split.
  - constructor; [|done]. intros H. apply H2 in H. apply H, elem_of_app. right. by left.
  - intros a [->|Ha]%elem_of_cons; [done|]. intros Hin. apply (H2 a Ha), elem_of_app. by left.
Qed.
End peers.

(** ** Properties *)
(** C39: Messages whose key is one to 255 bytes of UTF-8, and which with their
    key take less than 2^32 bytes, survive the wire. The frames of a list of
    them, cut into pieces in any way, are decoded to these messages in their
    order, and nothing is left. When there are frames without a message among
    them, the decoder may stop after one of them and keep the rest in its
    buffer. (The encoder does not refuse other messages: an empty key is not
    decoded to a message, and a longer key or body is only logged and gives a
    corrupt frame.) *)
Theorem frames_round_trip (l : list CitaResponse) : Forall item_ok l ->
  exists b, encode_all l [] = Ok b /\ forall chunks, concat chunks = b ->
    exists l1 l2, l = l1 ++ l2 /\ (chunks_arrive chunks []).1 = messages l1 /\ encode_all l2 [] = Ok (chunks_arrive chunks []).2 /\
      (Forall is_Some l -> l2 = []).
Proof.
  intros Hl. exists (frames l). split; [by apply encode_all_frames|]. intros chunks Hc.
  destruct (stream_exact l chunks Hl Hc) as (l1 & l2 & -> & -> & Hs). exists l1, l2. split; [done|]. split; [done|]. split; [|done].
  apply Forall_app in Hl as [_ Hl]. by apply encode_all_frames.
Qed.

(** A connection with a wrong frame is dead: once the first bytes of the
    buffer are not the symbol, nothing that arrives is ever decoded, and
    everything stays in the buffer. *)
Theorem wrong_frame_blocks (buf : bytes) (chunks : list bytes) :
  8 <= zlen buf -> Z.land (of_be (take 8 buf)) 0xffffffff00000000 <> NETMSG_START ->
  chunks_arrive chunks buf = ([], buf ++ concat chunks).
Proof. intros H1 H2. by apply malformed_chunks. Qed.

Section network.
  Context {T : Type} {HT : Tcp T} {HTok : TcpOk T} {P : Type} {HP : Proto P}.
Abbreviation Con := (Connection (T := T)).
Abbreviation Net := (NetWork (T := T)).

(** C40: What a node broadcasts is delivered.  After any broadcasts and rounds of
    keeping connections alive, with writes that take all bytes, the peer at
    the other end of a connection decodes the messages meant for it, in order
    and with the sender as the origin, however the bytes are cut; its network
    service hands transactions, consensus messages and synchronization
    messages to their channels.  What it has not decoded yet lies in its
    buffer, behind a frame without a message. *)
Theorem broadcasts_delivered (l : list Traffic) (c : Con) i peer addr s :
  full_writes (T := T) -> Forall (traffic_ok (P := P) (id_card c)) l -> peers_pair c !! i = Some (peer, addr, Some s) -> sent s = [] ->
  exists c' s', run_traffic l c = Ok c' /\ peers_pair c' !! i = Some (peer, addr, Some s') /\
    forall chunks, concat chunks = sent s' ->
      exists l1 l2, items (id_card c) peer l = l1 ++ l2 /\ (chunks_arrive chunks []).1 = messages l1 /\
        encode_all l2 [] = Ok (chunks_arrive chunks []).2 /\ ((forall f, KeepAlive f ∉ l) -> l2 = []) /\
        forall n : Net, exists n', serve (P := P) (chunks_arrive chunks []).1 n = (Ok tt, n') /\ routed (messages l1) n n'.
Proof using HTok.
  intros Hf Hl Hi Hs. destruct (traffic_stream l c i peer addr s Hf Hl Hi) as (c' & s' & Hr & Hi' & Hs'). rw Hs in Hs'. cbn [app] in Hs'.
  exists c', s'. split; [done|]. split; [done|]. intros chunks Hc. rw Hs' in Hc. pose proof (items_ok (id_card c) peer l Hl) as Hok.
  destruct (stream_exact _ chunks Hok Hc) as (l1 & l2 & Hi12 & Hch & Hd). exists l1, l2. rw Hch. split; [done|]. split; [done|].
  rw Hi12 in Hok. apply Forall_app in Hok as [_ Hok]. split; [by apply encode_all_frames|]. split; [|by intros n; apply serve_routes].
  intros Hk. apply Hd. by apply items_some.
Qed.

(** After a change of the configuration the peers are those configured: the
    known ones stay, with their streams and in their order, those that are no
    longer configured go, and the new ones come, once and without a stream. *)
Theorem peers_follow_config (c : NetConfig) (con : Con) l cfg :
  nc_peers c = Some l -> configured (T := T) l = Ok cfg ->
  exists fresh, update c con = Ok (mkConnection (id_card con) (filter (fun p => addr_of p ∈ addr_of <$> cfg) (peers_pair con) ++ fresh)) /\
    fresh ⊆ cfg /\ NoDup (addr_of <$> fresh) /\
    (forall p, p ∈ fresh -> addr_of p ∉ addr_of <$> peers_pair con) /\
    (forall p, p ∈ cfg -> addr_of p ∈ addr_of <$> peers_pair con ++ fresh).
Proof using.
  intros Hc Hl. set (known := addr_of <$> peers_pair con). exists (unknown known cfg). destruct (unknown_fresh known cfg) as [H1 H2].
  split; [|split; [apply unknown_subset|split; [done|split]]].
  - unfold update. rw Hc. change ((fun p : Z * string * option T => p.1.2) <$> peers_pair con) with known.
    rw (add_peers_exact l cfg known [] (peers_pair con) Hl). cbn [obind app]. unfold known at 1 3. rw -fmap_app.
    rw remove_peers_exact; [by rw length_fmap; lia|]. cbn [obind]. rw filter_app. do 3 f_equal. apply filter_all, Forall_forall.
    intros p Hp. apply list_elem_of_fmap. exists p. split; [done|by apply (unknown_subset known cfg)].
  - intros p Hp. apply H2, list_elem_of_fmap. by exists p.
  - intros p Hp. rw fmap_app. by apply unknown_covers.
Qed.

(** A short write spoils what follows.  When a write takes all but the last
    [m] bytes of a frame and the next one takes all, the peer gets the first
    message with the first [m] bytes of the second frame at the end of its
    body, and the second message is torn. *)
Theorem short_write_spoils (s s1 s2 : T) k1 b1 x b2 m :
  sendable (k1, b1) -> item_ok x -> sent s = [] -> 0 < m <= zlen b1 -> m <= zlen b2 ->
  pubsub_message_to_network_message [] x = Ok b2 ->
  (exists f, pubsub_message_to_network_message [] (Some (k1, b1)) = Ok f /\ tcp_write s f = (s1, Some (zlen f - m))) ->
  tcp_write s1 b2 = (s2, Some (zlen b2)) ->
  network_message_to_pubsub_message (sent s2) =
    (Some (k1, take (Z.to_nat (zlen b1 - m)) b1 ++ take (Z.to_nat m) b2), drop (Z.to_nat m) b2).
Proof using HTok.
  intros H1 Hx Hs Hm Hm2 He2 (f & Hf & Hw1) Hw2. assert (Ho : item_ok (Some (k1, b1))) by by intros ? [= <-].
  rw (encode_frame [] _ Ho) in Hf. injection Hf as <-. apply write_some in Hw1 as [_ E1], Hw2 as [_ E2]. rw Hs in E1. cbn [app] in E1.
  set (body := take (Z.to_nat (zlen b1 - m)) b1 ++ take (Z.to_nat m) b2).
  assert (Hbody : zlen body = zlen b1) by (unfold body; rw zlen_app; unfold zlen in *; rw !length_take; lia).
  assert (Ho' : item_ok (Some (k1, body))) by (intros ? [= <-]; destruct H1 as (? & ? & Hz); split_and!; try done; cbn in *; lia).
  assert (Hcut : forall h, take (Z.to_nat (zlen (h ++ b1) - m)) (h ++ b1) ++ b2 = (h ++ body) ++ drop (Z.to_nat m) b2).
  { intros h. unfold body. rw zlen_app take_app_ge; [unfold zlen in *; lia|]. rw -!app_assoc take_drop. do 3 f_equal. unfold zlen in *. lia. }
  rw E2 E1 (_ : take (Z.to_nat (zlen b2)) b2 = b2); [unfold zlen; by rw Nat2Z.id firstn_all|].
  rw frame_split Hcut -Hbody -frame_split. by apply decode_frame.
Qed.
End network.

(** ** Instances

    A stream is what was written and how many bytes each write takes at most;
    a message is its origin, its operation and its content. *)
Record toy_stream : Set := { ts_sent : bytes; ts_max : option Z }.
#[export] Instance toy_tcp : Tcp toy_stream := {
  sent := ts_sent;
  tcp_write s b :=
    let n := match ts_max s with Some n => Z.max 0 (Z.min n (zlen b)) | None => zlen b end in
    ({| ts_sent := ts_sent s ++ take (Z.to_nat n) b; ts_max := None |}, Some n);
}.
#[export] Instance toy_tcp_ok : TcpOk toy_stream.
Proof.
  split; [|done]. intros s b s' n. cbn. intros [= <- <-]. pose proof (zlen_nonneg b). split; [|done]. destruct (ts_max s); lia.
Qed.

(** The same with writes that take all bytes. *)
Record whole_stream : Set := { ws_sent : bytes }.
#[export] Instance whole_tcp : Tcp whole_stream := { sent := ws_sent; tcp_write s b := ({| ws_sent := ws_sent s ++ b |}, Some (zlen b)) }.
#[export] Instance whole_tcp_ok : TcpOk whole_stream.
Proof.
  split; [|done]. intros s b s' n. cbn. intros [= <- <-]. pose proof (zlen_nonneg b). split; [lia|]. unfold zlen. by rw Nat2Z.id firstn_all.
Qed.
Lemma whole_writes : full_writes (T := whole_stream).
Proof. done. Qed.

Record toy_message : Set := { tm_origin : Z; tm_operate : OperateType; tm_body : bytes }.
#[export] Instance toy_proto : Proto toy_message := {
  get_origin := tm_origin;
  get_operate := tm_operate;
  set_origin o m := {| tm_origin := o; tm_operate := tm_operate m; tm_body := tm_body m |};
  take_content m := OtherMsg;
  to_bytes m := tm_origin m :: tm_body m;
  try_from b := match b with o :: body => Some {| tm_origin := o; tm_operate := BROADCAST; tm_body := body |} | [] => None end;
  peercount_response id n := {| tm_origin := 0; tm_operate := SINGLE; tm_body := n :: id |};
}.

Definition tx_key : String_ := str "auth.tx".

(** Two messages whose bytes arrive in three pieces. *)
Lemma frames_round_trip_witness :
  exists b, encode_all [Some (tx_key, [1; 2]); Some (tx_key, [3])] [] = Ok b /\
    chunks_arrive [take 5 b; take 15 (drop 5 b); drop 20 b] [] = ([(tx_key, [1; 2]); (tx_key, [3])], []).
Proof.
  destruct (frames_round_trip [Some (tx_key, [1; 2]); Some (tx_key, [3])]) as (b & Hb & H).
  - rw !Forall_cons Forall_nil. split_and!; [..|done]; intros m [= <-]; by split_and!.
  - exists b. split; [exact Hb|]. destruct (H [take 5 b; take 15 (drop 5 b); drop 20 b]) as (l1 & l2 & E & H1 & H2 & H3).
    { injection Hb as <-. reflexivity. }
    rw (H3 ltac:(rw !Forall_cons; by split_and!)) in E H2. rw app_nil_r in E. subst l1. cbn [encode_all] in H2.
    destruct (chunks_arrive _ _) as [o r]. cbn [fst snd] in H1, H2. injection H2 as <-. by rw H1.
Defined.

Lemma wrong_frame_blocks_witness : chunks_arrive [[1; 2]; [3]] (replicate 8 0) = ([], replicate 8 0 ++ [1; 2; 3]).
Proof. apply (wrong_frame_blocks (replicate 8 0) [[1; 2]; [3]]); by vm_compute. Defined.

Definition toy_con : Connection (T := whole_stream) := mkConnection 1 [(2, "b:1"%string, Some {| ws_sent := [] |}); (3, "c:1"%string, None)].
Definition toy_traffic : list (Traffic (T := whole_stream)) :=
  [Broadcast tx_key {| tm_origin := 0; tm_operate := BROADCAST; tm_body := [9] |};
   Broadcast tx_key {| tm_origin := 2; tm_operate := SUBTRACT; tm_body := [8] |};
   Broadcast tx_key {| tm_origin := 2; tm_operate := SINGLE; tm_body := [7] |}].

(** The peer gets the first and the third message as new transactions. *)
Lemma broadcasts_delivered_witness :
  exists c' s', run_traffic toy_traffic toy_con = Ok c' /\ peers_pair c' !! 0%nat = Some (2, "b:1"%string, Some s') /\
    exists n' : NetWork (T := whole_stream),
      serve (P := toy_message) (chunks_arrive [sent s'] []).1 (mkNetWork toy_con [] [] [] []) = (Ok tt, n') /\
      tx_new_tx n' = [("net.tx"%string, [1; 9]); ("net.tx"%string, [1; 7])].
Proof.
  destruct (broadcasts_delivered toy_traffic toy_con 0 2 "b:1" {| ws_sent := [] |} whole_writes) as (c' & s' & Hr & Hi & H).
  - rw !Forall_cons Forall_nil. by split_and!.
  - reflexivity.
  - reflexivity.
  - exists c', s'. split; [exact Hr|]. split; [exact Hi|]. destruct (H [sent s']) as (l1 & l2 & E & _ & _ & Hk & Hn); [apply app_nil_r|].
    destruct (Hn (mkNetWork toy_con [] [] [] [])) as (n' & Hs & Hq). exists n'. split; [exact Hs|].
    rw (Hk ltac:(intros f Hf; repeat (apply elem_of_cons in Hf as [Hf|Hf]; [discriminate|]); by apply not_elem_of_nil in Hf)) app_nil_r in E.
    rw (routed_tx _ _ _ Hq) -E. reflexivity.
Defined.

(** One peer stays with its stream, one goes, one comes. *)
Lemma peers_follow_config_witness :
  exists fresh, update {| nc_id_card := None; nc_peers := Some [ {| pc_id_card := Some 2; pc_ip := Some "b"%string; pc_port := Some 1 |};
                                                                {| pc_id_card := Some 4; pc_ip := Some "d"%string; pc_port := Some 1 |} ] |} toy_con
    = Ok (mkConnection 1 ([(2, "b:1"%string, Some {| ws_sent := [] |})] ++ fresh)) /\ (4, "d:1"%string, None) ∈ fresh.
Proof.
  destruct (peers_follow_config {| nc_id_card := None; nc_peers := Some [ {| pc_id_card := Some 2; pc_ip := Some "b"%string; pc_port := Some 1 |};
    {| pc_id_card := Some 4; pc_ip := Some "d"%string; pc_port := Some 1 |} ] |} toy_con _ [(2, "b:1"%string, None); (4, "d:1"%string, None)]
    eq_refl eq_refl) as (fresh & Hu & Hsub & _ & Hnew & Hall).
  exists fresh. split; [exact Hu|]. specialize (Hall (4, "d:1"%string, None) ltac:(right; left)).
  apply list_elem_of_fmap in Hall as (p & Ha & Hp). apply elem_of_app in Hp as [Hp|Hp].
  - exfalso. cbn in Hp. by repeat (apply elem_of_cons in Hp as [->|Hp]; [discriminate|]); apply not_elem_of_nil in Hp.
  - pose proof (Hsub p Hp) as Hc. apply elem_of_cons in Hc as [->|Hc]; [discriminate|]. apply list_elem_of_singleton in Hc. by subst.
Defined.

(** The last byte of the first frame is lost. *)
Lemma short_write_spoils_witness :
  exists s2 : toy_stream, (network_message_to_pubsub_message (sent s2)).1 = Some (tx_key, [1; 0xDE]).
Proof.
  pose (f := to_be 8 (NETMSG_START + 10) ++ 7 :: into_bytes tx_key ++ [1; 2]). pose (s := {| ts_sent := []; ts_max := Some (zlen f - 1) |}).
  pose (s1 := (tcp_write s f).1). pose (b2 := to_be 8 NETMSG_START). exists (tcp_write s1 b2).1.
  rw (short_write_spoils s s1 (tcp_write s1 b2).1 tx_key [1; 2] None b2 1).
  - by split_and!.
  - done.
  - reflexivity.
  - done.
  - done.
  - reflexivity.
  - exists f. split; reflexivity.
  - reflexivity.
  - reflexivity.
Defined.
