(* ===== verification/CacheManager.v ===== *)
(** * Which cache entries go

    [cita-chain/core/src/cache_manager.rs]: eight generations of entries, the
    newest first; an entry that is used moves to the first one, and a
    collection hands over whole generations, the oldest first, until the cache
    is small enough.  With [Chain::collect_garbage], its caller.  How large the
    caches are, is measured by a library: [size]. *)

From S2P Require Import Prelude Evm Account Executive Block Codec ChainDb Chain ChainSpec ChainInv ChainReads ChainStep.
From stdpp Require Import base gmap list.
Local Open Scope Z_scope.
Local Open Scope cita_scope.

Definition COLLECTION_QUEUE_SIZE : Z := 8.

Section manager.
  Context {T : Type} `{Countable T}.

Record CacheManager : Type := mkCacheManager {
  pref_cache_size : Z;
  max_cache_size : Z;
  bytes_per_cache_entry : Z;
  cache_usage : list (gset T);
}.

Definition with_usage (q : list (gset T)) (m : CacheManager) : CacheManager :=
  mkCacheManager (pref_cache_size m) (max_cache_size m) (bytes_per_cache_entry m) q.

Definition new_manager (pref max_ per_entry : Z) : CacheManager :=
  mkCacheManager pref max_ per_entry (replicate (Z.to_nat COLLECTION_QUEUE_SIZE) ∅).

(** [find] and [remove]: the first generation with the entry. *)
Fixpoint remove_first (id : T) (l : list (gset T)) : list (gset T) :=
  match l with
  | [] => []
  | q :: l => if bool_decide (id ∈ q) then (q ∖ {[id]}) :: l else q :: remove_first id l
  end.

Definition note_used (id : T) (m : CacheManager) : outcome void CacheManager :=
  match cache_usage m with
  | [] => Panic
  | q :: l =>
      Ok (if bool_decide (id ∈ q) then m else with_usage (({[id]} ∪ q) :: remove_first id l) m)
  end.

(** [pop_back]. *)
Definition pop_back (l : list (gset T)) : option (gset T * list (gset T)) :=
  match last l with Some q => Some (q, removelast l) | None => None end.

Definition rotate_cache_if_needed (m : CacheManager) : outcome void CacheManager :=
  match cache_usage m with
  | [] => Ok m
  | q :: _ =>
      n <- mul_ 64 (Z.of_nat (size q)) (bytes_per_cache_entry m) ;;
      Ok (if n >? pref_cache_size m / COLLECTION_QUEUE_SIZE then
            match pop_back (cache_usage m) with Some (cache, l) => with_usage (cache :: l) m | None => m end
          else m)
  end.

(** [notify_unused] drops entries and returns the new size. *)
  Context {S : Type} (notify_unused : gset T -> S -> Z * S).

Fixpoint collect_rounds (rounds : nat) (m : CacheManager) (s : S) : CacheManager * S :=
  match rounds with
  | O => (m, s)
  | Datatypes.S rounds =>
      match pop_back (cache_usage m) with
      | Some (back, l) =>
          let '(current_size, s) := notify_unused back s in
          let m := with_usage (∅ :: l) m in
          if current_size <? max_cache_size m then (m, s) else collect_rounds rounds m s
      | None => collect_rounds rounds m s
      end
  end.

Definition manager_collect (current_size : Z) (m : CacheManager) (s : S) : outcome void (CacheManager * S) :=
  if current_size <? pref_cache_size m then m <- rotate_cache_if_needed m ;; Ok (m, s)
  else Ok (collect_rounds (Z.to_nat COLLECTION_QUEUE_SIZE) m s).
End manager.
Arguments CacheManager T {_ _}.

(** ** Generations *)
Section spec.
  Context {T : Type} `{Countable T}.

(** An entry is in one generation at most. *)
Definition apart (l : list (gset T)) : Prop :=
  forall i j q q' id, l !! i = Some q -> l !! j = Some q' -> id ∈ q -> id ∈ q' -> i = j.

Definition manager_ok (m : CacheManager T) : Prop := length (cache_usage m) = 8%nat /\ apart (cache_usage m).

(** The age of an entry. *)
Definition aged (m : CacheManager T) (id : T) (i : nat) : Prop := exists q, cache_usage m !! i = Some q /\ id ∈ q.

Lemma remove_first_lookup id l i : apart l ->
  remove_first id l !! i = (fun q => q ∖ {[id]}) <$> l !! i.
Proof using.
  revert i. induction l as [|q l IH]; intros i Ha; [done|]. cbn [remove_first].
  assert (Hl : apart l) by (intros a b x y z H1 H2 H3 H4; specialize (Ha (S a) (S b) x y z H1 H2 H3 H4); lia).
  case_bool_decide as Hq; destruct i as [|i]; cbn; try done.
  - destruct (l !! i) as [q'|] eqn:Hi; [|done]. cbn. f_equal. assert (id ∉ q'); [|set_solver]. intros Hq'.
    discriminate (Ha 0%nat (S i) q q' id eq_refl Hi Hq Hq').
  - f_equal. set_solver.
  - by apply IH.
Qed.

Lemma remove_first_length id (l : list (gset T)) : length (remove_first id l) = length l.
Proof using. induction l as [|q l IH]; [done|]. cbn [remove_first]. case_bool_decide; cbn; by rw ?IH. Qed.

Lemma pop_back_snoc (l : list (gset T)) q : pop_back (l ++ [q]) = Some (q, l).
Proof using. unfold pop_back. by rw last_snoc removelast_last. Qed.

Lemma note_used_ok id (m : CacheManager T) : manager_ok m ->
  exists m', note_used id m = Ok m' /\ manager_ok m' /\ aged m' id 0 /\ forall id' i, id' <> id -> aged m' id' i <-> aged m id' i.
Proof using.
  intros [Hl Ha]. unfold note_used. destruct (cache_usage m) as [|q l] eqn:Hq; [done|].
  assert (Hal : apart l) by (intros a b x y z H1 H2 H3 H4; specialize (Ha (S a) (S b) x y z H1 H2 H3 H4); lia).
  eexists. split; [done|]. case_bool_decide as Hin.
  - split; [by rw /manager_ok Hq|]. split; [|done]. exists q. by rw Hq.
  - assert (Hi : forall id' i q', (({[id]} ∪ q) :: remove_first id l) !! i = Some q' -> id' ∈ q' ->
      (id' = id /\ i = O) \/ (id' <> id /\ exists x, (q :: l) !! i = Some x /\ id' ∈ x)).
    { intros id' [|i] q'; cbn; [intros [= <-]; destruct (decide (id' = id)); [by left|right]; split; [done|]; exists q; set_solver|].
      rw remove_first_lookup; [done|]. destruct (l !! i) as [x|]; cbn; [intros [= <-]|done]. right. split; [set_solver|]. exists x. set_solver. }
    split; [split|split].
    + cbn in *. by rw remove_first_length.
    + intros a b x y z H1 H2 H3 H4. destruct (Hi z a x H1 H3) as [[Hz ->]|[Hne (x' & Hx & Hzx)]], (Hi z b y H2 H4) as [[? ->]|[? (y' & Hy & Hzy)]];
        [done|done|done|]. by eapply Ha.
    + eexists. split; [done|]. set_solver.
    + intros id' i Hne. split.
      * intros (q' & Hq' & Hin'). destruct (Hi id' i q' Hq' Hin') as [[]|[_ (x & Hx & Hix)]]; [done|]. exists x. by rw Hq.
      * intros (x & Hx & Hix). rw Hq in Hx. destruct i as [|i]; cbn in Hx.
        { injection Hx as <-. eexists. split; [done|]. set_solver. }
        exists (x ∖ {[id]}). split; [|set_solver]. cbn. rw remove_first_lookup; [done|]. by rw Hx.
Qed.

(** The oldest generation becomes the newest one when it rotates. *)
Lemma rotate_ok (m : CacheManager T) q l : cache_usage m = q :: l -> Z.of_nat (size q) * bytes_per_cache_entry m < 2 ^ 64 ->
  rotate_cache_if_needed m =
    Ok (if Z.of_nat (size q) * bytes_per_cache_entry m >? pref_cache_size m / COLLECTION_QUEUE_SIZE
        then with_usage (default ∅ (last (q :: l)) :: removelast (q :: l)) m else m).
Proof using.
  intros Hq Hs. unfold rotate_cache_if_needed. rw Hq mul_ok; [done|]. cbn [obind]. f_equal. case_match; [|done].
  unfold pop_back. destruct (last (q :: l)) eqn:Hl; [done|]. by apply last_None in Hl.
Qed.

Lemma apart_rotate (l : list (gset T)) q : apart (l ++ [q]) -> apart (q :: l).
Proof using.
  intros Ha. assert (Hq : forall i x id, l !! i = Some x -> id ∈ x -> id ∉ q).
  { intros i x id Hi Hx Hin. pose proof (lookup_lt_Some _ _ _ Hi). specialize (Ha i (length l) x q id). rw lookup_app_l in Ha; [done|].
    rw list_lookup_middle in Ha; [done|]. specialize (Ha Hi eq_refl Hx Hin). lia. }
  intros [|i] [|j] x y id Hx Hy Hix Hiy; [done|..]; cbn in Hx, Hy.
  - injection Hx as <-. by destruct (Hq j y id Hy Hiy).
  - injection Hy as <-. by destruct (Hq i x id Hx Hix).
  - f_equal. eapply Ha; [|..]; [rw lookup_app_l; [by eapply lookup_lt_Some|done]|rw lookup_app_l; [by eapply lookup_lt_Some|done]|done|done].
Qed.

(** ** Collections *)
  Context {S : Type} (notify_unused : gset T -> S -> Z * S).

(** The state after the generations [l] were handed over, in this order. *)
Definition handed (l : list (gset T)) (s : S) : S := fold_left (fun s q => (notify_unused q s).2) l s.

Lemma collect_rounds_run (m : CacheManager T) n l s : (n <= length l)%nat ->
  exists j, (j <= n)%nat /\ (0 < n -> 0 < j)%nat /\
    collect_rounds notify_unused n (with_usage l m) s =
      (with_usage (replicate j ∅ ++ take (length l - j) l) m, handed (take j (reverse l)) s) /\
    (j = n \/ exists back, reverse l !! (j - 1)%nat = Some back /\
       (notify_unused back (handed (take (j - 1) (reverse l)) s)).1 < max_cache_size m).
Proof using.
  revert l s. induction n as [|n IH]; intros l s Hn.
  { exists O. split_and!; [done|lia| |by left]. cbn. rw Nat.sub_0_r take_ge; done. }
  destruct l as [|back l _] using rev_ind; [cbn in Hn; lia|]. rw length_app in Hn. cbn in Hn. cbn [collect_rounds with_usage cache_usage].
  rw pop_back_snoc reverse_snoc length_app. destruct (notify_unused back s) as [size s1] eqn:Hs.
  change (with_usage (∅ :: l) (with_usage (l ++ [back]) m)) with (with_usage (∅ :: l) m). cbv zeta.
  change (max_cache_size (with_usage (∅ :: l) m)) with (max_cache_size m). destruct (Z.ltb_spec size (max_cache_size m)) as [Hlt|Hge].
  - exists 1%nat. split_and!; [lia|lia| |right; exists back; split; [done|]; unfold handed; cbn; by rw Hs]. cbn [replicate app take length].
    rw (_ : (length l + 1 - 1)%nat = length l); [lia|]. rw take_app_length. unfold handed. cbn. rw Hs. done.
  - destruct (IH (∅ :: l) s1) as (j & Hj & Hj0 & Hrun & Hstop); [cbn; lia|]. exists (Datatypes.S j). split_and!; [lia|lia| |].
    + etrans; [exact Hrun|]. f_equal.
      * f_equal. cbn [length]. rw (_ : (Datatypes.S (length l) - j)%nat = Datatypes.S (length l - j)); [lia|]. cbn [take].
        rw (_ : (length l + 1 - Datatypes.S j)%nat = (length l - j)%nat); [lia|]. rw take_app_le; [lia|].
        cbn [replicate]. by rw replicate_cons_app -app_assoc.
      * rw reverse_cons take_app_le; [rw length_reverse; lia|]. unfold handed. cbn [take fold_left]. by rw Hs.
    + destruct Hstop as [->|(b & Hb & Hsize)]; [by left|]. destruct (decide (j = n)) as [->|Hne]; [by left|]. right. exists b.
      destruct j as [|j]; [lia|]. rw reverse_cons in Hb Hsize. rw (_ : (Datatypes.S j - 1)%nat = j) in Hb Hsize; [lia|].
      rw lookup_app_l in Hb; [rw length_reverse; lia|]. rw take_app_le in Hsize; [rw length_reverse; lia|].
      rw (_ : (Datatypes.S (Datatypes.S j) - 1)%nat = Datatypes.S j); [lia|]. split; [done|]. unfold handed in *. cbn [take fold_left]. by rw Hs.
Qed.

Lemma apart_empties j k (l : list (gset T)) : apart l -> apart (replicate j ∅ ++ take k l).
Proof using.
  intros Ha a b x y id Hx Hy Hix Hiy.
  assert (Hin : forall i q, (replicate j ∅ ++ take k l) !! i = Some q -> id ∈ q -> (j <= i)%nat /\ l !! (i - j)%nat = Some q).
  { intros i q Hi Hq. apply lookup_app_Some in Hi as [Hi|[Hi Hl]]; [apply lookup_replicate in Hi as [-> _]; set_solver|].
    rw length_replicate in Hi Hl. apply lookup_take_Some in Hl as [Hl _]. done. }
  destruct (Hin a x Hx Hix) as [H1 H2], (Hin b y Hy Hiy) as [H3 H4]. pose proof (Ha _ _ _ _ _ H2 H4 Hix Hiy). lia.
Qed.

(** What a collection did: [j] generations were handed over. *)
Record collected (m : CacheManager T) (s : S) (j : nat) (m' : CacheManager T) (s' : S) : Prop := {
  co_count : (1 <= j <= 8)%nat;
  co_state : s' = handed (take j (reverse (cache_usage m))) s;
  co_manager : m' = with_usage (replicate j ∅ ++ take (8 - j) (cache_usage m)) m;
  co_stop : j = 8%nat \/ exists back, reverse (cache_usage m) !! (j - 1)%nat = Some back /\
    (notify_unused back (handed (take (j - 1) (reverse (cache_usage m))) s)).1 < max_cache_size m;
}.

Lemma manager_collected (m : CacheManager T) current s : manager_ok m -> pref_cache_size m <= current ->
  exists j m' s', manager_collect notify_unused current m s = Ok (m', s') /\ manager_ok m' /\ collected m s j m' s'.
Proof using.
  intros [Hl Ha] Hc. unfold manager_collect. rw (proj2 (Z.ltb_ge current (pref_cache_size m)) Hc).
  destruct (collect_rounds_run m 8 (cache_usage m) s) as (j & Hj & Hj0 & Hrun & Hstop); [lia|]. rw Hl in Hrun.
  eexists j, _, _. split_and!; [change (Z.to_nat COLLECTION_QUEUE_SIZE) with 8%nat; destruct m; exact (f_equal Ok Hrun)| |by split; [lia|..]].
  split; [cbn; rw length_app length_replicate length_take; lia|by apply apart_empties].
Qed.

(** Entries that are kept are younger than those that go. *)
Lemma collected_ages m s j m' s' id i : manager_ok m -> collected m s j m' s' -> aged m id i ->
  ((i < 8 - j)%nat -> aged m' id (i + j)) /\
  ((8 - j <= i)%nat -> (exists q, q ∈ take j (reverse (cache_usage m)) /\ id ∈ q) /\ forall k, ~ aged m' id k).
Proof using.
  intros [Hl Ha] [Hc _ -> _] (q & Hq & Hid). pose proof (lookup_lt_Some _ _ _ Hq) as Hi. split; intros Hd.
  - exists q. split; [|done]. cbn. rw lookup_app_r; [rw length_replicate; lia|]. rw length_replicate Nat.add_sub lookup_take_lt; done.
  - split.
    + exists q. split; [|done]. apply list_elem_of_lookup. exists (7 - i)%nat. rw lookup_take_lt; [lia|]. rw reverse_lookup; [lia|].
      by rw Hl (_ : (8 - Datatypes.S (7 - i))%nat = i); [lia|].
    + intros k (q' & Hq' & Hid'). cbn in Hq'. apply lookup_app_Some in Hq' as [Hr|[Hk Ht]]; [apply lookup_replicate in Hr as [-> _]; set_solver|].
      apply lookup_take_Some in Ht as [Ht Hlt]. pose proof (Ha _ _ _ _ _ Hq Ht Hid Hid'). lia.
Qed.
End spec.

(** ** The caches of the chain *)
#[export] Instance CacheId_eq : EqDecision CacheId.
Proof. solve_decision. Defined.
#[export] Instance CacheId_countable : Countable CacheId.
Proof.
  refine (inj_countable'
    (fun i => match i with IdHeaders n => (0, n, 0) | IdBodies n => (1, n, 0) | IdHashes h => (2, h, 0) | IdAddresses h => (3, h, 0)
              | IdBlooms p => (4, p.1, p.2) | IdReceipts h => (5, h, 0) end)
    (fun '(k, a, b) => if k =? 0 then IdHeaders a else if k =? 1 then IdBodies a else if k =? 2 then IdHashes a
              else if k =? 3 then IdAddresses a else if k =? 4 then IdBlooms (a, b) else IdReceipts a) _).
  by intros [| | | |[]|].
Defined.

Section chain.
  Context {HR : RlpLib} {HU : Util} {HB : RlpBytes} (pubkey_to_address : Z -> Address).
  Context {Proof_ : Type} {Proof_eq : EqDecision Proof_} {HP : Rlp Proof_} (proof_ok : Proof_ -> Prop) (Proof_new : Proof_).
  Context {D : Type} {HD : KvDb D} {AccountGasLimit : Type} {BloomGroup : Type} {HG : Rlp BloomGroup}.
Abbreviation Ch := (Chain (Proof_ := Proof_) (D := D) (AccountGasLimit := AccountGasLimit) (BloomGroup := BloomGroup)).
Abbreviation inv := (chain_inv pubkey_to_address proof_ok Proof_new (Proof_ := Proof_) (D := D)
  (AccountGasLimit := AccountGasLimit) (BloomGroup := BloomGroup)).
Abbreviation Cs := (Caches (Proof_ := Proof_) (BloomGroup := BloomGroup)).

(** [heap_size_of_children] of the caches. *)
  Context (headers_size bodies_size hashes_size addresses_size blooms_size receipts_size : Cs -> Z).

(** [cache_size().total()], and the size after a generation was dropped. *)
Definition cache_size (k : Cs) : Z := headers_size k + bodies_size k + addresses_size k + blooms_size k + receipts_size k.
Definition remaining_size (k : Cs) : Z :=
  headers_size k + bodies_size k + hashes_size k + addresses_size k + blooms_size k + receipts_size k.

Definition drop_generation (ids : gset CacheId) (c : Ch) : Z * Ch :=
  let c := Chain.collect_garbage (elements ids) c in (remaining_size (caches c), c).

(** [Chain::collect_garbage]. *)
Definition chain_collect (m : CacheManager CacheId) (c : Ch) : outcome void (CacheManager CacheId * Ch) :=
  manager_collect drop_generation (cache_size (caches c)) m c.

Lemma handed_collect l c : handed drop_generation l c = Chain.collect_garbage (l ≫= elements) c.
Proof using.
  revert c. induction l as [|q l IH]; intros c; [by destruct c|]. unfold handed in *. cbn [fold_left]. rw IH.
  unfold drop_generation, Chain.collect_garbage. cbn. by rw fold_left_app.
Qed.

(** A collection never fails and keeps the invariant of the chain: it drops the
    entries of the oldest generations and only these, younger entries keep
    their place, and it goes on until the caches are below their limit or
    nothing is left. *)
Theorem collection_evicts_oldest (m : CacheManager CacheId) c : manager_ok m -> inv c -> pref_cache_size m <= cache_size (caches c) ->
  exists j m' ids, chain_collect m c = Ok (m', Chain.collect_garbage ids c) /\ manager_ok m' /\ inv (Chain.collect_garbage ids c) /\
    (1 <= j <= 8)%nat /\
    (forall id, id ∈ ids <-> exists i, (8 - j <= i)%nat /\ aged m id i) /\
    (forall id i, aged m id i -> (i < 8 - j)%nat -> aged m' id (i + j)) /\
    (j = 8%nat \/ remaining_size (caches (Chain.collect_garbage ids c)) < max_cache_size m).
Proof using.
  intros Hm Hc Hp. destruct (manager_collected drop_generation m (cache_size (caches c)) c Hm Hp) as (j & m' & c' & Hrun & Hm' & Hco).
  pose proof Hco as [Hj Hs _ Hstop]. rw handed_collect in Hs. set (ids := take j _ ≫= elements) in Hs. exists j, m', ids. subst c'.
  split_and!; [done|done|by apply collect_garbage_inv|lia|lia| | |].
  - intros id. unfold ids. rw list_elem_of_bind. split.
    + intros (q & Hid%elem_of_elements & Hq). apply list_elem_of_lookup in Hq as [k Hk]. apply lookup_take_Some in Hk as [Hk Hlt].
      destruct Hm as [Hl _]. rw reverse_lookup in Hk; [lia|]. rw Hl in Hk. exists (8 - S k)%nat. split; [lia|]. by exists q.
    + intros (i & Hi & Ha). destruct (collected_ages _ m c j m' _ id i Hm Hco Ha) as [_ Hold]. destruct (Hold Hi) as [(q & Hq & Hid) _].
      exists q. split; [by apply elem_of_elements|done].
  - intros id i Ha Hi. by apply (collected_ages _ m c j m' _ id i Hm Hco Ha).
  - destruct Hstop as [->|(back & Hb & Hsize)]; [by left|right]. unfold drop_generation in Hsize at 1. cbn [fst] in Hsize.
    rw handed_collect in Hsize. destruct j as [|k]; [lia|]. cbn in Hb, Hsize. rw Nat.sub_0_r in Hb Hsize.
    unfold ids. rw (take_S_r _ _ back Hb) bind_app. cbn [mbind list_bind]. rw app_nil_r. unfold Chain.collect_garbage in *. cbn in *.
    by rw fold_left_app.
Qed.

(** When the newest generation grows and the caches are small, the oldest
    generation becomes the newest one, although none of its entries was used. *)
Theorem rotation_renews_oldest (m : CacheManager CacheId) (c : Ch) q id : manager_ok m -> cache_size (caches c) < pref_cache_size m ->
  head (cache_usage m) = Some q -> pref_cache_size m / COLLECTION_QUEUE_SIZE < Z.of_nat (size q) * bytes_per_cache_entry m < 2 ^ 64 ->
  aged m id 7 -> exists m', chain_collect m c = Ok (m', c) /\ manager_ok m' /\ aged m' id 0.
Proof using.
  intros [Hl Ha] Hp Hq Hs (q' & Hq' & Hid). destruct (cache_usage m) as [|q0 l] eqn:Hu; [done|]. injection Hq as ->.
  unfold chain_collect, manager_collect. rw (proj2 (Z.ltb_lt _ _) Hp) (rotate_ok m q l Hu); [lia|]. cbn [obind].
  rw Z.gtb_ltb (proj2 (Z.ltb_lt _ _) (proj1 Hs)). eexists. split; [done|].
  assert (Hx : exists x q1, q :: l = x ++ [q1]) by (destruct (q :: l) as [|q1 x _] using rev_ind; [done|by eexists _, _]).
  destruct Hx as (x & q1 & Hx). rw Hx in Hl Ha Hq' |- *. rw last_snoc removelast_last. rw length_app in Hl. cbn in Hl.
  rw list_lookup_middle in Hq'; [lia|]. injection Hq' as ->.
  split; [split; [cbn; lia|by apply apart_rotate]|]. by exists q'.
Qed.
End chain.
