(* ===== verification/Polls.v ===== *)
(** * Replies of the chain and polling

    [cita-chain/src/forward.rs], the answers to JSON-RPC requests, and
    [cita-chain/core/src/filters]: filters that clients install and poll for
    new blocks or logs; with [jsonrpc_types/src/rpctypes/filter.rs] and
    [block_number.rs], the filters and block numbers of requests.

    Parameters of requests are JSON, read with the serde library: a request
    has what was read, or nothing if that failed.  What is sent is the value
    before it is written as JSON.  The map of filters is of the library
    [transient_hashmap], the class [Transient]: entries go when they were not
    used for a while. *)

From S2P Require Import Prelude Evm Account NativeStorage Executive Block Codec ChainDb Chain Forward.
From stdpp Require Import base gmap list.
Local Open Scope Z_scope.
Local Open Scope cita_scope.

(** ** Parameters of requests *)
Inductive BlockTag : Set := TagLatest | TagEarliest.
Inductive RpcBlockNumber : Set := Tag (t : BlockTag) | Height (n : Z).

Definition block_id (n : RpcBlockNumber) : BlockId :=
  match n with Height n => BidNumber n | Tag TagLatest => Latest | Tag TagEarliest => Earliest end.

Inductive VariadicValue (T : Type) : Type := Single (v : T) | Multiple (l : list T) | Null.
Arguments Single {T}.
Arguments Multiple {T}.
Arguments Null {T}.

Record RpcFilter : Set := {
  rf_from_block : option RpcBlockNumber;
  rf_to_block : option RpcBlockNumber;
  rf_address : option (VariadicValue Address);
  rf_topics : option (list (VariadicValue H256));
  rf_limit : option nat;
}.

Definition variadic {T} (v : VariadicValue T) : option (list T) :=
  match v with Null => None | Single a => Some [a] | Multiple l => Some l end.

(** [Into<EthFilter>]. *)
Definition into_filter (f : RpcFilter) : Chain.Filter :=
  let topics := from_option (fun l => variadic <$> take 4 l) [] (rf_topics f) in
  {| f_from_block := from_option block_id Latest (rf_from_block f);
     f_to_block := from_option block_id Latest (rf_to_block f);
     f_address := rf_address f ≫= variadic;
     f_topics := (fun i => default None (topics !! i)) <$> [0; 1; 2; 3]%nat;
     f_limit := rf_limit f |}.

(** ** Filters that are polled *)
Definition POLL_LIFETIME : Z := 60.

(** The map of the library at a time: [t_get] is a use of an entry, [t_set]
    writes through the reference it gave. *)
Class Transient (F P : Type) : Type := {
  t_prune : Z -> P -> P;
  t_insert : Z -> Z -> F -> P -> P;
  t_get : Z -> Z -> P -> option F * P;
  t_set : Z -> F -> P -> P;
  t_remove : Z -> P -> P;
}.

Inductive PollFilter : Set :=
| PBlock (n : Z)
| PLogs (n : Z) (previous : list LocalizedLogEntry) (f : RpcFilter).

Inductive FilterChanges : Set := Logs (l : list LocalizedLogEntry) | Hashes (l : list H256) | Empty.

(** Only the last ones. *)
Definition limit_logs (logs : list LocalizedLogEntry) (limit : option nat) : list LocalizedLogEntry :=
  match limit with
  | Some limit => if (limit <=? length logs)%nat then drop (length logs - limit) logs else logs
  | None => logs
  end.

(** ** The service *)
Inductive RpcRequest : Set :=
| QBlockNumber
| QBlockByHash (p : option (H256 * bool))
| QBlockByHeight (p : option (RpcBlockNumber * bool))
| QTransaction (hash : H256)
| QTransactionReceipt (hash : H256)
| QFilter (p : option RpcFilter)
| QCall
| QTransactionCount
| QCode
| QNewFilter (p : option RpcFilter)
| QNewBlockFilter
| QUninstallFilter (id : Z)
| QFilterChanges (id : Z)
| QFilterLogs (id : Z)
| QOther.

Section service.
  Context {HR : RlpLib} {HU : Util} {HB : RlpBytes} (pubkey_to_address : Z -> Address).
  Context {Proof_ : Type} {Proof_eq : EqDecision Proof_} {HP : Rlp Proof_}.
  Context {D : Type} {HD : KvDb D} {AccountGasLimit : Type} {BloomGroup : Type} {HG : Rlp BloomGroup}.
  Context (encode_address_nonce : Address -> U256 -> bytes).
  Context (with_bloom : (Z * Z -> outcome void (option BloomGroup)) -> Z -> Z -> Z -> outcome void (list Z)).
  Context (shift_bloomed : Z -> H256 -> Z).
  Context {P : Type} {HT : Transient PollFilter P}.
Abbreviation Ch := (Chain (Proof_ := Proof_) (D := D) (AccountGasLimit := AccountGasLimit) (BloomGroup := BloomGroup)).
Abbreviation Blk := (Block (Proof_ := Proof_)).

Record PollManager : Type := mkPollManager { polls : P; next_available_id : Z }.

(** Answers, and messages given back to the executor. *)
Inductive RpcReply : Type :=
| RNumber (n : Z)
| RBlock (hash : H256) (include_txs : bool) (b : Blk)
| RTransaction (t : SignedTx * Z * H256 * Z)
| RReceipt (r : LocalizedReceipt)
| RLogs (l : list LocalizedLogEntry)
| RFilterId (id : Z)
| RUninstall (b : bool)
| RFilterChanges (c : FilterChanges)
| RFilterLogs (l : list LocalizedLogEntry)
| RNone
| RBlockError
| RQueryError
| RNothing
| ToExecutor.

Record Service : Type := mkService { sv_chain : Ch; sv_polls : PollManager; sv_out : list RpcReply }.
Abbreviation S := (M void Service).

Definition with_chain (c : Ch) (s : Service) : Service := mkService c (sv_polls s) (sv_out s).
Definition with_polls (p : PollManager) (s : Service) : Service := mkService (sv_chain s) p (sv_out s).
Definition with_map (m : P) (s : Service) : Service := with_polls (mkPollManager m (next_available_id (sv_polls s))) s.
Definition reply (r : RpcReply) (s : Service) : Service := mkService (sv_chain s) (sv_polls s) (sv_out s ++ [r]).

Definition on_chain {A} (m : M void Ch A) : S A := fun s =>
  let '(r, c) := m (sv_chain s) in (r, with_chain c s).

(** The clock when a request is handled. *)
  Context (now : Z).

Definition create_poll (f : PollFilter) : S Z :=
  _ <~ smodify (fun s => with_map (t_prune now (polls (sv_polls s))) s) ;;
  s <~ sget ;;
  let id := next_available_id (sv_polls s) in
  let m := t_insert now id f (polls (sv_polls s)) in
  next <~ slift (add_ 64 id 1) ;;
  _ <~ smodify (with_polls (mkPollManager m next)) ;;
  sret id.

(** [poll] and [poll_mut]. *)
Definition poll (id : Z) : S (option PollFilter) :=
  s <~ sget ;;
  let '(f, m) := t_get now id (t_prune now (polls (sv_polls s))) in
  _ <~ smodify (with_map m) ;;
  sret f.

Definition write_poll (id : Z) (f : PollFilter) : S unit := smodify (fun s => with_map (t_set id f (polls (sv_polls s))) s).
Definition remove_poll (id : Z) : S unit := smodify (fun s => with_map (t_remove id (polls (sv_polls s))) s).

Definition current_height : S Z := sgets (fun s => get_current_height (sv_chain s)).

Definition new_filter (f : RpcFilter) : S Z := n <~ current_height ;; create_poll (PLogs n [] f).
Definition new_block_filter : S Z := n <~ current_height ;; create_poll (PBlock n).

(** The hashes of a range of blocks that are there. *)
Fixpoint hashes_of (l : list Z) : S (list H256) :=
  match l with
  | [] => sret []
  | n :: l =>
      h <~ on_chain (block_hash_by_height n) ;;
      rest <~ hashes_of l ;;
      sret (option_list h ++ rest)
  end.

Definition filter_changes (id : Z) : S FilterChanges :=
  f <~ poll id ;;
  match f with
  | None => sret Empty
  | Some (PBlock n) =>
      h <~ current_height ;;
      current_number <~ slift (add_ 64 h 1) ;;
      hashes <~ hashes_of (seqZ n (current_number - n)) ;;
      _ <~ write_poll id (PBlock current_number) ;;
      sret (Hashes hashes)
  | Some (PLogs n previous f) =>
      current_number <~ current_height ;;
      let g := into_filter f in
      let g := {| f_from_block := BidNumber n; f_to_block := Latest; f_address := f_address g; f_topics := f_topics g;
                  f_limit := f_limit g |} in
      next <~ slift (add_ 64 current_number 1) ;;
      _ <~ write_poll id (PLogs next previous f) ;;
      logs <~ on_chain (get_logs pubkey_to_address with_bloom shift_bloomed g) ;;
      sret (Logs (limit_logs logs (f_limit g)))
  end.

Definition filter_logs (id : Z) : S (option (list LocalizedLogEntry)) :=
  f <~ poll id ;;
  match f with
  | Some (PLogs _ _ f) => l <~ on_chain (get_logs pubkey_to_address with_bloom shift_bloomed (into_filter f)) ;; sret (Some l)
  | _ => sret None
  end.

Definition uninstall_filter (id : Z) : S bool :=
  f <~ poll id ;;
  match f with
  | Some _ => _ <~ remove_poll id ;; sret true
  | None => sret false
  end.

(** [Forward::reply_request]. *)
Definition answer_request (r : RpcRequest) : S RpcReply :=
  match r with
  | QBlockNumber =>
      s <~ sget ;;
      sret (RNumber (if max_store_height (sv_chain s) =? 2 ^ 64 - 1 then max_height (sv_chain s) else max_store_height (sv_chain s)))
  | QBlockByHash (Some (hash, include_txs)) =>
      b <~ on_chain (block_by_hash pubkey_to_address hash) ;;
      sret (from_option (RBlock hash include_txs) RNone b)
  | QBlockByHash None => sret RBlockError
  | QBlockByHeight p =>
      p <~ slift (expect p) ;;
      b <~ on_chain (Chain.block pubkey_to_address (block_id p.1)) ;;
      sret (from_option (fun b => RBlock (header_hash rlp_out (header b)) p.2 b) RNone b)
  | QTransaction hash =>
      t <~ on_chain (full_transaction pubkey_to_address hash) ;;
      sret (from_option RTransaction RNone t)
  | QTransactionReceipt hash =>
      r <~ on_chain (localized_receipt pubkey_to_address encode_address_nonce hash) ;;
      sret (from_option RReceipt RNone r)
  | QFilter (Some f) =>
      l <~ on_chain (get_logs pubkey_to_address with_bloom shift_bloomed (into_filter f)) ;; sret (RLogs l)
  | QFilter None => sret RQueryError
  | QCall | QTransactionCount | QCode => sret ToExecutor
  | QNewFilter f => f <~ slift (expect f) ;; id <~ new_filter f ;; sret (RFilterId id)
  | QNewBlockFilter => id <~ new_block_filter ;; sret (RFilterId id)
  | QUninstallFilter id => b <~ uninstall_filter id ;; sret (RUninstall b)
  | QFilterChanges id => c <~ filter_changes id ;; sret (RFilterChanges c)
  | QFilterLogs id => l <~ filter_logs id ;; sret (RFilterLogs (default [] l))
  | QOther => sret RNothing
  end.

Definition reply_request (r : option RpcRequest) : S unit :=
  r <~ slift (expect r) ;;
  a <~ answer_request r ;;
  smodify (reply a).
End service.
