(* ===== verification/PollsSpec.v ===== *)
(** * What the replies of the chain keep

    The library of transient maps by its laws, the invariant of the chain with
    its filters, and that every request keeps it: it is answered from what is
    stored, changes only caches and filters, and leaves the filters of others
    alone. *)

From S2P Require Import Prelude Evm Account Executive Block Codec CodecSpec ChainDb Chain Forward.
From S2P Require Import ChainSpec ChainInv ChainReads ChainLogs ChainFilter ChainStep Polls.
From stdpp Require Import base gmap list sorting.
Local Open Scope Z_scope.
Local Open Scope cita_scope.

(** [entries]: the values with the time of their last use.  Entries that were
    used within the lifetime stay when the map is pruned, older ones go. *)
Class TransientOk (F P : Type) {HT : Transient F P} : Type := {
  entries : P -> gmap Z (F * Z);
  prune_sub now p : entries (t_prune now p) ⊆ entries p;
  prune_keeps now p id f t : entries p !! id = Some (f, t) -> now - t < POLL_LIFETIME ->
    entries (t_prune now p) !! id = Some (f, t);
  prune_drops now p id f t : entries p !! id = Some (f, t) -> POLL_LIFETIME < now - t -> entries (t_prune now p) !! id = None;
  insert_entries now id f p : entries (t_insert now id f p) = <[id := (f, now)]> (entries p);
  get_value now id p : (t_get now id p).1 = fst <$> entries p !! id;
  get_entries now id p : entries (t_get now id p).2 = alter (fun e => (e.1, now)) id (entries p);
  set_entries id f p : entries (t_set id f p) = alter (fun e => (f, e.2)) id (entries p);
  remove_entries id p : entries (t_remove id p) = delete id (entries p);
}.

(** Heights are 64-bit numbers. *)
Definition rpc_filter_ok (f : RpcFilter) : Prop :=
  id_ok (f_from_block (into_filter f)) /\ id_ok (f_to_block (into_filter f)).
Definition poll_ok (f : PollFilter) : Prop :=
  match f with PBlock n => fits 64 n | PLogs n _ f => fits 64 n /\ rpc_filter_ok f end.

(** The filter a request is about. *)
Definition asks (r : RpcRequest) : option Z :=
  match r with QUninstallFilter id | QFilterChanges id | QFilterLogs id => Some id | _ => None end.

Section service.
  Context {HR : RlpLib} {HRok : RlpLibOk} {HU : Util} {HB : RlpBytes} {HBok : RlpBytesOk}.
  Context (hash_fits : forall b, fits 256 (crypt_hash b)) (pubkey_to_address : Z -> Address).
  Context {Proof_ : Type} {Proof_eq : EqDecision Proof_} {HP : Rlp Proof_} (proof_ok : Proof_ -> Prop) (Proof_new : Proof_).
  Context {D : Type} {HD : KvDb D} {AccountGasLimit : Type} {BloomGroup : Type} {HG : Rlp BloomGroup}.
  Context (encode_address_nonce : Address -> U256 -> bytes).
Abbreviation Lookup := (Z * Z -> outcome void (option BloomGroup)).
  Context (with_bloom : Lookup -> Z -> Z -> Z -> outcome void (list Z)) (shift_bloomed : Z -> H256 -> Z).
  Context (bloom_total : forall (lookup : Lookup) p from to,
    (forall q, position_ok q -> exists o, lookup q = Ok o) -> fits 64 from -> fits 64 to ->
    exists l, with_bloom lookup from to p = Ok l /\ Forall (fits 64) l).
  Context {P : Type} {HT : Transient PollFilter P} {HTok : TransientOk PollFilter P}.
Abbreviation Ch := (Chain (Proof_ := Proof_) (D := D) (AccountGasLimit := AccountGasLimit) (BloomGroup := BloomGroup)).
Abbreviation Blk := (Block (Proof_ := Proof_)).
Abbreviation Sv := (Service (Proof_ := Proof_) (D := D) (AccountGasLimit := AccountGasLimit) (BloomGroup := BloomGroup) (P := P)).
Abbreviation good := (good pubkey_to_address (Proof_ := Proof_) (D := D) (BloomGroup := BloomGroup)).
Abbreviation index_ok := (index_ok pubkey_to_address (Proof_ := Proof_) (D := D)).
Abbreviation inv := (chain_inv pubkey_to_address proof_ok Proof_new (Proof_ := Proof_) (D := D)
  (AccountGasLimit := AccountGasLimit) (BloomGroup := BloomGroup)).
Abbreviation answers := (answers pubkey_to_address (Proof_ := Proof_) (D := D) (AccountGasLimit := AccountGasLimit)
  (BloomGroup := BloomGroup)).

(** ** Lookups *)
Lemma block_hash_by_height_answers n c : good (db c) (caches c) -> fits 64 n ->
  answers (block_hash_by_height n) (fun o => o = header_hash rlp_out <$> header_at c n) c.
Proof using.
  intros Hg Hn. eapply answers_bind; [by apply (block_header_by_height_answers pubkey_to_address)|]. intros o k Hk ->. by apply answers_ret.
Qed.

(** A transaction with its block and its index. *)
Definition placed_transaction (c : Ch) (h : H256) (o : option (SignedTx * Z * H256 * Z)) : Prop :=
  match o with
  | None => address_of c h = None
  | Some (t, n, bh, i) =>
      u_hash (s_transaction t) = h /\ number_of c bh = Some n /\
      exists b j, body_at pubkey_to_address c n = Some b /\ b !! j = Some t /\ i = wrap 32 (Z.of_nat j)
  end.

Lemma full_transaction_answers h c : inv c -> fits 256 h ->
  answers (full_transaction pubkey_to_address h) (placed_transaction c h) c.
Proof using HRok.
  intros Hc Hh. eapply answers_bind; [apply transaction_address_answers; [apply Hc|done]|]. intros o k Hk ->.
  destruct (address_of c h) as [a|] eqn:Ha; [|by apply answers_ret]. cbn [and_then].
  destruct (ix_address _ _ _ (ci_index _ _ _ _ Hc) h a Hh Ha) as (Hp & n & b & i & _ & Hn & Hb & Hi & Hx).
  pose proof (header_at_stored _ _ _ c _ n Hc Hp Hn) as Hat.
  destruct (ix_number _ _ _ (ci_index _ _ _ _ Hc) _ n Hp Hn) as (_ & hdr & Hv & Hnum & _).
  apply list_lookup_fmap_Some_1 in Hx as (x & -> & Hx).
  assert (Hblock : block_at pubkey_to_address c n = Some (mkBlock hdr b)) by by rw /block_at Hat Hv /= /body_at Hb.
  eapply answers_bind; [by apply block_by_hash_answers|]. intros o k' Hk' ->.
  change (number_of _ _) with (view numbers_t (db c) (ta_block_hash a)). rw Hn. cbn [mbind option_bind].
  change (block_at pubkey_to_address (with_db (db c) k c) n) with (block_at pubkey_to_address c n). rw Hblock. cbn [body header].
  eapply answers_lift; [rw Hi; by apply index_at|]. apply answers_ret; [done|]. cbn. rw Hnum Hi. split_and!; [done|done|]. by exists b, i.
Qed.

(** A search for logs does not fail, whatever it is for. *)
Lemma candidate_blocks_total f blooms c : good (db c) (caches c) -> fits 64 (get_current_height c) ->
  id_ok (f_from_block f) -> id_ok (f_to_block f) ->
  answers (candidate_blocks with_bloom f blooms) (Forall (fits 64)) c.
Proof using HRok bloom_total.
  intros Hg Hh Hf Ht. revert c Hg Hh. induction blooms as [|p blooms IH]; intros c Hg Hh; [by apply answers_ret|].
  assert (Hid : forall id F (c : Ch), fits 64 (get_current_height c) -> id_number c id = Some F -> id_ok id -> fits 64 F).
  { intros [h|n| |] F c' Hc' HF Hid; cbn in *; [by eapply number_of_fits|congruence|injection HF as <-; unfold fits; lia|congruence]. }
  eapply (answers_bind _ _ _ (fun o => Forall (fits 64) (default [] o))); [eapply answers_bind; [by apply block_number_answers|]|].
  { intros o k Hk ->. eapply answers_bind; [by apply block_number_answers|]. intros o k' Hk' ->. apply answers_get.
    destruct (id_number c (f_from_block f)) as [F|] eqn:HF; [|by apply answers_ret].
    destruct (id_number (with_db (db c) k c) (f_to_block f)) as [T|] eqn:HTo; [|by apply answers_ret].
    destruct (bloom_total (blooms_at (with_db (db c) k' (with_db (db c) k c))) p F T) as (l & Hl & Hr); [|by eapply Hid..|].
    { intros q Hq. eexists. by apply (blooms_at_view pubkey_to_address q (with_db (db c) k' c)). }
    eapply answers_lift; [exact Hl|]. by apply answers_ret. }
  intros o k Hk Hl. eapply answers_bind; [by apply (IH (with_db (db c) k c))|]. intros rest k' Hk' Hr.
  apply answers_ret; [done|]. by apply Forall_app.
Qed.

Lemma get_logs_total f c : inv c -> id_ok (f_from_block f) -> id_ok (f_to_block f) ->
  answers (get_logs pubkey_to_address with_bloom shift_bloomed f) (fun _ => True) c.
Proof using HRok hash_fits bloom_total.
  intros Hc Hf Ht. eapply answers_bind; [apply candidate_blocks_total; [apply Hc|by eapply inv_top|done..]|].
  intros l k Hk Hl. eapply answers_impl; [eapply (logs_answers _ hash_fits _ _ _ _ (with_db (db c) k c)); [done|apply Hc|]|done].
  apply Forall_forall. intros n Hn. rw elem_of_remove_dups in Hn. rw Forall_forall in Hl. by apply Hl.
Qed.
(** A search gives the same on the same chain. *)
Lemma get_logs_same f c : inv c -> id_ok (f_from_block f) -> id_ok (f_to_block f) ->
  answers (get_logs pubkey_to_address with_bloom shift_bloomed f)
    (fun l => (get_logs pubkey_to_address with_bloom shift_bloomed f c).1 = Ok l) c.
Proof using HRok hash_fits bloom_total.
  intros Hc Hf Ht. pose proof (get_logs_total f c Hc Hf Ht) as Hg. unfold ChainReads.answers, wp in *.
  destruct (get_logs _ _ _ f c) as [[] ]; [|done..]. by destruct Hg.
Qed.

(** ** The service *)
Definition installed (s : Sv) (id : Z) (f : PollFilter) (t : Z) : Prop := entries (polls (sv_polls s)) !! id = Some (f, t).

Record service_inv (s : Sv) : Prop := {
  si_chain : inv (sv_chain s);
  si_polls id f t : installed s id f t -> poll_ok f /\ id < next_available_id (sv_polls s);
}.

(** What a request at [now] about filter [o] may do. *)
Record serves (now : Z) (o : option Z) (s s' : Sv) : Prop := {
  se_inv : service_inv s';
  se_chain : exists k, sv_chain s' = with_db (db (sv_chain s)) k (sv_chain s) /\ good (db (sv_chain s)) k;
  se_out : sv_out s' = sv_out s;
  se_polls id f t : installed s id f t -> now - t < POLL_LIFETIME -> o <> Some id -> installed s' id f t;
}.

Lemma serves_refl now o s : service_inv s -> serves now o s s.
Proof using.
  intros Hs. split; [done| |done|done]. exists (caches (sv_chain s)). split; [apply with_db_same|]. apply (si_chain _ Hs).
Qed.

Lemma serves_trans now o s1 s2 s3 : serves now o s1 s2 -> serves now o s2 s3 -> serves now o s1 s3.
Proof using.
  intros [I1 (k1 & C1 & G1) O1 P1] [I2 (k2 & C2 & G2) O2 P2]. split; [done| |congruence|by auto].
  exists k2. rw C1 in C2 G2. by rw C2.
Qed.

Lemma serves_bind {A B} now o (m : M void Sv A) (f : A -> M void Sv B) (Q : A -> Sv -> Prop) (R : B -> Sv -> Prop) s :
  wp m (fun a s1 => serves now o s s1 /\ Q a s1) none s ->
  (forall a s1, serves now o s s1 -> Q a s1 -> wp (f a) (fun b s2 => serves now o s1 s2 /\ R b s2) none s1) ->
  wp (sbind m f) (fun b s2 => serves now o s s2 /\ R b s2) none s.
Proof using.
  intros Hm Hf. apply wp_bind. eapply wp_conseq; [exact Hm| |done]. intros a s1 [H1 HQ].
  eapply wp_conseq; [exact (Hf a s1 H1 HQ)| |done]. intros b s2 [H2 HR']. split; [by eapply serves_trans|done].
Qed.

Lemma serves_ret {A} now o (a : A) (Q : A -> Sv -> Prop) s : service_inv s -> Q a s ->
  wp (sret a) (fun a s' => serves now o s s' /\ Q a s') none s.
Proof using. intros Hs HQ. apply wp_ret. split; [by apply serves_refl|done]. Qed.

(** Lookups of the chain leave the filters alone. *)
Lemma on_chain_serves {A} now o (m : M void Ch A) Q s : service_inv s -> answers m Q (sv_chain s) ->
  wp (on_chain m) (fun a s' => serves now o s s' /\ Q a /\ sv_polls s' = sv_polls s) none s.
Proof using.
  unfold ChainReads.answers, wp, on_chain. intros Hs Hm. destruct (m (sv_chain s)) as [[a|e|] c]; [|done|done].
  destruct Hm as [(k & -> & Hk) HQ]. split; [|done]. split; [|by exists k|done|done].
  split; [|apply Hs]. apply inv_caches; [apply Hs|done].
Qed.

(** ** The filters *)
Definition same_entries (s s' : Sv) (m : gmap Z (PollFilter * Z)) : Prop :=
  entries (polls (sv_polls s')) = m /\ sv_chain s' = sv_chain s /\ sv_out s' = sv_out s.

Lemma serves_entries now o s s' m : service_inv s -> same_entries s s' m ->
  next_available_id (sv_polls s) <= next_available_id (sv_polls s') ->
  (forall id e, m !! id = Some e -> (exists t, entries (polls (sv_polls s)) !! id = Some (e.1, t)) \/
     poll_ok e.1 /\ id < next_available_id (sv_polls s')) ->
  (forall id f t, installed s id f t -> now - t < POLL_LIFETIME -> o <> Some id -> m !! id = Some (f, t)) ->
  serves now o s s'.
Proof using.
  intros Hs (Hm & Hc & Ho) Hn Hin Hkeep. split; [split| |done|].
  - rw Hc. apply Hs.
  - unfold installed. rw Hm. intros id f t Hi. destruct (Hin id (f, t) Hi) as [[t' Ht]|[]]; [|done].
    destruct (si_polls _ Hs id f t' Ht). split; [done|lia].
  - exists (caches (sv_chain s)). rw Hc. split; [apply with_db_same|apply (si_chain _ Hs)].
  - intros id f t Hi Ht Hid. unfold installed. rw Hm. by apply Hkeep.
Qed.

Lemma poll_serves now id s : service_inv s ->
  wp (poll now id) (fun o s' => serves now (Some id) s s' /\
    match o with Some f => poll_ok f /\ installed s' id f now | None => forall f t, ~ installed s' id f t end /\
    (forall f t, installed s id f t -> now - t < POLL_LIFETIME -> o = Some f) /\
    (forall f t, installed s id f t -> POLL_LIFETIME < now - t -> o = None) /\ sv_chain s' = sv_chain s) none s.
Proof using.
  intros Hs. unfold poll. apply wp_bind, wp_get. pose proof (get_value now id (t_prune now (polls (sv_polls s)))) as Hv.
  pose proof (get_entries now id (t_prune now (polls (sv_polls s)))) as He. destruct (t_get _ _ _) as [o m]. cbn [fst snd] in *.
  apply wp_bind, wp_modify, wp_ret. set (p := t_prune now (polls (sv_polls s))) in *.
  pose proof (prune_sub now (polls (sv_polls s))) as Hsub. fold p in Hsub.
  split_and!.
  - eapply serves_entries; [done|by split_and!|done| |].
    + intros i e Hi. left. destruct (decide (i = id)) as [->|Hne].
      * rw lookup_alter_eq in Hi. apply fmap_Some in Hi as ([f t] & Ht & ->). exists t. by eapply lookup_weaken.
      * rw lookup_alter_ne in Hi; [done|]. destruct e as [f t]. exists t. by eapply lookup_weaken.
    + intros i f t Hi Ht Hne. rw lookup_alter_ne; [congruence|]. by apply prune_keeps.
  - symmetry in Hv. destruct o as [f|].
    2: { apply fmap_None in Hv. intros f t. unfold installed. cbn. by rw He lookup_alter_eq Hv. }
    apply fmap_Some in Hv as ([f' t] & Ht & ->). cbn [fst].
    split; [eapply (si_polls _ Hs id f' t); by eapply lookup_weaken|]. unfold installed. cbn. rw He lookup_alter_eq Ht. done.
  - intros f t Hi Ht. rw Hv /p (prune_keeps now _ id f t Hi Ht). done.
  - intros f t Hi Ht. rw Hv /p (prune_drops now _ id f t Hi Ht). done.
  - done.
Qed.

Lemma write_poll_serves now id f s t0 f0 : service_inv s -> poll_ok f -> installed s id f0 t0 ->
  wp (write_poll id f) (fun _ s' => serves now (Some id) s s' /\ installed s' id f t0 /\ sv_chain s' = sv_chain s) none s.
Proof using.
  intros Hs Hf H0. apply wp_modify. split_and!; [|unfold installed; cbn; by rw set_entries lookup_alter_eq H0|done].
  eapply serves_entries; [done|split_and!; [apply set_entries|done..]|done| |].
  - intros i e. destruct (decide (i = id)) as [->|Hne]; [rw lookup_alter_eq H0; intros [= <-]|rw lookup_alter_ne; [done|]].
    + right. split; [done|]. apply (si_polls _ Hs id f0 t0 H0).
    + intros Hi. left. exists e.2. by destruct e.
  - intros i g t Hi Ht Hne. by rw lookup_alter_ne; [congruence|].
Qed.

Lemma remove_poll_serves now id s : service_inv s -> wp (remove_poll id)
  (fun _ s' => serves now (Some id) s s' /\ forall f t, ~ installed s' id f t) none s.
Proof using.
  intros Hs. apply wp_modify. split; [|intros f t; unfold installed; cbn; by rw remove_entries lookup_delete_eq].
  eapply serves_entries; [done|split_and!; [apply remove_entries|done..]|done| |].
  - intros i e [Hne Hi]%lookup_delete_Some. left. exists e.2. by destruct e.
  - intros i f t Hi Ht Hne. apply lookup_delete_Some. split; [congruence|done].
Qed.

Lemma create_poll_serves now f s : service_inv s -> poll_ok f -> fits 64 (next_available_id (sv_polls s) + 1) ->
  wp (create_poll now f) (fun id s' => serves now None s s' /\ id = next_available_id (sv_polls s) /\ installed s' id f now) none s.
Proof using.
  intros Hs Hf Hn. unfold create_poll. apply wp_bind, wp_modify, wp_bind, wp_get, wp_bind, wp_lift. cbn [sv_polls with_map with_polls next_available_id polls].
  rw add_ok; [unfold fits in Hn; lia|]. apply wp_bind, wp_modify, wp_ret.
  set (id := next_available_id (sv_polls s)) in *. split_and!; [|done|unfold installed; cbn; by rw insert_entries lookup_insert_eq].
  pose proof (prune_sub now (polls (sv_polls s))) as Hsub.
  eapply serves_entries; [done|split_and!; [apply insert_entries|done..]|cbn; lia| |].
  - intros i e [[<- <-]|[Hne Hi]]%lookup_insert_Some; [right; cbn; split; [done|lia]|left]. exists e.2. destruct e. by eapply lookup_weaken.
  - intros i g t Hi Ht _. rw lookup_insert_ne; [|by apply prune_keeps]. destruct (si_polls _ Hs i g t Hi). lia.
Qed.

(** ** The requests *)
Definition hash_at (c : Ch) (n : Z) : option H256 := header_hash rlp_out <$> header_at c n.

Lemma hashes_of_serves now o l s : service_inv s -> Forall (fits 64) l ->
  wp (hashes_of l) (fun hs s' => serves now o s s' /\ hs = omap (hash_at (sv_chain s)) l /\ sv_polls s' = sv_polls s) none s.
Proof using HRok.
  revert s. induction l as [|n l IH]; intros s Hs Hl; [by apply serves_ret|]. apply Forall_cons in Hl as [Hn Hl].
  eapply serves_bind; [apply on_chain_serves; [done|apply block_hash_by_height_answers; [apply (si_chain _ Hs)|done]]|].
  intros h s1 H1 [-> Hp1]. destruct (se_chain _ _ _ _ H1) as (k & Hk & _).
  eapply serves_bind; [apply IH; [by apply H1|done]|]. intros hs s2 H2 [-> Hp2]. apply serves_ret; [apply H2|]. split; [|congruence].
  rw Hk. change (omap (hash_at (with_db (db (sv_chain s)) k (sv_chain s))) l) with (omap (hash_at (sv_chain s)) l).
  cbn [omap list_omap]. unfold hash_at at 2. by destruct (header_at (sv_chain s) n).
Qed.

(** The search of a poll. *)
Definition poll_search (n : Z) (f : RpcFilter) : Chain.Filter :=
  let g := into_filter f in
  {| f_from_block := BidNumber n; f_to_block := Latest; f_address := f_address g; f_topics := f_topics g; f_limit := f_limit g |}.

(** What a poll of a filter [f] answers, and the filter that remains. *)
Definition poll_answer (c : Ch) (f : PollFilter) (a : FilterChanges) (f' : PollFilter) : Prop :=
  let next := get_current_height c + 1 in
  match f with
  | PBlock n => a = Hashes (omap (hash_at c) (seqZ n (next - n))) /\ f' = PBlock next
  | PLogs n previous r =>
      f' = PLogs next previous r /\
      exists l, (get_logs pubkey_to_address with_bloom shift_bloomed (poll_search n r) c).1 = Ok l /\
        a = Logs (limit_logs l (rf_limit r))
  end.

Definition changes_right (now id : Z) (s : Sv) (a : FilterChanges) (s' : Sv) : Prop :=
  (forall f t, installed s id f t -> now - t < POLL_LIFETIME ->
     exists f', installed s' id f' now /\ poll_answer (sv_chain s) f a f') /\
  (forall f t, installed s id f t -> POLL_LIFETIME < now - t -> a = Polls.Empty).

Lemma block_changes now id n s : service_inv s -> fits 64 n -> installed s id (PBlock n) now ->
  wp (h <~ current_height ;;
      current_number <~ slift (add_ 64 h 1) ;;
      hashes <~ hashes_of (seqZ n (current_number - n)) ;;
      _ <~ write_poll id (PBlock current_number) ;;
      sret (Hashes hashes))
    (fun a s' => serves now (Some id) s s' /\ exists f', installed s' id f' now /\ poll_answer (sv_chain s) (PBlock n) a f') none s.
Proof using HRok.
  intros Hs Hn Hi. pose proof (ci_header _ _ _ _ (si_chain _ Hs)) as Hh. apply wp_bind, wp_gets, wp_bind, wp_lift.
  rw add_ok; [unfold fits in Hh; lia|]. eapply serves_bind; [apply hashes_of_serves; [done|]|].
  { apply Forall_forall. intros m Hm%elem_of_seqZ. unfold fits in *. lia. }
  intros hs s1 H1 [-> Hp]. eapply serves_bind; [eapply (write_poll_serves now id _ s1 now); [apply H1|done|]|].
  { unfold installed. rw Hp. exact Hi. }
  intros [] s2 H2 [Hi2 _]. apply serves_ret; [apply H2|]. by eexists.
Qed.

Lemma log_changes now id n previous f s : service_inv s -> fits 64 n -> rpc_filter_ok f -> installed s id (PLogs n previous f) now ->
  wp (current_number <~ current_height ;;
      next <~ slift (add_ 64 current_number 1) ;;
      _ <~ write_poll id (PLogs next previous f) ;;
      logs <~ on_chain (get_logs pubkey_to_address with_bloom shift_bloomed (poll_search n f)) ;;
      sret (Logs (limit_logs logs (rf_limit f))))
    (fun a s' => serves now (Some id) s s' /\
       exists f', installed s' id f' now /\ poll_answer (sv_chain s) (PLogs n previous f) a f') none s.
Proof using HRok hash_fits bloom_total.
  intros Hs Hn Hf Hi. pose proof (ci_header _ _ _ _ (si_chain _ Hs)) as Hh. apply wp_bind, wp_gets, wp_bind, wp_lift.
  rw add_ok; [unfold fits in Hh; lia|]. eapply serves_bind; [by eapply (write_poll_serves now id _ s now)|].
  intros [] s1 H1 [Hi1 Hc1]. set (q := get_logs _ _ _ _).
  assert (Ha : answers q (fun l => (q (sv_chain s)).1 = Ok l) (sv_chain s1)) by (rw Hc1; apply get_logs_same; [apply Hs|done..]).
  eapply serves_bind; [apply on_chain_serves; [apply H1|exact Ha]|]. intros l s2 H2 [Hl Hp2]. apply serves_ret; [apply H2|].
  eexists. split; [unfold installed; rw Hp2; exact Hi1|]. split; [done|]. by exists l.
Qed.

Lemma filter_changes_serves now id s : service_inv s ->
  wp (filter_changes pubkey_to_address with_bloom shift_bloomed now id)
    (fun a s' => serves now (Some id) s s' /\ changes_right now id s a s') none s.
Proof using HRok hash_fits bloom_total.
  intros Hs. eapply serves_bind; [by apply poll_serves|]. intros o s1 H1 (Ho & Hin & Hout & Hc).
  pose proof (se_inv _ _ _ _ H1) as Hs1.
  assert (Hlift : forall m : M void Sv FilterChanges, is_Some o -> (forall f, o = Some f -> wp m (fun a s' => serves now (Some id) s1 s' /\
    exists f', installed s' id f' now /\ poll_answer (sv_chain s1) f a f') none s1) ->
    wp m (fun a s' => serves now (Some id) s1 s' /\ changes_right now id s a s') none s1).
  { intros m [f0 Hf0] Hm. eapply wp_conseq; [by apply Hm| |done]. intros a s' [H2 Ha]. split; [done|]. rw Hc in Ha. split.
    - intros f t Hi Ht. rw (Hin f t Hi Ht) in Hf0. by injection Hf0 as <-.
    - intros f t Hi Ht. by rw (Hout f t Hi Ht) in Hf0. }
  destruct o as [[n|n previous f]|].
  - apply Hlift; [done|]. intros ? [= <-]. apply block_changes; [done|apply Ho..].
  - apply Hlift; [done|]. intros ? [= <-]. destruct Ho as [[] ?]. by apply log_changes.
  - apply serves_ret; [done|]. split; [|done]. intros f t Hi Ht. by discriminate (Hin f t Hi Ht).
Qed.

Lemma filter_logs_serves now id s : service_inv s ->
  wp (filter_logs pubkey_to_address with_bloom shift_bloomed now id)
    (fun o s' => serves now (Some id) s s' /\
       forall f t, installed s id f t -> now - t < POLL_LIFETIME ->
         match f with
         | PBlock _ => o = None
         | PLogs _ _ r => exists l, (get_logs pubkey_to_address with_bloom shift_bloomed (into_filter r) (sv_chain s)).1 = Ok l /\ o = Some l
         end) none s.
Proof using HRok hash_fits bloom_total.
  intros Hs. eapply serves_bind; [by apply poll_serves|]. intros o s1 H1 (Ho & Hin & _ & Hc). pose proof (se_inv _ _ _ _ H1) as Hs1.
  destruct o as [[n|n previous f]|].
  - apply serves_ret; [done|]. intros f t Hi Ht. by injection (Hin f t Hi Ht) as <-.
  - destruct Ho as [[_ []] _].
    eapply serves_bind; [apply on_chain_serves; [done|apply get_logs_same; [apply Hs1|done..]]|]. intros l s2 H2 [Hl _].
    apply serves_ret; [apply H2|]. intros f' t Hi Ht. injection (Hin f' t Hi Ht) as <-. rw Hc in Hl. by exists l.
  - apply serves_ret; [done|]. intros f t Hi Ht. discriminate (Hin f t Hi Ht).
Qed.

Lemma uninstall_filter_serves now id s : service_inv s ->
  wp (uninstall_filter now id)
    (fun b s' => serves now (Some id) s s' /\ (forall f t, ~ installed s' id f t) /\
       (forall f t, installed s id f t -> now - t < POLL_LIFETIME -> b = true)) none s.
Proof using.
  intros Hs. eapply serves_bind; [by apply poll_serves|]. intros [f|] s1 H1 (Ho & Hin & _).
  - eapply serves_bind; [apply remove_poll_serves; apply H1|]. intros [] s2 H2 Hr. apply serves_ret; [apply H2|done].
  - apply serves_ret; [apply H1|]. split; [done|]. intros f t Hi Ht. discriminate (Hin f t Hi Ht).
Qed.

(** ** All requests *)
Abbreviation search f c := ((get_logs pubkey_to_address with_bloom shift_bloomed f c).1).

(** A receipt with its place. *)
Definition placed_receipt (c : Ch) (id : H256) (o : option LocalizedReceipt) : Prop :=
  match address_of c id with
  | None => o = None
  | Some a =>
      exists n s l r l', number_of c (ta_block_hash a) = Some n /\ transaction_of pubkey_to_address c id = Some s /\
        receipts_of c (ta_block_hash a) = Some l' /\ similar l l' /\ l !! Z.to_nat (ta_index a) = Some r /\
        o = localized encode_address_nonce id a n s (take (Z.to_nat (ta_index a)) l) <$> r
  end.

(** Requests that do not panic: the parameters could be read where the code
    insists on them, hashes and heights have their widths, ids are left. *)
Definition request_ok (s : Sv) (r : RpcRequest) : Prop :=
  match r with
  | QBlockByHash (Some (h, _)) => plain h
  | QBlockByHeight p => exists n b, p = Some (n, b) /\ id_ok (block_id n)
  | QTransaction h => fits 256 h
  | QTransactionReceipt h => fits 256 h /\ ~ gas_falls (sv_chain s) h
  | QFilter (Some f) => rpc_filter_ok f
  | QNewFilter p => exists f, p = Some f /\ rpc_filter_ok f /\ fits 64 (next_available_id (sv_polls s) + 1)
  | QNewBlockFilter => fits 64 (next_available_id (sv_polls s) + 1)
  | _ => True
  end.

(** The answer [a] to a request, and what becomes of its filter. *)
Definition answer_right (now : Z) (s : Sv) (r : RpcRequest) (a : RpcReply (Proof_ := Proof_)) (s' : Sv) : Prop :=
  let c := sv_chain s in
  let next := next_available_id (sv_polls s) in
  match r with
  | QBlockNumber => a = RNumber (max_store_height c)
  | QBlockByHash (Some (h, txs)) => a = from_option (RBlock h txs) RNone (number_of c h ≫= block_at pubkey_to_address c)
  | QBlockByHash None => a = RBlockError
  | QBlockByHeight p =>
      exists n txs, p = Some (n, txs) /\
        a = from_option (fun b => RBlock (header_hash rlp_out (header b)) txs b) RNone
              (id_number c (block_id n) ≫= block_at pubkey_to_address c)
  | QTransaction h => exists o, a = from_option RTransaction RNone o /\ placed_transaction c h o
  | QTransactionReceipt h => exists o, a = from_option RReceipt RNone o /\ placed_receipt c h o
  | QFilter (Some f) => exists l, search (into_filter f) c = Ok l /\ a = RLogs l
  | QFilter None => a = RQueryError
  | QCall | QTransactionCount | QCode => a = ToExecutor
  | QNewFilter p => exists f, p = Some f /\ a = RFilterId next /\ installed s' next (PLogs (get_current_height c) [] f) now
  | QNewBlockFilter => a = RFilterId next /\ installed s' next (PBlock (get_current_height c)) now
  | QUninstallFilter id =>
      exists b, a = RUninstall b /\ (forall f t, ~ installed s' id f t) /\
        (forall f t, installed s id f t -> now - t < POLL_LIFETIME -> b = true)
  | QFilterChanges id => exists x, a = RFilterChanges x /\ changes_right now id s x s'
  | QFilterLogs id =>
      exists l, a = RFilterLogs l /\
        forall f t, installed s id f t -> now - t < POLL_LIFETIME ->
          match f with PBlock _ => l = [] | PLogs _ _ r => search (into_filter r) c = Ok l end
  | QOther => a = RNothing
  end.

(** The last step of a request: [g] of what was found. *)
Lemma serves_map {A B} now o (m : M void Sv A) (g : A -> B) (Q : A -> Sv -> Prop) (R : B -> Sv -> Prop) s :
  wp m (fun a s' => serves now o s s' /\ Q a s') none s -> (forall a s', Q a s' -> R (g a) s') ->
  wp (a <~ m ;; sret (g a)) (fun b s' => serves now o s s' /\ R b s') none s.
Proof using.
  intros Hm HQ. apply wp_bind. eapply wp_conseq; [exact Hm| |done]. intros a s' [Hs Ha]. apply wp_ret. split; [done|by apply HQ].
Qed.

Lemma localized_receipt_answers h c : inv c -> fits 256 h -> ~ gas_falls c h ->
  answers (localized_receipt pubkey_to_address encode_address_nonce h) (placed_receipt c h) c.
Proof using HRok.
  intros Hc Hh Hg. pose proof (localized_receipt_settles pubkey_to_address encode_address_nonce h _ c (ci_good _ _ _ _ Hc) (ci_index _ _ _ _ Hc) Hh) as Hs.
  unfold settles, ChainReads.answers, wp in *. destruct (localized_receipt _ _ h c) as [[] ]; [by destruct Hs as (? & _ & ?)|done|by apply Hg].
Qed.

Abbreviation answer_request := (answer_request pubkey_to_address encode_address_nonce with_bloom shift_bloomed).
Abbreviation reply_request := (reply_request pubkey_to_address encode_address_nonce with_bloom shift_bloomed).

(** Requests that only look at the chain. *)
Lemma lookup_serves now s r : service_inv s -> request_ok s r -> asks r = None -> r <> QNewBlockFilter -> (forall f, r <> QNewFilter f) ->
  wp (answer_request now r) (fun a s' => serves now (asks r) s s' /\ answer_right now s r a s') none s.
Proof using HRok hash_fits bloom_total.
  intros Hs Hr Hn Hb Hf. pose proof (si_chain _ Hs) as Hc.
  destruct r as [ |[[h txs]|]|p|h|h|[f|]| | | |f| |id|id|id| ]; try done; try (by apply serves_ret).
  - apply wp_bind, wp_get. apply serves_ret; [done|]. pose proof (ci_store _ _ _ _ Hc) as Hst. cbn.
    rw (proj2 (Z.eqb_neq (max_store_height (sv_chain s)) (2 ^ 64 - 1))); [lia|done].
  - eapply serves_map; [apply on_chain_serves; [done|apply block_by_hash_answers; [apply Hc|done]]|]. by intros o s' [-> _].
  - destruct Hr as (n & txs & -> & Hid). eapply (serves_map _ _ _ _ _ _ s); [apply on_chain_serves; [done|]|].
    + apply block_answers; [apply Hc|done|by eapply inv_top].
    + intros o s' [-> _]. by exists n, txs.
  - eapply serves_map; [apply on_chain_serves; [done|by apply full_transaction_answers]|]. intros o s' [Ho _]. by exists o.
  - eapply serves_map; [apply on_chain_serves; [done|apply localized_receipt_answers; [done|apply Hr..]]|]. intros o s' [Ho _]. by exists o.
  - eapply serves_map; [apply on_chain_serves; [done|apply get_logs_same; [done|apply Hr..]]|]. intros l s' [Hl _]. by exists l.
  - by destruct (Hf f).
Qed.

Lemma new_filter_serves now s r : service_inv s -> request_ok s r -> r = QNewBlockFilter \/ (exists f, r = QNewFilter f) ->
  wp (answer_request now r) (fun a s' => serves now (asks r) s s' /\ answer_right now s r a s') none s.
Proof using.
  intros Hs Hr Hq. pose proof (inv_top _ _ _ _ (si_chain _ Hs)) as Ht. destruct Hq as [->|[p ->]].
  - eapply serves_map; [apply (wp_bind current_height), wp_gets; by apply create_poll_serves|]. intros id s' [-> Hi]. by split.
  - destruct Hr as (f & -> & Hf & Hid).
    eapply (serves_map _ _ (new_filter now f) _ _ _ s); [apply (wp_bind current_height), wp_gets; by apply create_poll_serves|].
    intros id s' [-> Hi]. by exists f.
Qed.

Lemma answer_request_serves now s r : service_inv s -> request_ok s r ->
  wp (answer_request now r) (fun a s' => serves now (asks r) s s' /\ answer_right now s r a s') none s.
Proof using HRok hash_fits bloom_total.
  intros Hs Hr. destruct r eqn:Heq; try (by apply lookup_serves); try (apply new_filter_serves; [done..|by eauto]).
  - eapply serves_map; [by apply uninstall_filter_serves|]. intros b s' Hb. by exists b.
  - eapply serves_map; [by apply filter_changes_serves|]. intros x s' Hx. by exists x.
  - eapply serves_map; [by apply filter_logs_serves|]. intros o s' Ho. exists (default [] o). split; [done|]. intros f t Hi Ht.
    specialize (Ho f t Hi Ht). destruct f; [by rw Ho|]. by destruct Ho as (l & Hl & ->).
Qed.

(** Exactly one message is sent. *)
Lemma reply_request_serves now s r : service_inv s -> request_ok s r ->
  wp (reply_request now (Some r))
    (fun _ s' => exists a s1, serves now (asks r) s s1 /\ answer_right now s r a s1 /\ s' = reply a s1) none s.
Proof using HRok hash_fits bloom_total.
  intros Hs Hr. apply (wp_bind (slift (Ok r))), wp_bind. eapply wp_conseq; [by apply answer_request_serves| |done].
  intros a s1 [H1 Ha]. apply wp_modify. by exists a, s1.
Qed.
End service.
