(* ===== verification/Trace.v ===== *)
(** * Traces of execution

    [cita-executor/core/src/trace]: the records of calls, creations and
    suicides ([types/trace.rs], [types/error.rs]), their flat form with the
    place in the tree of calls ([types/flat.rs]), their blooms and filters
    ([types/filter.rs]), and their RLP encodings, with that of [CallType] of
    [executed.rs].  The conversions of blooms ([blooms/bloom.rs]) keep the
    number: a bloom is a number of 2048 bits. *)

From S2P Require Import Prelude Evm Account NativeStorage Executive Block Codec.
From stdpp Require Import base gmap list strings.
Local Open Scope Z_scope.
Local Open Scope cita_scope.

Module TraceError.
Inductive t : Set := OutOfGas | BadJumpDestination | BadInstruction | StackUnderflow | OutOfStack | Internal.

Definition from (e : Error) : t :=
  match e with
  | Evm.OutOfGas => OutOfGas
  | Evm.BadJumpDestination _ => BadJumpDestination
  | Evm.BadInstruction _ => BadInstruction
  | Evm.StackUnderflow _ _ _ => StackUnderflow
  | Evm.OutOfStack _ _ _ => OutOfStack
  | Evm.Internal _ => Internal
  end.

Definition message (e : t) : string :=
  match e with
  | OutOfGas => "Out of gas"
  | BadJumpDestination => "Bad jump destination"
  | BadInstruction => "Bad instruction"
  | StackUnderflow => "Stack underflow"
  | OutOfStack => "Out of stack"
  | Internal => "Internal error"
  end.

Definition encode (e : t) : Z :=
  match e with
  | OutOfGas => 0
  | BadJumpDestination => 1
  | BadInstruction => 2
  | StackUnderflow => 3
  | OutOfStack => 4
  | Internal => 5
  end.

Definition decode (value : Z) : option t :=
  match value with
  | 0 => Some OutOfGas
  | 1 => Some BadJumpDestination
  | 2 => Some BadInstruction
  | 3 => Some StackUnderflow
  | 4 => Some OutOfStack
  | 5 => Some Internal
  | _ => None
  end.
End TraceError.

(** ** Actions and results *)
Module Trace.
Record CallResult : Set := { cr_gas_used : U256; cr_output : bytes }.
Record CreateResult : Set := { nr_gas_used : U256; nr_code : bytes; nr_address : Address }.

Record Call : Set := {
  c_from : Address;
  c_to : Address;
  c_value : U256;
  c_gas : U256;
  c_input : bytes;
  c_call_type : CallType.t;
}.

Record Create : Set := { n_from : Address; n_value : U256; n_gas : U256; n_init : bytes }.

Record Suicide : Set := { s_address : Address; s_refund_address : Address; s_balance : U256 }.

Inductive Action : Set :=
| ACall (call : Call)
| ACreate (create : Create)
| ASuicide (suicide : Suicide).

Inductive Res : Set :=
| RCall (r : CallResult)
| RCreate (r : CreateResult)
| FailedCall (e : TraceError.t)
| FailedCreate (e : TraceError.t)
| RNone.

Definition call_from (p : ActionParams.t) : Call :=
  {| c_from := ActionParams.sender p; c_to := ActionParams.address p;
     c_value := ActionValue_value (ActionParams.value p); c_gas := ActionParams.gas p;
     c_input := default [] (ActionParams.data p); c_call_type := ActionParams.call_type p |}.

Definition create_from (p : ActionParams.t) : Create :=
  {| n_from := ActionParams.sender p; n_value := ActionValue_value (ActionParams.value p);
     n_gas := ActionParams.gas p; n_init := default [] (ActionParams.code p) |}.

Definition succeeded (r : Res) : bool := match r with RCall _ | RCreate _ => true | _ => false end.

(** ** Traces of the machine *)
Record MemoryDiff : Set := { md_offset : Z; md_data : bytes }.
Record StorageDiff : Set := { sd_location : U256; sd_value : U256 }.

Record VMExecutedOperation : Set := {
  x_gas_used : U256;
  x_stack_push : list U256;
  x_mem_diff : option MemoryDiff;
  x_store_diff : option StorageDiff;
}.

Record VMOperation : Set := {
  o_pc : Z;
  o_instruction : Z;
  o_gas_cost : U256;
  o_executed : option VMExecutedOperation;
}.
Definition VMOperation_default : VMOperation :=
  {| o_pc := 0; o_instruction := 0; o_gas_cost := 0; o_executed := None |}.

Inductive VMTrace : Set := mkVMTrace
  (parent_step : Z) (code : bytes) (operations : list VMOperation) (subs : list VMTrace).
Definition vm_parent_step (t : VMTrace) : Z := let '(mkVMTrace p _ _ _) := t in p.
Definition vm_code (t : VMTrace) : bytes := let '(mkVMTrace _ c _ _) := t in c.
Definition vm_operations (t : VMTrace) : list VMOperation := let '(mkVMTrace _ _ o _) := t in o.
Definition vm_subs (t : VMTrace) : list VMTrace := let '(mkVMTrace _ _ _ s) := t in s.

(** ** Flat traces *)
Record FlatTrace : Set := {
  f_action : Action;
  f_result : Res;
  f_subtraces : Z;
  f_trace_address : list Z;
}.
Definition FlatTransactionTraces : Set := list FlatTrace.
Definition FlatBlockTraces : Set := list FlatTransactionTraces.

Record LocalizedTrace : Set := {
  l_action : Action;
  l_result : Res;
  l_subtraces : Z;
  l_trace_address : list Z;
  l_transaction_number : Z;
  l_transaction_hash : H256;
  l_block_number : Z;
  l_block_hash : H256;
}.
End Trace.
Import Trace.

(** ** Blooms and filters *)
Section blooms.
  Context {HU : Util} (from_bloomed : H256 -> Z) (with_bloomed : Z -> H256 -> Z).

(** [address.crypt_hash()]. *)
Definition hash_address (a : Address) : H256 := crypt_hash (to_be 20 a).

Definition call_bloom (c : Call) : Z := with_bloomed (from_bloomed (hash_address (c_from c))) (hash_address (c_to c)).
Definition create_bloom (c : Create) : Z := from_bloomed (hash_address (n_from c)).
Definition suicide_bloom (s : Suicide) : Z :=
  with_bloomed (from_bloomed (hash_address (s_address s))) (hash_address (s_refund_address s)).
Definition created_bloom (r : CreateResult) : Z := from_bloomed (hash_address (nr_address r)).

Definition action_bloom (a : Action) : Z :=
  match a with ACall c => call_bloom c | ACreate c => create_bloom c | ASuicide s => suicide_bloom s end.

Definition res_bloom (r : Res) : Z :=
  match r with RCreate r => created_bloom r | RCall _ | FailedCall _ | FailedCreate _ | RNone => 0 end.

Definition trace_bloom (t : FlatTrace) : Z := Z.lor (action_bloom (f_action t)) (res_bloom (f_result t)).
Definition transaction_bloom (l : FlatTransactionTraces) : Z := fold_left (fun b t => Z.lor b (trace_bloom t)) l 0.
Definition block_bloom (l : FlatBlockTraces) : Z := fold_left (fun b t => Z.lor b (transaction_bloom t)) l 0.

Definition AddressesFilter : Set := list Address.
Definition matches_all (f : AddressesFilter) : bool := match f with [] => true | _ => false end.
Definition matches (f : AddressesFilter) (a : Address) : bool := matches_all f || bool_decide (a ∈ f).

Definition blooms (f : AddressesFilter) : list Z :=
  match f with
  | [] => [0]
  | _ => (fun a => from_bloomed (hash_address a)) <$> f
  end.

Definition with_blooms (f : AddressesFilter) (bs : list Z) : list Z :=
  match f with
  | [] => bs
  | _ => bs ≫= (fun b => (fun a => with_bloomed b (hash_address a)) <$> f)
  end.

(** The range is given to the bloom library as it is. *)
Record TraceFilter : Set := {
  tf_range : Z * Z;
  tf_from_address : AddressesFilter;
  tf_to_address : AddressesFilter;
}.

Definition trace_possibilities (f : TraceFilter) : list Z :=
  with_blooms (tf_to_address f) (blooms (tf_from_address f)).

Definition trace_matches (f : TraceFilter) (t : FlatTrace) : bool :=
  match f_action t with
  | ACall c => matches (tf_from_address f) (c_from c) && matches (tf_to_address f) (c_to c)
  | ACreate c =>
      matches (tf_from_address f) (n_from c) &&
      match f_result t with RCreate r => matches (tf_to_address f) (nr_address r) | _ => false end
  | ASuicide s => matches (tf_from_address f) (s_address s) && matches (tf_to_address f) (s_refund_address s)
  end.
End blooms.

(** ** RLP *)
Section codecs.
  Context {HR : RlpLib}.
Abbreviation usize_at := (val_at (get_uint 64)).
Abbreviation word_at := (val_at (get_uint 256)).
Abbreviation address_at := (val_at (get_hash 20)).
Abbreviation bytes_at := (val_at get_bytes).

#[export] Instance Rlp_CallType : Rlp CallType.t := {
  to_rlp c := put_uint match c with
    | CallType.None => 0 | CallType.Call => 1 | CallType.CallCode => 2 | CallType.DelegateCall => 3
    end;
  of_rlp r := value ← get_uint 8 r;
    match value with
    | 0 => Some CallType.None | 1 => Some CallType.Call | 2 => Some CallType.CallCode
    | 3 => Some CallType.DelegateCall | _ => None
    end;
}.

#[export] Instance Rlp_TraceError : Rlp TraceError.t := {
  to_rlp e := put_uint (TraceError.encode e);
  of_rlp r := get_uint 8 r ≫= TraceError.decode;
}.

#[export] Instance Rlp_CallResult : Rlp CallResult := {
  to_rlp c := RList [put_uint (cr_gas_used c); put_bytes (cr_output c)];
  of_rlp r :=
    gas_used ← word_at r 0;
    output ← bytes_at r 1;
    Some {| cr_gas_used := gas_used; cr_output := output |};
}.

#[export] Instance Rlp_CreateResult : Rlp CreateResult := {
  to_rlp c := RList [put_uint (nr_gas_used c); put_bytes (nr_code c); put_hash 20 (nr_address c)];
  of_rlp r :=
    gas_used ← word_at r 0;
    code ← bytes_at r 1;
    address ← address_at r 2;
    Some {| nr_gas_used := gas_used; nr_code := code; nr_address := address |};
}.

#[export] Instance Rlp_Call : Rlp Call := {
  to_rlp c := RList [put_hash 20 (c_from c); put_hash 20 (c_to c); put_uint (c_value c); put_uint (c_gas c);
                     put_bytes (c_input c); to_rlp (c_call_type c)];
  of_rlp r :=
    from ← address_at r 0;
    to ← address_at r 1;
    value ← word_at r 2;
    gas ← word_at r 3;
    input ← bytes_at r 4;
    call_type ← val_at of_rlp r 5;
    Some {| c_from := from; c_to := to; c_value := value; c_gas := gas; c_input := input; c_call_type := call_type |};
}.

#[export] Instance Rlp_Create : Rlp Create := {
  to_rlp c := RList [put_hash 20 (n_from c); put_uint (n_value c); put_uint (n_gas c); put_bytes (n_init c)];
  of_rlp r :=
    from ← address_at r 0;
    value ← word_at r 1;
    gas ← word_at r 2;
    init ← bytes_at r 3;
    Some {| n_from := from; n_value := value; n_gas := gas; n_init := init |};
}.

#[export] Instance Rlp_Suicide : Rlp Suicide := {
  to_rlp s := RList [put_hash 20 (s_address s); put_hash 20 (s_refund_address s); put_uint (s_balance s)];
  of_rlp r :=
    address ← address_at r 0;
    refund_address ← address_at r 1;
    balance ← word_at r 2;
    Some {| s_address := address; s_refund_address := refund_address; s_balance := balance |};
}.

#[export] Instance Rlp_TraceAction : Rlp Trace.Action := {
  to_rlp a := RList match a with
    | ACall c => [put_uint 0; to_rlp c]
    | ACreate c => [put_uint 1; to_rlp c]
    | ASuicide s => [put_uint 2; to_rlp s]
    end;
  of_rlp r :=
    action_type ← val_at (get_uint 8) r 0;
    match action_type with
    | 0 => ACall <$> val_at of_rlp r 1
    | 1 => ACreate <$> val_at of_rlp r 1
    | 2 => ASuicide <$> val_at of_rlp r 1
    | _ => None
    end;
}.

#[export] Instance Rlp_Res : Rlp Res := {
  to_rlp a := RList match a with
    | RCall c => [put_uint 0; to_rlp c]
    | RCreate c => [put_uint 1; to_rlp c]
    | FailedCall e => [put_uint 2; to_rlp e]
    | FailedCreate e => [put_uint 3; to_rlp e]
    | RNone => [put_uint 4]
    end;
  of_rlp r :=
    action_type ← val_at (get_uint 8) r 0;
    match action_type with
    | 0 => RCall <$> val_at of_rlp r 1
    | 1 => RCreate <$> val_at of_rlp r 1
    | 2 => FailedCall <$> val_at of_rlp r 1
    | 3 => FailedCreate <$> val_at of_rlp r 1
    | 4 => Some RNone
    | _ => None
    end;
}.

#[export] Instance Rlp_FlatTrace : Rlp FlatTrace := {
  to_rlp t := RList [to_rlp (f_action t); to_rlp (f_result t); put_uint (f_subtraces t);
                     put_list put_uint (f_trace_address t)];
  of_rlp r :=
    trace_address ← val_at (get_list (get_uint 64)) r 3;
    action ← val_at of_rlp r 0;
    result ← val_at of_rlp r 1;
    subtraces ← usize_at r 2;
    Some {| f_action := action; f_result := result; f_subtraces := subtraces; f_trace_address := trace_address |};
}.

#[export] Instance Rlp_FlatTransactionTraces : Rlp FlatTransactionTraces := {
  to_rlp := put_list to_rlp;
  of_rlp := get_list of_rlp;
}.

#[export] Instance Rlp_FlatBlockTraces : Rlp FlatBlockTraces := {
  to_rlp := put_list to_rlp;
  of_rlp := get_list of_rlp;
}.

(** [blooms::BloomGroup]: a list of blooms. *)
Definition BloomGroup : Set := list Z.
#[export] Instance Rlp_BloomGroup : Rlp BloomGroup := {
  to_rlp := put_list (put_hash 256);
  of_rlp := get_list (get_hash 256);
}.

#[export] Instance Rlp_MemoryDiff : Rlp MemoryDiff := {
  to_rlp d := RList [put_uint (md_offset d); put_bytes (md_data d)];
  of_rlp r :=
    offset ← usize_at r 0;
    data ← bytes_at r 1;
    Some {| md_offset := offset; md_data := data |};
}.

#[export] Instance Rlp_StorageDiff : Rlp StorageDiff := {
  to_rlp d := RList [put_uint (sd_location d); put_uint (sd_value d)];
  of_rlp r :=
    location ← word_at r 0;
    value ← word_at r 1;
    Some {| sd_location := location; sd_value := value |};
}.

#[export] Instance Rlp_VMExecutedOperation : Rlp VMExecutedOperation := {
  to_rlp x := RList [put_uint (x_gas_used x); put_list put_uint (x_stack_push x);
                     put_option to_rlp (x_mem_diff x); put_option to_rlp (x_store_diff x)];
  of_rlp r :=
    gas_used ← word_at r 0;
    stack_push ← val_at (get_list (get_uint 256)) r 1;
    mem_diff ← val_at (get_option of_rlp) r 2;
    store_diff ← val_at (get_option of_rlp) r 3;
    Some {| x_gas_used := gas_used; x_stack_push := stack_push; x_mem_diff := mem_diff; x_store_diff := store_diff |};
}.

#[export] Instance Rlp_VMOperation : Rlp VMOperation := {
  to_rlp o := RList [put_uint (o_pc o); put_uint (o_instruction o); put_uint (o_gas_cost o);
                     put_option to_rlp (o_executed o)];
  of_rlp r :=
    pc ← usize_at r 0;
    instruction ← val_at (get_uint 8) r 1;
    gas_cost ← word_at r 2;
    executed ← val_at (get_option of_rlp) r 3;
    Some {| o_pc := pc; o_instruction := instruction; o_gas_cost := gas_cost; o_executed := executed |};
}.

Fixpoint vm_to_rlp (t : VMTrace) : rlp :=
  let '(mkVMTrace parent_step code operations subs) := t in
  RList [put_uint parent_step; put_bytes code; put_list to_rlp operations; RList (map vm_to_rlp subs)].

(** The items in order; items after the fourth are not looked at. *)
Fixpoint vm_of_rlp (r : rlp) : option VMTrace :=
  match r with
  | RList (r0 :: r1 :: r2 :: RList r3 :: _) =>
      parent_step ← get_uint 64 r0;
      code ← get_bytes r1;
      operations ← get_list of_rlp r2;
      subs ← mapM vm_of_rlp r3;
      Some (mkVMTrace parent_step code operations subs)
  | _ => None
  end.

#[export] Instance Rlp_VMTrace : Rlp VMTrace := { to_rlp := vm_to_rlp; of_rlp := vm_of_rlp }.
End codecs.
