(* ===== verification/Tracer.v ===== *)
(** * Tracers

    [cita-executor/core/src/trace]: the traits [Tracer] and [VMTracer]
    ([mod.rs]) as classes, with the tracers that record
    ([executive_tracer.rs]) and those that do not ([noop_tracer.rs]); and the
    way the executive and the machine drive them ([executive.rs],
    [externalities.rs], [evm/interpreter/mod.rs]).

    What happens in an execution besides tracing is the argument: a [Run] is
    the record of a call or creation with the instructions it executed, the
    stack before and the memory after each of them.  What the machine makes of
    these for its tracer ([mem_written], [store_written], the slice of the
    memory) is computed here and may panic.  The
    number of traces of a transaction is far from the width of a machine word:
    counting them does not overflow. *)

From S2P Require Import Prelude Evm Stack Interpreter Account NativeStorage Executive Block Codec Trace.
From stdpp Require Import base gmap list.
Import Trace.
Local Open Scope Z_scope.
Local Open Scope cita_scope.

(** ** The traits *)
Class Tracer (T : Type) : Type := {
  prepare_trace_call : T -> ActionParams.t -> option Call;
  prepare_trace_create : T -> ActionParams.t -> option Create;
  prepare_trace_output : T -> option bytes;
  trace_call : option Call -> U256 -> option bytes -> list FlatTrace -> T -> outcome void T;
  trace_create : option Create -> U256 -> option bytes -> Address -> list FlatTrace -> T -> outcome void T;
  trace_failed_call : option Call -> list FlatTrace -> TraceError.t -> T -> outcome void T;
  trace_failed_create : option Create -> list FlatTrace -> TraceError.t -> T -> outcome void T;
  trace_suicide : Address -> U256 -> Address -> T -> T;
  subtracer : T -> T;
  traces : T -> list FlatTrace;
}.

Class VMTracer (V : Type) : Type := {
  vm_prepare_execute : Z -> Z -> U256 -> V -> V * bool;
  vm_executed : U256 -> list U256 -> option (Z * bytes) -> option (U256 * U256) -> V -> outcome void V;
  prepare_subtrace : bytes -> V -> outcome void V;
  done_subtrace : V -> V -> V;
  drain_vm : V -> option VMTrace;
}.

(** ** The recording tracer *)
Definition ExecutiveTracer : Set := list FlatTrace.

Definition top_level_subtraces (l : list FlatTrace) : Z :=
  zlen (filter (fun t => f_trace_address t = []) l).

Definition push_front (i : Z) (t : FlatTrace) : FlatTrace :=
  {| f_action := f_action t; f_result := f_result t; f_subtraces := f_subtraces t;
     f_trace_address := i :: f_trace_address t |}.

Definition address_is_empty (t : FlatTrace) : bool := match f_trace_address t with [] => true | _ => false end.

(** The loop with its two variables. *)
Fixpoint prefix_loop (l : list FlatTrace) (current_subtrace_index : Z) (first : bool) : list FlatTrace :=
  match l with
  | [] => []
  | t :: l =>
      let '(current_subtrace_index, first) :=
        match first, address_is_empty t with
        | true, _ => (current_subtrace_index, false)
        | _, true => (current_subtrace_index + 1, first)
        | _, _ => (current_subtrace_index, first)
        end in
      push_front current_subtrace_index t :: prefix_loop l current_subtrace_index first
  end.
Definition prefix_subtrace_addresses (l : list FlatTrace) : list FlatTrace := prefix_loop l 0 true.

(** A trace of the own level, followed by those of the levels below. *)
Definition push_trace (a : Trace.Action) (r : Res) (sub : list FlatTrace) (t : ExecutiveTracer) : ExecutiveTracer :=
  t ++ [{| f_action := a; f_result := r; f_subtraces := top_level_subtraces sub; f_trace_address := [] |}] ++
  prefix_subtrace_addresses sub.

#[export] Instance Tracer_Executive : Tracer ExecutiveTracer := {
  prepare_trace_call _ p := Some (call_from p);
  prepare_trace_create _ p := Some (create_from p);
  prepare_trace_output _ := Some [];
  trace_call call gas_used output sub t :=
    call <- expect call ;;
    output <- expect output ;;
    Ok (push_trace (ACall call) (RCall {| cr_gas_used := gas_used; cr_output := output |}) sub t);
  trace_create create gas_used code address sub t :=
    create <- expect create ;;
    code <- expect code ;;
    Ok (push_trace (ACreate create) (RCreate {| nr_gas_used := gas_used; nr_code := code; nr_address := address |}) sub t);
  trace_failed_call call sub error t :=
    call <- expect call ;;
    Ok (push_trace (ACall call) (FailedCall error) sub t);
  trace_failed_create create sub error t :=
    create <- expect create ;;
    Ok (push_trace (ACreate create) (FailedCreate error) sub t);
  trace_suicide address balance refund_address t :=
    t ++ [{| f_action := ASuicide {| s_address := address; s_refund_address := refund_address; s_balance := balance |};
             f_result := RNone; f_subtraces := 0; f_trace_address := [] |}];
  subtracer _ := [];
  traces t := t;
}.

(** ** The recording tracer of the machine *)
Definition ExecutiveVMTracer : Set := VMTrace.
Definition toplevel : ExecutiveVMTracer := mkVMTrace 0 [] [VMOperation_default] [].

Definition set_executed (x : VMExecutedOperation) (o : VMOperation) : VMOperation :=
  {| o_pc := o_pc o; o_instruction := o_instruction o; o_gas_cost := o_gas_cost o; o_executed := Some x |}.

(** [last_mut]. *)
Fixpoint update_last {A} (f : A -> A) (l : list A) : option (list A) :=
  match l with
  | [] => None
  | [x] => Some [f x]
  | x :: l => cons x <$> update_last f l
  end.

#[export] Instance VMTracer_Executive : VMTracer ExecutiveVMTracer := {
  vm_prepare_execute pc instruction gas_cost v :=
    (mkVMTrace (vm_parent_step v) (vm_code v)
       (vm_operations v ++ [{| o_pc := pc; o_instruction := instruction; o_gas_cost := gas_cost; o_executed := None |}])
       (vm_subs v), true);
  vm_executed gas_used stack_push mem_diff store_diff v :=
    let ex := {| x_gas_used := gas_used; x_stack_push := stack_push;
                 x_mem_diff := (fun '(s, r) => {| md_offset := s; md_data := r |}) <$> mem_diff;
                 x_store_diff := (fun '(l, v) => {| sd_location := l; sd_value := v |}) <$> store_diff |} in
    ops <- expect (update_last (set_executed ex) (vm_operations v)) ;;
    Ok (mkVMTrace (vm_parent_step v) (vm_code v) ops (vm_subs v));
  prepare_subtrace code v :=
    step <- sub_ (zlen (vm_operations v)) 1 ;;
    Ok (mkVMTrace step code [] []);
  done_subtrace sub v := mkVMTrace (vm_parent_step v) (vm_code v) (vm_operations v) (vm_subs v ++ [sub]);
  drain_vm v := last (vm_subs v);
}.

(** ** The tracers that record nothing *)
Inductive NoopTracer : Set := mkNoopTracer.
Inductive NoopVMTracer : Set := mkNoopVMTracer.

Definition is_none {A} (o : option A) : bool := match o with None => true | Some _ => false end.

#[export] Instance Tracer_Noop : Tracer NoopTracer := {
  prepare_trace_call _ _ := None;
  prepare_trace_create _ _ := None;
  prepare_trace_output _ := None;
  trace_call call _ output _ t := _ <- assert_ (is_none call) ;; _ <- assert_ (is_none output) ;; Ok t;
  trace_create create _ code _ _ t := _ <- assert_ (is_none create) ;; _ <- assert_ (is_none code) ;; Ok t;
  trace_failed_call call _ _ t := _ <- assert_ (is_none call) ;; Ok t;
  trace_failed_create create _ _ t := _ <- assert_ (is_none create) ;; Ok t;
  trace_suicide _ _ _ t := t;
  subtracer _ := mkNoopTracer;
  traces _ := [];
}.

#[export] Instance VMTracer_Noop : VMTracer NoopVMTracer := {
  vm_prepare_execute _ _ _ v := (v, false);
  vm_executed _ _ _ _ v := Ok v;
  prepare_subtrace _ _ := Ok mkNoopVMTracer;
  done_subtrace _ v := v;
  drain_vm _ := None;
}.

(** ** Driving the tracers *)

(** A call or creation that was executed: of a native contract; of a builtin,
    with its cost and output; of an account without code; of code, with the
    instructions, what was returned, and the gas left or the error.  An
    instruction may call, create or commit suicide; one that fails is not
    finished.  Of a finished one, the gas left, the words it pushed, the stack
    before it and the memory after it are known. *)
Record Finished : Set := {
  fi_gas_used : U256;
  fi_stack_push : list U256;
  fi_stack : VecStack.t Z;
  fi_memory : bytes;
}.

(** What is looked up on the stack is there, or the machine panics. *)
Definition on_stack {A} (r : outcome Error A) : outcome void A := match r with Ok a => Ok a | _ => Panic end.

(** [self.mem[o..(o + s)]] of [mem_written]. *)
Definition mem_diff (instruction : Z) (f : Finished) : outcome void (option (Z * bytes)) :=
  written <- on_stack (mem_written instruction (fi_stack f)) ;;
  match written with
  | Some (o, s) =>
      e <- add_ 64 o s ;;
      d <- slice (fi_memory f) o e ;;
      Ok (Some (o, d))
  | None => Ok None
  end.

Definition store_diff (instruction : Z) (f : Finished) : outcome void (option (U256 * U256)) :=
  on_stack (store_written instruction (fi_stack f)).

Inductive Run : Set :=
| RunNative
| RunBuiltin (p : ActionParams.t) (cost : U256) (output : bytes)
| RunPlain (p : ActionParams.t)
| RunCode (p : ActionParams.t) (code : bytes) (steps : list Step) (returned : option bytes) (res : Error + U256)
| RunCreate (p : ActionParams.t) (code : bytes) (steps : list Step) (returned : option bytes) (res : Error + U256)
with Step : Set :=
| mkStep (pc instruction : Z) (gas_cost : U256) (event : Event) (finished : option Finished)
with Event : Set :=
| Quiet
| Sub (r : Run)
| Suicides (address : Address) (balance : U256) (refund_address : Address).

Section drive.
  Context {T V : Type} {HT : Tracer T} {HV : VMTracer V}.

(** [OutputPolicy]: a copy of what is returned goes to the trace. *)
Definition copy_output (returned : option bytes) (trace_output : option bytes) : option bytes :=
  match returned with
  | Some data => (fun _ => data) <$> trace_output
  | None => trace_output
  end.

(** [if trace_executed { ext.trace_executed(..) }]. *)
Definition trace_finished (instruction : Z) (finished : option Finished) (trace_executed : bool) (tv : T * V) : outcome void (T * V) :=
  match finished with
  | Some f =>
      if trace_executed then
        md <- mem_diff instruction f ;;
        sd <- store_diff instruction f ;;
        v <- vm_executed (fi_gas_used f) (fi_stack_push f) md sd tv.2 ;;
        Ok (tv.1, v)
      else Ok tv
  | None => Ok tv
  end.

(** The rounds of the machine, on the tracers of its level; a call or creation
    runs on them too. *)
Section rounds.
  Context (trace_run : Run -> T -> V -> outcome void (T * V)).

Definition trace_step (s : Step) (tv : T * V) : outcome void (T * V) :=
  let '(mkStep pc instruction gas_cost event finished) := s in
  let '(t, v) := tv in
  let '(v, trace_executed) := vm_prepare_execute pc instruction gas_cost v in
  tv <- match event with
        | Quiet => Ok (t, v)
        | Sub r => trace_run r t v
        | Suicides address balance refund_address => Ok (trace_suicide address balance refund_address t, v)
        end ;;
  trace_finished instruction finished trace_executed tv.

Fixpoint trace_steps (l : list Step) (tv : T * V) : outcome void (T * V) :=
  match l with
  | [] => Ok tv
  | s :: l => tv <- trace_step s tv ;; trace_steps l tv
  end.
End rounds.

(** [Executive::call] and [Executive::create] at a depth, as far as the
    tracers go. *)
Fixpoint trace_run (depth : Z) (r : Run) (t : T) (v : V) : outcome void (T * V) :=
  match r with
  | RunNative => Ok (t, v)
  | RunBuiltin p cost output =>
      let trace_info := prepare_trace_call t p in
      if cost <=? ActionParams.gas p then
        if depth =? 0 then
          t <- trace_call trace_info cost ((fun _ => output) <$> prepare_trace_output t) [] t ;;
          Ok (t, v)
        else Ok (t, v)
      else t <- trace_failed_call trace_info [] (TraceError.from OutOfGas) t ;; Ok (t, v)
  | RunPlain p =>
      t <- trace_call (prepare_trace_call t p) 0 (prepare_trace_output t) [] t ;; Ok (t, v)
  | RunCode p code steps returned res =>
      let trace_info := prepare_trace_call t p in
      let trace_output := prepare_trace_output t in
      subvm <- prepare_subtrace code v ;;
      tv <- trace_steps (trace_run (depth + 1)) steps (subtracer t, subvm) ;;
      let v := done_subtrace tv.2 v in
      let trace_output := copy_output returned trace_output in
      match res with
      | inr gas_left =>
          gas_used <- sub_ (ActionParams.gas p) gas_left ;;
          t <- trace_call trace_info gas_used trace_output (traces tv.1) t ;; Ok (t, v)
      | inl e => t <- trace_failed_call trace_info (traces tv.1) (TraceError.from e) t ;; Ok (t, v)
      end
  | RunCreate p code steps returned res =>
      let trace_info := prepare_trace_create t p in
      let trace_output := prepare_trace_output t in
      subvm <- prepare_subtrace code v ;;
      tv <- trace_steps (trace_run (depth + 1)) steps (subtracer t, subvm) ;;
      let v := done_subtrace tv.2 v in
      let trace_output := copy_output returned trace_output in
      match res with
      | inr gas_left =>
          gas_used <- sub_ (ActionParams.gas p) gas_left ;;
          t <- trace_create trace_info gas_used trace_output (ActionParams.address p) (traces tv.1) t ;; Ok (t, v)
      | inl e => t <- trace_failed_create trace_info (traces tv.1) (TraceError.from e) t ;; Ok (t, v)
      end
  end.

(** [transact_with_tracer]: a transaction that stores data runs nothing. *)
Definition trace_transaction (r : option Run) (t : T) (v : V) : outcome void (list FlatTrace * option VMTrace) :=
  tv <- match r with Some r => trace_run 0 r t v | None => Ok (t, v) end ;;
  Ok (traces tv.1, drain_vm tv.2).
End drive.

(** [Executive::transact]: the choice of the tracers. *)
Definition transact_traces (tracing vm_tracing : bool) (r : option Run) : outcome void (list FlatTrace * option VMTrace) :=
  match tracing, vm_tracing with
  | true, true => trace_transaction r ([] : ExecutiveTracer) toplevel
  | true, false => trace_transaction r ([] : ExecutiveTracer) mkNoopVMTracer
  | false, true => trace_transaction r mkNoopTracer toplevel
  | false, false => trace_transaction r mkNoopTracer mkNoopVMTracer
  end.
