(* ===== verification/TracerSpec.v ===== *)
(** * What the tracers record

    The calls of a transaction form a tree.  The recording tracer holds the
    trees of its level, flattened: a trace is followed by the traces below it,
    and its address is the path to it.  [Records] and [VMRecords] say what a
    tracer promises to the executive; the recording tracers and those that
    record nothing keep the promise, so one proof covers every combination. *)

From S2P Require Import Prelude Evm Account NativeStorage Executive Block Codec Trace Tracer.
From stdpp Require Import base gmap list.
Import Trace.
Local Open Scope Z_scope.
Local Open Scope cita_scope.

(** ** Trees of calls *)
Inductive CallTree : Set := Node (a : Trace.Action) (r : Res) (subs : list CallTree).

Definition flat (a : Trace.Action) (r : Res) (n : Z) (path : list Z) : FlatTrace :=
  {| f_action := a; f_result := r; f_subtraces := n; f_trace_address := path |}.

Section forest.
  Context (flatten : list Z -> CallTree -> list FlatTrace) (path : list Z).
Fixpoint forest_ (i : Z) (l : list CallTree) : list FlatTrace :=
  match l with
  | [] => []
  | t :: l => flatten (path ++ [i]) t ++ forest_ (i + 1) l
  end.
End forest.

(** A node, then the trees below it. *)
Fixpoint flatten (path : list Z) (t : CallTree) : list FlatTrace :=
  let '(Node a r subs) := t in flat a r (zlen subs) path :: forest_ flatten path 0 subs.
Abbreviation forest := (forest_ flatten).

(** The trees of one level, as a tracer holds them. *)
Definition flats (l : list CallTree) : list FlatTrace := concat (flatten [] <$> l).

Lemma tree_ind' (P : CallTree -> Prop) :
  (forall a r subs, Forall P subs -> P (Node a r subs)) -> forall t, P t.
Proof.
  intros H. fix IH 1. intros [a r subs]. apply H.
  induction subs as [|t subs IHs]; constructor; [apply IH|apply IHs].
Qed.

Lemma push_front_flatten i t : forall path, push_front i <$> flatten path t = flatten (i :: path) t.
Proof.
  induction t as [a r subs IH] using tree_ind'. intros path. cbn [flatten fmap list_fmap]. f_equal.
  generalize 0. induction IH as [|t subs Ht Hs IH]; intros k; [done|]. cbn [forest_]. rw fmap_app Ht IH. done.
Qed.

(** Below a node no address is empty. *)
Lemma flatten_deep t : forall path, path <> [] -> Forall (fun f => f_trace_address f <> []) (flatten path t).
Proof.
  induction t as [a r subs IH] using tree_ind'. intros path Hp. cbn [flatten]. constructor; [done|].
  generalize 0. induction IH as [|t subs Ht Hs IH]; intros k; [constructor|]. cbn [forest_].
  apply Forall_app. split; [apply Ht; by destruct path|apply IH].
Qed.

Lemma forest_deep path i l : Forall (fun f => f_trace_address f <> []) (forest path i l).
Proof.
  revert i. induction l as [|t l IH]; intros i; [constructor|]. cbn [forest_].
  apply Forall_app. split; [apply flatten_deep; by destruct path|apply IH].
Qed.

Lemma flats_cons a r subs l : flats (Node a r subs :: l) = flat a r (zlen subs) [] :: forest [] 0 subs ++ flats l.
Proof. done. Qed.

Lemma flats_app l l' : flats (l ++ l') = flats l ++ flats l'.
Proof. unfold flats. by rw fmap_app concat_app. Qed.

Lemma filter_deep l : Forall (fun f => f_trace_address f <> []) l -> filter (fun f => f_trace_address f = []) l = [].
Proof. induction 1 as [|f l Hf Hl IH]; [done|]. by rw filter_cons_False. Qed.

Lemma top_level_flats l : top_level_subtraces (flats l) = zlen l.
Proof.
  unfold top_level_subtraces, zlen. f_equal. induction l as [|[a r subs] l IH]; [done|]. rw flats_cons.
  rw filter_cons_True; [done|]. rw filter_app filter_deep; [apply forest_deep|]. cbn. by rw IH.
Qed.

Lemma prefix_deep l rest i : Forall (fun f => f_trace_address f <> []) l ->
  prefix_loop (l ++ rest) i false = (push_front i <$> l) ++ prefix_loop rest i false.
Proof.
  induction 1 as [|f l Hf Hl IH]; [done|]. cbn [app prefix_loop fmap list_fmap]. unfold address_is_empty.
  destruct (f_trace_address f) eqn:E; [done|]. by rw IH.
Qed.

Lemma prefix_tree t l i b : prefix_loop (flatten [] t ++ flats l) i b =
  flatten [if b then i else i + 1] t ++ prefix_loop (flats l) (if b then i else i + 1) false.
Proof.
  destruct t as [a r subs]. rw -push_front_flatten. cbn [flatten app prefix_loop fmap list_fmap].
  destruct b; cbn [address_is_empty f_trace_address flat]; rw prefix_deep; by [apply forest_deep|].
Qed.

Lemma prefix_flats l i : prefix_loop (flats l) i false = forest [] (i + 1) l.
Proof.
  revert i. induction l as [|t l IH]; intros i; [done|]. change (flats (t :: l)) with (flatten [] t ++ flats l).
  rw prefix_tree IH. done.
Qed.

Lemma prefix_subtraces l : prefix_subtrace_addresses (flats l) = forest [] 0 l.
Proof.
  unfold prefix_subtrace_addresses. destruct l as [|t l]; [done|]. change (flats (t :: l)) with (flatten [] t ++ flats l).
  rw prefix_tree prefix_flats. done.
Qed.

(** A trace pushed with the traces below it is a new tree of the level. *)
Lemma push_trace_flats a r sub l : push_trace a r (flats sub) (flats l) = flats (l ++ [Node a r sub]).
Proof.
  unfold push_trace. rw top_level_flats prefix_subtraces flats_app. f_equal.
  unfold flats. cbn [fmap list_fmap concat flatten]. by rw app_nil_r.
Qed.

(** ** What a tracer promises *)
Class Records (T : Type) {HT : Tracer T} (rec : list CallTree -> T) : Prop := {
  rec_sub l : subtracer (rec l) = rec [];
  rec_call l sub p g out :
    trace_call (prepare_trace_call (rec l) p) g (copy_output out (prepare_trace_output (rec l))) (traces (rec sub)) (rec l) =
    Ok (rec (l ++ [Node (ACall (call_from p)) (RCall {| cr_gas_used := g; cr_output := default [] out |}) sub]));
  rec_create l sub p g out a :
    trace_create (prepare_trace_create (rec l) p) g (copy_output out (prepare_trace_output (rec l))) a (traces (rec sub)) (rec l) =
    Ok (rec (l ++ [Node (ACreate (create_from p)) (RCreate {| nr_gas_used := g; nr_code := default [] out; nr_address := a |}) sub]));
  rec_failed_call l sub p e :
    trace_failed_call (prepare_trace_call (rec l) p) (traces (rec sub)) e (rec l) =
    Ok (rec (l ++ [Node (ACall (call_from p)) (FailedCall e) sub]));
  rec_failed_create l sub p e :
    trace_failed_create (prepare_trace_create (rec l) p) (traces (rec sub)) e (rec l) =
    Ok (rec (l ++ [Node (ACreate (create_from p)) (FailedCreate e) sub]));
  rec_suicide l a b r :
    trace_suicide a b r (rec l) =
    rec (l ++ [Node (ASuicide {| s_address := a; s_refund_address := r; s_balance := b |}) RNone []]);
  rec_none : traces (rec []) = [];
}.

#[export] Instance Records_Executive : Records ExecutiveTracer flats.
Proof.
  split; intros.
  - done.
  - destruct out; cbn; by rw push_trace_flats.
  - destruct out; cbn; by rw push_trace_flats.
  - cbn. by rw push_trace_flats.
  - cbn. by rw push_trace_flats.
  - cbn. by rw flats_app.
  - done.
Qed.

#[export] Instance Records_Noop : Records NoopTracer (fun _ => mkNoopTracer).
Proof. split; intros; try destruct out; done. Qed.

(** The tracer of the machine records the operations and the levels below; it
    says whether it wants to know of finished operations. *)
Definition started (pc instruction : Z) (gas_cost : U256) : VMOperation :=
  {| o_pc := pc; o_instruction := instruction; o_gas_cost := gas_cost; o_executed := None |}.

Definition executed_op (f : Finished) (md : option (Z * bytes)) (sd : option (U256 * U256)) : VMExecutedOperation :=
  {| x_gas_used := fi_gas_used f; x_stack_push := fi_stack_push f;
     x_mem_diff := (fun '(s, r) => {| md_offset := s; md_data := r |}) <$> md;
     x_store_diff := (fun '(l, v) => {| sd_location := l; sd_value := v |}) <$> sd |}.

Definition answer {A} (r : outcome void (option A)) : option A := match r with Ok o => o | _ => None end.

Definition finish (i : Z) (f : Finished) (o : VMOperation) : VMOperation :=
  set_executed (executed_op f (answer (mem_diff i f)) (answer (store_diff i f))) o.

(** The memory the instruction is said to have written is there. *)
Definition traceable (i : Z) (f : Finished) : Prop :=
  (exists md, mem_diff i f = Ok md) /\ exists sd, store_diff i f = Ok sd.

Class VMRecords (V : Type) {HV : VMTracer V} (vrec : VMTrace -> V) (flag : bool) : Prop := {
  vrec_prepare s c ops subs pc i g :
    vm_prepare_execute pc i g (vrec (mkVMTrace s c ops subs)) = (vrec (mkVMTrace s c (ops ++ [started pc i g]) subs), flag);
  vrec_executed s c ops o subs f md sd :
    (if flag then vm_executed (fi_gas_used f) (fi_stack_push f) md sd (vrec (mkVMTrace s c (ops ++ [o]) subs))
     else Ok (vrec (mkVMTrace s c (ops ++ [o]) subs))) = Ok (vrec (mkVMTrace s c (ops ++ [set_executed (executed_op f md sd) o]) subs));
  vrec_sub s c ops subs code : ops <> [] ->
    prepare_subtrace code (vrec (mkVMTrace s c ops subs)) = Ok (vrec (mkVMTrace (zlen ops - 1) code [] []));
  vrec_done s c ops subs sub :
    done_subtrace (vrec sub) (vrec (mkVMTrace s c ops subs)) = vrec (mkVMTrace s c ops (subs ++ [sub]));
}.

Lemma update_last_snoc {A} (f : A -> A) l x : update_last f (l ++ [x]) = Some (l ++ [f x]).
Proof.
  induction l as [|y l IH]; [done|]. cbn [app update_last]. rw IH. by destruct l.
Qed.

#[export] Instance VMRecords_Executive : VMRecords ExecutiveVMTracer (fun t => t) true.
Proof.
  split; intros.
  - done.
  - cbn -[update_last]. by rw update_last_snoc.
  - cbn -[zlen]. rw sub_ok; [|done]. destruct ops; [done|]. unfold zlen. cbn [length]. lia.
  - done.
Qed.

#[export] Instance VMRecords_Noop : VMRecords NoopVMTracer (fun _ => mkNoopVMTracer) false.
Proof. split; done. Qed.

(** ** What an execution leaves *)

(** The trees of a run at a depth: builtins that succeed below the top and
    native contracts leave none. *)
Section below.
  Context (trees : Run -> list CallTree) (vm_trees : Z -> Run -> list VMTrace) (vm : bool) (run_ok : Run -> Prop).

Definition step_trees (s : Step) : list CallTree :=
  let '(mkStep _ _ _ event _) := s in
  match event with
  | Quiet => []
  | Sub r => trees r
  | Suicides a b rf => [Node (ASuicide {| s_address := a; s_refund_address := rf; s_balance := b |}) RNone []]
  end.

Fixpoint steps_trees (l : list Step) : list CallTree :=
  match l with [] => [] | s :: l => step_trees s ++ steps_trees l end.

Definition step_vm (k : Z) (s : Step) : list VMTrace :=
  let '(mkStep _ _ _ event _) := s in match event with Sub r => vm_trees k r | _ => [] end.

Fixpoint steps_vm (k : Z) (l : list Step) : list VMTrace :=
  match l with [] => [] | s :: l => step_vm k s ++ steps_vm (k + 1) l end.

Definition step_ok (s : Step) : Prop :=
  let '(mkStep _ i _ event f) := s in
  match event with Sub r => run_ok r | _ => True end /\ (vm = true -> forall x, f = Some x -> traceable i x).

Fixpoint steps_ok (l : list Step) : Prop :=
  match l with [] => True | s :: l => step_ok s /\ steps_ok l end.
End below.

Fixpoint trees (depth : Z) (r : Run) : list CallTree :=
  match r with
  | RunNative => []
  | RunBuiltin p cost output =>
      if cost <=? ActionParams.gas p then
        if depth =? 0 then [Node (ACall (call_from p)) (RCall {| cr_gas_used := cost; cr_output := output |}) []] else []
      else [Node (ACall (call_from p)) (FailedCall TraceError.OutOfGas) []]
  | RunPlain p => [Node (ACall (call_from p)) (RCall {| cr_gas_used := 0; cr_output := [] |}) []]
  | RunCode p code steps returned res =>
      [Node (ACall (call_from p))
         match res with
         | inr gas_left => RCall {| cr_gas_used := ActionParams.gas p - gas_left; cr_output := default [] returned |}
         | inl e => FailedCall (TraceError.from e)
         end (steps_trees (trees (depth + 1)) steps)]
  | RunCreate p code steps returned res =>
      [Node (ACreate (create_from p))
         match res with
         | inr gas_left => RCreate {| nr_gas_used := ActionParams.gas p - gas_left; nr_code := default [] returned;
                                      nr_address := ActionParams.address p |}
         | inl e => FailedCreate (TraceError.from e)
         end (steps_trees (trees (depth + 1)) steps)]
  end.

Definition step_op (s : Step) : VMOperation :=
  let '(mkStep pc i g _ f) := s in from_option (fun f => finish i f (started pc i g)) (started pc i g) f.

(** The machine traces of a run called by the operation [step]; those below
    point to the operation that called them. *)
Fixpoint vm_trees (step : Z) (r : Run) : list VMTrace :=
  match r with
  | RunCode _ code steps _ _ | RunCreate _ code steps _ _ => [mkVMTrace step code (map step_op steps) (steps_vm vm_trees 0 steps)]
  | _ => []
  end.

(** No more gas is left than was given, and, if the machine is traced, the
    memory its instructions wrote is there. *)
Fixpoint run_ok (vm : bool) (r : Run) : Prop :=
  match r with
  | RunCode p _ steps _ res | RunCreate p _ steps _ res =>
      steps_ok vm (run_ok vm) steps /\ match res with inr gas_left => gas_left <= ActionParams.gas p | inl _ => True end
  | _ => True
  end.

(** ** The runs *)
Lemma run_ind' (P : Run -> Prop) (Q : Step -> Prop) :
  (forall pc i g event f, match event with Sub r => P r | _ => True end -> Q (mkStep pc i g event f)) ->
  P RunNative -> (forall p cost output, P (RunBuiltin p cost output)) -> (forall p, P (RunPlain p)) ->
  (forall p code steps returned res, Forall Q steps -> P (RunCode p code steps returned res)) ->
  (forall p code steps returned res, Forall Q steps -> P (RunCreate p code steps returned res)) ->
  forall r, P r.
Proof.
  intros HQ H1 H2 H3 H4 H5. fix IH 1. intros [| | |p code steps returned res|p code steps returned res]; [done|done|done| |].
  - apply H4. induction steps as [|[pc i g event f] steps IHs]; constructor; [|exact IHs]. apply HQ.
    destruct event as [|r|]; [exact I|apply IH|exact I].
  - apply H5. induction steps as [|[pc i g event f] steps IHs]; constructor; [|exact IHs]. apply HQ.
    destruct event as [|r|]; [exact I|apply IH|exact I].
Qed.

Section runs.
  Context {T V : Type} {HT : Tracer T} {HV : VMTracer V} (rec : list CallTree -> T) (vrec : VMTrace -> V) (flag : bool).
  Context {HTok : Records T rec} {HVok : VMRecords V vrec flag}.

Definition traced_run (r : Run) : Prop := forall depth l s c ops subs, run_ok flag r -> ops <> [] ->
  trace_run depth r (rec l) (vrec (mkVMTrace s c ops subs)) =
  Ok (rec (l ++ trees depth r), vrec (mkVMTrace s c ops (subs ++ vm_trees (zlen ops - 1) r))).

Definition traced_step (x : Step) : Prop := forall depth l s c ops subs, step_ok flag (run_ok flag) x ->
  trace_step (trace_run depth) x (rec l, vrec (mkVMTrace s c ops subs)) =
  Ok (rec (l ++ step_trees (trees depth) x), vrec (mkVMTrace s c (ops ++ [step_op x]) (subs ++ step_vm vm_trees (zlen ops) x))).

Lemma steps_traced depth steps : Forall traced_step steps -> forall l s c ops subs, steps_ok flag (run_ok flag) steps ->
  trace_steps (trace_run depth) steps (rec l, vrec (mkVMTrace s c ops subs)) =
  Ok (rec (l ++ steps_trees (trees depth) steps),
      vrec (mkVMTrace s c (ops ++ map step_op steps) (subs ++ steps_vm vm_trees (zlen ops) steps))).
Proof using.
  induction 1 as [|x steps Hx Hs IH]; intros l s c ops subs Hok; [cbn; by rw !app_nil_r|].
  destruct Hok as [Hok1 Hok2]. cbn [trace_steps steps_trees steps_vm map]. rw Hx; [done|]. cbn [obind]. rw IH; [done|].
  rw -!app_assoc. rw zlen_app. done.
Qed.

Lemma step_traced pc i g event f : match event with Sub r => traced_run r | _ => True end -> traced_step (mkStep pc i g event f).
Proof using HTok HVok.
  intros Hr depth l s c ops subs [Hok Htr]. cbn [trace_step]. rw vrec_prepare.
  set (tv := match event with Quiet => _ | Sub _ => _ | Suicides _ _ _ => _ end).
  assert (E : tv = Ok (rec (l ++ step_trees (trees depth) (mkStep pc i g event f)),
    vrec (mkVMTrace s c (ops ++ [started pc i g]) (subs ++ step_vm vm_trees (zlen ops) (mkStep pc i g event f))))).
  { subst tv. destruct event as [|r|a b rf]; cbn [step_trees step_vm]; [by rw !app_nil_r| |by rw rec_suicide app_nil_r].
    rw Hr; [exact Hok|by destruct ops|]. rw zlen_app. change (zlen [started pc i g]) with 1. by rw Z.add_simpl_r. }
  rw E. cbn [obind]. destruct f as [f|]; [|done]. cbn [trace_finished snd fst step_op from_option]. pose proof (vrec_executed s c ops (started pc i g)) as Hx.
  unfold finish. destruct flag.
  - destruct (Htr eq_refl f eq_refl) as [[md ->] [sd ->]]. cbn [obind answer]. by rw Hx.
  - specialize (Hx (subs ++ step_vm vm_trees (zlen ops) (mkStep pc i g event (Some f))) f (answer (mem_diff i f)) (answer (store_diff i f))).
    cbn [step_vm] in Hx |- *. injection Hx as Hx. by rw Hx.
Qed.

(** The executive drives the tracers to exactly these trees. *)
Lemma run_traced r : traced_run r.
Proof using HTok HVok.
  revert r. apply (run_ind' traced_run traced_step);
    [by apply step_traced| |intros p cost output|intros p|intros p code steps returned res Hs..];
    intros depth l s c ops subs Hok Hne; cbn [trace_run trees vm_trees]; rw ?app_nil_r.
  - done.
  - pose proof (rec_call l [] p cost (Some output)) as Hc. pose proof (rec_failed_call l [] p TraceError.OutOfGas) as Hf.
    rw rec_none in Hc. rw rec_none in Hf. destruct (cost <=? _); [|by rw Hf]. destruct (depth =? 0); [by rw Hc|by rw app_nil_r].
  - pose proof (rec_call l [] p 0 None) as Hc. rw rec_none in Hc. by rw Hc.
  - destruct Hok as [Hok Hg]. rw vrec_sub; [done|]. cbn [obind]. rw rec_sub steps_traced; [done|done|]. cbn [obind fst snd app].
    rw vrec_done. destruct res as [e|gas_left]; [by rw rec_failed_call|]. rw sub_ok; [done|]. cbn [obind]. by rw rec_call.
  - destruct Hok as [Hok Hg]. rw vrec_sub; [done|]. cbn [obind]. rw rec_sub steps_traced; [done|done|]. cbn [obind fst snd app].
    rw vrec_done. destruct res as [e|gas_left]; [by rw rec_failed_create|]. rw sub_ok; [done|]. cbn [obind]. by rw rec_create.
Qed.
End runs.

(** ** Without the tracer of the machine *)

(** What the other tracer records does not depend on the tracer of the
    machine. *)
Section untraced.
  Context {T V : Type} {HT : Tracer T} {HV : VMTracer V}.

Definition untraced_run (r : Run) : Prop := forall depth (t t' : T) (v v' : V),
  trace_run depth r t v = Ok (t', v') -> trace_run depth r t mkNoopVMTracer = Ok (t', mkNoopVMTracer).

Definition untraced_step (s : Step) : Prop := forall depth (t t' : T) (v v' : V),
  trace_step (trace_run depth) s (t, v) = Ok (t', v') ->
  trace_step (trace_run depth) s (t, mkNoopVMTracer) = Ok (t', mkNoopVMTracer).

Lemma untraced_steps depth steps : Forall untraced_step steps -> forall (t t' : T) (v v' : V),
  trace_steps (trace_run depth) steps (t, v) = Ok (t', v') ->
  trace_steps (trace_run depth) steps (t, mkNoopVMTracer) = Ok (t', mkNoopVMTracer).
Proof using.
  induction 1 as [|x steps Hx Hs IH]; intros t t' v v'; cbn [trace_steps]; [by intros [= -> _]|].
  destruct (trace_step _ x (t, v)) as [[t1 v1]|err|] eqn:E; [|done|done]. rw (Hx _ _ _ _ _ E). cbn [obind]. apply IH.
Qed.

Lemma finished_same i f flag (t t' : T) (v v' : V) : trace_finished i f flag (t, v) = Ok (t', v') -> t' = t.
Proof using.
  unfold trace_finished. destruct f as [f|]; [|by intros [= -> _]]. destruct flag; [|by intros [= -> _]].
  destruct (mem_diff i f); [|done|done]. destruct (store_diff i f); [|done|done]. cbn [obind]. destruct (vm_executed _ _ _ _ _); [|done|done].
  by intros [= -> _].
Qed.

Lemma unfinished {V'} {HV' : VMTracer V'} i f (tv : T * V') : trace_finished i f false tv = Ok tv.
Proof using. by destruct f. Qed.

Lemma step_untraced pc i g event f : match event with Sub r => untraced_run r | _ => True end -> untraced_step (mkStep pc i g event f).
Proof using.
  intros Hr depth t t' v v'. cbn [trace_step]. destruct (vm_prepare_execute pc i g v) as [v1 flag]. cbn [vm_prepare_execute VMTracer_Noop].
  destruct event as [|r|a b rf]; cbn [obind]; [by intros ->%finished_same; rw unfinished| |by intros ->%finished_same; rw unfinished].
  destruct (trace_run depth r t v1) as [[t1 v2]|err|] eqn:E; [|done|done]. rw (Hr _ _ _ _ _ E). cbn [obind].
  by intros ->%finished_same; rw unfinished.
Qed.

Lemma run_untraced r : untraced_run r.
Proof using.
  revert r. apply (run_ind' untraced_run untraced_step);
    [by apply step_untraced| |intros p cost output|intros p|intros p code steps returned res Hs..];
    intros depth t t' v v'; cbn [trace_run].
  - by intros [= -> _].
  - destruct (cost <=? _); [destruct (depth =? 0); [destruct (trace_call _ _ _ _ _); [|done|done]|]|
      destruct (trace_failed_call _ _ _ _); [|done|done]]; by intros [= -> _].
  - destruct (trace_call _ _ _ _ _); [|done|done]. by intros [= -> _].
  - destruct (prepare_subtrace code v) as [subvm| |]; [|done|done]. cbn [prepare_subtrace VMTracer_Noop obind].
    destruct (trace_steps _ steps (subtracer t, subvm)) as [[t1 v1]|err|] eqn:E; [|done|done]. rw (untraced_steps _ _ Hs _ _ _ _ E).
    cbn [obind fst snd]. destruct res as [e|gas_left]; [destruct (trace_failed_call _ _ _ _); [|done|done]; by intros [= -> _]|].
    destruct (sub_ _ _) as [g| |]; [|done|done]. cbn [obind]. destruct (trace_call _ _ _ _ _); [|done|done]. by intros [= -> _].
  - destruct (prepare_subtrace code v) as [subvm| |]; [|done|done]. cbn [prepare_subtrace VMTracer_Noop obind].
    destruct (trace_steps _ steps (subtracer t, subvm)) as [[t1 v1]|err|] eqn:E; [|done|done]. rw (untraced_steps _ _ Hs _ _ _ _ E).
    cbn [obind fst snd]. destruct res as [e|gas_left]; [destruct (trace_failed_create _ _ _ _); [|done|done]; by intros [= -> _]|].
    destruct (sub_ _ _) as [g| |]; [|done|done]. cbn [obind]. destruct (trace_create _ _ _ _ _ _); [|done|done]. by intros [= -> _].
Qed.
End untraced.

(** The traces of calls are the same with and without machine traces. *)
Lemma calls_recorded vm r txs v : transact_traces true vm (Some r) = Ok (txs, v) ->
  transact_traces true false (Some r) = Ok (txs, None).
Proof.
  destruct vm; [|cbn [transact_traces]; unfold trace_transaction; intros H; rw H; f_equal;
    destruct (trace_run _ _ _ _) as [[]| |] in H; [|done|done]; by injection H as _ <-].
  unfold transact_traces, trace_transaction. destruct (trace_run 0 r _ toplevel) as [[t1 v1]|err|] eqn:E; [|done|done].
  rw (run_untraced r _ _ _ _ _ E). by intros [= -> _].
Qed.
