(* ===== verification/TraceSpec.v ===== *)
(** * Traces: encodings, blooms and addresses

    Traces survive their encoding; a trace that matches a filter has one of
    the blooms of the filter; the trace at an address is the node at the end
    of the path. *)

From S2P Require Import Prelude Evm Account NativeStorage NativeSpec Executive Block Codec CodecSpec Words ChainFilter Trace Tracer TracerSpec.
From stdpp Require Import base gmap list.
Import Trace.
Local Open Scope Z_scope.
Local Open Scope cita_scope.

(** ** Encodings *)
Section codecs.
  Context {HR : RlpLib} {HRok : RlpLibOk}.

Ltac trace_rounds :=
  cbn [mbind option_bind option_fmap option_map fmap lookup list_lookup val_at];
  repeat first
    [rw uint_round; [done|] | rw hash_round; [done|] | rw bytes_round; [done|] | rw rlp_round; [done|]];
  cbn [mbind option_bind option_fmap option_map fmap lookup list_lookup val_at].

#[export] Instance CallType_ok : RlpOk CallType.t (fun _ => True).
Proof using HRok. intros [] _; cbn; by rw uint_round. Qed.

#[export] Instance TraceError_ok : RlpOk TraceError.t (fun _ => True).
Proof using HRok. intros [] _; cbn; by rw uint_round. Qed.

Record call_result_ok (c : CallResult) : Prop := {
  cro_gas : fits 256 (cr_gas_used c);
  cro_output : bytes_ok (cr_output c);
}.
#[export] Instance CallResult_ok : RlpOk CallResult call_result_ok.
Proof using HRok. intros [g o] [Hg Ho]. cbn in *. by trace_rounds. Qed.

Record create_result_ok (c : CreateResult) : Prop := {
  nro_gas : fits 256 (nr_gas_used c);
  nro_code : bytes_ok (nr_code c);
  nro_address : fits 160 (nr_address c);
}.
#[export] Instance CreateResult_ok : RlpOk CreateResult create_result_ok.
Proof using HRok. intros [g o a] [Hg Ho Ha]. cbn in *. by trace_rounds. Qed.

Record call_ok (c : Call) : Prop := {
  co_from : fits 160 (c_from c);
  co_to : fits 160 (c_to c);
  co_value : fits 256 (c_value c);
  co_gas : fits 256 (c_gas c);
  co_input : bytes_ok (c_input c);
}.
#[export] Instance Call_ok : RlpOk Call call_ok.
Proof using HRok.
  intros [f t v g i ct] [Hf Ht Hv Hg Hi]. cbn -[to_rlp of_rlp] in *. cbn [to_rlp of_rlp Rlp_Call c_from c_to c_value c_gas c_input c_call_type].
  by trace_rounds.
Qed.

Record create_ok (c : Create) : Prop := {
  no_from : fits 160 (n_from c);
  no_value : fits 256 (n_value c);
  no_gas : fits 256 (n_gas c);
  no_init : bytes_ok (n_init c);
}.
#[export] Instance Create_ok : RlpOk Create create_ok.
Proof using HRok. intros [f v g i] [Hf Hv Hg Hi]. cbn in *. by trace_rounds. Qed.

Record suicide_ok (s : Suicide) : Prop := {
  so_address : fits 160 (s_address s);
  so_refund : fits 160 (s_refund_address s);
  so_balance : fits 256 (s_balance s);
}.
#[export] Instance Suicide_ok : RlpOk Suicide suicide_ok.
Proof using HRok. intros [a r b] [Ha Hr Hb]. cbn in *. by trace_rounds. Qed.

Definition trace_action_ok (a : Trace.Action) : Prop :=
  match a with ACall c => call_ok c | ACreate c => create_ok c | ASuicide s => suicide_ok s end.
#[export] Instance TraceAction_ok : RlpOk Trace.Action trace_action_ok.
Proof using HRok.
  intros [c|c|s] H; cbn [to_rlp of_rlp Rlp_TraceAction trace_action_ok] in *; by trace_rounds.
Qed.

Definition res_ok (r : Res) : Prop :=
  match r with RCall c => call_result_ok c | RCreate c => create_result_ok c | _ => True end.
#[export] Instance Res_ok : RlpOk Res res_ok.
Proof using HRok.
  intros [c|c|e|e|] H; cbn [to_rlp of_rlp Rlp_Res res_ok] in *; by trace_rounds.
Qed.

Record flat_ok (t : FlatTrace) : Prop := {
  fo_action : trace_action_ok (f_action t);
  fo_result : res_ok (f_result t);
  fo_subtraces : fits 64 (f_subtraces t);
  fo_address : Forall (fits 64) (f_trace_address t);
}.
#[export] Instance FlatTrace_ok : RlpOk FlatTrace flat_ok.
Proof using HRok.
  intros [a r n p] [Ha Hr Hn Hp]. cbn [f_action f_result f_subtraces f_trace_address] in *.
  cbn [to_rlp of_rlp Rlp_FlatTrace f_action f_result f_subtraces f_trace_address val_at lookup list_lookup mbind option_bind].
  rw list_round; [eapply Forall_impl; [exact Hp|]; intros x Hx; by apply uint_round|]. cbn [mbind option_bind].
  rw (rlp_round a Ha). cbn [mbind option_bind]. rw (rlp_round r Hr). cbn [mbind option_bind]. by rw uint_round.
Qed.

Definition block_traces_ok (l : FlatBlockTraces) : Prop := Forall (Forall flat_ok) l.

#[export] Instance FlatTransactionTraces_ok : RlpOk FlatTransactionTraces (Forall flat_ok).
Proof using HRok. intros l H. apply list_round. eapply Forall_impl; [exact H|]. intros t Ht. by apply rlp_round. Qed.

#[export] Instance FlatBlockTraces_ok : RlpOk FlatBlockTraces block_traces_ok.
Proof using HRok. intros l H. apply list_round. eapply Forall_impl; [exact H|]. intros t Ht. by apply rlp_round. Qed.

Definition group_ok (g : BloomGroup) : Prop := Forall (fits 2048) g.
#[export] Instance BloomGroup_ok : RlpOk BloomGroup group_ok.
Proof using HRok. intros l H. apply list_round. eapply Forall_impl; [exact H|]. intros t Ht. by apply (hash_round 256). Qed.

(** *** Machine traces *)
Definition memory_diff_ok (d : MemoryDiff) : Prop := fits 64 (md_offset d) /\ bytes_ok (md_data d).
#[export] Instance MemoryDiff_ok : RlpOk MemoryDiff memory_diff_ok.
Proof using HRok. intros [o d] [Ho Hd]. cbn in *. by trace_rounds. Qed.

Definition storage_diff_ok (d : StorageDiff) : Prop := fits 256 (sd_location d) /\ fits 256 (sd_value d).
#[export] Instance StorageDiff_ok : RlpOk StorageDiff storage_diff_ok.
Proof using HRok. intros [l v] [Hl Hv]. cbn in *. by trace_rounds. Qed.

Record executed_ok (x : VMExecutedOperation) : Prop := {
  xo_gas : fits 256 (x_gas_used x);
  xo_push : Forall (fits 256) (x_stack_push x);
  xo_mem : forall d, x_mem_diff x = Some d -> memory_diff_ok d;
  xo_store : forall d, x_store_diff x = Some d -> storage_diff_ok d;
}.
#[export] Instance VMExecutedOperation_ok : RlpOk VMExecutedOperation executed_ok.
Proof using HRok.
  intros [g st m s] [Hg Hst Hm Hs]. cbn [x_gas_used x_stack_push x_mem_diff x_store_diff] in *.
  cbn [to_rlp of_rlp Rlp_VMExecutedOperation x_gas_used x_stack_push x_mem_diff x_store_diff]. trace_rounds.
  rw list_round; [eapply Forall_impl; [exact Hst|]; intros x Hx; by apply uint_round|]. cbn [mbind option_bind].
  rw (option_round to_rlp of_rlp m); [intros d Hd; by apply rlp_round, Hm|]. cbn [mbind option_bind].
  rw (option_round to_rlp of_rlp s); [intros d Hd; by apply rlp_round, Hs|]. done.
Qed.

Record operation_ok (o : VMOperation) : Prop := {
  oo_pc : fits 64 (o_pc o);
  oo_instruction : fits 8 (o_instruction o);
  oo_gas : fits 256 (o_gas_cost o);
  oo_executed : forall x, o_executed o = Some x -> executed_ok x;
}.
#[export] Instance VMOperation_ok : RlpOk VMOperation operation_ok.
Proof using HRok.
  intros [pc i g x] [Hpc Hi Hg Hx]. cbn [o_pc o_instruction o_gas_cost o_executed] in *.
  cbn [to_rlp of_rlp Rlp_VMOperation o_pc o_instruction o_gas_cost o_executed]. trace_rounds.
  rw option_round; [intros d Hd; by apply rlp_round, Hx|]. done.
Qed.

Lemma vm_ind' (P : VMTrace -> Prop) : (forall s c ops subs, Forall P subs -> P (mkVMTrace s c ops subs)) -> forall t, P t.
Proof.
  intros H. fix IH 1. intros [s c ops subs]. apply H.
  induction subs as [|t subs IHs]; constructor; [apply IH|apply IHs].
Qed.

Inductive vm_ok : VMTrace -> Prop :=
| vm_ok_intro s c ops subs : fits 64 s -> bytes_ok c -> Forall operation_ok ops -> Forall vm_ok subs -> vm_ok (mkVMTrace s c ops subs).

#[export] Instance VMTrace_ok : RlpOk VMTrace vm_ok.
Proof using HRok.
  intros t. induction t as [s c ops subs IH] using vm_ind'. intros Hok. inversion Hok as [? ? ? ? Hs Hc Ho Hsub]; subst.
  cbn [to_rlp of_rlp Rlp_VMTrace vm_to_rlp vm_of_rlp]. rw uint_round; [done|]. cbn [mbind option_bind]. rw bytes_round; [done|]. cbn [mbind option_bind].
  rw list_round; [eapply Forall_impl; [exact Ho|]; intros x Hx; by apply rlp_round|]. cbn [mbind option_bind].
  replace (mapM vm_of_rlp (map vm_to_rlp subs)) with (Some subs); [done|]. symmetry. apply mapM_Some_2.
  change (map vm_to_rlp subs) with (vm_to_rlp <$> subs). apply Forall2_fmap_l, Forall_Forall2_diag.
  rw Forall_forall in IH. rw Forall_forall in Hsub. apply Forall_forall. intros x Hx. by apply IH, Hsub.
Qed.
End codecs.

(** ** Blooms *)
Section blooms.
  Context {HU : Util} (mask : H256 -> Z) (from_bloomed : H256 -> Z) (with_bloomed : Z -> H256 -> Z).
  Context (with_ok : forall b h, with_bloomed b h = Z.lor b (mask h)) (from_ok : forall h, from_bloomed h = mask h).
  Context (mask_nonzero : forall h, mask h <> 0).
Abbreviation bloom := (trace_bloom from_bloomed with_bloomed).
Abbreviation all_bloom := (block_bloom from_bloomed with_bloomed).
Abbreviation amask := (fun a => mask (hash_address a)).

(** A fold that adds blooms contains each of them. *)
Lemma fold_contains {A} (f : A -> Z) l b :
  contains (fold_left (fun b x => Z.lor b (f x)) l b) b /\
  forall x, x ∈ l -> contains (fold_left (fun b x => Z.lor b (f x)) l b) (f x).
Proof using.
  revert b. induction l as [|y l IH]; intros b; [split; [apply contains_refl|by inversion 1]|].
  cbn [fold_left]. destruct (IH (Z.lor b (f y))) as [H1 H2].
  split; [by eapply contains_trans, contains_l|]. intros x [->|Hx]%elem_of_cons; [|by apply H2].
  eapply contains_trans; [exact H1|apply contains_r].
Qed.

Lemma block_bloom_contains (l : FlatBlockTraces) ts t : ts ∈ l -> t ∈ ts -> contains (all_bloom l) (bloom t).
Proof using.
  intros Hts Ht. eapply contains_trans; [by apply (fold_contains (transaction_bloom from_bloomed with_bloomed))|].
  by apply (fold_contains bloom).
Qed.

Lemma matches_elem f a : matches f a = true -> f = [] \/ a ∈ f.
Proof using. unfold matches. destruct f as [|x f]; [by left|]. cbn [matches_all orb]. intros H%bool_decide_eq_true. by right. Qed.

(** What matches both lists of addresses has a bloom of the filter. *)
Lemma possible_addresses f b from to : matches (tf_from_address f) from = true -> matches (tf_to_address f) to = true ->
  contains b (amask from) -> contains b (amask to) ->
  exists p, p ∈ trace_possibilities from_bloomed with_bloomed f /\ contains b p.
Proof using with_ok from_ok.
  intros Hf Ht Hbf Hbt. unfold trace_possibilities.
  assert (H : exists p, p ∈ blooms from_bloomed (tf_from_address f) /\ contains b p).
  { apply matches_elem in Hf as [->|Hin]; [exists 0; split; [by left|apply contains_0]|]. exists (amask from). split; [|done].
    unfold blooms. destruct (tf_from_address f) as [|x l]; [by inversion Hin|]. apply list_elem_of_fmap. exists from. by rw from_ok. }
  destruct H as (p & Hp & Hc). apply matches_elem in Ht as [->|Hin]; [by exists p|].
  exists (Z.lor p (amask to)). split; [|by apply contains_lor]. unfold with_blooms.
  destruct (tf_to_address f) as [|x l]; [by inversion Hin|]. apply list_elem_of_bind. exists p. split; [|done].
  apply list_elem_of_fmap. exists to. by rw with_ok.
Qed.

Lemma trace_possible f t : trace_matches f t = true ->
  exists p, p ∈ trace_possibilities from_bloomed with_bloomed f /\ contains (bloom t) p.
Proof using with_ok from_ok.
  unfold trace_matches, trace_bloom. destruct t as [[c|c|s] r n path]; cbn [f_action f_result action_bloom].
  - intros [H1 H2]%andb_true_iff. eapply possible_addresses; [done..| |];
      (eapply contains_trans; [apply contains_l|]); unfold call_bloom; rw with_ok from_ok; [apply contains_l|apply contains_r].
  - intros [H1 H2]%andb_true_iff. destruct r as [|cr| | |]; [done| |done..]. eapply possible_addresses; [done..| |].
    + eapply contains_trans; [apply contains_l|]. unfold create_bloom. rw from_ok. apply contains_refl.
    + eapply contains_trans; [apply contains_r|]. cbn [res_bloom]. unfold created_bloom. rw from_ok. apply contains_refl.
  - intros [H1 H2]%andb_true_iff. eapply possible_addresses; [done..| |];
      (eapply contains_trans; [apply contains_l|]); unfold suicide_bloom; rw with_ok from_ok; [apply contains_l|apply contains_r].
Qed.

Lemma trace_bloom_nonzero t : bloom t <> 0.
Proof using with_ok from_ok mask_nonzero.
  assert (H : exists h, contains (bloom t) (mask h)); [|destruct H as [h H]; by eapply bloom_nonzero].
  unfold trace_bloom. destruct (f_action t) as [c|c|s]; cbn [action_bloom]; eexists; (eapply contains_trans; [apply contains_l|]).
  - unfold call_bloom. rw with_ok from_ok. apply contains_l.
  - unfold create_bloom. rw from_ok. apply contains_refl.
  - unfold suicide_bloom. rw with_ok from_ok. apply contains_l.
Qed.

Lemma fold_fits {A} (f : A -> Z) l b : fits 2048 b -> (forall x, fits 2048 (f x)) -> fits 2048 (fold_left (fun b x => Z.lor b (f x)) l b).
Proof using.
  intros Hb Hf. revert b Hb. induction l as [|x l IH]; intros b Hb; [done|]. cbn [fold_left]. by apply IH, lor_fits.
Qed.

Lemma trace_bloom_fits t : (forall h, fits 2048 (mask h)) -> fits 2048 (bloom t).
Proof using with_ok from_ok.
  intros Hm. assert (H0 : fits 2048 0) by (unfold fits; lia). unfold trace_bloom. apply lor_fits; [done| |].
  - destruct (f_action t); cbn [action_bloom]; unfold call_bloom, create_bloom, suicide_bloom; rw ?with_ok from_ok; [|done|]; by apply lor_fits.
  - destruct (f_result t); [done| |done..]. cbn [res_bloom]. unfold created_bloom. by rw from_ok.
Qed.

Lemma block_bloom_fits l : (forall h, fits 2048 (mask h)) -> fits 2048 (all_bloom l).
Proof using with_ok from_ok.
  intros Hm. assert (H0 : fits 2048 0) by (unfold fits; lia). apply fold_fits; [done|]. intros ts. apply fold_fits; [done|]. intros t. by apply trace_bloom_fits.
Qed.

(** A block with a trace that matches has a bloom of the filter. *)
Lemma block_possible f l ts t : ts ∈ l -> t ∈ ts -> trace_matches f t = true ->
  all_bloom l <> 0 /\ exists p, p ∈ trace_possibilities from_bloomed with_bloomed f /\ contains (all_bloom l) p.
Proof using with_ok from_ok mask_nonzero.
  intros Hts Ht Hm. pose proof (block_bloom_contains l ts t Hts Ht) as Hc. split.
  - eapply bloom_nonzero; [exact Hc|apply trace_bloom_nonzero].
  - destruct (trace_possible f t Hm) as (p & Hp & Hp'). exists p. split; [done|by eapply contains_trans].
Qed.
End blooms.

(** ** Addresses *)

(** The tree at the end of a path. *)
Fixpoint subtree (path : list Z) (t : CallTree) : option CallTree :=
  match path with
  | [] => Some t
  | i :: path => let '(Node _ _ subs) := t in if 0 <=? i then subs !! Z.to_nat i ≫= subtree path else None
  end.

Definition node_flat (path : list Z) (t : CallTree) : FlatTrace :=
  let '(Node a r subs) := t in flat a r (zlen subs) path.

Definition at_address (path : list Z) (t : FlatTrace) : bool := bool_decide (f_trace_address t = path).

Lemma find_app {A} (p : A -> bool) l l' :
  find p (l ++ l') = match find p l with Some x => Some x | None => find p l' end.
Proof. induction l as [|x l IH]; [done|]. cbn [app find]. by destruct (p x). Qed.

Lemma find_none {A} (p : A -> bool) l : Forall (fun x => p x = false) l -> find p l = None.
Proof. induction 1 as [|x l Hx Hl IH]; [done|]. cbn [find]. by rw Hx. Qed.

Lemma flatten_prefix t : forall path, Forall (fun f => path `prefix_of` f_trace_address f) (flatten path t).
Proof.
  induction t as [a r subs IH] using tree_ind'. intros path. cbn [flatten]. constructor; [done|].
  generalize 0. induction IH as [|t subs Ht Hs IH]; intros k; [constructor|]. cbn [forest_]. apply Forall_app. split; [|apply IH].
  eapply Forall_impl; [apply Ht|]. intros f Hf. etrans; [|exact Hf]. by apply prefix_app_r.
Qed.

Lemma prefix_diff (path rest : list Z) i j : i <> j -> ~ (path ++ [i]) `prefix_of` (path ++ j :: rest).
Proof. intros Hij H. apply prefix_app_inv in H. apply prefix_cons_inv_1 in H. done. Qed.

Lemma find_other path i j rest t : i <> j -> find (at_address (path ++ j :: rest)) (flatten (path ++ [i]) t) = None.
Proof.
  intros Hij. apply find_none. eapply Forall_impl; [apply flatten_prefix|]. intros f Hf. unfold at_address. apply bool_decide_eq_false.
  intros E. rw E in Hf. by apply (prefix_diff path rest i j).
Qed.

Lemma find_forest path rest j l : forall i,
  Forall (fun t => forall path', find (at_address (path' ++ rest)) (flatten path' t) = node_flat (path' ++ rest) <$> subtree rest t) l ->
  find (at_address (path ++ j :: rest)) (forest path i l) =
  if i <=? j then node_flat (path ++ j :: rest) <$> (l !! Z.to_nat (j - i) ≫= subtree rest) else None.
Proof.
  induction l as [|t l IH]; intros i Hl; [cbn; by destruct (i <=? j)|]. apply Forall_cons in Hl as [Ht Hl]. cbn [forest_]. rw find_app.
  destruct (decide (i = j)) as [->|Hij].
  - replace (path ++ j :: rest) with ((path ++ [j]) ++ rest) by by rw -app_assoc. rw Ht. rw Z.leb_refl Z.sub_diag. change ((t :: l) !! Z.to_nat 0) with (Some t).
    change (Some t ≫= subtree rest) with (subtree rest t). destruct (subtree rest t) as [n|] eqn:E; [done|]. cbn [fmap option_fmap option_map]. rw -app_assoc. cbn [app]. rw IH; [done|].
    by replace (j + 1 <=? j) with false by (symmetry; apply Z.leb_gt; lia).
  - rw find_other; [done|]. rw IH; [done|]. destruct (Z.leb_spec (i + 1) j); destruct (Z.leb_spec i j); [|lia|lia|done].
    by replace (Z.to_nat (j - i)) with (S (Z.to_nat (j - (i + 1)))) by lia.
Qed.

(** The trace found at an address is the node there, and there is no other. *)
Lemma find_flatten t : forall path rest,
  find (at_address (path ++ rest)) (flatten path t) = node_flat (path ++ rest) <$> subtree rest t.
Proof.
  induction t as [a r subs IH] using tree_ind'. intros path [|j rest]; cbn [flatten find].
  - unfold at_address at 1. cbn [flat f_trace_address]. rw bool_decide_eq_true_2; [by rw app_nil_r|]. cbn. by rw app_nil_r.
  - unfold at_address at 1. cbn [flat f_trace_address]. rw bool_decide_eq_false_2.
    { intros E. apply (f_equal length) in E. rw length_app in E. cbn in E. lia. }
    rw find_forest; [|cbn [subtree]; rw Z.sub_0_r; by destruct (0 <=? j)].
    eapply Forall_impl; [exact IH|]. intros x Hx path'. apply Hx.
Qed.

(** A transaction leaves at most one tree. *)
Lemma trees_single depth r : trees depth r = [] \/ exists t, trees depth r = [t].
Proof.
  destruct r as [|p cost output|p|p code steps returned res|p code steps returned res]; cbn [trees]; [by left| |by right; eexists..].
  destruct (cost <=? _); [destruct (depth =? 0)|]; [by right; eexists|by left|by right; eexists].
Qed.

Lemma find_transaction depth r path :
  find (at_address path) (flats (trees depth r)) = node_flat path <$> (head (trees depth r) ≫= subtree path).
Proof.
  destruct (trees_single depth r) as [->|[t ->]]; [done|]. unfold flats. cbn [fmap list_fmap concat head mbind option_bind]. rw app_nil_r.
  apply (find_flatten t [] path).
Qed.
