(* ===== verification/TraceDb.v ===== *)
(** * The database of traces

    [cita-executor/core/src/trace/db.rs], with [config.rs], [import.rs] and
    the positions of [blooms/group_position.rs]: traces of blocks under the
    hashes of the blocks, and groups of their blooms for the search.

    The bloom library [bloomchain] is a parameter.  It reads groups one after
    the other and gives an answer at the end: a program of type [ask].  The
    reads go through the cache of the database, as in the source.  The hashes
    of blocks and transactions are the trait [DatabaseExtras].  The cache
    manager decides what [collect_garbage] throws out: an argument. *)

From S2P Require Import Prelude Evm Account NativeStorage Executive Block Codec ChainDb Trace Tracer.
From stdpp Require Import base gmap list.
Import Trace.
Local Open Scope Z_scope.
Local Open Scope cita_scope.

Definition COL_TRACE : Z := 4.

(** [b"version"] and [TRACE_DB_VER]. *)
Definition version_key : bytes := [118; 101; 114; 115; 105; 111; 110].
Definition TRACE_DB_VER : bytes := [49; 46; 48].

(** [TraceDBIndex], the first byte of a key. *)
Definition index_BlockTraces : Z := 0.
Definition index_BloomGroups : Z := 1.

Definition key_traces (h : H256) : bytes := index_BlockTraces :: to_be 32 h.

Definition GroupPosition : Set := Z * Z.
Definition position_from (p : GroupPosition) : GroupPosition := (wrap 8 p.1, wrap 32 p.2).

Definition key_group (p : GroupPosition) : bytes :=
  [index_BloomGroups; p.1; wrap 8 p.2; wrap 8 (Z.shiftr p.2 8); wrap 8 (Z.shiftr p.2 16); wrap 8 (Z.shiftr p.2 24)].

Record BloomConfig : Set := { levels : Z; elements_per_index : Z }.
Record TraceConfig : Set := {
  tc_enabled : bool;
  tc_blooms : BloomConfig;
  tc_pref_cache_size : Z;
  tc_max_cache_size : Z;
}.
Definition TraceConfig_default : TraceConfig :=
  {| tc_enabled := false; tc_blooms := {| levels := 3; elements_per_index := 16 |};
     tc_pref_cache_size := 15 * 1024 * 1024; tc_max_cache_size := 20 * 1024 * 1024 |}.

Record ImportRequest : Set := {
  ir_traces : FlatBlockTraces;
  ir_block_hash : H256;
  ir_block_number : Z;
  ir_enacted : list H256;
  ir_retracted : Z;
}.

Inductive TraceCacheId : Set := CTrace (h : H256) | CBloom (p : GroupPosition).

(** A program that reads groups. *)
Inductive ask (A : Type) : Type :=
| Ret (a : A)
| Ask (p : GroupPosition) (k : option BloomGroup -> ask A).
Arguments Ret {A}.
Arguments Ask {A}.

Section tracedb.
  Context {HU : Util} {HR : RlpLib} {HB : RlpBytes} {D : Type} {HD : KvDb D}.
  Context (from_bloomed : H256 -> Z) (with_bloomed : Z -> H256 -> Z).
  Context (chain_replace : BloomConfig -> Z * Z -> list Z -> ask (list (GroupPosition * BloomGroup))).
  Context (chain_filter : BloomConfig -> Z * Z -> list Z -> ask (list Z)).

Record TraceDB : Type := mkTraceDB {
  traces_cache : gmap H256 FlatBlockTraces;
  blooms_cache : gmap GroupPosition BloomGroup;
  tracesdb : D;
  bloom_config : BloomConfig;
  enabled : bool;
}.
Abbreviation Db := (M void TraceDB).

Definition with_traces (m : gmap H256 FlatBlockTraces) (s : TraceDB) : TraceDB :=
  mkTraceDB m (blooms_cache s) (tracesdb s) (bloom_config s) (enabled s).
Definition with_groups (m : gmap GroupPosition BloomGroup) (s : TraceDB) : TraceDB :=
  mkTraceDB (traces_cache s) m (tracesdb s) (bloom_config s) (enabled s).
Definition with_tracesdb (d : D) (s : TraceDB) : TraceDB :=
  mkTraceDB (traces_cache s) (blooms_cache s) d (bloom_config s) (enabled s).

(** [KeyValueDB::write] of a batch, which the callers of [import] do. *)
Definition flush (b : DBTransaction) (s : TraceDB) : TraceDB := with_tracesdb (db_write b (tracesdb s)) s.

(** [TraceDB::new]. *)
Definition tracedb_new (config : TraceConfig) (block_hash : Z -> option H256) (d : D) : outcome void TraceDB :=
  genesis <- expect (block_hash 0) ;;
  let batch := write (H := Rlp_FlatBlockTraces) COL_TRACE (key_traces genesis) [] ++ [(COL_TRACE, version_key, TRACE_DB_VER)] in
  Ok (mkTraceDB ∅ ∅ (db_write batch d) (tc_blooms config) (tc_enabled config)).

Definition trace_blooms_at (p : GroupPosition) : Db (option BloomGroup) :=
  s <~ sget ;;
  r <~ slift (read_with_cache (H0 := Rlp_BloomGroup) (tracesdb s) COL_TRACE key_group (blooms_cache s) (position_from p)) ;;
  _ <~ smodify (with_groups r.2) ;;
  sret r.1.

(** The library at work. *)
Fixpoint run_ask {A} (a : ask A) : Db A :=
  match a with
  | Ret a => sret a
  | Ask p k => g <~ trace_blooms_at p ;; run_ask (k g)
  end.

Definition traces_of (block_hash : H256) : Db (option FlatBlockTraces) :=
  s <~ sget ;;
  r <~ slift (read_with_cache (H0 := Rlp_FlatBlockTraces) (tracesdb s) COL_TRACE key_traces (traces_cache s) block_hash) ;;
  _ <~ smodify (with_traces r.2) ;;
  sret r.1.

Definition drop_trace_id (s : TraceDB) (id : TraceCacheId) : TraceDB :=
  match id with
  | CTrace h => with_traces (delete h (traces_cache s)) s
  | CBloom p => with_groups (delete p (blooms_cache s)) s
  end.
Definition traces_collect_garbage (ids : list TraceCacheId) (s : TraceDB) : TraceDB := fold_left drop_trace_id ids s.

(** The blooms of the enacted blocks. *)
Fixpoint enacted_blooms (request : ImportRequest) (l : list H256) : Db (list Z) :=
  match l with
  | [] => sret []
  | h :: l =>
      b <~ (if h =? ir_block_hash request then sret (block_bloom from_bloomed with_bloomed (ir_traces request))
            else t <~ traces_of h ;; t <~ slift (expect t) ;; sret (block_bloom from_bloomed with_bloomed t)) ;;
      rest <~ enacted_blooms request l ;;
      sret (b :: rest)
  end.

(** [extend_with_cache] with [CacheUpdatePolicy::Remove]. *)
Definition extend_removing (values : list (GroupPosition * BloomGroup)) (b : DBTransaction)
    (cache : gmap GroupPosition BloomGroup) : DBTransaction * gmap GroupPosition BloomGroup :=
  fold_left (fun '(b, cache) '(k, v) => (b ++ write (H := Rlp_BloomGroup) COL_TRACE (key_group k) v, delete k cache))
    values (b, cache).

Definition rebuild_blooms (batch : DBTransaction) (request : ImportRequest) : Db DBTransaction :=
  n <~ slift (add_ 64 (ir_block_number request) 1) ;;
  range_start <~ slift (sub_ n (zlen (ir_enacted request))) ;;
  range_end <~ slift (add_ 64 range_start (ir_retracted request)) ;;
  blooms <~ enacted_blooms request (ir_enacted request) ;;
  s <~ sget ;;
  trace_blooms <~ run_ask (chain_replace (bloom_config s) (range_start, range_end) blooms) ;;
  let blooms_to_insert : gmap GroupPosition BloomGroup :=
    list_to_map ((fun '(p, g) => (position_from p, g)) <$> trace_blooms) in
  s <~ sget ;;
  let '(batch, cache) := extend_removing (map_to_list blooms_to_insert) batch (blooms_cache s) in
  _ <~ smodify (with_groups cache) ;;
  sret batch.

(** [TraceDB::import] adds to a batch of the caller. *)
Definition import (batch : DBTransaction) (request : ImportRequest) : Db DBTransaction :=
  let ret := negb (ir_retracted request =? 0) in
  let ena := negb (bool_decide (ir_enacted request = [])) in
  _ <~ slift (assert_ (negb (ret && negb ena))) ;;
  s <~ sget ;;
  if negb (enabled s) then sret batch
  else
    batch <~ (if ena then rebuild_blooms batch request else sret batch) ;;
    s <~ sget ;;
    let '(batch, cache) := write_with_cache (H0 := Rlp_FlatBlockTraces) COL_TRACE key_traces (ir_block_hash request)
                             (ir_traces request) batch (traces_cache s) in
    _ <~ smodify (with_traces cache) ;;
    sret batch.

(** ** Queries *)
Section queries.
  Context (block_hash : Z -> option H256) (transaction_hash : Z -> Z -> option H256).

Definition localize (tx_number : Z) (tx_hash : H256) (block_number : Z) (hash : H256) (t : FlatTrace) : LocalizedTrace :=
  {| l_action := f_action t; l_result := f_result t; l_subtraces := f_subtraces t; l_trace_address := f_trace_address t;
     l_transaction_number := tx_number; l_transaction_hash := tx_hash; l_block_number := block_number; l_block_hash := hash |}.

Definition trace (block_number : Z) (tx_position : nat) (trace_position : list Z) : Db (option LocalizedTrace) :=
  match block_hash block_number with
  | None => sret None
  | Some hash =>
      traces <~ traces_of hash ;;
      match (l ← traces; txs ← l !! tx_position;
             find (fun t => bool_decide (f_trace_address t = trace_position)) (txs : list FlatTrace)) with
      | None => sret None
      | Some t =>
          tx_hash <~ slift (expect (transaction_hash block_number (Z.of_nat tx_position))) ;;
          sret (Some (localize (Z.of_nat tx_position) tx_hash block_number hash t))
      end
  end.

Definition transaction_traces (block_number : Z) (tx_position : nat) : Db (option (list LocalizedTrace)) :=
  match block_hash block_number with
  | None => sret None
  | Some hash =>
      traces <~ traces_of hash ;;
      match (l ← traces; l !! tx_position) with
      | None => sret None
      | Some l =>
          tx_hash <~ slift (expect (transaction_hash block_number (Z.of_nat tx_position))) ;;
          sret (Some (localize (Z.of_nat tx_position) tx_hash block_number hash <$> l))
      end
  end.

(** The traces of the transactions of a block that pass a test, in order. *)
Fixpoint transactions_localized (test : FlatTrace -> bool) (block_number : Z) (hash : H256) (tx_position : Z)
    (l : FlatBlockTraces) : outcome void (list LocalizedTrace) :=
  match l with
  | [] => Ok []
  | ts :: l =>
      tx_hash <- expect (transaction_hash block_number tx_position) ;;
      rest <- transactions_localized test block_number hash (tx_position + 1) l ;;
      Ok ((localize tx_position tx_hash block_number hash <$> filter (fun t => test t = true) ts) ++ rest)
  end.

Definition block_traces (block_number : Z) : Db (option (list LocalizedTrace)) :=
  match block_hash block_number with
  | None => sret None
  | Some hash =>
      traces <~ traces_of hash ;;
      match traces with
      | None => sret None
      | Some l => r <~ slift (transactions_localized (fun _ => true) block_number hash 0 l) ;; sret (Some r)
      end
  end.

Definition matching_block_traces (f : TraceFilter) (l : FlatBlockTraces) (hash : H256) (block_number : Z)
    : outcome void (list LocalizedTrace) :=
  transactions_localized (trace_matches f) block_number hash 0 l.

Fixpoint filter_loop (f : TraceFilter) (numbers : list Z) : Db (list LocalizedTrace) :=
  match numbers with
  | [] => sret []
  | n :: numbers =>
      hash <~ slift (expect (block_hash n)) ;;
      traces <~ traces_of hash ;;
      traces <~ slift (expect traces) ;;
      l <~ slift (matching_block_traces f traces hash n) ;;
      rest <~ filter_loop f numbers ;;
      sret (l ++ rest)
  end.

Definition filter_traces (f : TraceFilter) : Db (list LocalizedTrace) :=
  s <~ sget ;;
  numbers <~ run_ask (chain_filter (bloom_config s) (tf_range f) (trace_possibilities from_bloomed with_bloomed f)) ;;
  filter_loop f numbers.
End queries.
End tracedb.
