(* ===== verification/TraceDbSpec.v ===== *)
(** * The database of traces as a chain of blocks

    The traces of known blocks and the groups of blooms are two tables of the
    database.  A database that starts empty and imports blocks holds the traces
    of every block of the canonical chain, and the groups represent their
    blooms, so that a search finds what there is to find. *)

From S2P Require Import Prelude Evm Account NativeStorage NativeSpec Executive Block Codec CodecSpec ChainDb Chain ChainSpec ChainFilter Trace Tracer TracerSpec TraceSpec TraceDb.
From stdpp Require Import base gmap list sorting.
Import Trace.
Local Open Scope Z_scope.
Local Open Scope cita_scope.

(** ** The bloom library *)
Fixpoint answer {A} (L : GroupPosition -> option BloomGroup) (a : ask A) : A :=
  match a with
  | Ret a => a
  | Ask p k => answer L (k (L p))
  end.

(** Positions that the keys of the database tell apart. *)
Definition small (p : GroupPosition) : Prop := fits 8 p.1 /\ fits 32 p.2.

Lemma small_from p : small (position_from p).
Proof. split; apply Z.mod_pos_bound; lia. Qed.

Lemma from_small p : small p -> position_from p = p.
Proof. destruct p as [l i]. intros [Hl Hi]. unfold position_from, wrap. cbn in *. by rw !Z.mod_small. Qed.

(** Groups replaced by others. *)
Definition updated (L : GroupPosition -> option BloomGroup) (upd : list (GroupPosition * BloomGroup)) (p : GroupPosition)
    : option BloomGroup :=
  match (list_to_map upd : gmap GroupPosition BloomGroup) !! p with Some g => Some g | None => L p end.

(** The blooms of the numbers from [a]; those up to [b] that are not given
    anew are reset. *)
Definition replaced (f : Z -> Z) (a b : Z) (bs : list Z) (n : Z) : Z :=
  if (a <=? n) && (n <? a + zlen bs) then bs !!! Z.to_nat (n - a)
  else if (a <=? n) && (n <? b) then 0 else f n.

(** Numbers of blocks for which all positions are small. *)
Definition max_number : Z := 2 ^ 32.

(** The groups that can be looked up represent a bloom for each number. *)
Class BloomChainOk (chain_replace : BloomConfig -> Z * Z -> list Z -> ask (list (GroupPosition * BloomGroup)))
    (chain_filter : BloomConfig -> Z * Z -> list Z -> ask (list Z))
    (represents : BloomConfig -> (GroupPosition -> option BloomGroup) -> (Z -> Z) -> Prop) (c : BloomConfig) : Prop := {
  bc_ext L L' f : (forall p, small p -> L p = L' p) -> represents c L f -> represents c L' f;
  bc_empty : represents c (fun _ => None) (fun _ => 0);
  bc_replace L f a b bs : represents c L f -> 0 <= a <= b -> b < max_number -> a + zlen bs < max_number ->
    Forall (fits 2048) bs ->
    Forall (fun x => small x.1 /\ group_ok x.2) (answer L (chain_replace c (a, b) bs)) /\
    represents c (updated L (answer L (chain_replace c (a, b) bs))) (replaced f a b bs);
  bc_filter L f a b ps : represents c L f -> 0 <= a -> b < max_number ->
    StronglySorted Z.lt (answer L (chain_filter c (a, b) ps)) /\
    Forall (fun n => a <= n <= b) (answer L (chain_filter c (a, b) ps)) /\
    forall n p, a <= n <= b -> p ∈ ps -> f n <> 0 -> contains (f n) p -> n ∈ answer L (chain_filter c (a, b) ps);
}.

(** ** The tables *)
Section tables.
  Context {HR : RlpLib} {HRok : RlpLibOk} {HB : RlpBytes} {HBok : RlpBytesOk}.

Definition traces_t : table H256 FlatBlockTraces :=
  {| t_col := COL_TRACE; t_key := key_traces; t_in := fits 256; t_rlp := Rlp_FlatBlockTraces; t_sim := eq; t_refl := _ |}.
Definition groups_t : table GroupPosition BloomGroup :=
  {| t_col := COL_TRACE; t_key := key_group; t_in := small; t_rlp := Rlp_BloomGroup; t_sim := eq; t_refl := _ |}.

Lemma traces_injective : injective traces_t.
Proof using. intros k k' Hk Hk' H. apply (f_equal tail) in H. apply (to_be_inj 32 k k' Hk Hk' H). Qed.

Lemma low_bytes x y : fits 32 x -> fits 32 y -> wrap 8 x = wrap 8 y -> wrap 8 (Z.shiftr x 8) = wrap 8 (Z.shiftr y 8) ->
  wrap 8 (Z.shiftr x 16) = wrap 8 (Z.shiftr y 16) -> wrap 8 (Z.shiftr x 24) = wrap 8 (Z.shiftr y 24) -> x = y.
Proof using.
  unfold fits, wrap. rw !Z.shiftr_div_pow2; [lia..|]. change (2 ^ 8) with 256. change (2 ^ 16) with 65536. change (2 ^ 24) with 16777216.
  change (2 ^ 32) with 4294967296. intros. Z.to_euclidean_division_equations. lia.
Qed.

Lemma groups_injective : injective groups_t.
Proof using.
  intros [l i] [l' i'] [Hl Hi] [Hl' Hi'] H. cbn [t_key groups_t] in H. unfold key_group in H. cbn [fst snd] in *.
  injection H as H0 H1 H2 H3 H4. f_equal; [done|by apply low_bytes].
Qed.

Lemma traces_groups_apart : apart traces_t groups_t.
Proof using. intros h p _ _ H. by apply (f_equal (fun x => head x.2)) in H. Qed.
Lemma groups_traces_apart : apart groups_t traces_t.
Proof using. intros p h _ _ H. by apply (f_equal (fun x => head x.2)) in H. Qed.

Lemma traces_survive ts : block_traces_ok ts -> survives traces_t ts.
Proof using HRok. intros H. exists ts. split; [by apply (rlp_round ts)|done]. Qed.
Lemma groups_survive g : group_ok g -> survives groups_t g.
Proof using HRok. intros H. exists g. split; [by apply (rlp_round g)|done]. Qed.
End tables.

(** ** Reading *)
Section reading.
  Context {HU : Util} {HR : RlpLib} {HRok : RlpLibOk} {HB : RlpBytes} {HBok : RlpBytesOk} {D : Type} {HD : KvDb D} {HDok : KvDbOk D}.
Abbreviation Tdb := (TraceDB (D := D)).

Record tgood (s : Tdb) : Prop := {
  tg_traces : readable traces_t (tracesdb s);
  tg_groups : readable groups_t (tracesdb s);
  tg_traces_cache : coherent traces_t (tracesdb s) (traces_cache s);
  tg_groups_cache : coherent groups_t (tracesdb s) (blooms_cache s);
}.

(** The same but for what the caches hold. *)
Record same (s s' : Tdb) : Prop := {
  sm_db : tracesdb s' = tracesdb s;
  sm_config : bloom_config s' = bloom_config s;
  sm_enabled : enabled s' = enabled s;
}.

#[export] Instance same_trans : Transitive same.
Proof using. intros a b c [] []. split; congruence. Qed.

(** The traces of a block, and a group, as they are stored. *)
Definition known (s : Tdb) (h : H256) : option FlatBlockTraces := view traces_t (tracesdb s) h.
Definition group_at (s : Tdb) (p : GroupPosition) : option BloomGroup := view groups_t (tracesdb s) (position_from p).

(** An operation that gives an answer and changes caches only. *)
Definition reads {A} (m : M void Tdb A) (a : A) (s : Tdb) : Prop :=
  exists s', m s = (Ok a, s') /\ same s s' /\ tgood s'.

Lemma reads_ret {A} (a : A) s : tgood s -> reads (sret a) a s.
Proof using. intros H. by exists s. Qed.

Lemma reads_bind {A B} (m : M void Tdb A) (f : A -> M void Tdb B) a b s : reads m a s ->
  (forall s', same s s' -> tgood s' -> reads (f a) b s') -> reads (sbind m f) b s.
Proof using.
  intros (s1 & Hm & Hs & Hg) Hf. destruct (Hf s1 Hs Hg) as (s2 & Hf' & Hs' & Hg'). exists s2.
  unfold sbind. rw Hm. split_and!; [done|by etrans|done].
Qed.

Lemma reads_lift {A B} (o : outcome void A) a (f : A -> M void Tdb B) b s : o = Ok a -> reads (f a) b s -> reads (sbind (slift o) f) b s.
Proof using. intros -> H. exact H. Qed.

Lemma reads_get {B} (f : Tdb -> M void Tdb B) b s : reads (f s) b s -> reads (sbind sget f) b s.
Proof using. intros H. exact H. Qed.

Lemma same_known s s' h : same s s' -> known s' h = known s h.
Proof using. intros [H _ _]. unfold known. by rw H. Qed.
Lemma same_group s s' p : same s s' -> group_at s' p = group_at s p.
Proof using. intros [H _ _]. unfold group_at. by rw H. Qed.

Lemma agrees_is_eq {K T} (t : table K T) (o o' : option T) : t_sim t = eq -> agrees t o o' -> o = o'.
Proof using. intros E. unfold agrees. rw E. destruct 1; congruence. Qed.

Lemma traces_of_reads h s : tgood s -> fits 256 h -> reads (traces_of h) (known s h) s.
Proof using.
  intros Hg Hh. destruct Hg as [H1 H2 H3 H4].
  destruct (read_with_cache_view traces_t (tracesdb s) (traces_cache s) h) as (o & k & Ho & Ha & Hk); [done..|].
  apply agrees_is_eq in Ha; [|done]. subst o. exists (with_traces k s). unfold traces_of, sbind, sget, slift, smodify, sret.
  cbn [t_rlp t_col t_key traces_t] in Ho. rw Ho. by split_and!.
Qed.

Lemma blooms_at_reads p s : tgood s -> reads (trace_blooms_at p) (group_at s p) s.
Proof using.
  intros Hg. destruct Hg as [H1 H2 H3 H4].
  destruct (read_with_cache_view groups_t (tracesdb s) (blooms_cache s) (position_from p)) as (o & k & Ho & Ha & Hk); [done|done|apply small_from|].
  apply agrees_is_eq in Ha; [|done]. subst o. exists (with_groups k s). unfold trace_blooms_at, sbind, sget, slift, smodify, sret.
  cbn [t_rlp t_col t_key groups_t] in Ho. rw Ho. by split_and!.
Qed.

Lemma answer_ext {A} (a : ask A) L L' : (forall p, L p = L' p) -> answer L a = answer L' a.
Proof using. intros H. induction a as [a|p k IH]; [done|]. cbn [answer]. by rw H. Qed.

Lemma run_ask_reads {A} (a : ask A) s : tgood s -> reads (run_ask a) (answer (group_at s) a) s.
Proof using.
  revert s. induction a as [a|p k IH]; intros s Hg; [by apply reads_ret|]. cbn [run_ask answer].
  eapply reads_bind; [by apply blooms_at_reads|]. intros s' Hs Hg'.
  rw (answer_ext _ (group_at s) (group_at s')); [intros q; by rw (same_group s s')|]. by apply IH.
Qed.

Lemma collect_good ids s : tgood s -> tgood (traces_collect_garbage ids s) /\ same s (traces_collect_garbage ids s).
Proof using.
  revert s. induction ids as [|[h|p] ids IH]; intros s Hg; [done| |]; destruct Hg as [H1 H2 H3 H4].
  - destruct (IH (with_traces (delete h (traces_cache s)) s)) as [Hg Hs]; [|by split; [|destruct Hs]].
    split; [done..| |done]. intros k v. cbn [traces_cache with_traces]. intros [_ Hv]%lookup_delete_Some. by apply H3.
  - destruct (IH (with_groups (delete p (blooms_cache s)) s)) as [Hg Hs]; [|by split; [|destruct Hs]].
    split; [done..|]. intros k v. cbn [blooms_cache with_groups]. intros [_ Hv]%lookup_delete_Some. by apply H4.
Qed.
End reading.

(** ** Importing *)
Section importing.
  Context {HU : Util} {HR : RlpLib} {HRok : RlpLibOk} {HB : RlpBytes} {HBok : RlpBytesOk} {D : Type} {HD : KvDb D} {HDok : KvDbOk D}.
  Context (from_bloomed : H256 -> Z) (with_bloomed : Z -> H256 -> Z).
  Context (chain_replace : BloomConfig -> Z * Z -> list Z -> ask (list (GroupPosition * BloomGroup))).
Abbreviation Tdb := (TraceDB (D := D)).
Abbreviation bloom_of := (block_bloom from_bloomed with_bloomed).

(** The traces of a block once the request is imported. *)
Definition known_after (s : Tdb) (r : ImportRequest) (h : H256) : option FlatBlockTraces :=
  if h =? ir_block_hash r then Some (ir_traces r) else known s h.

Lemma enacted_blooms_reads r l s : tgood s -> Forall (fun h => fits 256 h /\ is_Some (known_after s r h)) l ->
  reads (enacted_blooms from_bloomed with_bloomed r l) ((fun h => from_option bloom_of 0 (known_after s r h)) <$> l) s.
Proof using.
  intros Hg Hl. revert s Hg Hl. induction l as [|h l IH]; intros s Hg Hl; [by apply reads_ret|].
  apply Forall_cons in Hl as [[Hf [ts Hts]] Hl]. cbn [enacted_blooms fmap list_fmap].
  assert (Hafter : forall s', same s s' -> forall h, known_after s' r h = known_after s r h).
  { intros s' Hs h'. unfold known_after. by rw (same_known s s'). }
  eapply (reads_bind _ _ (from_option bloom_of 0 (known_after s r h))).
  - unfold known_after in Hts |- *. destruct (h =? ir_block_hash r); [by apply reads_ret|].
    eapply reads_bind; [by apply traces_of_reads|]. intros s' Hs Hg'. rw Hts. by apply (reads_lift _ ts); [|apply reads_ret].
  - intros s' Hs Hg'. eapply reads_bind; [apply (IH s' Hg')|intros s'' Hs' Hg''; cbn beta].
    + eapply Forall_impl; [exact Hl|]. intros x [Hx Hx']. by rw (Hafter s' Hs).
    + exists s''. split; [|by split]. unfold sret. do 3 f_equal. apply list_fmap_ext. intros i x _. by rw (Hafter s' Hs).
Qed.

(** Writing groups and removing them from the cache. *)
Definition deletes (l : list (GroupPosition * BloomGroup)) (cache : gmap GroupPosition BloomGroup) : gmap GroupPosition BloomGroup :=
  fold_left (fun c x => delete x.1 c) l cache.

Lemma extend_removing_puts l b cache :
  extend_removing l b cache = (b ++ puts groups_t l, deletes l cache).
Proof using.
  unfold extend_removing, deletes. revert b cache. induction l as [|[k v] l IH]; intros b cache; cbn [fold_left].
  - by rw /puts app_nil_r.
  - rw IH. f_equal. rw /puts /=. by rw -app_assoc.
Qed.

Lemma deletes_lookup l cache k v :
  deletes l cache !! k = Some v -> (k ∉ l.*1) /\ cache !! k = Some v.
Proof using.
  unfold deletes. revert cache. induction l as [|[k0 v0] l IH]; intros cache; cbn [fold_left fmap list_fmap fst]; [by split; [apply not_elem_of_nil|]|].
  intros [Hk Hl]%IH. apply lookup_delete_Some in Hl as [Hne Hl]. split; [|done]. by rw not_elem_of_cons.
Qed.

(** The two tables after the groups of a map and the traces of a block were
    written. *)
Lemma import_tables (s : Tdb) (m : gmap GroupPosition BloomGroup) r b :
  tgood s -> (forall p g, m !! p = Some g -> small p /\ group_ok g) -> fits 256 (ir_block_hash r) -> block_traces_ok (ir_traces r) ->
  b = puts groups_t (map_to_list m) ++ put traces_t (ir_block_hash r) (ir_traces r) ->
  let s' := flush b (with_traces (<[ir_block_hash r := ir_traces r]> (traces_cache s))
                       (with_groups (deletes (map_to_list m) (blooms_cache s)) s)) in
  tgood s' /\ (forall h, fits 256 h -> known s' h = known_after s r h) /\
  (forall p, small p -> group_at s' p = match m !! p with Some g => Some g | None => group_at s p end).
Proof using HDok HBok HRok.
  intros [H1 H2 H3 H4] Hm Hh Hts -> s'. 
  assert (He : entries_ok groups_t (map_to_list m)).
  { apply Forall_forall. intros [p g] Hin. apply elem_of_map_to_list in Hin. destruct (Hm p g Hin). split; [done|by apply groups_survive]. }
  pose proof (traces_survive (ir_traces r) Hts) as Hsv. pose proof traces_injective as Hti. pose proof groups_injective as Hgi.
  pose proof traces_groups_apart as Htg. pose proof groups_traces_apart as Hgt.
  subst s'. unfold flush, with_tracesdb. cbn [tracesdb with_traces with_groups traces_cache blooms_cache bloom_config enabled]. rw db_write_app.
  assert (Hv : forall p, small p -> view groups_t (db_write (puts groups_t (map_to_list m)) (tracesdb s)) p =
    match m !! p with Some g => Some g | None => view groups_t (tracesdb s) p end).
  { intros p Hp. rw view_puts; [done..|]. rw inserts_map. destruct (m !! p) as [g|] eqn:E; [|done].
    destruct (Hm p g E) as [_ Hgo]. by apply (rlp_round g). }
  split_and!; [split|..]; cbn [tracesdb traces_cache blooms_cache].
  - by apply readable_put, readable_puts_other.
  - by apply readable_put_other, readable_puts.
  - apply coherent_put; [done..|]. by apply coherent_puts_other.
  - apply coherent_put_other; [done..|]. intros p g Hp. apply deletes_lookup in Hp as [Hni Hp]. destruct (H4 p g Hp) as [Hs Ha].
    split; [done|]. rw Hv; [done|]. destruct (m !! p) as [g'|] eqn:E; [|done]. destruct Hni.
    apply list_elem_of_fmap. exists (p, g'). split; [done|]. by apply elem_of_map_to_list.
  - intros h Hf. unfold known. cbn [tracesdb]. rw view_put; [done..|]. unfold known_after. case_bool_decide as E.
    + subst. rw Z.eqb_refl. by apply (rlp_round (ir_traces r)).
    + destruct (Z.eqb_spec h (ir_block_hash r)); [done|]. by rw view_puts_other.
  - intros p Hp. unfold group_at. cbn [tracesdb]. rw from_small; [done|]. rw view_put_other; [done..|]. by rw Hv.
Qed.

  Context (chain_filter : BloomConfig -> Z * Z -> list Z -> ask (list Z)).
  Context (represents : BloomConfig -> (GroupPosition -> option BloomGroup) -> (Z -> Z) -> Prop).
  Context (bloom_fits : forall l, fits 2048 (bloom_of l)).

(** The number of the first block that is enacted. *)
Definition first_enacted (r : ImportRequest) : Z := ir_block_number r + 1 - zlen (ir_enacted r).

Record request_fine (s : Tdb) (r : ImportRequest) : Prop := {
  rf_hash : fits 256 (ir_block_hash r);
  rf_traces : block_traces_ok (ir_traces r);
  rf_number : 0 <= ir_block_number r /\ ir_block_number r + 1 < max_number;
  rf_first : 0 <= first_enacted r;
  rf_retracted : 0 <= ir_retracted r /\ first_enacted r + ir_retracted r < max_number;
  rf_none : ir_enacted r = [] -> ir_retracted r = 0;
  rf_enacted : Forall (fun h => fits 256 h /\ is_Some (known_after s r h)) (ir_enacted r);
}.

Definition enacted_values (s : Tdb) (r : ImportRequest) : list Z :=
  (fun h => from_option bloom_of 0 (known_after s r h)) <$> ir_enacted r.

(** The blooms after the request. *)
Definition blooms_after (s : Tdb) (r : ImportRequest) (f : Z -> Z) : Z -> Z :=
  if bool_decide (ir_enacted r = []) then f
  else replaced f (first_enacted r) (first_enacted r + ir_retracted r) (enacted_values s r).

(** What holds once the batch of an import is written. *)
Definition imported (s : Tdb) (r : ImportRequest) (f : Z -> Z) (s' : Tdb) : Prop :=
  tgood s' /\ bloom_config s' = bloom_config s /\ enabled s' = enabled s /\
  (forall h, fits 256 h -> known s' h = known_after s r h) /\
  represents (bloom_config s) (group_at s') (blooms_after s r f).

(** The groups that a request changes. *)
Definition group_updates (s : Tdb) (r : ImportRequest) : list (GroupPosition * BloomGroup) :=
  answer (group_at s) (chain_replace (bloom_config s) (first_enacted r, first_enacted r + ir_retracted r) (enacted_values s r)).
Definition update_map (s : Tdb) (r : ImportRequest) : gmap GroupPosition BloomGroup :=
  list_to_map ((fun '(p, g) => (position_from p, g)) <$> group_updates s r).

Lemma rebuild_runs b0 r s : tgood s -> request_fine s r -> exists s',
  rebuild_blooms from_bloomed with_bloomed chain_replace b0 r s =
  (Ok (b0 ++ puts groups_t (map_to_list (update_map s r))),
   with_groups (deletes (map_to_list (update_map s r)) (blooms_cache s')) s') /\
  same s s' /\ tgood s'.
Proof using.
  intros Hg [Hh Ht Hn Hf Hr _ He]. unfold max_number, first_enacted in *.
  destruct (enacted_blooms_reads r (ir_enacted r) s Hg He) as (s1 & E1 & Hs1 & Hg1).
  destruct (run_ask_reads (chain_replace (bloom_config s1) (ir_block_number r + 1 - zlen (ir_enacted r),
    ir_block_number r + 1 - zlen (ir_enacted r) + ir_retracted r) (enacted_values s r)) s1 Hg1) as (s2 & E2 & Hs2 & Hg2).
  exists s2. split_and!; [|by etrans|done]. unfold rebuild_blooms.
  unfold sbind at 1. rw add_ok; [lia|]. cbn [slift]. unfold sbind at 1. rw sub_ok; [lia|]. cbn [slift]. unfold sbind at 1. rw add_ok; [lia|]. cbn [slift].
  unfold sbind at 1. rw E1. unfold sbind at 1. cbn [sget]. unfold sbind at 1. rw E2. unfold sbind at 1. cbn [sget].
  rw extend_removing_puts. rw (answer_ext _ (group_at s1) (group_at s)); [intros q; by rw (same_group s s1)|]. destruct Hs1 as [_ -> _]. done.
Qed.

Lemma updates_small s r f : represents (bloom_config s) (group_at s) f -> request_fine s r ->
  BloomChainOk chain_replace chain_filter represents (bloom_config s) ->
  Forall (fun x => small x.1 /\ group_ok x.2) (group_updates s r) /\
  represents (bloom_config s) (updated (group_at s) (group_updates s r)) (replaced f (first_enacted r) (first_enacted r + ir_retracted r) (enacted_values s r)).
Proof using bloom_fits.
  intros Hrep [Hh Ht Hn Hf Hr _ He] Hok. apply bc_replace; [done|lia|lia| |].
  - unfold enacted_values. unfold zlen at 1. rw length_fmap. unfold first_enacted, zlen in *. lia.
  - apply Forall_fmap, Forall_forall. intros h _. cbn. destruct (known_after s r h); [apply bloom_fits|cbn; unfold fits; lia].
Qed.

Lemma map_positions l : Forall (fun x : GroupPosition * BloomGroup => small x.1 /\ group_ok x.2) l ->
  (fun '(p, g) => (position_from p, g)) <$> l = l.
Proof using. induction 1 as [|[p g] l [Hp _] Hl IH]; [done|]. cbn [fmap list_fmap]. rw from_small; [done|]. by f_equal. Qed.

Lemma update_map_ok l p g : Forall (fun x : GroupPosition * BloomGroup => small x.1 /\ group_ok x.2) l ->
  (list_to_map l : gmap GroupPosition BloomGroup) !! p = Some g -> small p /\ group_ok g.
Proof using. intros Hl H%elem_of_list_to_map_2. rw Forall_forall in Hl. apply (Hl _ H). Qed.

(** What an import that enacts blocks leaves before its batch is written. *)
Lemma import_runs r s : tgood s -> enabled s = true -> request_fine s r -> ir_enacted r <> [] -> exists s',
  same s s' /\ tgood s' /\
  import from_bloomed with_bloomed chain_replace [] r s =
  (Ok (puts groups_t (map_to_list (update_map s r)) ++ put traces_t (ir_block_hash r) (ir_traces r)),
   with_traces (<[ir_block_hash r := ir_traces r]> (traces_cache s'))
     (with_groups (deletes (map_to_list (update_map s r)) (blooms_cache s')) s')).
Proof using.
  intros Hg Hen Hr Hne. destruct (rebuild_runs [] r s Hg Hr) as (s' & Hrun & Hsame & Hg'). exists s'. split_and!; [done..|].
  unfold import. rw (bool_decide_eq_false_2 _ Hne). cbn [negb]. rw andb_false_r. cbn [negb assert_]. unfold sbind at 1. cbn [slift].
  unfold sbind at 1. cbn [sget]. rw Hen. cbn [negb]. unfold sbind at 1. rw Hrun. done.
Qed.

(** An import of a good database, written at once, keeps it good. *)
Lemma import_flushed r s f : tgood s -> enabled s = true -> request_fine s r ->
  BloomChainOk chain_replace chain_filter represents (bloom_config s) -> represents (bloom_config s) (group_at s) f ->
  exists b s1, import from_bloomed with_bloomed chain_replace [] r s = (Ok b, s1) /\ imported s r f (flush b s1).
Proof using HDok HBok HRok bloom_fits.
  intros Hg Hen Hr Hok Hrep. pose proof Hr as [Hh Ht _ _ _ Hnone _]. unfold import, imported, blooms_after.
  case_bool_decide as E; cbn [negb].
  - rw (Hnone E). cbn [Z.eqb negb andb assert_]. unfold sbind at 1. cbn [slift]. unfold sbind at 1. cbn [sget]. rw Hen. cbn [negb].
    exists (put traces_t (ir_block_hash r) (ir_traces r)), (with_traces (<[ir_block_hash r := ir_traces r]> (traces_cache s)) s). split; [done|].
    destruct (import_tables s ∅ r (put traces_t (ir_block_hash r) (ir_traces r))) as (H1 & H2 & H3); [done|done|done|done|by rw map_to_list_empty|].
    rw map_to_list_empty in H1, H2, H3. replace (with_groups (deletes [] (blooms_cache s)) s) with s in H1, H2, H3 by by destruct s.
    split_and!; [done..|]. eapply bc_ext; [|exact Hrep]. intros p Hp. symmetry. by apply H3.
  - destruct (import_runs r s Hg Hen Hr E) as (s' & Hsame & Hg' & Hrun). unfold import in Hrun.
    rw (bool_decide_eq_false_2 _ E) in Hrun. cbn [negb] in Hrun. rw Hrun. do 2 eexists. split; [done|].
    destruct (updates_small s r f Hrep Hr Hok) as [Hsm Hrep']. pose proof (map_positions _ Hsm) as Hmp.
    destruct (import_tables s' (update_map s r) r (puts groups_t (map_to_list (update_map s r)) ++ put traces_t (ir_block_hash r) (ir_traces r)))
      as (H1 & H2 & H3); [done| |done|done|done|].
    { intros p g. unfold update_map. rw Hmp. by apply update_map_ok. }
    destruct Hsame as [Hdb Hc Hen']. split_and!; [exact H1|exact Hc|exact Hen'| |].
    + intros h Hf. etrans; [by apply H2|]. unfold known_after, known. by rw Hdb.
    + eapply bc_ext; [|exact Hrep']. intros p Hp. symmetry. etrans; [by apply H3|]. unfold updated, update_map. rw Hmp.
      destruct (list_to_map _ !! p); [done|]. unfold group_at. by rw Hdb.
Qed.

(** The groups once the batch is written. *)
Lemma import_groups r s f b s1 p : tgood s -> enabled s = true -> request_fine s r -> ir_enacted r <> [] ->
  BloomChainOk chain_replace chain_filter represents (bloom_config s) -> represents (bloom_config s) (group_at s) f ->
  import from_bloomed with_bloomed chain_replace [] r s = (Ok b, s1) -> small p ->
  group_at (flush b s1) p = match update_map s r !! p with Some g => Some g | None => group_at s p end.
Proof using HDok HBok HRok bloom_fits.
  intros Hg Hen Hr Hne Hok Hrep E Hp. destruct (import_runs r s Hg Hen Hr Hne) as (s' & [Hdb _ _] & Hg' & E'). rw E in E'. injection E' as -> ->.
  destruct (updates_small s r f Hrep Hr Hok) as [Hsm _]. pose proof (map_positions _ Hsm) as Hmp.
  destruct (import_tables s' (update_map s r) r _ Hg' ltac:(intros q g; unfold update_map; rw Hmp; by apply update_map_ok) (rf_hash _ _ Hr) (rf_traces _ _ Hr) eq_refl)
    as (_ & _ & H3). rw (H3 p Hp). destruct (update_map s r !! p); [done|]. unfold group_at. by rw Hdb.
Qed.

(** Between the import and the writing of its batch a group that changes is
    not cached, so that a reader finds the old one and caches it. *)
Lemma import_window r s b s1 p old new : tgood s -> enabled s = true -> request_fine s r -> ir_enacted r <> [] ->
  import from_bloomed with_bloomed chain_replace [] r s = (Ok b, s1) -> small p ->
  group_at s p = Some old -> update_map s r !! p = Some new ->
  trace_blooms_at p s1 = (Ok (Some old), with_groups (<[p := old]> (blooms_cache s1)) s1).
Proof using.
  intros Hg Hen Hr Hne E Hp Hold Hnew. destruct (import_runs r s Hg Hen Hr Hne) as (s' & [Hdb _ _] & Hg' & E'). rw E in E'. injection E' as -> ->.
  unfold trace_blooms_at, sbind, sget, slift, smodify, sret, read_with_cache. rw from_small; [done|]. cbn [blooms_cache tracesdb with_traces with_groups].
  destruct (deletes (map_to_list (update_map s r)) (blooms_cache s') !! p) as [g|] eqn:Hl.
  { apply deletes_lookup in Hl as [[] _]. apply list_elem_of_fmap. exists (p, new). split; [done|]. by apply elem_of_map_to_list. }
  pose proof (read_view groups_t (tracesdb s') p (tg_groups _ Hg') Hp) as Hv. cbn [t_rlp t_col t_key groups_t] in Hv. rw Hv.
  unfold group_at in Hold. rw from_small in Hold; [done|]. rw Hdb Hold. done.
Qed.
End importing.
