(* ===== verification/TraceChain.v ===== *)
(** * The canonical chain in the database of traces

    The database as a state machine: blocks are imported, with reorganisations
    of the chain, entries are cached and thrown out, and the database is closed
    and opened again.  At every time it holds the traces of the canonical chain
    with their blooms. *)

From S2P Require Import Prelude Evm Account NativeStorage NativeSpec Executive Block Codec CodecSpec ChainDb Chain ChainSpec ChainFilter Trace Tracer TracerSpec TraceSpec TraceDb TraceDbSpec.
From stdpp Require Import base gmap list sorting relations.
Import Trace.
Local Open Scope Z_scope.
Local Open Scope cita_scope.

Section chain.
  Context {HU : Util} {HR : RlpLib} {HRok : RlpLibOk} {HB : RlpBytes} {HBok : RlpBytesOk} {D : Type} {HD : KvDb D} {HDok : KvDbOk D}.
  Context (from_bloomed : H256 -> Z) (with_bloomed : Z -> H256 -> Z).
  Context (chain_replace : BloomConfig -> Z * Z -> list Z -> ask (list (GroupPosition * BloomGroup))).
  Context (chain_filter : BloomConfig -> Z * Z -> list Z -> ask (list Z)).
  Context (represents : BloomConfig -> (GroupPosition -> option BloomGroup) -> (Z -> Z) -> Prop).
  Context (config : TraceConfig) {Hlib : BloomChainOk chain_replace chain_filter represents (tc_blooms config)}.
  Context (bloom_fits : forall l, fits 2048 (block_bloom from_bloomed with_bloomed l)).
Abbreviation Tdb := (TraceDB (D := D)).
Abbreviation bloom_of := (block_bloom from_bloomed with_bloomed).
Abbreviation import_ := (import (D := D) from_bloomed with_bloomed chain_replace).
Abbreviation blooms := (represents (tc_blooms config)).

(** What is stored of a chain: the traces of its blocks, and their blooms;
    there are no blooms behind its end. *)
Record chain_stored (s : Tdb) (canon : list H256) (f : Z -> Z) : Prop := {
  cs_blooms : blooms (group_at s) f;
  cs_block n h : canon !! n = Some h -> exists ts, known s h = Some ts /\ f (Z.of_nat n) = bloom_of ts;
  cs_end n : zlen canon <= n -> f n = 0;
  cs_hashes : Forall (fits 256) canon;
}.

Record chain_ok (s : Tdb) (canon : list H256) : Prop := {
  ck_good : tgood s;
  ck_enabled : enabled s = true;
  ck_config : bloom_config s = tc_blooms config;
  ck_stored : exists f, chain_stored s canon f;
}.

(** The chain after a request. *)
Definition next_chain (canon : list H256) (r : ImportRequest) : list H256 :=
  if bool_decide (ir_enacted r = []) then canon
  else take (Z.to_nat (first_enacted r)) canon ++ ir_enacted r.

(** A request that fits the chain: the blocks that are retracted are the last
    ones, the genesis block not among them, and the traces of a block that
    stays are not changed. *)
Record request_ok (s : Tdb) (canon : list H256) (r : ImportRequest) : Prop := {
  ro_fine : request_fine s r;
  ro_joins : ir_enacted r <> [] -> 1 <= first_enacted r /\ first_enacted r + ir_retracted r = zlen canon;
  ro_new : ir_block_hash r ∉ (if bool_decide (ir_enacted r = []) then canon else take (Z.to_nat (first_enacted r)) canon);
}.

Lemma replaced_before f a b bs n : n < a -> replaced f a b bs n = f n.
Proof using. intros H. unfold replaced. destruct (Z.leb_spec a n); [lia|done]. Qed.

Lemma replaced_in f a b bs n x : 0 <= a -> bs !! n = Some x -> replaced f a b bs (a + Z.of_nat n) = x.
Proof using.
  intros Ha Hx. pose proof (lookup_lt_Some _ _ _ Hx). unfold replaced, zlen. destruct (Z.leb_spec a (a + Z.of_nat n)); [|lia].
  destruct (Z.ltb_spec (a + Z.of_nat n) (a + Z.of_nat (length bs))); [|lia]. cbn [andb].
  replace (Z.to_nat (a + Z.of_nat n - a)) with n by lia. by apply list_lookup_total_correct.
Qed.

Lemma replaced_after f a b bs n : a + zlen bs <= n -> (b <= n -> f n = 0) ->
  replaced f a b bs n = 0.
Proof using.
  intros H1 H3. unfold replaced. assert (0 <= zlen bs) by (unfold zlen; lia). destruct (Z.leb_spec a n); [|lia]. destruct (Z.ltb_spec n (a + zlen bs)); [lia|]. cbn [andb].
  destruct (Z.ltb_spec n b); [done|]. by apply H3.
Qed.

Lemma known_stays (s : Tdb) r h : h <> ir_block_hash r -> known_after s r h = known s h.
Proof using. intros H. unfold known_after. by destruct (Z.eqb_spec h (ir_block_hash r)). Qed.

(** Importing extends or reorganises the chain that is stored. *)
Lemma import_stored s canon f r s' : chain_stored s canon f -> request_ok s canon r -> bloom_config s = tc_blooms config ->
  imported from_bloomed with_bloomed represents s r f s' ->
  chain_stored s' (next_chain canon r) (blooms_after from_bloomed with_bloomed s r f).
Proof using.
  intros [H1 H2 H3 H4] [[Hh Ht Hn Hf Hr Hnone He] Hj Hnew] Hc (Hg & _ & _ & Hk & Hrep). rw Hc in Hrep.
  unfold next_chain, blooms_after in *. case_bool_decide as E.
  - split; [done| |done|done]. intros n h Hl. destruct (H2 n h Hl) as (ts & Hts & Hb). exists ts. split; [|done].
    rw Hk; [by eapply Forall_lookup_1|]. rw known_stays; [|done]. intros ->. apply Hnew. by eapply list_elem_of_lookup_2.
  - destruct (Hj E) as [_ Hj']. clear Hj. rename Hj' into Hj. assert (Hlen : length (take (Z.to_nat (first_enacted r)) canon) = Z.to_nat (first_enacted r)).
    { rw length_take. unfold zlen in Hj. lia. }
    assert (Hfits : Forall (fits 256) (take (Z.to_nat (first_enacted r)) canon ++ ir_enacted r)).
    { apply Forall_app. split; [by apply Forall_take|]. eapply Forall_impl; [exact He|]. by intros x []. }
    split; [done| | |done].
    + intros n h Hl. rw Hk; [by eapply Forall_lookup_1|]. apply lookup_app_Some in Hl as [Hl|[Hge Hl]].
      * pose proof (lookup_lt_Some _ _ _ Hl) as Hlt. rw Hlen in Hlt. rw known_stays; [intros ->; apply Hnew; by eapply list_elem_of_lookup_2|].
        apply lookup_take_Some in Hl as [Hl _]. rw replaced_before; [lia|]. by apply H2.
      * rw Hlen in Hge, Hl. destruct (Forall_lookup_1 _ _ _ _ He Hl) as [_ [ts Hts]]. exists ts. split; [done|].
        replace (Z.of_nat n) with (first_enacted r + Z.of_nat (n - Z.to_nat (first_enacted r))) by lia.
        apply replaced_in; [done|]. unfold enacted_values. rw list_lookup_fmap Hl. cbn. by rw Hts.
    + intros n. rw zlen_app. unfold zlen at 1. rw Hlen. intros Hle. apply replaced_after.
      * unfold enacted_values, zlen in *. rw length_fmap. lia.
      * intros Hb. apply H3. lia.
Qed.

Lemma import_chain s canon r : chain_ok s canon -> request_ok s canon r ->
  exists b s1, import_ [] r s = (Ok b, s1) /\ chain_ok (flush b s1) (next_chain canon r).
Proof using HDok HBok HRok Hlib bloom_fits.
  intros [Hg Hen Hc [f Hst]] Hr. pose proof (cs_blooms _ _ _ Hst) as Hb. rw -Hc in Hb.
  destruct (import_flushed from_bloomed with_bloomed chain_replace chain_filter represents bloom_fits r s f) as (b & s1 & E & Him);
    [done|done|apply Hr|by rw Hc|done|].
  exists b, s1. split; [done|]. pose proof Him as (Hg' & Hc' & Hen' & _). split; [done|congruence|congruence|].
  eexists. by eapply import_stored.
Qed.

(** Opening: the traces of the genesis block are empty. *)
Definition opened_chain (canon : list H256) (genesis : H256) : list H256 :=
  match canon with [] => [genesis] | _ => canon end.

Lemma get_version (d : D) k : head k <> Some 118 -> db_get (db_write [(COL_TRACE, version_key, TRACE_DB_VER)] d) COL_TRACE k = db_get d COL_TRACE k.
Proof using HDok. intros Hk. cbn [db_write fold_left]. rw db_get_put. rw bool_decide_eq_false_2; [|done]. intros E. injection E as ->. by apply Hk. Qed.

(** The tables after opening. *)
Lemma new_tables (d : D) genesis : readable traces_t d -> readable groups_t d -> fits 256 genesis ->
  let d' := db_write (put traces_t genesis [] ++ [(COL_TRACE, version_key, TRACE_DB_VER)]) d in
  readable traces_t d' /\ readable groups_t d' /\
  (forall h, fits 256 h -> view traces_t d' h = if bool_decide (h = genesis) then Some [] else view traces_t d h) /\
  (forall p, small p -> view groups_t d' p = view groups_t d p).
Proof using HDok HBok HRok.
  intros H1 H2 Hg d'. subst d'. rw db_write_app. set (d1 := db_write (put traces_t genesis []) d).
  assert (Hs : survives traces_t []) by (apply traces_survive; constructor).
  assert (Hr1 : readable traces_t d1) by (by apply readable_put; [apply traces_injective|..]).
  assert (Hr2 : readable groups_t d1) by (apply (readable_put_other traces_t groups_t); [apply traces_groups_apart|exact Hg|exact H2]).
  assert (Ht : forall h, db_get (db_write [(COL_TRACE, version_key, TRACE_DB_VER)] d1) COL_TRACE (key_traces h) = db_get d1 COL_TRACE (key_traces h))
    by (intros h; by apply get_version).
  assert (Hp : forall p, db_get (db_write [(COL_TRACE, version_key, TRACE_DB_VER)] d1) COL_TRACE (key_group p) = db_get d1 COL_TRACE (key_group p))
    by (intros p; by apply get_version).
  split_and!.
  - intros h b Hh. unfold view. cbn [t_col t_key traces_t]. rw Ht. apply Hr1, Hh.
  - intros p b Hs'. unfold view. cbn [t_col t_key groups_t]. rw Hp. apply Hr2, Hs'.
  - intros h Hh. transitivity (view traces_t d1 h); [unfold view; cbn [t_col t_key traces_t]; by rw Ht|].
    unfold d1. rw view_put; [apply traces_injective|done|done|]. case_bool_decide; [|done]. apply (rlp_round ([] : FlatBlockTraces)). constructor.
  - intros p Hs'. transitivity (view groups_t d1 p); [unfold view; cbn [t_col t_key groups_t]; by rw Hp|].
    apply (view_put_other traces_t groups_t); [apply traces_groups_apart|exact Hg|exact Hs'].
Qed.

Lemma new_chain block_hash genesis canon f (s : Tdb) : tc_enabled config = true -> block_hash 0 = Some genesis -> fits 256 genesis ->
  tgood s -> chain_stored s canon f -> (canon = [] \/ (head canon = Some genesis /\ known s genesis = Some [])) ->
  exists s', tracedb_new config block_hash (tracesdb s) = Ok s' /\ chain_ok s' (opened_chain canon genesis) /\
    known s' genesis = Some [].
Proof using HDok HBok HRok Hlib.
  intros Hen Hbh Hfit [R1 R2 _ _] [H1 H2 H3 H4] Hcan. unfold tracedb_new. rw Hbh. cbn [expect obind].
  destruct (new_tables (tracesdb s) genesis R1 R2 Hfit) as (T1 & T2 & T3 & T4).
  assert (Hall : Forall (fits 256) (opened_chain canon genesis)) by (destruct canon; [by constructor|done]).
  eexists. split; [done|]. split; [|unfold known; cbn [tracesdb]; rw T3; [done|by rw bool_decide_eq_true_2]].
  split; [by split|done|done|]. exists f. split; unfold group_at, known in *; cbn [tracesdb].
  - eapply bc_ext; [|exact H1]. intros p Hp. rw T4; [apply small_from|done].
  - intros n h Hl. assert (Hh : fits 256 h) by by eapply (Forall_lookup_1 _ _ n h Hall).
    rw T3; [done|]. destruct Hcan as [->|[Hhd Hk]].
    + destruct n; [|done]. injection Hl as <-. exists []. rw bool_decide_eq_true_2; [done|]. split; [done|]. by apply H3.
    + replace (opened_chain canon genesis) with canon in Hl by by destruct canon. destruct (H2 n h Hl) as (ts & Hts & Hb). case_bool_decide; [|by exists ts].
      subst. exists []. split; [done|]. rw Hb. congruence.
  - intros n Hn. apply H3. destruct canon; [unfold zlen in *; cbn in *; lia|done].
  - done.
Qed.

(** ** The state machine *)
  Context (genesis : H256) (tracing : tc_enabled config = true).

(** The genesis block, which has no traces, is the first one. *)
Definition rooted (s : Tdb) (canon : list H256) : Prop := canon !! 0%nat = Some genesis /\ known s genesis = Some [].

Definition chain_at (s : Tdb) (canon : list H256) : Prop := chain_ok s canon /\ rooted s canon.

(** Blocks are imported and the batch is written; the caches fill and are
    emptied; the database is opened again. *)
Inductive tstep : Tdb * list H256 -> Tdb * list H256 -> Prop :=
| st_import s canon r b s1 : request_ok s canon r -> import_ [] r s = (Ok b, s1) ->
    tstep (s, canon) (flush b s1, next_chain canon r)
| st_collect s canon ids : tstep (s, canon) (traces_collect_garbage ids s, canon)
| st_traces s canon h o s' : fits 256 h -> traces_of h s = (Ok o, s') -> tstep (s, canon) (s', canon)
| st_groups s canon p o s' : trace_blooms_at p s = (Ok o, s') -> tstep (s, canon) (s', canon)
| st_reopen s canon s' block_hash : block_hash 0 = Some genesis -> tracedb_new config block_hash (tracesdb s) = Ok s' ->
    tstep (s, canon) (s', canon).

Lemma chain_same s s' canon : chain_at s canon -> same s s' -> tgood s' -> chain_at s' canon.
Proof using Hlib.
  intros [[Hg Hen Hc [f [H1 H2 H3 H4]]] [Hr1 Hr2]] Hs Hg'. pose proof Hs as [_ Hsc Hse]. split.
  - split; [done|congruence|congruence|]. exists f. split; [|intros n h Hl; destruct (H2 n h Hl) as (ts & Hts & Hb); exists ts; by rw (same_known s s')|done|done].
    eapply bc_ext; [|exact H1]. intros p _. by rw (same_group s s').
  - split; [done|]. by rw (same_known s s').
Qed.

Lemma import_at s canon r b s1 : chain_at s canon -> request_ok s canon r -> import_ [] r s = (Ok b, s1) ->
  chain_at (flush b s1) (next_chain canon r).
Proof using HDok HBok HRok Hlib bloom_fits.
  intros [Hck [Hr1 Hr2]] Hr E. pose proof Hck as [Hg Hen Hc [f Hst]]. pose proof (cs_blooms _ _ _ Hst) as Hb. rw -Hc in Hb.
  destruct (import_flushed from_bloomed with_bloomed chain_replace chain_filter represents bloom_fits r s f) as (b' & s1' & E' & Him);
    [done|done|apply Hr|by rw Hc|done|].
  rw E in E'. injection E' as <- <-. split.
  - pose proof Him as (Hg' & Hc' & Hen' & _). split; [done|congruence|congruence|]. eexists. by eapply import_stored.
  - destruct Him as (_ & _ & _ & Hk & _). destruct Hr as [_ Hj Hnew]. pose proof (cs_hashes _ _ _ Hst) as Hall.
    assert (Hfit : fits 256 genesis) by by eapply (Forall_lookup_1 _ _ _ _ Hall).
    assert (Hkept : next_chain canon r !! 0%nat = Some genesis /\ genesis <> ir_block_hash r).
    { unfold next_chain in *. case_bool_decide as Ee.
      - split; [done|]. intros ->. apply Hnew. by eapply list_elem_of_lookup_2.
      - destruct (Hj Ee) as [Hf _]. assert (Hl : take (Z.to_nat (first_enacted r)) canon !! 0%nat = Some genesis)
          by (apply lookup_take_Some; split; [done|lia]).
        split; [by apply lookup_app_l_Some|]. intros ->. apply Hnew. by eapply list_elem_of_lookup_2. }
    destruct Hkept as [H1 H2]. split; [done|]. rw Hk; [done|]. by rw known_stays.
Qed.

Lemma tstep_chain x y : tstep x y -> chain_at x.1 x.2 -> chain_at y.1 y.2.
Proof using HDok HBok HRok Hlib bloom_fits tracing.
  destruct 1 as [s canon r b s1 Hr E|s canon ids|s canon h o s' Hh E|s canon p o s' E|s canon s' bh Hbh E]; cbn [fst snd]; intros Hc.
  - by eapply import_at.
  - destruct (collect_good ids s) as [Hg Hs]; [apply Hc|]. by eapply chain_same.
  - destruct (traces_of_reads h s) as (s2 & E' & Hs & Hg); [apply Hc|done|]. rw E in E'. injection E' as -> ->. by eapply chain_same.
  - destruct (blooms_at_reads p s) as (s2 & E' & Hs & Hg); [apply Hc|]. rw E in E'. injection E' as -> ->. by eapply chain_same.
  - destruct Hc as [[Hg Hen Hcf [f Hst]] [Hr1 Hr2]]. pose proof (cs_hashes _ _ _ Hst) as Hall.
    assert (Hfit : fits 256 genesis) by by eapply (Forall_lookup_1 _ _ _ _ Hall).
    assert (Hhd : head canon = Some genesis) by by destruct canon.
    destruct (new_chain bh genesis canon f s) as (s2 & E' & Hck & Hk); [done..|by right|]. rw E in E'. injection E' as ->.
    replace (opened_chain canon genesis) with canon in Hck by by destruct canon. done.
Qed.

(** A new database. *)
Lemma new_at (d : D) block_hash : fits 256 genesis -> block_hash 0 = Some genesis -> (forall k, db_get d COL_TRACE k = None) ->
  exists s, tracedb_new config block_hash d = Ok s /\ chain_at s [genesis].
Proof using HDok HBok HRok Hlib tracing.
  intros Hfit Hbh Hd. set (s0 := mkTraceDB ∅ ∅ d (tc_blooms config) true).
  destruct (new_chain block_hash genesis [] (fun _ => 0) s0) as (s & E & Hck & Hk); [done..| | |by left|by exists s].
  - split; cbn [tracesdb traces_cache blooms_cache s0]; [intros k b _ Hb; cbn in Hb; by rw Hd in Hb..| |];
      intros k v Hv; by rw lookup_empty in Hv.
  - split; [|done|done|constructor]. eapply bc_ext; [|apply bc_empty]. intros p _. unfold group_at, view. cbn. by rw Hd.
Qed.

(** Everything that can happen keeps the chain. *)
Lemma reachable_chain d block_hash s0 s canon : fits 256 genesis -> block_hash 0 = Some genesis -> (forall k, db_get d COL_TRACE k = None) ->
  tracedb_new config block_hash d = Ok s0 -> rtc tstep (s0, [genesis]) (s, canon) -> chain_at s canon.
Proof using HDok HBok HRok Hlib bloom_fits tracing.
  intros Hfit Hbh Hd E Hr. destruct (new_at d block_hash Hfit Hbh Hd) as (s' & E' & H0). rw E in E'. injection E' as <-.
  assert (G : forall x y, rtc tstep x y -> chain_at x.1 x.2 -> chain_at y.1 y.2).
  { induction 1 as [|x y z Hxy _ IH]; [done|]. intros Hx. by apply IH, (tstep_chain x). }
  exact (G _ _ Hr H0).
Qed.

(** ** Queries *)
  Context (block_hash : Z -> option H256) (transaction_hash : Z -> Z -> option H256) (hash_of : Z -> Z -> H256).

(** The traces of a block that pass a test, with their places. *)
Definition block_localized (test : FlatTrace -> bool) (n : Z) (h : H256) (ts : FlatBlockTraces) : list LocalizedTrace :=
  concat (imap (fun i (txs : FlatTransactionTraces) =>
    localize (Z.of_nat i) (hash_of n (Z.of_nat i)) n h <$> filter (fun t => test t = true) (txs : list FlatTrace)) ts).

(** The hashes of the transactions that have traces are known. *)
Definition hashes_found (n : Z) (ts : FlatBlockTraces) : Prop :=
  forall i, (i < length ts)%nat -> transaction_hash n (Z.of_nat i) = Some (hash_of n (Z.of_nat i)).

Lemma localized_from test n h ts : forall i, (forall j, (j < length ts)%nat -> transaction_hash n (Z.of_nat (i + j)) = Some (hash_of n (Z.of_nat (i + j)))) ->
  transactions_localized transaction_hash test n h (Z.of_nat i) ts =
  Ok (concat (imap (fun j (txs : FlatTransactionTraces) => localize (Z.of_nat (i + j)) (hash_of n (Z.of_nat (i + j))) n h <$>
                      filter (fun t => test t = true) (txs : list FlatTrace)) ts)).
Proof using.
  induction ts as [|txs ts IH]; intros i Hh; [done|]. cbn [transactions_localized imap concat].
  pose proof (Hh 0%nat ltac:(cbn; lia)) as H0. rw Nat.add_0_r in H0. rw H0. cbn [expect obind].
  replace (Z.of_nat i + 1) with (Z.of_nat (S i)) by lia. rw IH.
  { intros j Hj. specialize (Hh (S j) ltac:(cbn; lia)). by rw Nat.add_succ_r in Hh. }
  cbn [obind]. do 2 f_equal; [by rw Nat.add_0_r|]. f_equal. apply imap_ext. intros j x _. cbn. by rw Nat.add_succ_r.
Qed.

Lemma localized_exact test n h ts : hashes_found n ts ->
  transactions_localized transaction_hash test n h 0 ts = Ok (block_localized test n h ts).
Proof using. intros Hh. by apply (localized_from test n h ts 0%nat). Qed.

Lemma concat_imap_nil {A B} (F : nat -> A -> list B) l : (forall i x, x ∈ l -> F i x = []) -> concat (imap F l) = [].
Proof using.
  revert F. induction l as [|x l IH]; intros F HF; [done|]. cbn [imap concat]. rw HF; [by left|]. apply IH. intros i y Hy. apply HF. by right.
Qed.

Lemma localized_none test n h ts : (forall (txs : list FlatTrace) t, txs ∈ ts -> t ∈ txs -> test t = true -> False) ->
  block_localized test n h ts = [].
Proof using.
  intros Hno. apply concat_imap_nil. intros i txs Htxs. rw (filter_none _ (txs : list FlatTrace)); [|done].
  intros t Ht Htt. by apply (Hno txs t).
Qed.

(** What a search finds in one block. *)
Definition matching (s : Tdb) (canon : list H256) (f : TraceFilter) (n : Z) : list LocalizedTrace :=
  match canon !! Z.to_nat n with
  | Some h => from_option (block_localized (trace_matches f) n h) [] (known s h)
  | None => []
  end.

(** The hashes that the queries ask for are those of the chain. *)
Record extras_ok (s : Tdb) (canon : list H256) (n : Z) : Prop := {
  eo_hash : block_hash n = canon !! Z.to_nat n;
  eo_transactions h ts : canon !! Z.to_nat n = Some h -> known s h = Some ts -> hashes_found n ts;
}.

Lemma chain_block s canon n : chain_at s canon -> 0 <= n < zlen canon -> exists h ts,
  canon !! Z.to_nat n = Some h /\ fits 256 h /\ known s h = Some ts.
Proof using.
  intros [[_ _ _ [f [_ H2 _ H4]]] _] Hn. destruct (lookup_lt_is_Some_2 canon (Z.to_nat n)) as [h Hh]; [unfold zlen in Hn; lia|].
  destruct (H2 _ _ Hh) as (ts & Hts & _). exists h, ts. split_and!; [done|by eapply Forall_lookup_1|done].
Qed.

Lemma filter_loop_reads f l s canon : chain_at s canon -> Forall (fun n => 0 <= n < zlen canon /\ extras_ok s canon n) l ->
  reads (filter_loop block_hash transaction_hash f l) (concat (matching s canon f <$> l)) s.
Proof using Hlib.
  intros Hc Hl. revert s Hc Hl. induction l as [|n l IH]; intros s Hc Hl; [apply reads_ret, Hc|].
  apply Forall_cons in Hl as [[Hn [He1 He2]] Hl]. destruct (chain_block s canon n Hc Hn) as (h & ts & Hh & Hf & Hts). cbn [filter_loop fmap list_fmap concat].
  apply (reads_lift _ h); [by rw He1 Hh|]. eapply reads_bind; [apply traces_of_reads; [apply Hc|done]|]. intros s' Hs Hg. rw Hts.
  apply (reads_lift _ ts); [done|]. unfold matching_block_traces.
  apply (reads_lift _ (matching s canon f n)); [rw localized_exact; [by eapply He2|]; unfold matching; by rw Hh Hts|].
  assert (Em : forall m, matching s' canon f m = matching s canon f m).
  { intros m. unfold matching. destruct (canon !! Z.to_nat m); [|done]. by rw (same_known s s'). }
  eapply reads_bind; [apply (IH s'); [by eapply chain_same|]|].
  - eapply Forall_impl; [exact Hl|]. intros m [Hm [Hm1 Hm2]]. split; [done|]. split; [done|]. intros h' ts'. rw (same_known s s'); [done|]. apply Hm2.
  - intros s'' Hs' Hg'. exists s''. split; [|by split]. unfold sret. do 4 f_equal. apply list_fmap_ext. intros i m _. apply Em.
Qed.

Lemma sorted_range l a n : StronglySorted Z.lt l -> Forall (fun x => a <= x < a + n) l -> l = filter (fun x => x ∈ l) (seqZ a n).
Proof using.
  intros Hs Hr. rw -merge_sort_range; [|done|].
  - clear Hr. induction Hs as [|x l Hl IH Hx]; constructor; [|done]. intros Hin. rw Forall_forall in Hx. specialize (Hx x Hin). lia.
  - apply (StronglySorted_unique Z.le); [|apply StronglySorted_merge_sort; apply _|by rw merge_sort_Permutation].
    clear Hr. induction Hs as [|x l Hl IH Hx]; constructor; [done|]. eapply Forall_impl; [exact Hx|]. cbn. lia.
Qed.

(** The trace at a place of a transaction. *)
Lemma trace_reads s canon n h ts i path : chain_at s canon -> 0 <= n -> canon !! Z.to_nat n = Some h -> known s h = Some ts ->
  extras_ok s canon n ->
  reads (trace block_hash transaction_hash n i path)
    (localize (Z.of_nat i) (hash_of n (Z.of_nat i)) n h <$> (txs ← ts !! i; find (at_address path) (txs : list FlatTrace))) s.
Proof using.
  intros Hc Hn Hh Hts [He1 He2]. pose proof Hc as [[Hg _ _ [f Hst]] _]. unfold trace. rw He1 Hh.
  eapply reads_bind; [apply traces_of_reads; [done|by eapply (Forall_lookup_1 _ _ _ _ (cs_hashes _ _ _ Hst))]|]. intros s' Hs Hg'. rw Hts. cbn [mbind option_bind].
  destruct (ts !! i) as [txs|] eqn:Ei; [|by apply reads_ret]. cbn [mbind option_bind]. change (fun t => bool_decide (f_trace_address t = path)) with (at_address path).
  destruct (find (at_address path) txs) as [t|]; [|by apply reads_ret]. apply (reads_lift _ (hash_of n (Z.of_nat i))).
  - rw (He2 h ts Hh Hts i); [by eapply lookup_lt_Some|done].
  - by apply reads_ret.
Qed.

(** All traces of a block. *)
Lemma block_traces_reads s canon n h ts : chain_at s canon -> 0 <= n -> canon !! Z.to_nat n = Some h -> known s h = Some ts ->
  extras_ok s canon n ->
  reads (block_traces block_hash transaction_hash n) (Some (block_localized (fun _ => true) n h ts)) s.
Proof using.
  intros Hc Hn Hh Hts [He1 He2]. pose proof Hc as [[Hg _ _ [f Hst]] _]. unfold block_traces. rw He1 Hh.
  eapply reads_bind; [apply traces_of_reads; [done|by eapply (Forall_lookup_1 _ _ _ _ (cs_hashes _ _ _ Hst))]|]. intros s' Hs Hg'. rw Hts.
  apply (reads_lift _ (block_localized (fun _ => true) n h ts)); [by apply localized_exact, (He2 h)|by apply reads_ret].
Qed.

  Context (mask : H256 -> Z).
  Context (with_ok : forall b h, with_bloomed b h = Z.lor b (mask h)) (from_ok : forall h, from_bloomed h = mask h).
  Context (mask_nonzero : forall h, mask h <> 0).

(** The search finds every trace of the range that matches, in order. *)
Lemma filter_reads f s canon a b : chain_at s canon -> tf_range f = (a, b) -> 0 <= a -> b < zlen canon -> b < max_number ->
  (forall n, a <= n <= b -> extras_ok s canon n) ->
  reads (filter_traces from_bloomed with_bloomed chain_filter block_hash transaction_hash f)
    (concat (matching s canon f <$> seqZ a (b - a + 1))) s.
Proof using Hlib with_ok from_ok mask_nonzero.
  intros Hc Hr Ha Hb Hmax He. unfold filter_traces. rw Hr. apply reads_get. pose proof Hc as [[Hg _ Hcf [g Hst]] _]. rw Hcf.
  destruct (bc_filter (group_at s) g a b (trace_possibilities from_bloomed with_bloomed f) (cs_blooms _ _ _ Hst) Ha Hmax) as (Hso & Hin & Hall).
  eapply reads_bind; [apply run_ask_reads, Hg|]. intros s' Hs Hg'. set (l := answer _ _) in *.
  assert (Hl : concat (matching s canon f <$> l) = concat (matching s canon f <$> seqZ a (b - a + 1))).
  { rw {1}(sorted_range l a (b - a + 1)); [done|eapply Forall_impl; [exact Hin|]; cbn; lia|]. apply concat_skip.
    intros n Hn%elem_of_seqZ Hni. unfold matching. destruct (canon !! Z.to_nat n) as [h|] eqn:Eh; [|done].
    destruct (cs_block _ _ _ Hst _ _ Eh) as (ts & Hts & Hbl). rw Hts. cbn [from_option]. 
    apply localized_none. intros txs t Htxs Ht Hm. apply Hni.
    destruct (block_possible mask from_bloomed with_bloomed with_ok from_ok mask_nonzero f ts txs t Htxs Ht Hm) as (Hnz & p & Hp & Hcp).
    rw Z2Nat.id in Hbl; [lia|]. rw -Hbl in Hnz. rw -Hbl in Hcp. by apply (Hall n p); [lia|..]. }
  rw -Hl. replace (matching s canon f <$> l) with (matching s' canon f <$> l).
  - apply (filter_loop_reads f l s' canon); [by eapply chain_same|]. eapply Forall_impl; [exact Hin|]. intros n [Hn1 Hn2]. split; [lia|].
    destruct (He n (conj Hn1 Hn2)) as [He1 He2]. split; [done|]. intros h ts. rw (same_known s s'); [done|]. apply He2.
  - apply list_fmap_ext. intros i n _. unfold matching. destruct (canon !! Z.to_nat n); [|done]. by rw (same_known s s').
Qed.
End chain.
