(* ===== verification/Samples.v ===== *)
(** * Concrete instances

    The parameters of the development at concrete values: a utility library
    with a toy hash, a database kept in memory, a small environment for the
    interpreter, and states, transactions and blocks to run the models on.
    They show that the assumptions of the theorems can be met. *)

From S2P Require Import Prelude Lru Instructions Schedule Evm SharedCache Interpreter.
From S2P Require Import InterpreterSpec LoopSpec Account State StateSpec CheckpointSpec StateInv CommitSpec.
From S2P Require Import Executive ExecutiveSpec Block BlockSpec.
From stdpp Require Import base gmap list strings.
Local Open Scope Z_scope.
Local Open Scope cita_scope.

(** ** Utility library *)
Definition toy_hash (b : bytes) : H256 := wrap 256 (fold_left (fun h x => h * 263 + x + 1) b 12345).

Definition toy_encode (b : BasicAccount) : bytes :=
  to_be 32 (basic_nonce b) ++ to_be 32 (basic_storage_root b) ++ to_be 32 (basic_code_hash b).

Definition toy_decode (b : bytes) : option BasicAccount :=
  if zlen b =? 96 then
    Some {| basic_nonce := of_be (take 32 b);
            basic_storage_root := of_be (take 32 (drop 32 b));
            basic_code_hash := of_be (drop 64 b) |}
  else None.

#[export] Instance toy_util : Util := {
  crypt_hash := toy_hash;
  HASH_EMPTY := 12345;
  HASH_NULL_RLP := 54321;
  encode_basic := toy_encode;
  decode_basic := toy_decode;
  encode_u256 := to_be 32;
  decode_u256 b := if zlen b =? 32 then Some (of_be b) else None;
}.

Lemma of_be_to_be_32 v : fits 256 v -> of_be (to_be 32 v) = v.
Proof. intros Hv. rw of_be_to_be. by apply wrap_small. Qed.

#[global] Arguments toy_hash : simpl never.
#[global] Arguments toy_encode : simpl never.

Lemma toy_hash_fits b : fits 256 (toy_hash b).
Proof. by apply wrap_fits. Qed.

#[export] Instance toy_util_ok : UtilOk.
Proof.
  split; [apply toy_hash_fits|done|..].
  - intros n r c Hn Hr Hc. cbn [decode_basic encode_basic toy_util]. rw /toy_decode /toy_encode.
    cbn [basic_nonce basic_storage_root basic_code_hash].
    assert (Hlen : zlen (to_be 32 n ++ to_be 32 r ++ to_be 32 c) = 96)
      by (by rw /zlen (length_app (to_be 32 n)) (length_app (to_be 32 r)) !to_be_length).
    rw Hlen. cbn [Z.eqb Pos.eqb].
    rw (take_app_length' (to_be 32 n)); [by rw to_be_length|].
    rw (drop_app_length' (to_be 32 n)); [by rw to_be_length|].
    rw (take_app_length' (to_be 32 r)); [by rw to_be_length|].
    rw app_assoc (drop_app_length' (to_be 32 n ++ to_be 32 r)); [by rw (length_app (to_be 32 n)) !to_be_length|].
    by rw !of_be_to_be_32.
  - intros v Hv. cbn. rw /zlen to_be_length /=. by rw of_be_to_be_32.
Qed.

(** ** A database in memory

    Tries are stored under their space and root; every update makes a new
    root. *)
Record toy_db : Type := ToyDb {
  tries : gmap (option Z * Z) (gmap Z bytes);
  codes : gmap (Z * Z) bytes;
  next_root : Z;
}.

Definition trie_of (d : toy_db) (sp : option Z) (r : H256) : option (gmap Z bytes) :=
  if r =? 54321 then Some ∅ else tries d !! (sp, r).

(** The root after the last one; it is not the root of the empty trie. *)
Definition fresh_root (d : toy_db) : Z :=
  let r := wrap 256 (next_root d) in if r =? 54321 then 54322 else r.

#[export] Instance toy_backend : Backend toy_db := {
  db_contains d r := bool_decide (is_Some (trie_of d None r));
  code_get d ah h := codes d !! (ah, h);
  code_emplace d ah h c := ToyDb (tries d) (<[(ah, h) := c]> (codes d)) (next_root d);
  trie_open d sp r :=
    match trie_of d sp r with Some _ => inr tt | None => inl "Invalid state root"%string end;
  trie_get d sp r k :=
    match trie_of d sp r with Some m => inr (m !! k) | None => inl "Invalid state root"%string end;
  trie_put d sp r k v :=
    match trie_of d sp r with
    | Some m =>
        let r' := fresh_root d in
        let m' := match v with Some b => <[k := b]> m | None => delete k m end in
        inr (ToyDb (<[(sp, r') := m']> (tries d)) (codes d) (r' + 1), r')
    | None => inl "Invalid state root"%string
    end;
}.

Lemma fresh_trie d m sp cs n : trie_of (ToyDb (<[(sp, fresh_root d) := m]> (tries d)) cs n) sp (fresh_root d) = Some m.
Proof.
  rw /trie_of. assert (Hne : fresh_root d <> 54321) by (rw /fresh_root; destruct (Z.eqb_spec (wrap 256 (next_root d)) 54321); lia).
  rw (proj2 (Z.eqb_neq _ _) Hne). cbn. by rw lookup_insert_eq.
Qed.

#[export] Instance toy_backend_ok : BackendOk toy_db.
Proof.
  assert (Hput : forall d sp r k v d' r', trie_put d sp r k v = inr (d', r') ->
    exists m, trie_of d sp r = Some m /\ r' = fresh_root d /\
      d' = ToyDb (<[(sp, r') := match v with Some b => <[k := b]> m | None => delete k m end]> (tries d))
             (codes d) (r' + 1)).
  { intros d sp r k v d' r'. rw /trie_put /toy_backend. destruct (trie_of d sp r) as [m|]; [|done].
    intros [= <- <-]. by exists m. }
  split.
  - intros d sp r k v d' r' (m & Hm & -> & ->)%Hput. rw /trie_open /toy_backend. by rw fresh_trie.
  - intros d sp r k v d' r' (m & _ & -> & _)%Hput. rw /fresh_root.
    destruct (_ =? _); [done|]. by apply wrap_fits.
  - intros d sp r k v d' r' j (m & Hm & -> & ->)%Hput. rw /trie_get /toy_backend. rw fresh_trie Hm. f_equal.
    destruct (Z.eqb_spec j k) as [->|Hne], v; by rw ?lookup_insert_eq ?lookup_delete_eq ?lookup_insert_ne ?lookup_delete_ne.
  - intros d sp r k v d' r' sp' q j (m & _ & -> & ->)%Hput Hsp. rw /trie_open /trie_get /toy_backend /trie_of.
    cbn [tries]. rw lookup_insert_ne; [congruence|done].
  - by intros d sp r k v d' r' ah h (m & _ & -> & ->)%Hput.
  - intros d ah h c ah' h'. rw /code_get /code_emplace /toy_backend. cbn [codes].
    case_bool_decide as Hc; [destruct Hc as [-> ->]; by rw lookup_insert_eq|].
    rw lookup_insert_ne; [|done]. intros [= -> ->]. by apply Hc.
  - done.
Qed.

(** ** An environment for the interpreter

    The storage of one contract and the jump table cache; there are no other
    contracts. *)
Record ledger : Type := Ledger {
  led_storage : gmap Z Z;
  led_jumps : gmap Z BitSet;
}.

#[export] Instance ledger_ext : Externalities ledger := {
  storage_at k := sgets (fun x => default 0 (led_storage x !! k));
  set_storage k v := smodify (fun x => Ledger (<[k := v]> (led_storage x)) (led_jumps x));
  exists_ _ := sret false;
  exists_and_not_null _ := sret false;
  origin_balance := sret 0;
  balance _ := sret 0;
  blockhash _ := sret 0;
  create _ _ _ := sret CreateFailed;
  call _ _ _ _ _ _ out _ := sret (CallFailed, out);
  extcode _ := sret [];
  extcodesize _ := sret 0;
  log _ _ := sret tt;
  ret gas _ := sret gas;
  suicide _ := sret tt;
  schedule _ := Schedule.new_frontier;
  env_info _ := EnvInfo.default;
  depth _ := 0;
  inc_sstore_clears := sret tt;
  trace_prepare_execute _ _ _ := sret false;
  trace_executed _ _ _ _ := sret tt;
}.

#[export] Instance ledger_cache : CacheStore ledger (gmap Z BitSet) := {
  the_cache := led_jumps;
  put_cache c x := Ledger (led_storage x) c;
}.

Definition ledger_ok (_ : Z) (x : ledger) : Prop :=
  map_Forall (fun _ v => fits 256 v) (led_storage x) /\ SharedCache.cache_ok toy_hash (led_jumps x).

#[export] Instance ledger_ext_ok : ExternalitiesOk ledger ledger_ok.
Proof.
  assert (H0 : forall w, 0 <= w -> fits w 0) by (intros w Hw; split; [done|by apply pow2_pos]).
  split; try (intros; intros x ?; split; by auto); try done.
  - intros n k x Hx. split; [|done]. destruct Hx as [Hx _].
    destruct (led_storage x !! k) as [v|] eqn:Hk; cbn; [by eapply Hx|by apply H0].
  - intros n k v Hv x [Hx Hj]. split; [done|]. split; [|done]. split; [|done].
    by apply map_Forall_insert_2.
  - intros n a x Hx. split; [by split; [constructor|]|done].
  - intros. apply frontier_ok.
Qed.

#[export] Instance ledger_cache_ok : CacheStoreOk ledger_ext _ ledger_cache toy_hash ledger_ok.
Proof. split; [by intros n x []|]. intros n x c [? _] Hc. by split; [split|]. Qed.

Lemma ledger_no_trace n pc i g :
  ext_method (ledger_ok n) (trace_prepare_execute pc i g) (fun b => b = false).
Proof. by intros x Hx. Qed.

Lemma empty_cache_ok : SharedCache.cache_ok toy_hash (∅ : gmap Z BitSet).
Proof. intros h d. cbn. rw map_to_list_empty. by intros ?%elem_of_nil. Qed.

Definition empty_ledger : ledger := Ledger ∅ ∅.

Lemma empty_ledger_ok n : ledger_ok n empty_ledger.
Proof. split; [done|apply empty_cache_ok]. Qed.

(** ** Code and calls *)

(** [PUSH1 1; PUSH1 0; SSTORE; STOP] *)
Definition store_code : bytes := [96; 1; 96; 0; 85; 0].

Definition sample_params (code : bytes) (gas : Z) : ActionParams.t :=
  {| ActionParams.code_address := 100; ActionParams.code_hash := toy_hash code;
     ActionParams.address := 100; ActionParams.sender := 7; ActionParams.origin := 7;
     ActionParams.gas := gas; ActionParams.gas_price := 1; ActionParams.value := Transfer 0;
     ActionParams.code := Some code; ActionParams.data := None;
     ActionParams.call_type := CallType.Call |}.

Lemma sample_params_ok code gas : vec_ok code -> fits 64 gas -> params_ok (sample_params code gas).
Proof.
  intros Hc Hg. split; cbn; try done. by apply (fits_mono 64).
Qed.

Lemma bytes_ok_bool l : forallb (fun b => (0 <=? b) && (b <? 256)) l = true -> bytes_ok l.
Proof.
  intros H. apply Forall_forall. intros b Hb. eapply forallb_forall in H; [|by apply list_elem_of_In].
  zbool. by split.
Qed.

Lemma store_code_ok : vec_ok store_code.
Proof. split; [by apply bytes_ok_bool|done]. Qed.

(** ** States *)

(** A database with one account, number 100, that has the given code. *)
Definition sample_account (code : bytes) : BasicAccount :=
  {| basic_nonce := 1; basic_storage_root := 54321; basic_code_hash := toy_hash code |}.

Definition sample_db (code : bytes) : toy_db :=
  ToyDb {[ (None, 1) := {[ 100 := toy_encode (sample_account code) ]} ]}
        {[ (hash_of 100, toy_hash code) := code ]} 2.

Definition sample_state (code : bytes) : State.t toy_db (gmap Z Z) :=
  State.mk (sample_db code) 1 ∅ [] 0 {[7]} {[8]}.

Lemma sample_db_ok n code : vec_ok code -> n < 2 ^ 255 -> db_ok n (sample_db code) 1.
Proof.
  intros Hcode Hn. split.
  - done.
  - intros a b. rw /trie_get /toy_backend /trie_of. cbn [Z.eqb Pos.eqb tries sample_db].
    rw lookup_singleton_eq. intros [= Hb]. apply lookup_singleton_Some in Hb as [_ <-].
    exists (sample_account code). split; [|cbn [basic_nonce sample_account]; lia].
    apply (decode_encode_basic (HU := toy_util)); [done|done|apply toy_hash_fits].
  - intros ah sr k b. rw /trie_get /toy_backend /trie_of. destruct (sr =? 54321); [by rw lookup_empty|].
    cbn [tries sample_db]. by rw lookup_singleton_ne.
  - intros ah h c Hc. unfold code_get, toy_backend, codes, sample_db in Hc.
    apply lookup_singleton_Some in Hc as [Hk <-]. split; [done|]. exact (f_equal snd Hk).
Qed.

Lemma sample_inv n code : vec_ok code -> n < 2 ^ 255 -> inv n (sample_state code).
Proof.
  intros Hc Hn. split; [|by apply stacked_fresh]. split; [by apply sample_db_ok|..|cbn; lia].
  - intros a e. cbn. by rw lookup_empty.
  - intros cp a e Hcp. by apply not_elem_of_nil in Hcp.
Qed.

(** ** Transactions and blocks *)
Definition sample_tx (sender : Address) (action : Action) (gas : Z) (data : bytes) : SignedTransaction :=
  {| tx_gas_price := 1; tx_gas := gas; tx_action := action; tx_value := 0; tx_data := data;
     tx_sender := sender; tx_account_nonce := 0 |}.

Lemma sample_tx_ok sender action gas data :
  fits 64 gas -> vec_ok data -> fits 160 sender -> match action with ActCall a => fits 160 a | _ => True end ->
  100 <= gas -> tx_ok (sample_tx sender action gas data).
Proof.
  intros [Hg1 Hg2] Hd Hs Ha Hb. split; cbn; try done. split; [done|]. lia.
Qed.

Definition sample_info : EnvInfo.t :=
  {| EnvInfo.number := 2; EnvInfo.author := 0; EnvInfo.timestamp := 1; EnvInfo.difficulty := 0;
     EnvInfo.gas_limit := 1000000; EnvInfo.last_hashes := [11; 12]; EnvInfo.gas_used := 0;
     EnvInfo.account_gas_limit := 500000 |}.

Lemma sample_info_ok : info_ok sample_info.
Proof. split; [by split|done|]. by repeat constructor. Qed.

Definition sample_session (code : bytes) (t : SignedTransaction) : session (D := toy_db) (L := gmap Z Z) (J := gmap Z BitSet) :=
  Session (sample_state code) ∅ t.

Lemma sample_session_ok n code t : vec_ok code -> n < 2 ^ 255 -> session_ok n (sample_session code t).
Proof. intros. split; [by apply sample_inv|apply empty_cache_ok|done]. Qed.

Definition toy_encode_nonce (a : Address) (n : U256) : bytes := to_be 20 a ++ to_be 32 n.

Lemma no_natives_ok : native_ok ∅.
Proof. intros a c Hc. by rw lookup_empty in Hc. Qed.

Definition sample_block (code : bytes) (txs : list SignedTransaction)
    : OpenBlock (D := toy_db) (L := gmap Z Z) (J := gmap Z BitSet) :=
  {| b_number := 2; b_timestamp := 1; b_gas_limit := 1000000; b_gas_used := 0; b_transactions := txs;
     b_receipts := []; b_state := sample_state code; b_jumps := ∅; b_current_gas_used := 0;
     b_last_hashes := [11; 12]; b_account_gas_limit := 500000; b_account_gas := ∅ |}.

Lemma sample_block_ok n code txs : vec_ok code -> n < 2 ^ 255 -> block_ok n (sample_block code txs).
Proof.
  intros Hc Hn. split; [by apply sample_inv|apply empty_cache_ok|done|done|done|done| |done|].
  - split; [done|]. by repeat constructor.
  - intros a. rw /account_limit. cbn [b_account_gas sample_block b_account_gas_limit]. by rw lookup_empty.
Qed.
