(* ===== verification/AccountDb.v ===== *)
(** * The databases of accounts

    [account_db.rs]: the code and the storage of an account live in the
    database of the state, under keys that are mangled with the hash of the
    address; the node of the empty trie is never stored.  The database below is
    a library, [HashDB]: entries are counted, each insertion asks for its own
    removal.  That every account has a database of its own is what
    [Account.Backend] asks for. *)

From S2P Require Import Prelude Evm Account NativeStorage NativeSpec Samples.
From stdpp Require Import base gmap list.
Local Open Scope Z_scope.
Local Open Scope cita_scope.

Definition NULL_RLP : bytes := [128].

(** [util::HashDB]; operations of a read-only database panic.  [keys], which no
    database of the source implements, is left out. *)
Class HashDB (D : Type) : Type := {
  hdb_get : D -> H256 -> option bytes;
  hdb_contains : D -> H256 -> bool;
  hdb_insert : bytes -> D -> outcome void (H256 * D);
  hdb_emplace : H256 -> bytes -> D -> outcome void D;
  hdb_remove : H256 -> D -> outcome void D;
}.

(** The first 96 bits of the key stay. *)
Definition combine_key (address_hash key : H256) : H256 := Z.lxor key (Z.land address_hash (Z.ones 160)).

Section wrappers.
  Context {HU : Util} {D : Type} {HD : HashDB D}.

Record AccountDB : Type := mkAccountDB { ro_db : D; ro_address_hash : H256 }.
Record AccountDBMut : Type := mkAccountDBMut { mut_db : D; address_hash : H256 }.
Record Wrapping : Type := mkWrapping { wrapped : D }.
Record WrappingMut : Type := mkWrappingMut { wrapped_mut : D }.

(** A key of the empty trie is answered without the database. *)
Definition null_get (key : H256) (o : option bytes) : option bytes := if key =? HASH_NULL_RLP then Some NULL_RLP else o.
Definition null_contains (key : H256) (b : bool) : bool := if key =? HASH_NULL_RLP then true else b.

#[export] Instance AccountDB_HashDB : HashDB AccountDB := {
  hdb_get d key := null_get key (hdb_get (ro_db d) (combine_key (ro_address_hash d) key));
  hdb_contains d key := null_contains key (hdb_contains (ro_db d) (combine_key (ro_address_hash d) key));
  hdb_insert _ _ := Panic;
  hdb_emplace _ _ _ := Panic;
  hdb_remove _ _ := Panic;
}.

#[export] Instance AccountDBMut_HashDB : HashDB AccountDBMut := {
  hdb_get d key := null_get key (hdb_get (mut_db d) (combine_key (address_hash d) key));
  hdb_contains d key := null_contains key (hdb_contains (mut_db d) (combine_key (address_hash d) key));
  hdb_insert value d :=
    if bool_decide (value = NULL_RLP) then Ok (HASH_NULL_RLP, d)
    else
      let k := crypt_hash value in
      b <- hdb_emplace (combine_key (address_hash d) k) value (mut_db d) ;;
      Ok (k, mkAccountDBMut b (address_hash d));
  hdb_emplace key value d :=
    if key =? HASH_NULL_RLP then Ok d
    else b <- hdb_emplace (combine_key (address_hash d) key) value (mut_db d) ;; Ok (mkAccountDBMut b (address_hash d));
  hdb_remove key d :=
    if key =? HASH_NULL_RLP then Ok d
    else b <- hdb_remove (combine_key (address_hash d) key) (mut_db d) ;; Ok (mkAccountDBMut b (address_hash d));
}.

#[export] Instance Wrapping_HashDB : HashDB Wrapping := {
  hdb_get d key := null_get key (hdb_get (wrapped d) key);
  hdb_contains d key := null_contains key (hdb_contains (wrapped d) key);
  hdb_insert _ _ := Panic;
  hdb_emplace _ _ _ := Panic;
  hdb_remove _ _ := Panic;
}.

#[export] Instance WrappingMut_HashDB : HashDB WrappingMut := {
  hdb_get d key := null_get key (hdb_get (wrapped_mut d) key);
  hdb_contains d key := null_contains key (hdb_contains (wrapped_mut d) key);
  hdb_insert value d :=
    if bool_decide (value = NULL_RLP) then Ok (HASH_NULL_RLP, d)
    else r <- hdb_insert value (wrapped_mut d) ;; Ok (r.1, mkWrappingMut r.2);
  hdb_emplace key value d :=
    if key =? HASH_NULL_RLP then Ok d else b <- hdb_emplace key value (wrapped_mut d) ;; Ok (mkWrappingMut b);
  hdb_remove key d :=
    if key =? HASH_NULL_RLP then Ok d else b <- hdb_remove key (wrapped_mut d) ;; Ok (mkWrappingMut b);
}.

Definition AccountDB_new (db : D) (a : Address) : AccountDB := mkAccountDB db (crypt_hash (to_be 20 a)).
Definition AccountDBMut_new (db : D) (a : Address) : AccountDBMut := mkAccountDBMut db (crypt_hash (to_be 20 a)).
Definition immutable (d : AccountDBMut) : AccountDB := mkAccountDB (mut_db d) (address_hash d).

Inductive Factory : Set := Mangled | Plain.
Definition Factory_default : Factory := Mangled.

Definition readonly (f : Factory) (db : D) (h : H256) : AccountDB + Wrapping :=
  match f with Mangled => inl (mkAccountDB db h) | Plain => inr (mkWrapping db) end.
Definition create (f : Factory) (db : D) (h : H256) : AccountDBMut + WrappingMut :=
  match f with Mangled => inl (mkAccountDBMut db h) | Plain => inr (mkWrappingMut db) end.
End wrappers.
Arguments AccountDB D : clear implicits.
Arguments AccountDBMut D : clear implicits.
Arguments Wrapping D : clear implicits.
Arguments WrappingMut D : clear implicits.

(** ** Keys *)
(** Mangling twice gives the key back. *)
Lemma combine_involutive a k : combine_key a (combine_key a k) = k.
Proof. unfold combine_key. by rw Z.lxor_assoc Z.lxor_nilpotent Z.lxor_0_r. Qed.

#[export] Instance combine_inj a : Inj (=) (=) (combine_key a).
Proof. intros k k' Hk. rw -(combine_involutive a k) Hk. apply combine_involutive. Qed.

(** Entries of two accounts share a key exactly when the keys differ as the
    address hashes do in their last 160 bits, and nowhere else. *)
Lemma combine_meets a b k k' : combine_key a k = combine_key b k' <-> Z.lxor k k' = Z.land (Z.lxor a b) (Z.ones 160).
Proof.
  unfold combine_key. split; intros He.
  - assert (Z.lxor k k' = Z.lxor (Z.land a (Z.ones 160)) (Z.land b (Z.ones 160))) as ->.
    { rw -(Z.lxor_0_r k) -(Z.lxor_nilpotent (Z.land a (Z.ones 160))) -Z.lxor_assoc He. apply Z.bits_inj. intros i. rw !Z.lxor_spec.
      by destruct (Z.testbit k' i), (Z.testbit (Z.land b (Z.ones 160)) i), (Z.testbit (Z.land a (Z.ones 160)) i). }
    apply Z.bits_inj. intros i. rw !Z.lxor_spec !Z.land_spec Z.lxor_spec. by destruct (Z.testbit a i), (Z.testbit b i), (Z.testbit _ i).
  - apply Z.bits_inj. intros i. assert (Hi := f_equal (fun z => Z.testbit z i) He). cbn beta in Hi. rw Z.lxor_spec Z.land_spec Z.lxor_spec in Hi.
    rw !Z.lxor_spec !Z.land_spec. by destruct (Z.testbit k i), (Z.testbit k' i), (Z.testbit a i), (Z.testbit b i), (Z.testbit (Z.ones 160) i).
Qed.

(** The same key of two accounts never meets. *)
Lemma combine_apart a b k : Z.land a (Z.ones 160) <> Z.land b (Z.ones 160) -> combine_key a k <> combine_key b k.
Proof.
  intros Hab He. apply Hab. unfold combine_key in He. apply (f_equal (Z.lxor k)) in He. by rw -!Z.lxor_assoc Z.lxor_nilpotent !Z.lxor_0_l in He.
Qed.

(** ** The library *)

(** Entries with the number of insertions that were not removed; an entry is
    there while this is positive.  Keys are hashes of their values, so an entry
    that is there is inserted again with the same value.  The key of the empty
    trie is left open. *)
Class HashDBOk (D : Type) {HU : Util} {HD : HashDB D} : Type := {
  hdb_refs : D -> H256 -> Z;
  hdb_value : D -> H256 -> bytes;
  get_counted d k : k <> HASH_NULL_RLP -> hdb_get d k = if 0 <? hdb_refs d k then Some (hdb_value d k) else None;
  contains_counted d k : k <> HASH_NULL_RLP -> hdb_contains d k = (0 <? hdb_refs d k);
  emplace_counted d k v : k <> HASH_NULL_RLP -> hdb_refs d k <= 0 \/ hdb_value d k = v ->
    exists d', hdb_emplace k v d = Ok d' /\ hdb_refs d' k = hdb_refs d k + 1 /\ hdb_value d' k = v /\
      forall j, j <> k -> hdb_refs d' j = hdb_refs d j /\ hdb_value d' j = hdb_value d j;
  remove_counted d k : k <> HASH_NULL_RLP ->
    exists d', hdb_remove k d = Ok d' /\ hdb_refs d' k = hdb_refs d k - 1 /\ hdb_value d' k = hdb_value d k /\
      forall j, j <> k -> hdb_refs d' j = hdb_refs d j /\ hdb_value d' j = hdb_value d j;
}.

(** ** Accounts *)
Inductive DbOp : Set := OpInsert (v : bytes) | OpEmplace (k : H256) (v : bytes) | OpRemove (k : H256).

Section account.
  Context {HU : Util} {D : Type} {HD : HashDB D} {HDok : HashDBOk D}.

Definition run_op (op : DbOp) (d : AccountDBMut D) : outcome void (AccountDBMut D) :=
  match op with
  | OpInsert v => r <- hdb_insert v d ;; Ok r.2
  | OpEmplace k v => hdb_emplace k v d
  | OpRemove k => hdb_remove k d
  end.

Fixpoint run_ops (ops : list DbOp) (d : AccountDBMut D) : outcome void (AccountDBMut D) :=
  match ops with [] => Ok d | op :: ops => d <- run_op op d ;; run_ops ops d end.

(** A database of one account alone: counted entries. *)
Definition Store : Type := H256 -> Z * bytes.
Definition op_key (op : DbOp) : H256 := match op with OpInsert v => crypt_hash v | OpEmplace k _ | OpRemove k => k end.
Definition op_null (op : DbOp) : bool :=
  match op with OpInsert v => bool_decide (v = NULL_RLP) | OpEmplace k _ | OpRemove k => k =? HASH_NULL_RLP end.

Definition store_op (op : DbOp) (s : Store) : Store :=
  if op_null op then s
  else fun j =>
    if j =? op_key op then
      match op with
      | OpInsert v | OpEmplace _ v => ((s j).1 + 1, v)
      | OpRemove _ => ((s j).1 - 1, (s j).2)
      end
    else s j.

Definition store_get (s : Store) (k : H256) : option bytes :=
  if k =? HASH_NULL_RLP then Some NULL_RLP else if 0 <? (s k).1 then Some (s k).2 else None.

(** The account [a] sees the store [s]. *)
Definition sees (d : D) (a : H256) (s : Store) : Prop :=
  forall k, k <> HASH_NULL_RLP -> combine_key a k <> HASH_NULL_RLP ->
    s k = (hdb_refs d (combine_key a k), hdb_value d (combine_key a k)).

(** Keys whose mangled forms are not that of the empty trie, used as keys of
    contents. *)
Definition op_ok (a : H256) (s : Store) (op : DbOp) : Prop :=
  op_null op = true \/
  op_key op <> HASH_NULL_RLP /\ combine_key a (op_key op) <> HASH_NULL_RLP /\
  match op with OpInsert v | OpEmplace _ v => (s (op_key op)).1 <= 0 \/ (s (op_key op)).2 = v | OpRemove _ => True end.

Lemma store_op_key op s : op_null op = false ->
  store_op op s (op_key op) =
    match op with OpInsert v | OpEmplace _ v => ((s (op_key op)).1 + 1, v) | OpRemove _ => ((s (op_key op)).1 - 1, (s (op_key op)).2) end.
Proof using. unfold store_op. intros ->. by rw Z.eqb_refl. Qed.

Lemma run_op_eq op (d : AccountDBMut D) :
  run_op op d =
    if op_null op then Ok d
    else b <- match op with
              | OpInsert v | OpEmplace _ v => hdb_emplace (combine_key (address_hash d) (op_key op)) v (mut_db d)
              | OpRemove _ => hdb_remove (combine_key (address_hash d) (op_key op)) (mut_db d)
              end ;; Ok (mkAccountDBMut b (address_hash d)).
Proof using.
  destruct op as [v|k v|k]; [|done|done]. unfold run_op, op_null, op_key.
  change (hdb_insert v d) with (if bool_decide (v = NULL_RLP) then Ok (HASH_NULL_RLP, d)
    else b <- hdb_emplace (combine_key (address_hash d) (crypt_hash v)) v (mut_db d) ;; Ok (crypt_hash v, mkAccountDBMut b (address_hash d)) :> outcome void _).
  case_bool_decide; [done|]. by destruct (hdb_emplace _ v _).
Qed.

(** An operation of an account changes one entry of the database. *)
Lemma run_op_changes a d s op : sees d a s -> op_ok a s op ->
  exists d', run_op op (mkAccountDBMut d a) = Ok (mkAccountDBMut d' a) /\ sees d' a (store_op op s) /\
    forall j, (op_null op = false -> j <> combine_key a (op_key op)) -> hdb_refs d' j = hdb_refs d j /\ hdb_value d' j = hdb_value d j.
Proof using HDok.
  intros Hs Hop. destruct (op_null op) eqn:Hn.
  - exists d. split_and!; [by rw run_op_eq Hn|by rw /store_op Hn|done].
  - destruct Hop as [|(Hk & Hc & Hv)]; [congruence|].
    assert (Hstep : exists d', run_op op (mkAccountDBMut d a) = Ok (mkAccountDBMut d' a) /\
      (hdb_refs d' (combine_key a (op_key op)), hdb_value d' (combine_key a (op_key op))) = store_op op s (op_key op) /\
      forall j, j <> combine_key a (op_key op) -> hdb_refs d' j = hdb_refs d j /\ hdb_value d' j = hdb_value d j).
    { rw store_op_key; [done|]. rw run_op_eq Hn. rw (Hs _ Hk Hc) in Hv |- *. destruct op as [v|k v|k]; cbn [op_key address_hash mut_db] in *.
      - destruct (emplace_counted d _ v Hc Hv) as (d' & -> & Hr & Hval & Ho). exists d'. cbn. by rw Hr Hval.
      - destruct (emplace_counted d _ v Hc Hv) as (d' & -> & Hr & Hval & Ho). exists d'. cbn. by rw Hr Hval.
      - destruct (remove_counted d _ Hc) as (d' & -> & Hr & Hval & Ho). exists d'. cbn. by rw Hr Hval. }
    destruct Hstep as (d' & Hrun & He & Ho). exists d'. split_and!; [done| |auto]. intros k Hk' Hc'.
    destruct (decide (k = op_key op)) as [->|Hne]; [by rw He|]. unfold store_op. rw Hn (proj2 (Z.eqb_neq _ _) Hne).
    destruct (Ho (combine_key a k)) as [-> ->]; [by intros ?%combine_inj|]. by apply Hs.
Qed.

Fixpoint ops_ok (a : H256) (s : Store) (ops : list DbOp) : Prop :=
  match ops with [] => True | op :: ops => op_ok a s op /\ ops_ok a (store_op op s) ops end.

Definition store_ops (ops : list DbOp) (s : Store) : Store := fold_left (fun s op => store_op op s) ops s.

Lemma run_ops_changes a d s ops : sees d a s -> ops_ok a s ops ->
  exists d', run_ops ops (mkAccountDBMut d a) = Ok (mkAccountDBMut d' a) /\ sees d' a (store_ops ops s) /\
    forall j, Forall (fun op => op_null op = false -> j <> combine_key a (op_key op)) ops ->
      hdb_refs d' j = hdb_refs d j /\ hdb_value d' j = hdb_value d j.
Proof using HDok.
  revert d s. induction ops as [|op ops IH]; intros d s Hs Hok; [by exists d|]. destruct Hok as [Hop Hok].
  destruct (run_op_changes a d s op Hs Hop) as (d1 & Hrun & Hs1 & Ho1). destruct (IH d1 (store_op op s) Hs1 Hok) as (d2 & Hrun2 & Hs2 & Ho2).
  exists d2. cbn [run_ops]. rw Hrun. split_and!; [done|done|]. intros j [Hj Hjs]%Forall_cons.
  destruct (Ho2 j Hjs) as [-> ->]. by apply Ho1.
Qed.

Lemma sees_get d a s k : sees d a s -> k = HASH_NULL_RLP \/ combine_key a k <> HASH_NULL_RLP ->
  hdb_get (mkAccountDBMut d a) k = store_get s k /\ hdb_contains (mkAccountDBMut d a) k = bool_decide (is_Some (store_get s k)).
Proof using.
  intros Hs Hk. cbn [hdb_get hdb_contains AccountDBMut_HashDB mut_db address_hash]. unfold null_get, null_contains, store_get.
  destruct (Z.eqb_spec k HASH_NULL_RLP) as [->|Hne]; [done|]. destruct Hk as [|Hc]; [done|].
  rw get_counted; [done|]. rw contains_counted; [done|]. rw (Hs k Hne Hc). cbn. by destruct (0 <? _).
Qed.

(** C32: Operations of an account on the common database are operations on a
    database of its own: they do not fail, and afterwards the account reads the
    counted entries that these operations leave in a database for it alone,
    with the node of the empty trie always there.  Another account reads what
    it read before at every key, unless the two keys differ exactly as the last
    160 bits of the hashes of the two addresses do. *)
Theorem account_databases_apart a b d s t ops : sees d a s -> sees d b t -> ops_ok a s ops ->
  exists d', run_ops ops (mkAccountDBMut d a) = Ok (mkAccountDBMut d' a) /\
    (forall k, k = HASH_NULL_RLP \/ combine_key a k <> HASH_NULL_RLP ->
       hdb_get (mkAccountDBMut d' a) k = store_get (store_ops ops s) k /\
       hdb_contains (mkAccountDBMut d' a) k = bool_decide (is_Some (store_get (store_ops ops s) k))) /\
    (forall k, k = HASH_NULL_RLP \/ combine_key b k <> HASH_NULL_RLP ->
       Forall (fun op => op_null op = false -> Z.lxor (op_key op) k <> Z.land (Z.lxor a b) (Z.ones 160)) ops ->
       hdb_get (mkAccountDBMut d' b) k = store_get t k).
Proof using HDok.
  intros Hs Ht Hok. destruct (run_ops_changes a d s ops Hs Hok) as (d' & Hrun & Hs' & Ho). exists d'. split_and!; [done| |].
  - intros k Hk. by apply sees_get.
  - intros k Hk Hops. rw -(proj1 (sees_get d b t k Ht Hk)). cbn [hdb_get AccountDBMut_HashDB mut_db address_hash]. unfold null_get.
    destruct (Z.eqb_spec k HASH_NULL_RLP) as [->|Hne]; [done|]. destruct Hk as [|Hc]; [done|]. rw !get_counted; [done..|].
    destruct (Ho (combine_key b k)) as [-> ->]; [|done]. eapply Forall_impl; [exact Hops|]. intros op Hop Hn He.
    apply (Hop Hn), combine_meets. done.
Qed.
End account.

(** ** A sample: two accounts with the same key *)
#[export] Instance toy_hashdb : HashDB (gmap Z (Z * bytes)) := {
  hdb_get d k := e ← d !! k; if 0 <? e.1 then Some e.2 else None;
  hdb_contains d k := match d !! k with Some e => 0 <? e.1 | None => false end;
  hdb_insert v d := let k := toy_hash v in Ok (k, <[k := (from_option fst 0 (d !! k) + 1, v)]> d);
  hdb_emplace k v d := Ok (<[k := (from_option fst 0 (d !! k) + 1, v)]> d);
  hdb_remove k d := Ok (<[k := (from_option fst 0 (d !! k) - 1, from_option snd [] (d !! k))]> d);
}.

#[export] Instance toy_hashdb_ok : HashDBOk (HU := toy_util) (gmap Z (Z * bytes)).
Proof.
  refine {| hdb_refs d k := from_option fst 0 (d !! k); hdb_value d k := from_option snd [] (d !! k) |}.
  - intros d k _. cbn. by destruct (d !! k) as [[]|].
  - intros d k _. cbn. by destruct (d !! k) as [[]|].
  - intros d k v _ _. eexists. split; [done|]. rw lookup_insert_eq. split_and!; [done|done|]. intros j Hj. by rw lookup_insert_ne.
  - intros d k _. eexists. split; [done|]. rw lookup_insert_eq. split_and!; [done|done|]. intros j Hj. by rw lookup_insert_ne.
Defined.

Lemma toy_sees a : sees (HU := toy_util) (∅ : gmap Z (Z * bytes)) a (fun _ => (0, [])).
Proof. intros k _ _. cbn. by rw lookup_empty. Qed.

Lemma account_databases_apart_witness :
  exists d', run_ops (HU := toy_util) [OpEmplace 5 [1]; OpEmplace 6 [2]; OpRemove 6] (mkAccountDBMut (∅ : gmap Z (Z * bytes)) 1000) =
      Ok (mkAccountDBMut d' 1000) /\
    hdb_get (mkAccountDBMut d' 1000) 5 = Some [1] /\ hdb_get (mkAccountDBMut d' 1000) 6 = None /\
    hdb_get (mkAccountDBMut d' 2000) 5 = None.
Proof.
  destruct (account_databases_apart (HU := toy_util) 1000 2000 (∅ : gmap Z (Z * bytes)) (fun _ => (0, [])) (fun _ => (0, []))
    [OpEmplace 5 [1]; OpEmplace 6 [2]; OpRemove 6]) as (d' & Hrun & Ha & Hb).
  - apply toy_sees.
  - apply toy_sees.
  - assert (G : forall k v s, (k =? HASH_NULL_RLP) = false -> (combine_key 1000 k =? HASH_NULL_RLP) = false -> (s k).1 = 0 ->
      op_ok (HU := toy_util) 1000 s (OpEmplace k v)).
    { intros k v s H1%Z.eqb_neq H2%Z.eqb_neq H3. right. split_and!; [done|done|left; cbn [op_key]; lia]. }
    split; [by apply G; vm_compute|]. split; [by apply G; vm_compute|]. split; [|done]. right. split_and!; [by vm_compute|by vm_compute|done].
  - exists d'. split_and!; [done|..].
    + rw (proj1 (Ha 5 (or_intror _))); [by vm_compute|]. by vm_compute.
    + rw (proj1 (Ha 6 (or_intror _))); [by vm_compute|]. by vm_compute.
    + rw (Hb 5 (or_intror _)); [by vm_compute| |by vm_compute].
      apply Forall_cons; split; [by vm_compute|]. apply Forall_cons; split; [by vm_compute|]. apply Forall_cons; split; [by vm_compute|by apply Forall_nil].
Defined.
