(* ===== verification/Builtin.v ===== *)
(** * Builtin contracts

    [builtin.rs]: the price of a builtin, and what it makes of its input.  The
    cryptographic functions and the output buffers are of libraries,
    [BuiltinLib].  The executive asks of its builtins what [engine_ok] says;
    the builtins of the source fulfil it. *)

From S2P Require Import Prelude Evm Account NativeStorage NativeSpec Executive ExecutiveSpec Samples.
From stdpp Require Import base gmap list strings.
Local Open Scope Z_scope.
Local Open Scope cita_scope.

(** [BytesRef::write]; the digests; signatures, which are valid or not and
    give a public key or not. *)
Class BuiltinLib : Type := {
  ref_write : Z -> bytes -> BytesRef -> BytesRef;
  sha256_digest : bytes -> bytes;
  ripemd160_digest : bytes -> bytes;
  ec_is_valid : H256 -> H256 -> Z -> bool;
  ec_recover : H256 -> H256 -> Z -> H256 -> option bytes;
  ed_recover : bytes -> bytes -> option bytes;
}.

(** ** Prices *)
Record Linear : Set := mkLinear { base : Z; word : Z }.
Definition cost (p : Linear) (in_size : Z) : U256 := base p + word p * ((in_size + 31) / 32).

(** ** Contracts *)
Inductive Impl : Set := Identity | EcRecover | Sha256 | Ripemd160 | EdRecover.

Definition ethereum_builtin (name : string) : outcome void Impl :=
  if bool_decide (name = "identity"%string) then Ok Identity
  else if bool_decide (name = "ecrecover"%string) then Ok EcRecover
  else if bool_decide (name = "sha256"%string) then Ok Sha256
  else if bool_decide (name = "ripemd160"%string) then Ok Ripemd160
  else if bool_decide (name = "edrecover"%string) then Ok EdRecover
  else Panic.

Section execute.
  Context {HU : Util} {HL : BuiltinLib}.

(** The first 128 bytes, filled up with zeros. *)
Definition input128 (i : bytes) : bytes :=
  let len := Nat.min (length i) 128 in take len i ++ replicate (128 - len) 0.

Definition part (l : bytes) (from to : nat) : bytes := take (to - from) (drop from l).

(** The address of a public key, in a word. *)
Definition write_address (public : bytes) (output : BytesRef) : BytesRef :=
  let r := to_be 32 (crypt_hash public) in
  ref_write 12 (drop 12 r) (ref_write 0 (replicate 12 0) output).

Definition identity_execute (input : bytes) (output : BytesRef) : BytesRef := ref_write 0 input output.

Definition ecrecover_execute (i : bytes) (output : BytesRef) : BytesRef :=
  let input := input128 i in
  let hash := of_be (part input 0 32) in
  let v := part input 32 64 in
  let r := of_be (part input 64 96) in
  let s := of_be (part input 96 128) in
  let last_byte := nth 31 v 0 in
  if ((last_byte =? 27) || (last_byte =? 28)) && bool_decide (take 31 v = replicate 31 0) then
    let bit := last_byte - 27 in
    if ec_is_valid r s bit then
      match ec_recover r s bit hash with
      | Some p => write_address p output
      | None => output
      end
    else output
  else output.

Definition sha256_execute (input : bytes) (output : BytesRef) : BytesRef := ref_write 0 (sha256_digest input) output.

Definition ripemd160_execute (input : bytes) (output : BytesRef) : BytesRef :=
  ref_write 0 (replicate 12 0 ++ ripemd160_digest input) output.

Definition edrecover_execute (i : bytes) (output : BytesRef) : BytesRef :=
  let input := input128 i in
  match ed_recover (part input 32 128) (part input 0 32) with
  | Some p => write_address p output
  | None => output
  end.

Definition impl_execute (n : Impl) : bytes -> BytesRef -> BytesRef :=
  match n with
  | Identity => identity_execute
  | EcRecover => ecrecover_execute
  | Sha256 => sha256_execute
  | Ripemd160 => ripemd160_execute
  | EdRecover => edrecover_execute
  end.

(** [Builtin]: a price and a contract. *)
Definition builtin (p : Linear) (n : Impl) : Builtin := {| builtin_cost := cost p; builtin_execute := impl_execute n |}.
End execute.

(** ** The libraries *)

(** [s] with [v] written at [off], as far as there is place. *)
Definition overwrite (off : nat) (v s : bytes) : bytes :=
  take off s ++ take (length s - off) v ++ drop (off + length v) s.

(** Digests have their lengths; a buffer of fixed size keeps it, one that
    grows has the data where it was written. *)
Class BuiltinLibOk {HL : BuiltinLib} : Prop := {
  write_fixed off v s : 0 <= off -> ref_write off v (Fixed s) = Fixed (overwrite (Z.to_nat off) v s);
  write_flexible off v s : 0 <= off -> exists s', ref_write off v (Flexible s) = Flexible s' /\
    take (length v) (drop (Z.to_nat off) s') = v /\ (bytes_ok v -> bytes_ok s -> bytes_ok s');
  sha256_ok b : length (sha256_digest b) = 32%nat /\ bytes_ok (sha256_digest b);
  ripemd160_ok b : length (ripemd160_digest b) = 20%nat /\ bytes_ok (ripemd160_digest b);
}.

Section spec.
  Context {HU : Util} {HL : BuiltinLib} {HLok : BuiltinLibOk}.

Lemma overwrite_length off v s : length (overwrite off v s) = length s.
Proof using. unfold overwrite. rw !length_app !length_take length_drop. lia. Qed.

Lemma overwrite_ok off v s : bytes_ok v -> bytes_ok s -> bytes_ok (overwrite off v s).
Proof using.
  intros Hv Hs. unfold overwrite. apply Forall_app. split; [by apply Forall_take|]. apply Forall_app. split; [by apply Forall_take|by apply Forall_drop].
Qed.

Lemma ref_write_same off v o : 0 <= off -> bytes_ok v -> ref_ok o -> ref_same o (ref_write off v o) /\ ref_ok (ref_write off v o).
Proof using HLok.
  intros Ho Hv Hr. destruct o as [s|s].
  - rw write_fixed; [done|]. split; [|by apply overwrite_ok]. split; [apply overwrite_length|by apply overwrite_ok].
  - destruct (write_flexible off v s Ho) as (s' & -> & _ & Hs). split; by apply Hs.
Qed.

Lemma ref_same_through o o1 o2 : ref_same o o1 -> ref_same o1 o2 -> ref_same o o2.
Proof using. destruct o, o1, o2; try done. intros [H1 _] [H2 H3]. split; [congruence|done]. Qed.

Lemma write_address_same p o : ref_ok o -> ref_same o (write_address p o).
Proof using HLok.
  intros Ho. assert (Hz : bytes_ok (replicate 12 0)) by by apply Forall_replicate.
  destruct (ref_write_same 0 (replicate 12 0) o) as [H1 H2]; [done..|]. eapply ref_same_through; [exact H1|].
  apply ref_write_same; [done|apply Forall_drop, to_be_ok|done].
Qed.

Lemma ref_same_self o : ref_ok o -> ref_same o o.
Proof using. by destruct o. Qed.

Lemma impl_execute_same n input o : bytes_ok input -> ref_ok o -> ref_same o (impl_execute n input o).
Proof using HLok.
  intros Hi Ho. destruct n; cbn [impl_execute].
  - by apply ref_write_same.
  - unfold ecrecover_execute. repeat case_match; try by apply ref_same_self. by apply write_address_same.
  - apply ref_write_same; [done|apply sha256_ok|done].
  - apply ref_write_same; [done| |done]. apply Forall_app. split; [by apply Forall_replicate|apply ripemd160_ok].
  - unfold edrecover_execute. case_match; [by apply write_address_same|by apply ref_same_self].
Qed.

Lemma cost_fits p n : fits 64 (base p) -> fits 64 (word p) -> 0 <= n < 2 ^ 63 -> 0 <= cost p n < 2 ^ 256.
Proof using.
  unfold fits, cost. intros Hb Hw Hn. assert (0 <= (n + 31) / 32 < 2 ^ 63) by (split; [apply Z.div_pos; lia|apply Z.div_lt_upper_bound; lia]).
  assert (0 <= word p * ((n + 31) / 32) < 2 ^ 64 * 2 ^ 63) by nia. lia.
Qed.

(** ** Outputs *)
Lemma input128_length i : length (input128 i) = 128%nat.
Proof using. unfold input128. rw length_app length_take length_replicate. lia. Qed.

Lemma input128_ok i : bytes_ok i -> bytes_ok (input128 i).
Proof using. intros Hi. apply Forall_app. split; [by apply Forall_take|by apply Forall_replicate]. Qed.

Lemma part_ok l a b : bytes_ok l -> bytes_ok (part l a b).
Proof using. intros Hl. by apply Forall_take, Forall_drop. Qed.

(** The recovery id of a signature is a whole word. *)
Lemma word_is_byte v x : bytes_ok v -> length v = 32%nat -> fits 8 x ->
  (nth 31 v 0 = x /\ take 31 v = replicate 31 0) <-> of_be v = x.
Proof using.
  intros Hv Hl Hx. assert (Hz : of_be (replicate 31 0 ++ [x]) = x).
  { rw of_be_snoc. assert (of_be (replicate 31 0) = 0) as -> by by vm_compute. lia. }
  assert (Hd : v = take 31 v ++ [nth 31 v 0]).
  { destruct (lookup_lt_is_Some_2 v 31) as [y Hy]; [lia|]. rw (nth_lookup_Some _ _ _ _ Hy) -(take_S_r v 31 y Hy) take_ge; [lia|done]. }
  split.
  - intros [Hn Ht]. rw Hd Hn Ht. exact Hz.
  - intros He. assert (v = replicate 31 0 ++ [x]) as ->; [|done]. rw -(to_be_of_be v Hv) Hl He -{1}Hz. apply (to_be_of_be (replicate 31 0 ++ [x])).
    apply Forall_app. split; [by apply Forall_replicate|by constructor].
Qed.

Lemma overwrite_all v s : length v = length s -> overwrite 0 v s = v.
Proof using. intros Hl. unfold overwrite. rw take_0 Nat.sub_0_r take_ge; [lia|]. rw drop_ge; [cbn; lia|]. by rw app_nil_r. Qed.

Definition address_word (public : bytes) : bytes := replicate 12 0 ++ drop 12 (to_be 32 (crypt_hash public)).

Lemma write_address_word p s : length s = 32%nat -> write_address p (Fixed s) = Fixed (address_word p).
Proof using HLok.
  intros Hl. unfold write_address, address_word. rw write_fixed; [done|]. rw write_fixed; [done|]. f_equal.
  change (Z.to_nat 12) with 12%nat. change (Z.to_nat 0) with 0%nat. set (t := drop 12 _).
  assert (Ht : length t = 20%nat) by (unfold t; rw length_drop to_be_length; lia).
  unfold overwrite at 1. rw overwrite_length Hl Ht. rw (take_ge t); [lia|]. rw (drop_ge _ (12 + 20)); [rw overwrite_length; lia|]. rw app_nil_r. f_equal.
  unfold overwrite. rw take_0 length_replicate Hl Nat.sub_0_r (take_ge (replicate 12 0)); [rw length_replicate; lia|]. cbn [app]. by rw take_app_length'; [rw length_replicate|].
Qed.

(** The input with zeros after it, cut at 128 bytes. *)
Definition padded (i : bytes) : bytes := take 128 (i ++ replicate 128 0).

Lemma input128_padded i : input128 i = padded i.
Proof using.
  unfold input128, padded. rw take_app. destruct (Nat.le_gt_cases (length i) 128) as [Hle|Hgt].
  - rw Nat.min_l; [lia|]. rw (take_ge i (length i)); [lia|]. rw (take_ge i 128); [lia|]. by rw take_replicate Nat.min_l; [lia|].
  - rw Nat.min_r; [lia|]. rw (_ : 128 - length i = 0)%nat; [lia|]. done.
Qed.

(** The word [edrecover] gives for its input: of the padded input the first
    32 bytes are the message, the other 96 the signature. *)
Definition ed_recovered (i : bytes) : option bytes :=
  address_word <$> ed_recover (drop 32 (padded i)) (take 32 (padded i)).

Lemma edrecover_word i s : length s = 32%nat -> edrecover_execute i (Fixed s) = Fixed (default s (ed_recovered i)).
Proof using HLok.
  intros Hl. unfold edrecover_execute, ed_recovered. rw -input128_padded. unfold part. rw drop_0.
  rw (take_ge (drop 32 _)); [rw length_drop input128_length; lia|].
  destruct (ed_recover _ _); [|done]. cbn. by apply write_address_word.
Qed.

(** The word [ecrecover] gives for its input. *)
Definition recovered (i : bytes) : option bytes :=
  let input := padded i in
  let v := of_be (part input 32 64) in
  let r := of_be (part input 64 96) in
  let s := of_be (part input 96 128) in
  if ((v =? 27) || (v =? 28)) && ec_is_valid r s (v - 27)
  then address_word <$> ec_recover r s (v - 27) (of_be (part input 0 32)) else None.

Lemma ecrecover_word i s : bytes_ok i -> length s = 32%nat -> ecrecover_execute i (Fixed s) = Fixed (default s (recovered i)).
Proof using HLok.
  intros Hi Hl. unfold ecrecover_execute, recovered. rw -input128_padded. set (v := part (input128 i) 32 64).
  assert (Hv : bytes_ok v) by by apply part_ok, input128_ok.
  assert (Hlv : length v = 32%nat) by (unfold v, part; rw length_take length_drop input128_length; lia).
  assert (Hx : forall x, fits 8 x -> ((nth 31 v 0 =? x) && bool_decide (take 31 v = replicate 31 0)) = (of_be v =? x)).
  { intros x Hx. apply eq_bool_prop_intro. rw andb_True !Is_true_true Z.eqb_eq bool_decide_eq_true Z.eqb_eq. by apply word_is_byte. }
  pose proof (Hx 27 ltac:(by split)) as H27. pose proof (Hx 28 ltac:(by split)) as H28. rw andb_orb_distrib_l H27 H28.
  destruct ((of_be v =? 27) || (of_be v =? 28)) eqn:Hb; [|done]. cbn [andb].
  assert (nth 31 v 0 = of_be v) as ->.
  { apply orb_true_iff in Hb as [Hb|Hb]; [rw Hb in H27; rename H27 into Hn|rw Hb in H28; rename H28 into Hn];
      apply andb_true_iff in Hn as [->%Z.eqb_eq _]; by apply Z.eqb_eq in Hb. }
  case_match; [|done]. case_match; [|done]. cbn. by apply write_address_word.
Qed.

(** C33: The builtins of the source, with a base price and a price per word of
    64 bits, are what the executive asks for: their cost is not negative, and
    they write into the output they are given without changing the size of a
    fixed one. Into a word, identity writes its input, cut at 32 bytes; sha256
    the digest; ripemd160 the digest after 12 zero bytes; ecrecover the
    address whose key signed the first 32 bytes, from the words v, r, s that
    follow; edrecover the address of the key that the 96 bytes after the first
    32 give for these; both fill their input up with zeros to 128 bytes. A
    signature without key, and for ecrecover one that is not valid or has
    another v than 27 and 28, leaves the output alone. *)
Theorem builtins_fulfil_engine (e : Engine) :
  (forall a b, e !! a = Some b ->
     exists p name n, fits 64 (base p) /\ fits 64 (word p) /\ ethereum_builtin name = Ok n /\ b = builtin p n) ->
  engine_ok e /\
  forall s i, length s = 32%nat -> bytes_ok i ->
    identity_execute i (Fixed s) = Fixed (take 32 i ++ drop (length i) s) /\
    sha256_execute i (Fixed s) = Fixed (sha256_digest i) /\
    ripemd160_execute i (Fixed s) = Fixed (replicate 12 0 ++ ripemd160_digest i) /\
    ecrecover_execute i (Fixed s) = Fixed (default s (recovered i)) /\
    edrecover_execute i (Fixed s) = Fixed (default s (ed_recovered i)).
Proof using HLok.
  intros He. split.
  - intros a b Hb. destruct (He a b Hb) as (p & name & n & Hbase & Hword & _ & ->). split.
    + intros k Hk. cbn. unfold cost. unfold fits in *. assert (0 <= (k + 31) / 32) by (apply Z.div_pos; lia). nia.
    + intros input o Hi Ho. by apply impl_execute_same.
  - intros s i Hs Hi. destruct (sha256_ok i) as [H1 _], (ripemd160_ok i) as [H2 _]. split_and!.
    + unfold identity_execute. rw write_fixed; [done|]. unfold overwrite. change (Z.to_nat 0) with O. by rw take_0 Hs.
    + unfold sha256_execute. rw write_fixed; [done|]. f_equal. apply overwrite_all. congruence.
    + unfold ripemd160_execute. rw write_fixed; [done|]. f_equal. apply overwrite_all. rw length_app H2 Hs. done.
    + by apply ecrecover_word.
    + by apply edrecover_word.
Qed.
End spec.

(** ** A sample *)
#[export] Instance toy_builtin_lib : BuiltinLib := {
  ref_write off v o :=
    match o with
    | Fixed s => Fixed (overwrite (Z.to_nat off) v s)
    | Flexible s => Flexible (take (Z.to_nat off) s ++ replicate (Z.to_nat off - length s) 0 ++ v)
    end;
  sha256_digest b := replicate 32 7;
  ripemd160_digest b := replicate 20 9;
  ec_is_valid r s bit := bool_decide (r < s);
  ec_recover r s bit hash := Some (to_be 32 hash);
  ed_recover sig msg := if bool_decide (take 32 sig = msg) then Some msg else None;
}.

#[export] Instance toy_builtin_ok : BuiltinLibOk.
Proof.
  split; [done| |intros b; split; [done|by apply Forall_replicate]|intros b; split; [done|by apply Forall_replicate]].
  intros off v s Ho. eexists. split; [done|]. rw app_assoc. split.
  - rw drop_app_length'; [rw length_app length_take length_replicate; lia|]. by rw take_ge.
  - intros Hv Hs. apply Forall_app. split; [|done]. apply Forall_app. split; [by apply Forall_take|by apply Forall_replicate].
Qed.

Definition toy_engine : Engine := <[1 := builtin (HU := toy_util) (mkLinear 3000 0) EcRecover]> {[4 := builtin (HU := toy_util) (mkLinear 15 3) Identity]}.

Lemma builtins_fulfil_engine_witness : engine_ok toy_engine /\
  ecrecover_execute (HU := toy_util) (to_be 32 5 ++ to_be 32 27 ++ to_be 32 1 ++ to_be 32 2) (Fixed (replicate 32 255)) =
    Fixed (address_word (HU := toy_util) (to_be 32 5)) /\
  edrecover_execute (HU := toy_util) (to_be 32 5 ++ to_be 32 5 ++ [1]) (Fixed (replicate 32 255)) =
    Fixed (address_word (HU := toy_util) (to_be 32 5)).
Proof.
  destruct (builtins_fulfil_engine (HU := toy_util) toy_engine) as [He Ho].
  - intros a b. unfold toy_engine. rw lookup_insert_Some lookup_singleton_Some. intros [[_ <-]|[_ [_ <-]]].
    + exists (mkLinear 3000 0), "ecrecover"%string, EcRecover. split_and!; [by split|by split|done|done].
    + exists (mkLinear 15 3), "identity"%string, Identity. split_and!; [by split|by split|done|done].
  - split; [done|]. split.
    + destruct (Ho (replicate 32 255) (to_be 32 5 ++ to_be 32 27 ++ to_be 32 1 ++ to_be 32 2)) as (_ & _ & _ & -> & _).
      * reflexivity.
      * repeat (apply Forall_app; split; [apply to_be_ok|]). apply to_be_ok.
      * vm_compute. reflexivity.
    + destruct (Ho (replicate 32 255) (to_be 32 5 ++ to_be 32 5 ++ [1])) as (_ & _ & _ & _ & ->).
      * reflexivity.
      * repeat (apply Forall_app; split; [apply to_be_ok|]). by constructor.
      * vm_compute. reflexivity.
Defined.
