(* ===== verification/StateTheorems.v ===== *)
(** * Theorems on the world state

    The state implements a stack of account maps; what is read is what was
    written; committing makes it durable.  Each theorem has a concrete
    instance. *)

From S2P Require Import Prelude Lru Evm Account State StateSpec CheckpointSpec StateInv StateMachine CommitSpec StorageSpec.
From S2P Require Import Samples.
From stdpp Require Import base gmap list strings.
Local Open Scope Z_scope.
Local Open Scope cita_scope.

Section theorems.
  Context {HU : Util} {HUok : UtilOk}.
  Context {L : Type} {HL : LruCache Z L} {HLok : LruCacheOk Z L} {D : Type} {HD : Backend D}.
Abbreviation St := (State.t D L).

(** ** Refinement *)

(** C3: The state implements a stack of account maps, answers included.  Take
    a well-formed state whose storage caches agree with the tries, and any
    sequence of checkpoints, discards, reverts, reads (existence, nonce, code,
    code hash, storage slot), nonce increments, storage writes, code
    installations, contract creations and kills, with operands of their width;
    kills come only while no checkpoint is open and contracts are created only
    where no account exists (the state does not undo the others).  Then no
    operation panics, and the answers and the accounts left are those of the
    abstract machine: per address a stack of accounts on which a checkpoint
    pushes a copy, a revert pops, a discard merges, a read answers from the top,
    and an update or a kill replaces the top with exactly the account changed.
    A storage write changes nothing if the slot has the value already.  An
    operation fails only if the database does not have the account or its
    storage, and then it changes nothing. *)
Theorem state_refines (ops : list op) (s : St) :
  tight (zlen ops) s -> Forall op_ok ops -> permitted ops s = true ->
  exists rs s', run_ops ops s = Some (rs, s') /\ tight 0 s' /\
    spec_run (State.db s) (State.root s) (State.account_start_nonce s) ops (levels s) rs (levels s').
Proof using HUok HLok.
  intros Hs Ho Hp. destruct (runs_simulate 0 ops s) as (rs & s' & Hr & Hs' & _ & Hsp); [done| |done..|].
  - by rw Z.add_0_r.
  - by exists rs, s'.
Qed.

(** C4: Whatever is done between a checkpoint and the matching revert, nested
    checkpoints included, is undone, on a well-formed state whose storage
    caches agree with the tries: every account at every level and every storage
    slot is what it was, and reading existence, nonce, code, code hash or a slot
    afterwards does not panic and answers what the state before the checkpoint
    determines.  The operations in between are those of the state machine, with
    two exceptions that the state does not undo: no account is killed in
    between, and a contract is created only where no account exists. *)
Theorem checkpoint_revert_restores (ops : list op) (s : St) :
  tight (zlen ops + 2) s -> Forall op_ok ops -> balanced 0 ops = true ->
  permitted (Checkpoint :: ops) s = true ->
  exists rs s', run_ops (Checkpoint :: ops ++ [Revert]) s = Some (rs, s') /\
    (forall a, levels s' a = levels s a /\ current s' a = current s a) /\
    (forall a k, slot s' a k = slot s a k) /\
    forall q, is_read q = true -> exists r s1, run_op q s' = Some (r, s1) /\ spec_step q s r s.
Proof using HUok HLok.
  intros Hs Ho Hb Hp. destruct (bracket_run 1 ops s) as (rs & s' & Hr & Hs' & Hbase & Hl); [done| |done..|].
  { by rw (_ : zlen ops + 1 + 1 = zlen ops + 2); [lia|]. }
  assert (Hc : forall a, current s' a = current s a) by (intros a; by rw -!topmost_current /topmost Hl).
  exists rs, s'. split; [done|]. split; [done|]. split.
  - intros a k. rw /slot Hc. by destruct Hbase as (-> & _).
  - intros q Hq. destruct (simulates 0 q s') as (r & s1 & Hr1 & _ & _ & Hsp); [done|done|by destruct q|by destruct q|].
    exists r, s1. split; [done|]. by eapply spec_read.
Qed.

(** ** Reads *)

(** The nonce, the existence, the code hash and the code read from the
    state are those of the account on top of the stack, in the cache or in the
    database alike, and reading changes no account. *)
Theorem reads_observe (n : Z) (a : Address) (s : St) :
  inv n s ->
  let x := current s a in
  wp (State.nonce a)
    (fun v s' => v = from_option es_nonce (State.account_start_nonce s) x /\ same_accounts s s')
    (fun _ s' => same_accounts s s') s /\
  wp (State.exists_ a) (fun b s' => b = bool_decide (is_Some x) /\ same_accounts s s')
    (fun _ s' => same_accounts s s') s /\
  wp (State.code_hash a) (fun h s' => h = from_option es_code_hash HASH_EMPTY x /\ same_accounts s s')
    (fun _ s' => same_accounts s s') s /\
  wp (State.code a) (fun c s' => c = (x ≫= code_value (State.db s) a) /\ same_accounts s s')
    (fun _ s' => same_accounts s s') s.
Proof using HUok HLok.
  intros [Hst Hsk] x. split; [|split; [|split]].
  - eapply wp_conseq; [by apply (nonce_exact False n)|by intros u s' (? & (_ & _ & ?) & _)..].
  - eapply wp_conseq; [by apply (exists_exact False n)|by intros u s' (? & (_ & _ & ?) & _)..].
  - eapply wp_conseq; [by apply (code_hash_exact False n)|by intros u s' (? & (_ & _ & ?) & _)..].
  - eapply wp_conseq; [by apply (code_exact False n)|by intros u s' (? & (_ & _ & ?) & _)..].
Qed.

(** Reading a storage slot gives the pending change of the slot or else the
    value in the storage trie of the account, whatever the caches hold, and
    changes no account. *)
Theorem storage_read_exact (n : Z) (a : Address) (k : H256) (s : St) :
  state_ok n s -> stacked True s ->
  wp (State.storage_at a k)
    (fun v s' => slot s a k = Ok v /\ same_accounts s s' /\ stacked True s' /\ state_ok n s')
    (fun _ s' => same_accounts s s' /\ stacked True s' /\ state_ok n s') s.
Proof using HUok HLok.
  intros Hst Hsk. eapply wp_conseq; [by apply (slot_read n)|..].
  - intros v s' (Hv & (Hsk' & _ & Hl) & ?). done.
  - intros e s' (_ & (? & _ & ?) & ?). done.
Qed.

(** Writing a storage slot gives it the value, and leaves every other slot
    of every account and every other account alone; a write that fails changes
    nothing. *)
Theorem storage_write_exact (n : Z) (a : Address) (k v : H256) (s : St) :
  0 <= n -> state_ok n s -> stacked True s -> fits 256 v -> empty_trie_ok (State.db s) ->
  wp (State.set_storage a k v)
    (fun _ s' => slot s' a k = Ok v /\ stacked True s' /\ state_ok n s' /\
       (forall b j, (b, j) <> (a, k) -> slot s' b j = slot s b j) /\
       (forall b, b <> a -> levels s' b = levels s b))
    (fun _ s' => same_accounts s s' /\ stacked True s' /\ state_ok n s') s.
Proof using HUok HLok.
  intros Hn Hst Hsk Hv He. eapply wp_conseq; [by apply (slot_write n)|..].
  - intros u s' (? & ? & ? & _ & ? & ?). done.
  - intros e s' (_ & (? & _ & ?) & ?). done.
Qed.

(** Installing code makes it the code of the account, under its hash, and
    incrementing the nonce adds exactly one to the nonce; nothing else of the
    account and no other account changes. *)
Theorem code_and_nonce_updates (n : Z) (a : Address) (c : bytes) (s : St) :
  0 <= n -> inv (n + 1) s -> vec_ok c ->
  let x := default (es_fresh (State.account_start_nonce s)) (current s a) in
  wp (State.init_code a c)
    (fun _ s' => current s' a = Some {| es_nonce := es_nonce x; es_root := es_root x;
         es_changes := es_changes x; es_code_hash := crypt_hash c; es_code := Some c |} /\
       code_value (State.db s) a (default x (current s' a)) = Some c /\
       forall b, b <> a -> levels s' b = levels s b)
    (fun _ s' => same_accounts s s') s /\
  wp (State.inc_nonce a)
    (fun _ s' => current s' a = Some {| es_nonce := es_nonce x + 1; es_root := es_root x;
         es_changes := es_changes x; es_code_hash := es_code_hash x; es_code := es_code x |} /\
       forall b, b <> a -> levels s' b = levels s b)
    (fun _ s' => same_accounts s s') s.
Proof using HUok HLok.
  intros Hn Hs Hc x. split.
  - destruct Hs as [Hst Hsk]. eapply wp_conseq; [apply wp_and_pwp;
      [apply (wp_init_code n); [done|eapply state_ok_mono; [|exact Hst]; lia|done]|by apply (pwp_init_code False a c s)]|..].
    + intros u s' [_ H]. destruct (updated_current _ _ _ _ _ H) as [Ha Hb]. split; [done|].
      split; [|by intros b Hba; apply Hb]. rw Ha /= /code_value. cbn [es_init_code es_code es_code_hash].
      destruct (bool_decide_reflect (c = [])) as [->|]; [|by rw andb_false_r].
      by rw hash_empty Z.eqb_refl.
    + intros e s' (_ & _ & _ & Hl). exact Hl.
  - eapply wp_conseq; [by apply (inv_inc_nonce n)|..].
    + intros u s' [_ H]. destruct (updated_current _ _ _ _ _ H) as [Ha Hb]. split; [done|].
      by intros b Hba; apply Hb.
    + intros e s' (_ & _ & _ & Hl). exact Hl.
Qed.

(** ** Committing *)

(** C7: Committing a well-formed state without open checkpoints does not panic.
    When it succeeds no account is left dirty, and for every account whose
    address hash collides with no other cached one, the database under the new
    root holds the nonce, the code and every storage slot that the state
    showed before. *)
Theorem commit_durable {HDok : BackendOk D} (n : Z) (s : St) :
  0 <= n -> inv n s -> State.checkpoints s = [] -> well_typed s ->
  wp State.commit
    (fun _ s' => State.checkpoints s' = [] /\
       (forall a e, State.cache s' !! a = Some e -> AccountEntry.is_dirty e = false) /\
       forall a, unlike a (map_to_list (State.cache s)).*1 ->
         es_nonce <$> stored s' a = es_nonce <$> current s a /\
         (forall k, shown_storage (State.db s') a (stored s' a) k = slot s a k) /\
         es_code_hash <$> stored s' a = es_code_hash <$> current s a /\
         stored s' a ≫= code_value (State.db s') a = current s a ≫= code_value (State.db s) a)
    (fun _ _ => True) s.
Proof using HUok.
  intros Hn [Hst Hsk] Hcp Hty. eapply wp_conseq; [by apply (wp_commit n)| |done].
  intros u s' (? & ? & Hd). split; [done|]. split; [done|]. intros a Ha. by destruct (Hd a Ha).
Qed.
End theorems.

(** ** Instances *)
Definition sample_ops : list op :=
  [IncNonce 100; Checkpoint; SetStorage 100 0 5; NewContract 102; Discard; InitCode 101 [0]; StorageAt 100 0].

Lemma sample_tight n : 0 <= n < 2 ^ 255 -> tight n (sample_state store_code).
Proof.
  intros Hn. split; [|by apply stacked_fresh]. apply (sample_inv n store_code store_code_ok). lia.
Qed.

Lemma state_refines_witness :
  exists rs s', run_ops (sample_ops ++ [Kill 101]) (sample_state store_code) = Some (rs, s') /\ tight 0 s' /\
    spec_run (sample_db store_code) (State.root (sample_state store_code)) 0 (sample_ops ++ [Kill 101])
      (levels (sample_state store_code)) rs (levels s').
Proof.
  apply (state_refines (sample_ops ++ [Kill 101]) (sample_state store_code)).
  - by apply sample_tight.
  - repeat constructor; done.
  - vm_compute. reflexivity.
Defined.

Lemma checkpoint_revert_restores_witness :
  exists rs s', run_ops (Checkpoint :: sample_ops ++ [Revert]) (sample_state store_code) = Some (rs, s') /\
    (forall a, levels s' a = levels (sample_state store_code) a /\ current s' a = current (sample_state store_code) a) /\
    (forall a k, slot s' a k = slot (sample_state store_code) a k) /\
    forall q, is_read q = true ->
      exists r s1, run_op q s' = Some (r, s1) /\ spec_step q (sample_state store_code) r (sample_state store_code).
Proof.
  apply (checkpoint_revert_restores sample_ops (sample_state store_code)).
  - by apply sample_tight.
  - repeat constructor; done.
  - reflexivity.
  - vm_compute. reflexivity.
Defined.

Lemma reads_observe_witness :
  wp (State.nonce 100) (fun v s' => v = from_option es_nonce 0 (current (sample_state store_code) 100) /\
      same_accounts (sample_state store_code) s') (fun _ s' => same_accounts (sample_state store_code) s')
    (sample_state store_code) /\
  (State.nonce 100 (sample_state store_code)).1 = Ok 1.
Proof.
  split; [|vm_compute; reflexivity].
  destruct (reads_observe 1 100 (sample_state store_code) (sample_inv 1 store_code store_code_ok eq_refl))
    as (H & _). exact H.
Defined.

Lemma storage_read_exact_witness :
  wp (State.storage_at 100 0)
    (fun v s' => slot (sample_state store_code) 100 0 = Ok v /\ same_accounts (sample_state store_code) s' /\
       stacked True s' /\ state_ok 1 s')
    (fun _ s' => same_accounts (sample_state store_code) s' /\ stacked True s' /\ state_ok 1 s')
    (sample_state store_code).
Proof.
  apply (storage_read_exact 1 100 0 (sample_state store_code)).
  - by apply (sample_inv 1 store_code store_code_ok).
  - by apply stacked_fresh.
Defined.

Lemma sample_empty_trie : empty_trie_ok (sample_db store_code).
Proof. intros ah. split; [done|]. intros k. by rw /trie_get /toy_backend /trie_of /= lookup_empty. Qed.

Lemma storage_write_exact_witness :
  wp (State.set_storage 100 0 5)
    (fun _ s' => slot s' 100 0 = Ok 5 /\ stacked True s' /\ state_ok 1 s' /\
       (forall b j, (b, j) <> (100, 0) -> slot s' b j = slot (sample_state store_code) b j) /\
       (forall b, b <> 100 -> levels s' b = levels (sample_state store_code) b))
    (fun _ s' => same_accounts (sample_state store_code) s' /\ stacked True s' /\ state_ok 1 s')
    (sample_state store_code).
Proof.
  apply (storage_write_exact 1 100 0 5 (sample_state store_code)).
  - done.
  - by apply (sample_inv 1 store_code store_code_ok).
  - by apply stacked_fresh.
  - done.
  - apply sample_empty_trie.
Defined.

Lemma code_and_nonce_updates_witness :
  wp (State.inc_nonce 100)
    (fun _ s' => current s' 100 = Some (es_inc_nonce (default (es_fresh 0) (current (sample_state store_code) 100))) /\
       forall b, b <> 100 -> levels s' b = levels (sample_state store_code) b)
    (fun _ s' => same_accounts (sample_state store_code) s') (sample_state store_code).
Proof.
  apply (code_and_nonce_updates 1 100 [0] (sample_state store_code)).
  - done.
  - by apply sample_inv; [apply store_code_ok|].
  - split; [by apply bytes_ok_bool|done].
Defined.

(** The sample state with a pending write. *)
Definition written_state : State.t toy_db (gmap Z Z) := (State.set_storage 100 0 5 (sample_state store_code)).2.

Lemma written_cache : exists acc, State.cache written_state = {[100 := AccountEntry.mk (Some acc) AccountState.Dirty]} /\
  fits 256 (Account.storage_root acc) /\ fits 256 (Account.code_hash acc) /\ Account.code_filth acc = Clean.
Proof.
  eexists. split; [vm_compute; reflexivity|]. by split_and!.
Qed.

Lemma written_inv : inv 1 written_state /\ State.checkpoints written_state = [].
Proof.
  pose proof (inv_set_storage 1 100 0 5 (sample_state store_code) ltac:(done)
    (sample_inv 1 store_code store_code_ok eq_refl) ltac:(done)) as H.
  rw /wp in H. rw /written_state. destruct (State.set_storage 100 0 5 _) as [[[]|e|] s'] eqn:E; [|..|done];
    (destruct H as [Hi [(Hl & _) _]]; split; [exact Hi|]; cbn in *; by destruct (State.checkpoints s')).
Qed.

Lemma commit_durable_witness :
  wp State.commit
    (fun _ s' => State.checkpoints s' = [] /\
       (forall a e, State.cache s' !! a = Some e -> AccountEntry.is_dirty e = false) /\
       forall a, unlike a (map_to_list (State.cache written_state)).*1 ->
         es_nonce <$> stored s' a = es_nonce <$> current written_state a /\
         (forall k, shown_storage (State.db s') a (stored s' a) k = slot written_state a k) /\
         es_code_hash <$> stored s' a = es_code_hash <$> current written_state a /\
         stored s' a ≫= code_value (State.db s') a = current written_state a ≫= code_value (State.db written_state) a)
    (fun _ _ => True) written_state /\
  (State.commit written_state).1 = Ok tt.
Proof.
  split; [|vm_compute; reflexivity]. destruct written_inv as [Hi Hc].
  apply (commit_durable 1 written_state).
  - done.
  - exact Hi.
  - exact Hc.
  - destruct written_cache as (acc & Hcache & Hr & Hh & Hf). intros a acc' st Ha.
    rw Hcache in Ha. apply lookup_singleton_Some in Ha as [_ Ha]. injection Ha as <- <-.
    split; [exact Hr|]. split; [exact Hh|]. intros Hd. rw Hf in Hd. discriminate Hd.
Defined.
