(* ===== verification/EvmTheorems.v ===== *)
(** * Theorems on the virtual machine

    The properties of the interpreter, its memory, stack and gas meter, each
    with a concrete instance. *)

From S2P Require Import Prelude Lru Instructions Schedule Evm Memory Stack SharedCache Gasometer.
From S2P Require Import GasometerSpec Interpreter Words StackSpec CopySpec InterpreterSpec LoopSpec.
From S2P Require Import Samples.
From stdpp Require Import base gmap list strings.
Local Open Scope Z_scope.
Local Open Scope cita_scope.

(** ** The interpreter *)

(** C5: With VM tracing off and less than 2^64 gas, running code whose hash is
    the one given, with parameters of their widths, in any environment that
    keeps its promises, ends without a panic when the loop may take one round
    more than there is gas; it gives back at most the gas it was given, its
    output is a well-formed byte string, and it leaves the environment well
    formed, also when it fails. (With VM tracing on, the slice of memory that
    is handed to the tracer can lie outside of the memory and panics, so that
    case is excluded.) *)
Theorem exec_safe {X : Type} {HX : Externalities X} (I : Z -> X -> Prop) {HXok : ExternalitiesOk X I}
    {L : Type} {HL : LruCache BitSet L} {HLok : LruCacheOk BitSet L} {HS : CacheStore X L}
    (sha3 crypt_hash : bytes -> H256) (HASH_EMPTY : H256) {HSok : CacheStoreOk HX HL HS crypt_hash I}
    (fuel : nat) (N : Z) (params : ActionParams.t) (code : bytes) (x : X) :
  (forall b, fits 256 (sha3 b)) ->
  (forall n pc i g, ext_method (I n) (trace_prepare_execute pc i g) (fun b => b = false)) ->
  I (N + ActionParams.gas params) x -> 0 <= N -> params_ok params ->
  ActionParams.code params = Some code -> ActionParams.code_hash params = crypt_hash code ->
  ActionParams.gas params < 2 ^ 64 -> ActionParams.gas params < Z.of_nat fuel ->
  wp (exec 64 sha3 HASH_EMPTY fuel params)
    (fun r x' => 0 <= gas_left r <= ActionParams.gas params /\ output_ok r /\
       ext_step (I (N + gas_left r)) x x')
    (fun _ x' => ext_step (I N) x x') x.
Proof. intros. by eapply wp_exec. Qed.

Lemma exec_safe_witness :
  wp (exec 64 toy_hash 12345 (Z.to_nat 30001) (sample_params store_code 30000))
    (fun r x' => 0 <= gas_left r <= 30000 /\ output_ok r /\
       ext_step (ledger_ok (0 + gas_left r)) empty_ledger x')
    (fun _ x' => ext_step (ledger_ok 0) empty_ledger x') empty_ledger.
Proof.
  apply (exec_safe ledger_ok toy_hash toy_hash 12345 (Z.to_nat 30001) 0 (sample_params store_code 30000)
    store_code empty_ledger toy_hash_fits ledger_no_trace (empty_ledger_ok _)).
  - done.
  - apply sample_params_ok; [split; [by apply bytes_ok_bool|done]|done].
  - done.
  - done.
  - done.
  - cbn [ActionParams.gas sample_params]. lia.
Defined.

(** C26: In every configuration the interpreter reaches from its start, the
    program counter is at the start of an instruction (never inside the
    operand of a push), the stack holds 256-bit words and at most as many as
    the schedule allows, memory is a multiple of 32 bytes that has been paid
    for, and no more gas is left than at the start. *)
Theorem reachable_configurations {X : Type} {HX : Externalities X} (I : Z -> X -> Prop)
    {HXok : ExternalitiesOk X I} (sha3 : bytes -> H256) (params : ActionParams.t) (code : bytes)
    (dests : BitSet) (N gas : Z) (x : X) (g : Gasometer.t) (m : machine X) :
  (forall b, fits 256 (sha3 b)) ->
  (forall n pc i g, ext_method (I n) (trace_prepare_execute pc i g) (fun b => b = false)) ->
  params_ok params -> vec_ok code -> SharedCache.find_jump_destinations (E := Error) code = Ok dests ->
  I (N + gas) x -> 0 <= N -> fits 64 gas ->
  rtc (step sha3 params code dests) (Gasometer.new gas, start x) (g, m) ->
  SharedCache.instr_start code (position m) /\
  (exists l logs, stack m = VecStack.of_top l logs /\ Forall (fits 256) l /\
     zlen l <= Schedule.stack_limit (schedule x)) /\
  zlen (mem m) mod 32 = 0 /\ Gasometer.current_mem_gas g = mem_fee (schedule x) (zlen (mem m)) /\
  0 <= Gasometer.current_gas g <= gas /\ I (N + Gasometer.current_gas g) (ext m).
Proof.
  intros Hsha Htr Hp Hcode Hd Hx HN Hgas Hr. pose proof Hcode as [_ Hlen].
  destruct (SharedCache.find_jump_destinations_total (E := Error) code Hlen) as (d & Hd' & Ht).
  rw Hd in Hd'. injection Hd' as <-.
  pose proof (positions_starts code dests Hlen (fun p => proj1 (Ht p))) as HPos.
  pose proof (start_config I N (SharedCache.instr_start code) gas x Hx Hgas ltac:(constructor)) as Hs.
  destruct (step_config I sha3 Hsha params Hp code Hcode dests _ HPos Htr N (schedule x)
    (Gasometer.new gas, start x) (g, m) Hs HN Hr)
    as ([(l & logs & ? & _ & ? & ?) _ ([? _] & ? & ? & _) [? _] ?] & Hle & _).
  cbn [fst snd] in *. split; [done|]. split; [by exists l, logs|]. by split_and!.
Qed.

(** The configuration after two rounds. *)
Definition two_rounds (code : bytes) (gas : Z) : option (Gasometer.t * machine ledger) :=
  match exec_round 64 toy_hash (sample_params code gas) code ∅ (Gasometer.new gas) (start empty_ledger) with
  | (Ok (Continue g), m) =>
      match exec_round 64 toy_hash (sample_params code gas) code ∅ g m with
      | (Ok (Continue g), m) => Some (g, m)
      | _ => None
      end
  | _ => None
  end.

Lemma two_rounds_steps code gas c : 2 < zlen code ->
  (forall g m, exec_round 64 toy_hash (sample_params code gas) code ∅ (Gasometer.new gas) (start empty_ledger)
     = (Ok (Continue g), m) -> position m = 2) ->
  two_rounds code gas = Some c ->
  rtc (step toy_hash (sample_params code gas) code ∅) (Gasometer.new gas, start empty_ledger) c.
Proof.
  intros Hlen Hpos. rw /two_rounds.
  destruct (exec_round _ _ _ _ _ _ (start _)) as [[[g1|?|?]|?|] m1] eqn:H1; try done.
  destruct (exec_round _ _ _ _ _ g1 m1) as [[[g2|?|?]|?|] m2] eqn:H2; try done. intros [= <-].
  eapply rtc_l; [by apply step_round; [cbn; lia|]|]. apply rtc_once, step_round; [|done].
  rw (Hpos g1 m1 eq_refl). lia.
Qed.

Lemma reachable_configurations_witness :
  exists g m, two_rounds store_code 100 = Some (g, m) /\ position m = 4 /\
    SharedCache.instr_start store_code (position m) /\ Gasometer.current_gas g = 94.
Proof.
  eexists _, _. split; [vm_compute; reflexivity|]. split; [reflexivity|]. split; [|reflexivity].
  apply (reachable_configurations ledger_ok toy_hash (sample_params store_code 100) store_code ∅ 0 100
    empty_ledger (Gasometer.mk 94 0) _ toy_hash_fits ledger_no_trace).
  - apply sample_params_ok; [split; [by apply bytes_ok_bool|done]|done].
  - split; [by apply bytes_ok_bool|done].
  - reflexivity.
  - apply empty_ledger_ok.
  - done.
  - done.
  - apply two_rounds_steps; [done| |vm_compute; reflexivity].
    intros g m H. vm_compute in H. by injection H as <- <-.
Defined.

(** ** Jump destinations *)

(** C25: The scan of the code ends and finds exactly the valid jump
    destinations: the positions of [JUMPDEST] bytes that are instructions, not
    operands of a push. *)
Theorem jump_analysis_exact (code : bytes) :
  zlen code < 2 ^ 63 ->
  exists d, SharedCache.find_jump_destinations (E := Error) code = Ok d /\
    forall p, p ∈ d <-> SharedCache.instr_start code p /\ code !! Z.to_nat p = Some Op.JUMPDEST.
Proof. apply SharedCache.find_jump_destinations_total. Qed.

(** [PUSH1 0x5b; JUMPDEST]: only the second [0x5b] counts. *)
Lemma jump_analysis_exact_witness :
  exists d, SharedCache.find_jump_destinations (E := Error) [96; 91; 91] = Ok d /\ (2 ∈ d) /\ ~ (1 ∈ d).
Proof.
  destruct (jump_analysis_exact [96; 91; 91] ltac:(done)) as (d & Hd & _).
  exists d. split; [exact Hd|]. assert (Hv : d = {[2]}).
  { enough (@Ok Error BitSet d = Ok {[2]}) by congruence. rw -Hd. vm_compute. reflexivity. }
  rw Hv.
  split; [by apply elem_of_singleton|by intros ?%elem_of_singleton].
Defined.

(** A coherent jump table cache stays coherent, and the table it answers
    with is the scan result of a code that has the requested hash. *)
Theorem jump_cache_coherent {L : Type} {HL : LruCache BitSet L} {HLok : LruCacheOk BitSet L}
    (crypt_hash : bytes -> H256) (HASH_EMPTY : H256) (code : bytes) (cache : L) :
  SharedCache.cache_ok crypt_hash cache -> zlen code < 2 ^ 63 ->
  exists d cache' code',
    SharedCache.jump_destinations HASH_EMPTY (crypt_hash code) code cache = (Ok d, cache') /\
    SharedCache.cache_ok crypt_hash cache' /\ crypt_hash code' = crypt_hash code /\
    forall p, p ∈ d <-> SharedCache.jump_target code' p.
Proof.
  intros Hc Hl. destruct (SharedCache.jump_destinations_total crypt_hash HASH_EMPTY code cache Hc Hl)
    as (d & c' & code' & ? & ? & ? & Hl' & Hf). exists d, c', code'. split_and!; try done.
  destruct (SharedCache.find_jump_destinations_total (E := Error) code' Hl') as (d' & Hd' & Ht).
  rw Hf in Hd'. by injection Hd' as <-.
Qed.

Lemma jump_cache_coherent_witness :
  exists d cache' code',
    SharedCache.jump_destinations 12345 (toy_hash [91]) [91] (∅ : gmap Z BitSet) = (Ok d, cache') /\
    SharedCache.cache_ok toy_hash cache' /\ toy_hash code' = toy_hash [91] /\
    forall p, p ∈ d <-> SharedCache.jump_target code' p.
Proof. apply (jump_cache_coherent toy_hash 12345 [91] ∅ empty_cache_ok). done. Defined.

(** ** Stack instructions *)

(** C27: On a stack of 256-bit words every arithmetic, comparison, bit, dup,
    swap and pop instruction computes the function of the specification:
    results modulo [2^256], division by zero gives zero, signed operations on
    two's complement. *)
Theorem stack_instructions_refine (i : Instruction) (l l' g : list Z) :
  Forall (fits 256) l -> alu i l = Some l' ->
  exec_stack_instruction i (VecStack.of_top l g) = (Ok tt, VecStack.of_top l' g) /\
  Forall (fits 256) l'.
Proof. intros Hl Ha. split; [by apply exec_stack_instruction_alu|by eapply alu_fits]. Qed.

(** [-7 / 2 = -3] *)
Lemma stack_instructions_refine_witness :
  exec_stack_instruction Op.SDIV (VecStack.of_top [2 ^ 256 - 7; 2; 5] []) =
    (Ok tt, VecStack.of_top [2 ^ 256 - 3; 5] []) /\ Forall (fits 256) [2 ^ 256 - 3; 5].
Proof.
  apply (stack_instructions_refine Op.SDIV [2 ^ 256 - 7; 2; 5] [2 ^ 256 - 3; 5] []).
  - repeat constructor; done.
  - vm_compute. reflexivity.
Defined.

(** An instruction of these that has enough operands always has a result,
    and it changes the size of the stack as the instruction table announces. *)
Theorem stack_instructions_shape (i : Instruction) (l g : list Z) :
  0 <= i < 256 -> alu_op i = true -> Forall (fits 256) l -> InstructionInfo.args (info_of i) <= zlen l ->
  exists l', exec_stack_instruction i (VecStack.of_top l g) = (Ok tt, VecStack.of_top l' g) /\
    zlen l' = zlen l - InstructionInfo.args (info_of i) + InstructionInfo.ret (info_of i).
Proof.
  intros Hi Ho Hl Ha. destruct (alu_shape i l Hi Ho Ha) as (l' & Hl' & Hz). exists l'.
  split; [|done]. by apply exec_stack_instruction_alu.
Qed.

Lemma stack_instructions_shape_witness :
  exists l', exec_stack_instruction Op.MULMOD (VecStack.of_top [3; 4; 5; 6] []) =
    (Ok tt, VecStack.of_top l' []) /\ zlen l' = 2.
Proof.
  destruct (stack_instructions_shape Op.MULMOD [3; 4; 5; 6] []) as (l' & H1 & H2).
  - done.
  - reflexivity.
  - repeat constructor; done.
  - done.
  - exists l'. split; [exact H1|exact H2].
Defined.

(** ** Memory *)

(** Growing memory to cover a word and writing the word succeeds; the word
    is read back, every other byte is what it was, and bytes that are new are
    zero. *)
Theorem memory_round_trip (mem : bytes) (off v size : Z) :
  bytes_ok mem -> zlen mem < 2 ^ 63 -> 0 <= off -> off + 32 <= size < 2 ^ 63 -> fits 256 v ->
  exists m m', Memory.expand (E := Error) mem size = Ok m /\ Memory.write (E := Error) m off v = Ok m' /\
    Memory.read (E := Error) m' off = Ok v /\ zlen m' = Z.max (zlen mem) size /\
    forall i : nat, ~ (off <= Z.of_nat i < off + 32) ->
      m' !! i = match mem !! i with
                | Some b => Some b
                | None => if Z.of_nat i <? size then Some 0 else None
                end.
Proof.
  intros Hb Hlen Hoff Hsize Hv.
  destruct (Memory.expand_ok (E := Error) mem size ltac:(lia) Hb) as (m & Hm & Hz & Hmb).
  rw /Memory.size in Hz. set (w := to_be 32 v). assert (Hw : length w = 32%nat) by apply to_be_length.
  assert (Hwz : zlen w = 32) by (by rw /zlen Hw).
  set (m' := take (Z.to_nat off) m ++ w ++ drop (Z.to_nat off + length w) m).
  assert (Hz' : zlen m' = zlen m) by (apply zlen_splice; lia).
  exists m, m'. split; [done|]. split.
  { rw /m' Hw. apply Memory.write_ok; rw ?/Memory.size; lia. }
  split; [|split; [lia|]].
  - rw Memory.read_ok; [rw /Memory.size; lia|lia|rw /Memory.size; lia|].
    rw -{1}Hw /m' Memory.take_drop_splice; [unfold zlen in *; lia|]. by rw of_be_to_be_32.
  - intros i Hi. rw -(Memory.expand_lookup (E := Error) mem size m i Hm) /m'.
    destruct (decide (i < Z.to_nat off)%nat) as [Hlt|Hge].
    + rw lookup_app_l; [rw length_take; unfold zlen in *; lia|]. by rw lookup_take_lt.
    + rw lookup_app_r; [rw length_take; lia|]. rw length_take Nat.min_l; [unfold zlen in *; lia|].
      rw lookup_app_r; [lia|]. rw lookup_drop. f_equal. lia.
Qed.

Lemma memory_round_trip_witness :
  exists m m', Memory.expand (E := Error) [1; 2; 3] 64 = Ok m /\
    Memory.write (E := Error) m 16 77 = Ok m' /\ Memory.read (E := Error) m' 16 = Ok 77 /\ zlen m' = 64.
Proof.
  destruct (memory_round_trip [1; 2; 3] 16 77 64) as (m & m' & H1 & H2 & H3 & H4 & _).
  - by apply bytes_ok_bool.
  - done.
  - done.
  - done.
  - done.
  - exists m, m'. split; [exact H1|]. split; [exact H2|]. split; [exact H3|exact H4].
Defined.

(** Copying call data or code into memory writes, at the destination, the
    bytes of the source from the source offset on, followed by zeros where the
    source ends, for all 256-bit operands; nothing else changes. *)
Theorem copy_data_exact (mem src : bytes) (d s n : Z) :
  zlen mem < 2 ^ 64 -> zlen src < 2 ^ 63 -> fits 256 d -> fits 256 s -> fits 256 n ->
  (n <> 0 -> d + n <= zlen mem) ->
  copy_data mem src d s n = Ok (patch mem d (window src s n)).
Proof. apply copy_data_spec. Qed.

Lemma copy_data_exact_witness :
  copy_data [9; 9; 9; 9; 9] [1; 2; 3] 1 2 3 = Ok [9; 3; 0; 0; 9].
Proof. apply (copy_data_exact [9; 9; 9; 9; 9] [1; 2; 3] 1 2 3); done. Defined.

(** [CALLDATALOAD] reads the 32 bytes from the given 256-bit offset,
    padded with zeros behind the end of the call data. *)
Theorem calldata_load_exact (d : bytes) (id : Z) :
  zlen d < 2 ^ 63 -> fits 256 id -> calldata_word (Some d) id = Ok (of_be (window d id 32)).
Proof. apply calldata_word_spec. Qed.

Lemma calldata_load_exact_witness : calldata_word (Some [1; 2]) 1 = Ok (2 * 256 ^ 31).
Proof. apply (calldata_load_exact [1; 2] 1); done. Defined.

(** ** Gas *)

(** The cost of growing memory from [c] bytes is the difference of the
    fees, [fee n = (n/32) * memory_gas + (n/32)^2 / 512], of the new and the
    old size, the new size being the required one rounded up to a multiple of
    32; the only failure is running out of gas. *)
Theorem memory_cost_exact (s : Schedule.t) (g : Gasometer.t) (c m : Z) :
  Schedule.ok s -> meter_ok 64 s g c -> fits 64 m ->
  let size := (m + 31) / 32 * 32 in
  owp (Gasometer.mem_gas_cost 64 g s c m)
    (fun r => r = (mem_fee s (Z.max c size) - mem_fee s c, mem_fee s (Z.max c size), size))
    (fun e => e = OutOfGas).
Proof. intros Hs Hg Hm size. apply (owp_mem_gas_cost 64); [done..| |done]. by intros size' ->. Qed.

Lemma memory_cost_exact_witness :
  Gasometer.mem_gas_cost 64 (Gasometer.mk 1000 (mem_fee Schedule.new_frontier 64)) Schedule.new_frontier 64 100
    = Ok (6, 12, 128) /\
  owp (Gasometer.mem_gas_cost 64 (Gasometer.mk 1000 (mem_fee Schedule.new_frontier 64))
         Schedule.new_frontier 64 100)
    (fun r => r = (6, 12, 128)) (fun e => e = OutOfGas).
Proof.
  split; [vm_compute; reflexivity|].
  apply (memory_cost_exact Schedule.new_frontier _ 64 100).
  - apply Schedule.new_ok.
  - by split_and!.
  - done.
Defined.

(** What an instruction is charged covers what it does: at least its
    minimal price, the fee for the memory it grows and the gas it hands on, and
    the memory size it is given covers every range it reads or writes. *)
Theorem requirements_cover {X : Type} {HX : Externalities X} (I : Z -> X -> Prop)
    {HXok : ExternalitiesOk X I} (bud : Z) (g : Gasometer.t) (i : Instruction) (l logs : list Z) (c : Z)
    (x : X) :
  I bud x -> Forall (fits 256) l -> 0 <= i < 256 ->
  InstructionInfo.tier (info_of i) <> GasPriceTier.Invalid ->
  InstructionInfo.args (info_of i) <= zlen l -> meter_ok 64 (schedule x) g c ->
  wp (Gasometer.requirements 64 g i (info_of i) (VecStack.of_top l logs) c)
    (fun r x' =>
       min_cost (schedule x) i l + default 0 (provide_gas r) <= gas_cost r /\
       mem_fee (schedule x) (Z.max c (memory_required_size r)) - mem_fee (schedule x) c <= gas_cost r /\
       Forall (fun a => a.2 <> 0 -> a.1 + a.2 <= memory_required_size r) (accesses i l) /\
       ext_step (I bud) x x')
    (fun _ x' => ext_step (I bud) x x') x.
Proof.
  intros Hx Hl Hi Ht Ha Hg.
  eapply wp_conseq; [by apply (wp_requirements 64 I bud (schedule x))| |done].
  intros r x' [[_ _ _ _ Hc Hp Hm] Hs]. split; [|done].
  destruct (provide_gas r); cbn; destruct_and?; lia.
Qed.

Lemma requirements_cover_witness :
  wp (Gasometer.requirements (X := ledger) 64 (Gasometer.new 1000) Op.MSTORE (info_of Op.MSTORE)
        (VecStack.of_top [40; 1] []) 0)
    (fun r x' => min_cost (schedule empty_ledger) Op.MSTORE [40; 1] + default 0 (provide_gas r) <= gas_cost r /\
       mem_fee (schedule empty_ledger) (Z.max 0 (memory_required_size r)) -
         mem_fee (schedule empty_ledger) 0 <= gas_cost r /\
       Forall (fun a => a.2 <> 0 -> a.1 + a.2 <= memory_required_size r) (accesses Op.MSTORE [40; 1]) /\
       ext_step (ledger_ok 0) empty_ledger x')
    (fun _ x' => ext_step (ledger_ok 0) empty_ledger x') empty_ledger.
Proof.
  apply (requirements_cover ledger_ok 0 (Gasometer.new 1000) Op.MSTORE [40; 1] [] 0 empty_ledger).
  - apply empty_ledger_ok.
  - repeat constructor; done.
  - done.
  - done.
  - done.
  - by split_and!.
Defined.

(** The gas a call or creation gets: the requested amount, or all that is
    left, capped at all but one [d]-th of the rest when the schedule has the
    divisor [d] (64 for EIP-150). *)
Definition provided_spec (s : Schedule.t) (gas needed : Z) (requested : option Z) : outcome Error Z :=
  match Schedule.sub_gas_cap_divisor s with
  | Some d =>
      if needed <=? gas then
        let cap := (gas - needed) - (gas - needed) / d in
        Ok (match requested with Some r => Z.min r cap | None => cap end)
      else match requested with Some r => if r <? 2 ^ 64 then Ok r else Err OutOfGas | None => Ok 0 end
  | None =>
      match requested with
      | Some r => if r <? 2 ^ 64 then Ok r else Err OutOfGas
      | None => Ok (Z.max 0 (gas - needed))
      end
  end.

(** [gas_provided] computes exactly that amount, on every branch and for
    every 256-bit request. *)
Theorem gas_provided_exact (s : Schedule.t) (g : Gasometer.t) (needed : Z) (requested : option Z) :
  Schedule.ok s -> fits 64 (Gasometer.current_gas g) -> 0 <= needed ->
  match requested with Some r => fits 256 r | None => True end ->
  Gasometer.gas_provided 64 g s needed requested =
    provided_spec s (Gasometer.current_gas g) needed requested.
Proof.
  intros Hs [Hg1 Hg2] Hn Hr. rw /Gasometer.gas_provided /provided_spec.
  assert (Hf : forall r, requested = Some r ->
    from_u256 64 r = if r <? 2 ^ 64 then Ok r else Err OutOfGas).
  { intros r ->. by rw from_u256_spec. }
  pose proof (Schedule.ok_cap s Hs) as Hcap. set (gas := Gasometer.current_gas g) in *.
  destruct (Schedule.sub_gas_cap_divisor s) as [d|].
  - destruct (Z.leb_spec needed gas).
    + rw sub_ok; [done|]. cbn [obind]. set (rem := gas - needed).
      assert (Hd : 0 <= rem / d <= rem).
      { split; [apply Z.div_pos; lia|]. apply Z.div_le_upper_bound; nia. }
      assert (Hmax : (if d =? 64 then sub_ (E := Error) rem (Z.shiftr rem 6)
        else _ <- assert_ (negb (d =? 0)) ;; sub_ rem (rem / d)) = Ok (rem - rem / d)).
      { destruct (Z.eqb_spec d 64) as [->|].
        - rw shiftr_div; [done|]. change (2 ^ 6) with 64. by rw sub_ok; [lia|].
        - rw (proj2 (Z.eqb_neq d 0)); [lia|]. cbn [negb assert_ obind]. by rw sub_ok; [lia|]. }
      rw Hmax. cbn [obind]. destruct requested as [r|]; cbn [fmap option_fmap option_map]; [|done]. rw (Hf r eq_refl).
      destruct (Z.ltb_spec r (2 ^ 64)); [done|]. by rw Z.min_r; [lia|].
    + destruct requested as [r|]; cbn [fmap option_fmap option_map]; [by apply Hf|done].
  - destruct requested as [r|]; cbn [fmap option_fmap option_map]; [by apply Hf|].
    destruct (Z.leb_spec needed gas); [rw sub_ok; [done|]|]; f_equal; lia.
Qed.

Lemma gas_provided_exact_witness :
  Gasometer.gas_provided 64 (Gasometer.new 6500) (Schedule.new_post_eip150 24576 true true true) 100
    (Some (2 ^ 255)) = Ok 6300.
Proof.
  apply (gas_provided_exact (Schedule.new_post_eip150 24576 true true true) (Gasometer.new 6500) 100
    (Some (2 ^ 255))).
  - apply Schedule.new_post_eip150_ok.
  - done.
  - done.
  - done.
Defined.

(** The check before an instruction never panics, and it passes exactly
    the instructions that exist, have their operands and do not overflow the
    stack. *)
Theorem verify_instruction_exact (s : Schedule.t) (i : Instruction) (l g : list Z) :
  Schedule.ok s -> 0 <= i < 256 -> zlen l <= Schedule.stack_limit s ->
  owp (verify_instruction s i (info_of i) (VecStack.of_top l g))
    (fun _ => executable s i (zlen l)) (fun _ => ~ executable s i (zlen l)).
Proof. apply owp_verify_instruction. Qed.

Lemma verify_instruction_exact_witness :
  owp (verify_instruction Schedule.new_frontier Op.ADD (info_of Op.ADD) (VecStack.of_top [1] []))
    (fun _ => executable Schedule.new_frontier Op.ADD 1)
    (fun _ => ~ executable Schedule.new_frontier Op.ADD 1) /\
  verify_instruction Schedule.new_frontier Op.ADD (info_of Op.ADD) (VecStack.of_top [1] []) =
    Err (StackUnderflow "ADD" 2 1).
Proof.
  split; [|vm_compute; reflexivity].
  apply (verify_instruction_exact Schedule.new_frontier Op.ADD [1] []).
  - apply Schedule.new_ok.
  - done.
  - done.
Defined.
