(* ===== verification/ExecutiveTheorems.v ===== *)
(** * Theorems on transactions and blocks

    A transaction runs to an end, charges no more than its gas and is undone
    when it fails; the transactions of a block stay within the gas limits.
    Each theorem has a concrete instance. *)

From S2P Require Import Prelude Lru Schedule Evm SharedCache Interpreter InterpreterSpec LoopSpec Account State.
From S2P Require Import StateSpec CheckpointSpec StateInv Executive ExecutiveSpec Block BlockSpec Samples.
From stdpp Require Import base gmap list strings.
Local Open Scope Z_scope.
Local Open Scope cita_scope.

Section theorems.
  Context {HU : Util} {HUok : UtilOk}.
  Context {L : Type} {HL : LruCache Z L} {HLok : LruCacheOk Z L} {D : Type} {HD : Backend D}.
  Context {J : Type} {HJ : LruCache BitSet J} {HJok : LruCacheOk BitSet J}.
  Context (sha3 : bytes -> H256) (sha3_fits : forall b, fits 256 (sha3 b)).
  Context (encode_address_nonce : Address -> U256 -> bytes).
  Context (LOCAL_STACK_SIZE : Z) (stack_size_ok : STACK_SIZE_PER_DEPTH <= LOCAL_STACK_SIZE).
  Context (engine : Engine) (Hengine : engine_ok engine).
  Context (native_factory : NativeFactory) (Hnative : native_ok native_factory).
  Context (info : EnvInfo.t).

(** ** Transactions *)

(** C1: A transaction does not panic, and leaves a well-formed state with no
    checkpoint open, provided that: the state is well formed with none open,
    its nonces having room for the transaction; the fields have their widths,
    the gas fits 64 bits and gas times price 256; the gas used before plus
    that of the transaction is below 2^256; VM tracing is off; and a zero
    sender that calls or creates brings the base gas of 100, since it is not
    checked for it and the code panics on less. If the transaction is executed
    it passed the permission, gas and quota checks that are on; the gas used
    is at most its gas, the refund at most the gas used; an exception uses all
    gas and leaves no logs and no refund. If it ends in an exception, or is
    refused with an error other than an internal one (the database), the nonce
    of the sender went up by one, and no other nonce, code, storage root or
    pending storage change of any account is different. *)
Theorem transact_total (options : TransactOptions) (N : Z) (s : session (L := L) (D := D) (J := J)) :
  info_ok info -> 0 <= N -> session_ok (N + 1 + tx_gas (ses_tx s)) s -> tx_ok (ses_tx s) ->
  0 <= EnvInfo.gas_used info -> EnvInfo.gas_used info + tx_gas (ses_tx s) < 2 ^ 256 ->
  wp (transact sha3 encode_address_nonce LOCAL_STACK_SIZE engine native_factory info options)
    (fun ex s' => session_step N s s' /\ executed_ok info (ses_tx s) ex /\
       accepted info options (ses_state s) (ses_tx s) /\
       (exec_exception ex <> None -> bumped (tx_sender (ses_tx s)) (ses_state s) (ses_state s')))
    (fun e s' => session_step N s s' /\
       (rejected e = true -> bumped (tx_sender (ses_tx s)) (ses_state s) (ses_state s'))) s.
Proof using HUok HLok HJok sha3_fits stack_size_ok Hengine Hnative. intros. by apply wp_transact. Qed.

(** C2: A message call at any depth ends, gives back at most its gas and keeps
    the state well formed.  When it fails with an error other than an internal
    one, every account at every level and the substate of the caller are what
    they were before the call, whatever the call and the calls below it did. *)
Theorem call_atomic (fuel : nat) (d C N : Z) (params : ActionParams.t)
    (w : world (L := L) (D := D) (J := J)) (o : BytesRef) :
  info_ok info -> 0 <= d < Schedule.max_depth Schedule.new_frontier ->
  Schedule.max_depth Schedule.new_frontier <= d + Z.of_nat fuel ->
  C < 2 ^ 256 -> 0 <= N -> world_ok C (N + ActionParams.gas params) w -> params_ok params ->
  ActionParams.gas params < 2 ^ 64 ->
  (forall code, ActionParams.code params = Some code -> ActionParams.code_hash params = crypt_hash code) ->
  ref_ok o ->
  wp (sub_call (executive sha3 encode_address_nonce LOCAL_STACK_SIZE engine native_factory info fuel) (d + 1) params)
    (fun g wo => 0 <= g <= ActionParams.gas params /\ world_step C (N + g) w wo.1)
    (fun e wo => world_step C N w wo.1 /\
       (reverts e = true -> (forall a, levels (w_state wo.1) a = levels (w_state w) a) /\
          w_substate wo.1 = w_substate w)) (w, o).
Proof using HUok HLok HJok sha3_fits stack_size_ok Hengine Hnative.
  intros Hinfo [_ Hd] Hfuel. intros.
  destruct (executive_ok sha3 sha3_fits encode_address_nonce LOCAL_STACK_SIZE stack_size_ok engine Hengine
    native_factory Hnative info Hinfo fuel d Hfuel Hd) as [Hcall _].
  eapply wp_conseq; [by apply (Hcall C N params w o)| |]; [by intros g wo (? & ? & _)|].
  by intros e wo [[? ?] _].
Qed.

(** C8: A contract creation at any depth below 1024, on a well-formed state,
    with less than 2^64 gas and init code that matches its hash, ends without
    a panic, gives back at most its gas and keeps the state well formed. When
    it fails with an error other than an internal one, the substate of the
    creator and, at every checkpoint level, the nonce, code, storage root and
    pending storage changes of every account are what they were before. The
    caches of clean storage values are not part of this: where the address
    already held an account, the revert merges the cache of the failed
    contract into that of the old account, and its slots may then read
    differently. *)
Theorem create_atomic (fuel : nat) (d C N : Z) (params : ActionParams.t) (w : world (L := L) (D := D) (J := J)) :
  info_ok info -> 0 <= d < Schedule.max_depth Schedule.new_frontier ->
  Schedule.max_depth Schedule.new_frontier <= d + Z.of_nat fuel ->
  C < 2 ^ 256 -> 0 <= N -> world_ok C (N + ActionParams.gas params) w -> params_ok params ->
  ActionParams.gas params < 2 ^ 64 ->
  (exists code, ActionParams.code params = Some code /\ ActionParams.code_hash params = crypt_hash code) ->
  wp (sub_create (executive sha3 encode_address_nonce LOCAL_STACK_SIZE engine native_factory info fuel) (d + 1) params)
    (fun g w' => 0 <= g <= ActionParams.gas params /\ world_step C (N + g) w w')
    (fun e w' => world_step C N w w' /\
       (reverts e = true -> (forall a, levels (w_state w') a = levels (w_state w) a) /\
          w_substate w' = w_substate w)) w.
Proof using HUok HLok HJok sha3_fits stack_size_ok Hengine Hnative.
  intros Hinfo [_ Hd] Hfuel. intros.
  destruct (executive_ok sha3 sha3_fits encode_address_nonce LOCAL_STACK_SIZE stack_size_ok engine Hengine
    native_factory Hnative info Hinfo fuel d Hfuel Hd) as [_ Hcreate].
  eapply wp_conseq; [by apply (Hcreate C N params w)|done|]. by intros e w' [? ?].
Qed.

(** ** Checks *)

(** The permission check passes exactly for the system sender 0, the
    registered contract creators, and, for transactions that create no
    contract, the registered senders; the error names the missing
    permission. *)
Theorem permission_exact (t : SignedTransaction) (s : State.t D L) :
  let allowed := tx_sender t = 0 \/ tx_sender t ∈ State.creators s \/
    (tx_action t <> ActCreate /\ tx_sender t ∈ State.senders s) in
  owp (check_permission_ t s) (fun _ => allowed)
    (fun e => ~ allowed /\
       e = match tx_action t with ActCreate => NoContractPermission | _ => NoTransactionPermission end).
Proof using. apply check_permission_spec. Qed.

(** The quota check passes exactly when the sender is 0, or the gas fits
    both what is left of the block and the limit of the account; the block
    limit is reported first. *)
Theorem quota_exact (t : SignedTransaction) :
  EnvInfo.gas_used info + tx_gas t < 2 ^ 256 ->
  owp (check_quota_ info t) (fun _ => within_quota info t)
    (fun e => ~ within_quota info t /\
       e = if EnvInfo.gas_limit info <? EnvInfo.gas_used info + tx_gas t
           then BlockGasLimitReached (EnvInfo.gas_limit info) (EnvInfo.gas_used info) (tx_gas t)
           else AccountGasLimitReached (EnvInfo.account_gas_limit info) (tx_gas t)).
Proof using. apply check_quota_spec. Qed.

(** Refunds are 15000 gas per cleared storage slot and 24000 per killed
    contract, capped at half of the gas spent; the gas used is what is spent
    minus the refund, and never less than half of what is spent. *)
Theorem settlement_exact (t : SignedTransaction) (su : Substate.t) (result : outcome Error U256) (left : Z) :
  tx_ok t -> substate_ok (tx_gas t) 0 su -> left = match result with Ok x => x | _ => 0 end ->
  0 <= left <= tx_gas t ->
  let spent := tx_gas t - left in
  let refunded := Z.min (15000 * Substate.sstore_clears_count su +
                         24000 * Z.of_nat (size (Substate.suicides su))) (spent / 2) in
  settle (E := ExecutionError) t su result = Ok (spent - refunded, refunded) /\
  0 <= refunded /\ spent <= 2 * (spent - refunded).
Proof using.
  intros Ht Hs Hl Hle spent refunded.
  destruct (settle_ok (E := ExecutionError) t su result left Ht Hs Hl Hle) as (-> & Hr & _).
  fold spent in Hr |- *. split; [|split; [exact Hr|]].
  - f_equal. rw /spent /refunded /refund. f_equal. fold spent. lia.
  - assert (2 * (spent / 2) <= spent) by (apply Z.mul_div_le; lia). unfold refunded. lia.
Qed.

(** [BLOCKHASH] answers with the hash of the requested block for the last
    256 blocks and with zero for every other number, without a panic. *)
Theorem blockhash_exact (number : Z) (x : env (L := L) (D := D) (J := J)) :
  info_ok info -> fits 256 number ->
  env_blockhash info number x =
    (Ok (if (number <? EnvInfo.number info) && (EnvInfo.number info - 256 <=? number)
         then nth (Z.to_nat (EnvInfo.number info - number - 1)) (EnvInfo.last_hashes info) 0 else 0), x).
Proof using.
  intros [Hok Hlen _] [Hn1 Hn2]. pose proof (EnvInfo.ok_number _ Hok) as [Hb1 Hb2].
  rw /env_blockhash. destruct (Z.ltb_spec number (EnvInfo.number info)) as [Hlt|]; [|done].
  rw low_u64_small; [split; lia|]. cbn [andb].
  destruct (Z.leb_spec (EnvInfo.number info - 256) number) as [Hle|Hgt].
  - rw (proj2 (Z.leb_le _ _)); [lia|]. rw /slift sub_ok; [lia|]. cbn [obind]. rw sub_ok; [lia|]. cbn [obind].
    set (i := EnvInfo.number info - number - 1). rw (proj2 (Z.ltb_lt i _)); [unfold i; lia|]. cbn [assert_ obind].
    rw /index (proj2 (Z.leb_le 0 i)); [unfold i; lia|].
    destruct (lookup_lt_is_Some_2 (EnvInfo.last_hashes info) (Z.to_nat i)) as [h Hh]; [unfold zlen, i in *; lia|].
    rw Hh. by rw (nth_lookup_Some _ _ _ _ Hh).
  - by rw (proj2 (Z.leb_gt _ _)); [lia|].
Qed.

(** ** Blocks *)
Context (from_bloomed : H256 -> Z) (with_bloomed : Z -> H256 -> Z).

(** C6: Executing the transactions of a block on a well-formed state does not
    panic and gives every transaction a receipt slot, unless it is
    interrupted, for transactions that meet the conditions of a single one
    (fields of their widths, gas below 2^64, a fee below 2^256, the base gas
    of 100 if a zero sender calls or creates), that together keep the gas
    below 2^256, and, with the quota check on, none of which has the zero
    sender (whose account limit underflows). The gas used never decreases and
    grows by at most the gas of the transactions; no account limit grows or
    gets negative; with the quota check on, a block that was within its gas
    limit stays within it. *)
Theorem block_within_limits (interrupted : Z -> bool) (p q : bool) (index : Z) (txs : list SignedTransaction)
    (N : Z) (b : OpenBlock (L := L) (D := D) (J := J)) :
  block_ok (N + total_budget txs) b -> 0 <= N -> Forall tx_ok txs ->
  (q = true -> Forall (fun t => tx_sender t <> 0) txs) ->
  b_current_gas_used b + total_gas txs < 2 ^ 256 ->
  wp (apply_loop sha3 encode_address_nonce LOCAL_STACK_SIZE native_factory from_bloomed with_bloomed
        interrupted p q index txs)
    (fun r b' =>
       (b_current_gas_used b <= b_current_gas_used b' <= b_current_gas_used b + total_gas txs) /\
       (q = true -> b_current_gas_used b <= b_gas_limit b -> b_current_gas_used b' <= b_gas_limit b) /\
       (forall a, 0 <= account_limit b' a <= account_limit b a) /\ block_ok N b' /\
       (forall txs', r = Some txs' -> length txs' = length txs /\
          length (b_receipts b') = (length (b_receipts b) + length txs)%nat))
    (fun _ _ => False) b.
Proof using HUok HLok HJok sha3_fits stack_size_ok Hnative.
  intros. eapply wp_conseq; [by apply (wp_apply_loop sha3 sha3_fits encode_address_nonce LOCAL_STACK_SIZE
    stack_size_ok native_factory Hnative from_bloomed with_bloomed interrupted p q index txs N)| |done].
  by intros r b' (? & [? ? ? _] & ?).
Qed.

(** C9: A transaction applied to a well-formed block does not panic, adds one
    receipt and uses at most its gas, provided that its fields have their
    widths, the gas used stays below 2^256, a zero sender that calls or
    creates brings the base gas of 100, and, with the quota check on, the
    sender is not zero (it is not held to the limit, and the subtraction
    underflows once it used more). With the quota check on, the gas used is
    taken from the limit of the sender's account, to the last unit; without it
    nothing is taken. No other account's limit changes in either case. *)
Theorem transaction_charges_sender (N : Z) (b : OpenBlock (L := L) (D := D) (J := J)) (t : SignedTransaction)
    (p q : bool) :
  block_ok (N + 1 + tx_gas t) b -> 0 <= N -> tx_ok t -> (q = true -> tx_sender t <> 0) ->
  b_current_gas_used b + tx_gas t < 2 ^ 256 ->
  wp (apply_transaction sha3 encode_address_nonce LOCAL_STACK_SIZE native_factory from_bloomed with_bloomed t p q)
    (fun _ b' => block_ok N b' /\
       b_current_gas_used b <= b_current_gas_used b' <= b_current_gas_used b + tx_gas t /\
       account_limit b' (tx_sender t) = account_limit b (tx_sender t) -
         (if q then b_current_gas_used b' - b_current_gas_used b else 0) /\
       (forall a, a <> tx_sender t -> account_limit b' a = account_limit b a) /\
       exists r, b_receipts b' = b_receipts b ++ [r])
    (fun _ _ => False) b.
Proof using HUok HLok HJok sha3_fits stack_size_ok Hnative.
  intros Hb HN Ht Hq Hm. eapply wp_conseq; [by apply (wp_apply_transaction sha3 sha3_fits encode_address_nonce
    LOCAL_STACK_SIZE stack_size_ok native_factory Hnative from_bloomed with_bloomed N b t p q)| |done].
  intros t' b' [? [? ? Hs' ? ? _]]. split; [done|]. split; [done|]. split; [|done]. rw Hs'. destruct q; lia.
Qed.
End theorems.

(** ** Receipts *)

(** The encoding of a receipt error is not inverted by its decoding: it
    comes back for the first five errors only, [OutOfGas] to [OutOfStack] come
    back as the error one place further, and [Internal] cannot be decoded. *)
Theorem receipt_error_round_trip (e : ReceiptError.t) :
  ReceiptError.decode (ReceiptError.encode e) =
    match e with
    | ReceiptError.OutOfGas => Some ReceiptError.BadJumpDestination
    | ReceiptError.BadJumpDestination => Some ReceiptError.BadInstruction
    | ReceiptError.BadInstruction => Some ReceiptError.StackUnderflow
    | ReceiptError.StackUnderflow => Some ReceiptError.OutOfStack
    | ReceiptError.OutOfStack => Some ReceiptError.Internal
    | ReceiptError.Internal => None
    | e => Some e
    end.
Proof. by destruct e. Qed.

(** ** Instances *)
Definition sample_call : SignedTransaction := sample_tx 7 (ActCall 100) 50000 [].

Lemma sample_call_ok : tx_ok sample_call.
Proof. by apply sample_tx_ok; [|split; [constructor|]|..]. Qed.

Definition all_checks : TransactOptions := {| check_permission := true; check_quota := true |}.

Lemma transact_total_witness :
  let s := sample_session store_code sample_call in
  wp (transact toy_hash toy_encode_nonce STACK_SIZE_PER_DEPTH ∅ ∅ sample_info all_checks)
    (fun ex s' => session_step 0 s s' /\ executed_ok sample_info sample_call ex /\
       accepted sample_info all_checks (ses_state s) sample_call /\
       (exec_exception ex <> None -> bumped 7 (ses_state s) (ses_state s')))
    (fun e s' => session_step 0 s s' /\ (rejected e = true -> bumped 7 (ses_state s) (ses_state s'))) s.
Proof.
  apply (transact_total toy_hash toy_hash_fits toy_encode_nonce STACK_SIZE_PER_DEPTH (Z.le_refl _) ∅
    no_builtins_ok ∅ no_natives_ok sample_info all_checks 0 (sample_session store_code sample_call)).
  - apply sample_info_ok.
  - done.
  - by apply sample_session_ok; [apply store_code_ok|].
  - apply sample_call_ok.
  - done.
  - done.
Defined.

Definition sample_world (code : bytes) : world (D := toy_db) (L := gmap Z Z) (J := gmap Z BitSet) :=
  World (sample_state code) ∅ Substate.new.

Lemma sample_world_ok C n code : vec_ok code -> 0 <= n < 2 ^ 255 -> n <= C -> world_ok C n (sample_world code).
Proof.
  intros Hc Hn HC. split; [apply sample_inv; [done|lia]|apply empty_cache_ok|].
  split; cbn; [done|lia|by intros a ?%not_elem_of_empty].
Qed.

Lemma call_atomic_witness :
  wp (sub_call (executive toy_hash toy_encode_nonce STACK_SIZE_PER_DEPTH ∅ ∅ sample_info (Z.to_nat 1024)) (3 + 1)
        (sample_params store_code 1000))
    (fun g wo => 0 <= g <= 1000 /\ world_step 5000 (0 + g) (sample_world store_code) wo.1)
    (fun e wo => world_step 5000 0 (sample_world store_code) wo.1 /\
       (reverts e = true -> (forall a, levels (w_state wo.1) a = levels (sample_state store_code) a) /\
          w_substate wo.1 = Substate.new)) (sample_world store_code, Flexible []).
Proof.
  apply (call_atomic toy_hash toy_hash_fits toy_encode_nonce STACK_SIZE_PER_DEPTH (Z.le_refl _) ∅
    no_builtins_ok ∅ no_natives_ok sample_info (Z.to_nat 1024) 3 5000 0 (sample_params store_code 1000)
    (sample_world store_code) (Flexible [])).
  - apply sample_info_ok.
  - done.
  - done.
  - done.
  - done.
  - by apply sample_world_ok; [apply store_code_ok|..].
  - by apply sample_params_ok; [apply store_code_ok|].
  - done.
  - intros code Hc. injection Hc as <-. reflexivity.
  - constructor.
Defined.

Lemma create_atomic_witness :
  wp (sub_create (executive toy_hash toy_encode_nonce STACK_SIZE_PER_DEPTH ∅ ∅ sample_info (Z.to_nat 1024)) (3 + 1)
        (sample_params store_code 1000))
    (fun g w' => 0 <= g <= 1000 /\ world_step 5000 (0 + g) (sample_world store_code) w')
    (fun e w' => world_step 5000 0 (sample_world store_code) w' /\
       (reverts e = true -> (forall a, levels (w_state w') a = levels (sample_state store_code) a) /\
          w_substate w' = Substate.new)) (sample_world store_code).
Proof.
  apply (create_atomic toy_hash toy_hash_fits toy_encode_nonce STACK_SIZE_PER_DEPTH (Z.le_refl _) ∅
    no_builtins_ok ∅ no_natives_ok sample_info (Z.to_nat 1024) 3 5000 0 (sample_params store_code 1000)
    (sample_world store_code)).
  - apply sample_info_ok.
  - done.
  - done.
  - done.
  - done.
  - by apply sample_world_ok; [apply store_code_ok|..].
  - by apply sample_params_ok; [apply store_code_ok|].
  - done.
  - exists store_code. split; reflexivity.
Defined.

Lemma quota_exact_witness :
  owp (check_quota_ sample_info (sample_tx 7 ActStore 600000 []))
    (fun _ => within_quota sample_info (sample_tx 7 ActStore 600000 []))
    (fun e => ~ within_quota sample_info (sample_tx 7 ActStore 600000 []) /\
       e = AccountGasLimitReached 500000 600000).
Proof. apply (quota_exact sample_info (sample_tx 7 ActStore 600000 [])). done. Defined.

Lemma settlement_exact_witness :
  settle (E := ExecutionError) sample_call (Substate.mk {[100]} ∅ [] 1 []) (Ok 10000) = Ok (20000, 20000).
Proof.
  destruct (settlement_exact sample_call (Substate.mk {[100]} ∅ [] 1 []) (Ok 10000) 10000) as (H & _).
  - apply sample_call_ok.
  - split; cbn; [done|done|]. intros a Ha. apply elem_of_singleton in Ha as ->. done.
  - reflexivity.
  - done.
  - rw H. vm_compute. reflexivity.
Defined.

Definition sample_env : env (D := toy_db) (L := gmap Z Z) (J := gmap Z BitSet) :=
  Env (sample_world store_code) InitContract 0 (OriginInfo.mk 100 7 1 0).

Lemma blockhash_exact_witness : env_blockhash sample_info 1 sample_env = (Ok 11, sample_env).
Proof. apply (blockhash_exact sample_info 1 sample_env); [apply sample_info_ok|done]. Defined.

Definition toy_bloom (h : H256) : Z := 2 ^ (h mod 2048).

Lemma block_within_limits_witness :
  let b := sample_block store_code [sample_call; sample_call] in
  wp (apply_loop toy_hash toy_encode_nonce STACK_SIZE_PER_DEPTH ∅ toy_bloom (fun b h => Z.lor b (toy_bloom h))
        (fun _ => false) true true 0 [sample_call; sample_call])
    (fun r b' => (0 <= b_current_gas_used b' <= 100000) /\
       (true = true -> 0 <= b_gas_limit b -> b_current_gas_used b' <= b_gas_limit b) /\
       (forall a, 0 <= account_limit b' a <= account_limit b a) /\ block_ok 0 b' /\
       (forall txs', r = Some txs' -> length txs' = 2%nat /\ length (b_receipts b') = 2%nat))
    (fun _ _ => False) b.
Proof.
  apply (block_within_limits toy_hash toy_hash_fits toy_encode_nonce STACK_SIZE_PER_DEPTH (Z.le_refl _) ∅
    no_natives_ok toy_bloom (fun b h => Z.lor b (toy_bloom h)) (fun _ => false) true true 0
    [sample_call; sample_call] 0 (sample_block store_code [sample_call; sample_call])).
  - by apply sample_block_ok; [apply store_code_ok|].
  - done.
  - repeat constructor; apply sample_call_ok.
  - intros _. repeat constructor; done.
  - done.
Defined.

Lemma transaction_charges_sender_witness :
  let b := sample_block store_code [] in
  wp (apply_transaction toy_hash toy_encode_nonce STACK_SIZE_PER_DEPTH ∅ toy_bloom (fun b h => Z.lor b (toy_bloom h))
        sample_call true true)
    (fun _ b' => block_ok 0 b' /\
       b_current_gas_used b <= b_current_gas_used b' <= b_current_gas_used b + 50000 /\
       account_limit b' 7 = account_limit b 7 - (b_current_gas_used b' - b_current_gas_used b) /\
       (forall a, a <> 7 -> account_limit b' a = account_limit b a) /\ exists r, b_receipts b' = [] ++ [r])
    (fun _ _ => False) b.
Proof.
  apply (transaction_charges_sender toy_hash toy_hash_fits toy_encode_nonce STACK_SIZE_PER_DEPTH (Z.le_refl _) ∅
    no_natives_ok toy_bloom (fun b h => Z.lor b (toy_bloom h)) 0 (sample_block store_code []) sample_call true true).
  - by apply sample_block_ok; [apply store_code_ok|].
  - done.
  - apply sample_call_ok.
  - done.
  - done.
Defined.
