(* ===== verification/NativeTheorems.v ===== *)
(** * Theorems on the storage of native contracts

    The slots of a running contract meet the interface of [NativeSpec.v], so
    the typed layouts hold in the world state.  Each theorem has a concrete
    instance. *)

From S2P Require Import Prelude Lru Schedule Evm SharedCache Account State StateSpec CheckpointSpec StateInv.
From S2P Require Import StorageSpec Executive ExecutiveSpec NativeStorage NativeSpec Samples.
From stdpp Require Import base gmap list strings.
Local Open Scope Z_scope.
Local Open Scope cita_scope.

Section theorems.
  Context {HU : Util} {HUok : UtilOk}.
  Context {L : Type} {HL : LruCache Z L} {HLok : LruCacheOk Z L} {D : Type} {HD : Backend D}.
  Context {J : Type} {HJ : LruCache BitSet J}.
  Context (encode_address_nonce : Address -> U256 -> bytes) (info : EnvInfo.t).
Abbreviation Envt := (env (L := L) (D := D) (J := J)).
  Context (sub : Subcalls (L := L) (D := D) (J := J)).
#[local] Instance the_ext : Externalities Envt := env_ext encode_address_nonce info sub.

Abbreviation state_of x := (w_state (e_world x)).
Abbreviation self x := (OriginInfo.address (e_origin x)).

(** The slots of the contract that runs. *)
Definition env_slot (x : Envt) (k : H256) : H256 :=
  match slot (state_of x) (self x) k with Ok v => v | _ => 0 end.

Definition env_stored (n : Z) (x : Envt) : Prop :=
  state_ok n (state_of x) /\ stacked True (state_of x) /\ empty_trie_ok (State.db (state_of x)).

Definition env_answers (x : Envt) : Prop := state_answers (state_of x) (self x).

(** A method of the state that the contract calls on itself. *)
Lemma wp_self {A} (c : Address -> M TrieError (State.t D L) A) (Q : A -> State.t D L -> Prop) R (x : Envt) :
  wp (c (self x)) Q R (state_of x) ->
  wp (fun x => on_world (on_state (c (self x))) x)
    (fun a x' => Q a (state_of x') /\ self x' = self x) (fun e x' => R e (state_of x') /\ self x' = self x) x.
Proof using.
  rw /wp /on_world /on_state. by destruct (c (self x) (state_of x)) as [[] s'].
Qed.

Lemma answers_kept (s s' : State.t D L) a :
  frame s s' -> (forall k v, slot s a k = Ok v -> exists w, slot s' a k = Ok w) ->
  state_answers s a -> state_answers s' a.
Proof using.
  intros (_ & Hdb & Hr & _) Hs [Ho Hk]. split; [by rw Hdb Hr|]. intros k. destruct (Hk k) as [v Hv]. by apply (Hs k v).
Qed.

(** The world state keeps the promises of [ExtStorage]. *)
Lemma env_storage (n : Z) : 0 <= n -> ExtStorage Envt (env_stored n) env_slot env_answers.
Proof using HUok HLok.
  intros Hn. split.
  - intros k x (Hst & Hsk & He). cbn [storage_at the_ext env_ext]. rw /env_storage_at.
    eapply wp_conseq; [apply (wp_self (fun a => State.storage_at a k)), (slot_read n); done|..].
    2:{ by intros e x' ((? & _) & _). }
    intros v x' ((Hv & Hu & Hst') & Ha). pose proof (slot_unseen _ _ _ Hu) as Hs.
    pose proof Hu as (Hsk' & Hfr & _). pose proof Hfr as (_ & Hdb & _). rw /env_slot /env_answers Ha.
    split; [by rw Hv|]. split; [rw /env_stored Hdb; done|]. split; [intros j; by rw Hs|].
    apply answers_kept; [done|]. intros j w Hw. exists w. by rw Hs.
  - intros k v x (Hst & Hsk & He) Hv. cbn [set_storage the_ext env_ext]. rw /env_set_storage.
    eapply wp_conseq; [apply (wp_self (fun a => State.set_storage a k v)), (slot_write n); done|..].
    2:{ by intros e x' ((? & _) & _). }
    intros _ x' ((Hk & Hsk' & Hst' & Hfr & Hs & _) & Ha). pose proof Hfr as (_ & Hdb & _).
    rw /env_slot /env_answers Ha. split; [rw /env_stored Hdb; done|]. split; [by rw Hk|].
    split; [intros j Hj; rw Hs; [congruence|done]|].
    apply answers_kept; [done|]. intros j w Hw. destruct (decide (j = k)) as [->|Hj]; [by exists v|].
    exists w. rw Hs; [congruence|done].
Qed.

  Context (sha3 : bytes -> H256) (from_slice : bytes -> H256) (Hfs : left_aligned from_slice).

(** C31: A map of a native contract keeps what is put into it.  After a value
    was stored under a key, reading the key gives the value.  Only the cells
    of the value are written, so that every byte string stored elsewhere stays
    as it is.  Neither step panics, and they fail only if the database does
    not answer. *)
Theorem native_map_exact {K} `{Serialize K} {V} `{Serial V valid} (n : Z) (position : H256) (key : K) (v : V)
    (kb b : bytes) (x : Envt) :
  let p := sha3 (kb ++ to_be 32 position) in
  0 <= n -> env_stored n x -> serialize key = Ok kb -> valid v -> serialize v = Ok b -> room sha3 p b ->
  wp (_ <~ map_set_bytes sha3 from_slice position key v ;; map_get_bytes sha3 position key)
    (fun r x' => r = v /\
       (forall k, ~ cells sha3 p b k -> env_slot x' k = env_slot x k) /\
       (forall q c, (forall k, cells sha3 q c k -> ~ cells sha3 p b k) ->
          holds from_slice (slot := env_slot) sha3 x q c -> holds from_slice (slot := env_slot) sha3 x' q c))
    (fun _ _ => ~ env_answers x) x.
Proof using HUok HLok Hfs.
  intros p Hn Hx Hkb Hval Hb Hroom. destruct (serial_round v Hval) as (b' & Hb' & Hvec & Hd).
  assert (b' = b) as -> by congruence. pose proof (env_storage n Hn) as HS.
  rw /map_set_bytes /map_get_bytes /map_inner Hkb. cbn [obind]. apply wp_bind.
  eapply wp_conseq; [apply wp_bind, wp_lift, (set_bytes_ok (I := env_stored n) from_slice Hfs sha3 v b p); done| |done].
  intros _ x1 ([Hx1 Ha1] & Hh & Hf). apply wp_bind, wp_lift.
  eapply wp_conseq; [by apply (get_bytes_ok (I := env_stored n) from_slice Hfs sha3 v b p)| |naive_solver].
  intros r x2 (-> & _ & Hs2). split; [done|]. split; [intros k Hk; by rw Hs2; apply Hf|].
  intros q c Hdis. apply holds_frame. intros k Hk. rw Hs2. by apply Hf, Hdis.
Qed.
End theorems.

(** ** Instances

    Account 100 of the sample state stores a string of forty bytes under the
    key [a]. *)
Definition toy_from_slice (b : bytes) : H256 := of_be (take 32 (b ++ replicate 32 0)).

Lemma toy_left_aligned : left_aligned toy_from_slice.
Proof.
  intros b Hb. rw /toy_from_slice take_app_ge; [done|]. by rw take_replicate Nat.min_l; [lia|].
Qed.

Definition no_calls : Subcalls (L := gmap Z Z) (D := toy_db) (J := gmap Z BitSet) :=
  {| sub_call _ _ := sfail OutOfGas; sub_create _ _ := sfail OutOfGas |}.

Definition sample_env : env (L := gmap Z Z) (D := toy_db) (J := gmap Z BitSet) :=
  Env (World (sample_state store_code) ∅ Substate.new) InitContract 0 (OriginInfo.from (sample_params store_code 1000)).

Definition toy_string : String_ := from_bytes (replicate 40 104).

Lemma sample_answers : state_answers (sample_state store_code) 100.
Proof.
  split; [eexists; by vm_compute|]. intros k. exists 0.
  assert (Hc : exists x, current (sample_state store_code) 100 = Some x /\ es_changes x = ∅ /\ es_root x = 54321)
    by (eexists; split; [by vm_compute|done]).
  destruct Hc as (x & Hx & Hch & Hr). rw /slot Hx. cbn [shown_storage]. rw /es_storage Hch lookup_empty Hr.
  by rw /storage_value /trie_get /toy_backend /trie_of /= lookup_empty.
Qed.

Lemma native_map_exact_witness :
  wp (_ <~ map_set_bytes (HX := env_ext (fun _ _ => []) sample_info no_calls)
             toy_hash toy_from_slice 0 (from_bytes [97]) toy_string ;;
      map_get_bytes (HX := env_ext (fun _ _ => []) sample_info no_calls) toy_hash 0 (from_bytes [97]))
    (fun r x' => r = toy_string /\
       (forall k, ~ cells toy_hash (toy_hash ([97] ++ to_be 32 0)) (replicate 40 104) k ->
          env_slot x' k = env_slot sample_env k) /\
       (forall q c, (forall k, cells toy_hash q c k ->
            ~ cells toy_hash (toy_hash ([97] ++ to_be 32 0)) (replicate 40 104) k) ->
          holds toy_from_slice (slot := env_slot) toy_hash sample_env q c ->
          holds toy_from_slice (slot := env_slot) toy_hash x' q c))
    (fun _ _ => ~ env_answers sample_env) sample_env /\ env_answers sample_env.
Proof.
  split.
  - apply (native_map_exact (fun _ _ => []) sample_info no_calls toy_hash toy_from_slice toy_left_aligned 1 0
      (from_bytes [97]) toy_string [97] (replicate 40 104)).
    + done.
    + split; [|split; [by apply stacked_fresh|]].
      * by apply (sample_inv 1 store_code store_code_ok).
      * intros ah. split; [done|]. intros k. by rw /trie_get /toy_backend /trie_of /= lookup_empty.
    + reflexivity.
    + split; [split; [by apply bytes_ok_bool|done]|done].
    + reflexivity.
    + intros _. vm_compute. split; [done|]. intros [_ H]. done.
  - apply sample_answers.
Defined.
