(* ===== verification/ChainSamples.v ===== *)
(** * Concrete instances for the chain

    An RLP library, a database and a bloom library at concrete values, and a
    chain of two blocks. *)

From S2P Require Import Prelude Evm Account NativeStorage NativeSpec Executive Block Codec CodecSpec.
From S2P Require Import ChainDb Chain Forward ChainSpec ChainInv ChainReads ChainIndex ChainStep Samples.
From stdpp Require Import base countable gmap list.
Local Open Scope Z_scope.
Local Open Scope cita_scope.

(** ** The RLP library *)
#[export] Instance bytes_ok_dec b : Decision (bytes_ok b).
Proof. unfold bytes_ok, byte_ok. apply _. Defined.
#[export] Instance string_ok_dec s : Decision (string_ok s).
Proof. unfold string_ok, vec_ok. apply _. Defined.

#[export] Instance toy_rlp : RlpLib := {
  put_uint v := RData [v];
  get_uint w r := match r with RData [v] => if bool_decide (fits w v) then Some v else None | _ => None end;
  put_hash n v := RData [Z.of_nat n; v];
  get_hash n r := match r with RData [_; v] => if bool_decide (fits (8 * Z.of_nat n) v) then Some v else None | _ => None end;
  put_bytes b := RData b;
  get_bytes r := match r with RData b => if bool_decide (bytes_ok b) then Some b else None | RList _ => None end;
  put_string s := RData (into_bytes s);
  get_string r := match r with RData b => if bool_decide (string_ok (from_bytes b)) then Some (from_bytes b) else None | RList _ => None end;
  is_empty r := match r with RData [] => true | _ => false end;
}.

#[export] Instance toy_rlp_ok : RlpLibOk.
Proof.
  split; try done.
  - intros w v Hv. cbn. by rw bool_decide_eq_true_2.
  - intros n v Hv. cbn. by rw bool_decide_eq_true_2.
  - intros w [[|v [|]]|] x; try done. cbn. case_bool_decide; [by intros [= <-]|done].
  - intros n [[|y [|v [|]]]|] x; try done. cbn. case_bool_decide; [by intros [= <-]|done].
  - intros b Hb. cbn. by rw bool_decide_eq_true_2.
  - intros [b|] x; [|done]. cbn. case_bool_decide; [by intros [= <-]|done].
  - intros [b|] x; [|done]. cbn. case_bool_decide; [by intros [= <-]|done].
  - intros [b] Hb. cbn. by rw bool_decide_eq_true_2.
Qed.

(** RLP values as bytes, through a numbering of trees. *)
Fixpoint rlp_tree (r : rlp) : gen_tree bytes :=
  match r with RData b => GenLeaf b | RList l => GenNode 0 (rlp_tree <$> l) end.
Fixpoint tree_rlp (t : gen_tree bytes) : rlp :=
  match t with GenLeaf b => RData b | GenNode _ l => RList (tree_rlp <$> l) end.

Lemma tree_rlp_tree : forall r, tree_rlp (rlp_tree r) = r.
Proof.
  fix IH 1. intros [b|l]; [done|]. cbn [rlp_tree tree_rlp]. f_equal.
  induction l as [|r l IHl]; [done|]. cbn [fmap list_fmap]. by rw IH IHl.
Qed.

#[export] Instance toy_bytes : RlpBytes := {
  rlp_out r := [Z.pos (encode (rlp_tree r))];
  rlp_parse b := match b with [Z.pos p] => tree_rlp <$> decode p | _ => None end;
}.

#[export] Instance toy_bytes_ok : RlpBytesOk.
Proof. intros r. cbn. rw decode_encode. cbn. by rw tree_rlp_tree. Qed.

(** ** The database *)
Definition kv : Type := gmap (Z * bytes) bytes.
#[export] Instance toy_kv : KvDb kv := { db_get d c k := d !! (c, k); db_put c k v d := <[(c, k) := v]> d }.
#[export] Instance toy_kv_ok : KvDbOk kv.
Proof.
  intros d c k v c' k'. cbn. case_bool_decide as H; [rw H; by rw lookup_insert_eq|]. by rw lookup_insert_ne.
Qed.

(** ** Proofs and blooms

    A proof is its height; the bloom library keeps no groups and finds every
    block. *)
Record toy_proof : Set := { tp_height : Z }.
#[export] Instance toy_proof_eq : EqDecision toy_proof.
Proof. solve_decision. Defined.
#[export] Instance toy_proof_rlp : Rlp toy_proof := {
  to_rlp p := put_uint (tp_height p);
  of_rlp r := (fun h => {| tp_height := h |}) <$> get_uint 64 r;
}.
Definition toy_proof_ok (p : toy_proof) : Prop := fits 64 (tp_height p).
#[export] Instance toy_proof_round : RlpOk toy_proof toy_proof_ok.
Proof. intros [h] Hv. cbn in *. by rw bool_decide_eq_true_2. Qed.
Definition toy_proof_new : toy_proof := {| tp_height := 0 |}.
Definition toy_field_type (p : toy_proof) : ProofType := Tendermint.

#[export] Instance toy_group_rlp : Rlp unit := { to_rlp _ := RList []; of_rlp _ := Some tt }.
#[export] Instance toy_group_round : RlpOk unit (fun _ => True).
Proof. by intros [] _. Qed.
Abbreviation toy_lookup := (Z * Z -> outcome void (option unit)).
Definition toy_insert (lookup : toy_lookup) (n bloom : Z) : outcome void (list ((Z * Z) * unit)) := Ok [].
Definition toy_with_bloom (lookup : toy_lookup) (from to bloom : Z) : outcome void (list Z) := Ok (seqZ from (to - from + 1)).

Lemma toy_insert_ok (lookup : toy_lookup) n bloom :
  (forall q, position_ok q -> exists o, lookup q = Ok o) -> 0 <= n < 2 ^ 32 -> fits 2048 bloom ->
  exists l, toy_insert lookup n bloom = Ok l /\ blooms_ok (fun _ => True) l.
Proof. intros _ _ _. exists []. split; [done|constructor]. Qed.

(** ** A chain *)
Abbreviation toy_chain := (Chain (Proof_ := toy_proof) (D := kv) (AccountGasLimit := Z) (BloomGroup := unit)).
Abbreviation toy_block := (Block (Proof_ := toy_proof)).
Abbreviation toy_msg := (Content (Proof_ := toy_proof) (AccountGasLimit := Z)).
Abbreviation toy_inv := (chain_inv (fun k => k) toy_proof_ok toy_proof_new (Proof_ := toy_proof) (D := kv) (AccountGasLimit := Z)
  (BloomGroup := unit)).
Definition toy_check (b : toy_block) : bool := true.
Definition toy_dispatch (m : toy_msg) : M void toy_chain unit :=
  dispatch_msg (fun k => k) toy_proof_new toy_field_type tp_height toy_insert toy_check m.

Definition toy_start : toy_chain :=
  match init_chain toy_proof_new (∅ : kv) 0 2 with
  | Ok c => c
  | _ => mkChain (Header_default toy_proof_new) false 0 0 ∅ ∅ empty_caches [] 0 0 2 []
  end.

Lemma toy_start_inv : toy_inv toy_start.
Proof.
  destruct (fresh_start (fun k => k) toy_proof_ok toy_proof_new (∅ : kv) 0) as (c & Hc & Hi & _); [done|].
  unfold toy_start. rw Hc. exact Hi.
Qed.

Definition toy_result_header (n prev used bloom : Z) : ExecutedHeader :=
  {| eh_prevhash := prev; eh_timestamp := 100 + n; eh_height := n; eh_state_root := 1; eh_transactions_root := 2;
     eh_receipts_root := 3; eh_log_bloom := bloom; eh_gas_used := used; eh_gas_limit := 1000 |}.
Definition toy_result (h : ExecutedHeader) (l : BlockReceipts) : ExecutedResult (AccountGasLimit := Z) :=
  {| er_header := h; er_receipts := l; er_nodes := [7]; er_block_gas_limit := 1000; er_account_gas_limit := 10 |}.

(** The first block, a block with two transactions, and its receipts. *)
Definition genesis_result := toy_result (toy_result_header 0 0 0 0) [].
Definition toy_tx (hash key : Z) (action : Action) : SignedTx :=
  {| s_transaction := {| u_unsigned := {| t_nonce := from_bytes [97]; t_gas_price := 1; t_gas := 50; t_action := action; t_value := 0;
                                          t_data := [1; 2]; t_block_limit := 9 |};
                         u_signature := [5]; u_crypto_type := SECP; u_hash := hash |};
     s_sender := key; s_public := key; s_account_nonce := 4 |}.

Lemma toy_step m c : toy_inv c -> acceptable (fun k => k) toy_proof_ok toy_proof_new c m ->
  toy_inv (toy_dispatch m c).2.
Proof.
  intros Hc Ha. pose proof (dispatch_msg_step (fun k => k) toy_proof_ok toy_proof_new toy_field_type tp_height (fun _ => True) toy_insert
    toy_insert_ok toy_check m c Hc Ha) as H. unfold wp in H. unfold toy_dispatch.
  destruct (dispatch_msg _ _ _ _ _ _ _ _) as [[] c']; [|done|done]. by eapply chain_step_inv.
Qed.

Definition toy_c1 : toy_chain := (toy_dispatch (Executed genesis_result) toy_start).2.
Definition toy_header : Header :=
  mkHeader (get_current_hash toy_c1) 101 1 2 0 0 0 0 1000 {| tp_height := 0 |} 0.
Definition toy_b1 : toy_block := mkBlock toy_header [toy_tx 11 21 ActCreate; toy_tx 12 22 (ActCall 5)].
Definition toy_c2 : toy_chain := (toy_dispatch (BlockWithProof toy_b1 {| tp_height := 1 |}) toy_c1).2.

Definition toy_log (t : Z) : LogEntry := {| log_address := 77; log_topics := [t]; log_data := [t] |}.
Definition toy_receipt (used : Z) (logs : list LogEntry) (e : option ReceiptError.t) : Receipt :=
  {| rc_state_root := None; rc_gas_used := used; rc_log_bloom := 1; rc_logs := logs; rc_error := e; rc_account_nonce := 4 |}.
Definition toy_receipts : BlockReceipts :=
  [Some (toy_receipt 30 [toy_log 8; toy_log 9] None); Some (toy_receipt 50 [toy_log 8] (Some ReceiptError.OutOfGas))].
Definition toy_result1 := toy_result (toy_result_header 1 (get_current_hash toy_c1) 50 1) toy_receipts.
Definition toy_c3 : toy_chain := (toy_dispatch (Executed toy_result1) toy_c2).2.

Ltac fits_tac := by split; vm_compute.

Lemma toy_genesis_ok : acceptable (fun k => k) toy_proof_ok toy_proof_new toy_start (Executed genesis_result).
Proof.
  split; [done|]. split; [|done]. intros _. split; [done|]. split.
  - split; [|left; by vm_compute|done]. split; [| | | |constructor].
    + split; try fits_tac.
    + split_and!; [fits_tac|by vm_compute..].
    + constructor.
    + fits_tac.
  - intros h _. cbn. unfold view. cbn. by rw lookup_empty.
Qed.

Lemma toy_c1_inv : toy_inv toy_c1.
Proof. apply toy_step; [apply toy_start_inv|apply toy_genesis_ok]. Qed.

Lemma toy_tx_ok hash key action : fits 256 hash -> fits 160 key -> action_ok action -> signed_ok (fun k => k) (toy_tx hash key action).
Proof.
  intros Hh Hk Ha. assert (fits 512 key) by (by apply (fits_mono 160)). split; [|done|done|fits_tac]. split; [|by repeat constructor|done].
  split; try done; try fits_tac; [|by repeat constructor]. split; [|by vm_compute]. split; [by repeat constructor|fits_tac].
Qed.

Lemma toy_b1_ok : storable_block (fun k => k) toy_proof_ok toy_b1.
Proof.
  split; [split|fits_tac].
  - split; fits_tac.
  - constructor; [|constructor; [|constructor]]; apply toy_tx_ok; try done; fits_tac.
Qed.

Lemma toy_enqueue_ok : acceptable (fun k => k) toy_proof_ok toy_proof_new toy_c1 (BlockWithProof toy_b1 {| tp_height := 1 |}).
Proof. split; [split; [apply toy_b1_ok|by vm_compute]|fits_tac]. Qed.

Lemma toy_c2_inv : toy_inv toy_c2.
Proof. apply toy_step; [apply toy_c1_inv|apply toy_enqueue_ok]. Qed.

Lemma toy_receipt_ok used logs e : fits 256 used -> Forall log_ok logs -> receipt_ok (toy_receipt used logs e).
Proof. intros Hu Hl. split; [done|done|fits_tac|done|fits_tac]. Qed.

Lemma toy_log_ok t : fits 8 t -> log_ok (toy_log t).
Proof.
  intros Ht. split; [fits_tac|constructor; [|constructor]|by constructor; [|constructor]]. by apply (fits_mono 8).
Qed.

Lemma toy_receipts_ok : storable toy_receipts.
Proof.
  unfold storable, toy_receipts. rw !Forall_cons. split_and!; [..|by apply Forall_nil]; intros rc [= <-]; (split; [|done]);
    (apply toy_receipt_ok; [fits_tac|]); repeat (apply Forall_cons; split; [apply toy_log_ok; fits_tac|]); by apply Forall_nil.
Qed.

Lemma toy_result1_ok : acceptable (fun k => k) toy_proof_ok toy_proof_new toy_c2 (Executed toy_result1).
Proof.
  split; [done|]. split; [done|]. intros _ e He _.
  assert (queued e = toy_b1) as ->.
  { vm_compute in He. injection He as <-. by vm_compute. }
  split; [|left; by vm_compute|done]. split; [| |apply toy_b1_ok|fits_tac|apply toy_receipts_ok].
  - split; fits_tac.
  - split_and!; [apply toy_hash_fits|by vm_compute..].
Qed.

Lemma toy_c3_inv : toy_inv toy_c3.
Proof. apply toy_step; [apply toy_c2_inv|apply toy_result1_ok]. Qed.
