(* ===== verification/ChainTheorems.v ===== *)
(** * The chain service: properties

    Reachable states keep the invariant and the executed blocks, the result of
    the next block is stored and found, lookups and searches answer what is
    stored, and a restart finds the chain again. *)

From S2P Require Import Prelude Evm Account NativeStorage NativeSpec Executive Block Codec CodecSpec ChainDb Chain Forward.
From S2P Require Import ChainSpec ChainInv ChainReads ChainLogs ChainFilter ChainIndex ChainStep Samples ChainSamples.
From stdpp Require Import base gmap list sorting.
Local Open Scope Z_scope.
Local Open Scope cita_scope.

Section theorems.
  Context {HR : RlpLib} {HRok : RlpLibOk} {HU : Util} {HB : RlpBytes} {HBok : RlpBytesOk}.
  Context (hash_fits : forall b, fits 256 (crypt_hash b)) (pubkey_to_address : Z -> Address).
  Context {Proof_ : Type} {Proof_eq : EqDecision Proof_} {HP : Rlp Proof_} (proof_ok : Proof_ -> Prop).
  Context {HPok : RlpOk Proof_ proof_ok} (Proof_new : Proof_).
  Context (get_field_type : Proof_ -> ProofType) (tendermint_height : Proof_ -> Z).
  Context {D : Type} {HD : KvDb D} {HDok : KvDbOk D} {AccountGasLimit : Type}.
  Context {BloomGroup : Type} {HG : Rlp BloomGroup} (group_ok : BloomGroup -> Prop) {HGok : RlpOk BloomGroup group_ok}.
Abbreviation Lookup := (Z * Z -> outcome void (option BloomGroup)).
  Context (bloom_insert : Lookup -> Z -> Z -> outcome void (list ((Z * Z) * BloomGroup))).
  Context (insert_ok : forall (lookup : Lookup) n bloom,
    (forall q, position_ok q -> exists o, lookup q = Ok o) -> 0 <= n < 2 ^ 32 -> fits 2048 bloom ->
    exists l, bloom_insert lookup n bloom = Ok l /\ blooms_ok group_ok l).
Abbreviation Blk := (Block (Proof_ := Proof_)).
  Context (check_hash : Blk -> bool).
Abbreviation Ch := (Chain (Proof_ := Proof_) (D := D) (AccountGasLimit := AccountGasLimit) (BloomGroup := BloomGroup)).
Abbreviation Res := (ExecutedResult (AccountGasLimit := AccountGasLimit)).
Abbreviation Msg := (Content (Proof_ := Proof_) (AccountGasLimit := AccountGasLimit)).
Abbreviation inv := (chain_inv pubkey_to_address proof_ok Proof_new (Proof_ := Proof_) (D := D)
  (AccountGasLimit := AccountGasLimit) (BloomGroup := BloomGroup)).
Abbreviation acceptable := (acceptable pubkey_to_address proof_ok Proof_new (Proof_ := Proof_) (D := D)
  (AccountGasLimit := AccountGasLimit) (BloomGroup := BloomGroup)).
Abbreviation history_kept := (history_kept pubkey_to_address (Proof_ := Proof_) (D := D)).
Abbreviation answers := (answers pubkey_to_address (Proof_ := Proof_) (D := D) (AccountGasLimit := AccountGasLimit)
  (BloomGroup := BloomGroup)).
Abbreviation dispatch := (dispatch_msg pubkey_to_address Proof_new get_field_type tendermint_height bloom_insert check_hash (D := D)
  (AccountGasLimit := AccountGasLimit) (BloomGroup := BloomGroup)).

(** What happens to the service: messages, the eviction of cache entries, and
    restarts on the same database. *)
Inductive reaches : Ch -> Ch -> Prop :=
| reaches_refl c : reaches c c
| reaches_message c m c1 c2 : acceptable c m -> dispatch m c = (Ok tt, c1) -> reaches c1 c2 -> reaches c c2
| reaches_evict c ids c2 : reaches (collect_garbage ids c) c2 -> reaches c c2
| reaches_restart c limit c1 c2 : init_chain Proof_new (db c) limit 2 = Ok c1 -> reaches c1 c2 -> reaches c c2.

Lemma history_trans d1 d2 d3 top1 top2 : top1 <= top2 -> history_kept d1 d2 top1 -> history_kept d2 d3 top2 ->
  history_kept d1 d3 top1.
Proof using. intros Ht H1 H2 n hdr b Hn Hb. apply H2; [lia|]. by apply H1. Qed.


Abbreviation found := (found pubkey_to_address (Proof_ := Proof_) (D := D) (AccountGasLimit := AccountGasLimit)
  (BloomGroup := BloomGroup)).

(** C17: The result of the next block, when this block is queued (and follows
    the hash of the current block if it comes from consensus), becomes the
    current header; the block is then found by its number and its hash, and
    its transactions are found by their hashes.  Any other result of a later
    block leaves the current header as it is. *)
Theorem result_extends_chain c ret : inv c -> acceptable c (Executed ret) -> 0 < eh_height (er_header ret) ->
  wp (dispatch (Executed ret))
    (fun _ c' =>
       inv c' /\
       (ready c ret -> exists e, block_map c !! eh_height (er_header ret) = Some e /\
          current_header c' = result_header (er_header ret) (queued e) /\
          found c' (eh_height (er_header ret)) (current_header c') (body (queued e))) /\
       (~ ready c ret -> current_header c' = current_header c)) none c.
Proof using HRok HDok HBok HPok HGok insert_ok.
  intros Hc Ha H0. eapply wp_conseq; [by apply (dispatch_msg_step pubkey_to_address proof_ok Proof_new get_field_type tendermint_height
    group_ok bloom_insert insert_ok check_hash (Executed ret) c)| |done].
  intros u c' [[Hr (b & Hb & [] & _)]|[Hr (H1 & H2 & _)]]; (split; [done|]); [|done]. split; [|done]. intros _.
  destruct Hb as [(Hn & e & He & <-)|(Hn & _)]; [|lia]. exists e. split_and!; [done|done|].
  assert (get_current_height c' = eh_height (er_header ret)) as Hh by by rw /get_current_height ex_header.
  apply (stored_found _ proof_ok Proof_new); [done|lia|]. rw ex_header. by apply ex_block.
Qed.

(** C28: Every block above the first one up to the current height is found by
    its number and by its hash, and its transactions by their hashes; what is
    found under a hash has this hash. Lookups of transactions by a 256-bit
    hash, and of blocks by a hash other than the three constants CurrentHash,
    CurrentProof and CurrentHeight, do not panic (under those the store keeps
    other data, which the lookup fails to decode), and the entries the caches
    gave up make no difference. *)
Theorem executed_blocks_found c ids : inv c ->
  (forall n, 0 < n <= get_current_height c ->
     exists hdr b, number hdr = n /\ block_stored pubkey_to_address (db c) n hdr b /\ found (collect_garbage ids c) n hdr b) /\
  (forall h, plain h -> answers (Chain.block pubkey_to_address (BidHash h))
     (fun o => forall b, o = Some b -> header_hash rlp_out (header b) = h) (collect_garbage ids c)) /\
  (forall h, fits 256 h -> answers (transaction pubkey_to_address h)
     (fun o => forall s, o = Some s -> u_hash (s_transaction s) = h) (collect_garbage ids c)).
Proof using HRok.
  intros Hc. pose proof (collect_garbage_inv _ _ _ ids c Hc) as Hc'. pose proof (inv_top _ _ _ _ Hc') as Ht. split_and!.
  - intros n Hn. destruct (ix_block _ _ _ (ci_index _ _ _ _ Hc) n Hn) as (hdr & b & Hb). exists hdr, b.
    split_and!; [by apply (bs_number _ _ _ _ _ Hb)|done|by apply (stored_found _ proof_ok Proof_new)].
  - intros h Hh. eapply answers_impl; [apply block_answers; [apply Hc'|done|done]|]. intros o -> b Hb.
    by eapply (block_of_hash _ proof_ok Proof_new).
  - intros h Hh. eapply answers_impl; [eapply transaction_answers; [apply Hc'|apply Hc'|done]|]. intros o -> s Hs.
    exact (transaction_of_hash _ _ _ _ s (ci_index _ _ _ _ Hc') Hh Hs).
Qed.

(** A restart reads back from the database the current header and the
    height of the last stored body, and the invariant holds again. *)
Theorem restart_restores c limit : inv c ->
  exists c', init_chain Proof_new (db c) limit 2 = Ok c' /\ current_header c' = current_header c /\
    max_store_height c' = max_store_height c /\ inv c'.
Proof using HRok.
  intros Hc. destruct (restart _ _ _ c limit 2 Hc) as (c' & Hi & _ & Hcur & Hs & Hinv). exists c'. split_and!; auto.
Qed.

(** A request of a peer for blocks is answered with the stored blocks of
    the heights in order, the current block followed by its proof; heights
    without a block are left out, and nothing is sent when none is there. *)
Theorem sync_reply_exact c heights origin : inv c -> Forall (fits 64) heights ->
  wp (dispatch (SyncRequest heights origin))
    (fun _ c' => let l := concat (sync_answer pubkey_to_address c <$> heights) in
       ctx_pub c' = ctx_pub c ++ (if bool_decide (l = []) then [] else [SyncResponseMsg origin l])) none c.
Proof using.
  intros Hc Hh. apply wp_bind. eapply wp_conseq; [apply sync_blocks_answers; [apply Hc|done]| |done].
  intros l c' [(k & -> & _) ->]. cbv beta zeta. set (l := concat _). case_bool_decide as Hl.
  - rw Hl. apply wp_ret. by rw app_nil_r.
  - rw (proj2 (Z.ltb_lt 0 (zlen l))); [unfold zlen; destruct l; [done|cbn; lia]|]. by apply wp_modify.
Qed.

(** C18: The receipt of a transaction is answered with its place: block,
    index, gas since the receipt before, and its logs numbered after those of
    the receipts before; an unknown hash is answered with none. The receipt is
    the stored one up to the kind of its error. The service panics if and only
    if the cumulative gas of the stored receipt is below that of the receipt
    before it, as for a refused transaction after an executed one. *)
Theorem localized_receipt_exact encode_address_nonce c id : inv c -> fits 256 id ->
  settles pubkey_to_address (localized_receipt pubkey_to_address encode_address_nonce id)
    (fun o => ~ gas_falls c id /\
       match address_of c id with
       | None => o = None
       | Some a =>
           exists n s l r l', number_of c (ta_block_hash a) = Some n /\ transaction_of pubkey_to_address c id = Some s /\
             receipts_of c (ta_block_hash a) = Some l' /\ similar l l' /\ l !! Z.to_nat (ta_index a) = Some r /\
             o = localized encode_address_nonce id a n s (take (Z.to_nat (ta_index a)) l) <$> r
       end)
    (gas_falls c id) c.
Proof using HRok. intros Hc Hid. eapply localized_receipt_settles; [apply Hc|apply Hc|done]. Qed.

(** C19: A search for logs between two blocks that are found (not named by a
    hash that is one of the internal constants) gives exactly the logs of
    these blocks that match the filter, in the order of the chain and with
    their places, or the newest ones up to the limit, and does not panic. It
    needs that no topic of the filter is an empty list (such a filter finds
    nothing, although every log matches it), that the blocks of the range have
    a receipt for every transaction (missing ones shift the places), that the
    bloom of each block covers its logs, and that the bloom library finds at
    least the blocks whose bloom contains one of the wanted blooms. *)
Theorem logs_search_exact with_bloom mask shift_bloomed from_bloomed with_bloomed f F T c :
  inv c ->
  (forall b h, shift_bloomed b h = Z.lor b (mask h)) -> (forall b h, with_bloomed b h = Z.lor b (mask h)) ->
  (forall h, from_bloomed h = mask h) -> (forall h, mask h <> 0) ->
  blooms_found with_bloom c -> topics_given f ->
  id_ok (f_from_block f) -> id_ok (f_to_block f) -> id_number c (f_from_block f) = Some F -> id_number c (f_to_block f) = Some T ->
  fits 64 F -> fits 64 T ->
  (forall n, F <= n <= T -> complete pubkey_to_address c n /\ blooms_cover pubkey_to_address from_bloomed with_bloomed c n) ->
  answers (get_logs pubkey_to_address with_bloom shift_bloomed f)
    (fun l => l = newest (f_limit f) (filter (fun e => filter_matches f (ll_entry e) = true)
                                        (concat (logs_at pubkey_to_address c <$> seqZ F (T - F + 1))))) c.
Proof using HRok hash_fits.
  intros Hc H1 H2 H3 H4. intros. eapply (get_logs_answers pubkey_to_address hash_fits with_bloom mask); try done; apply Hc.
Qed.
End theorems.

(** ** Stored data *)
Section stored.
  Context {HR : RlpLib} {HRok : RlpLibOk} (pubkey_to_address : Z -> Address).
  Context {Proof_ : Type} {HP : Rlp Proof_} (proof_ok : Proof_ -> Prop) {HPok : RlpOk Proof_ proof_ok}.

(** C29: Blocks come back from their encoding as they were if their fields
    have the ranges of their types, no call goes to the storage address (it
    comes back as a store), and every sender is the address of the public key
    (it is not stored but computed). Receipts with fields of their types come
    back too, except for their errors: OutOfGas to OutOfStack come back as the
    error one place further, and a receipt with Internal cannot be decoded. *)
Theorem stored_data_round_trip :
  (forall b, block_ok pubkey_to_address proof_ok b -> of_rlp (Rlp := Rlp_Block pubkey_to_address) (to_rlp (Rlp := Rlp_Block pubkey_to_address) b) = Some b) /\
  (forall rc, receipt_ok rc ->
     of_rlp (to_rlp rc) =
       match rc_error rc with
       | Some ReceiptError.OutOfGas => Some (with_error rc (Some ReceiptError.BadJumpDestination))
       | Some ReceiptError.BadJumpDestination => Some (with_error rc (Some ReceiptError.BadInstruction))
       | Some ReceiptError.BadInstruction => Some (with_error rc (Some ReceiptError.StackUnderflow))
       | Some ReceiptError.StackUnderflow => Some (with_error rc (Some ReceiptError.OutOfStack))
       | Some ReceiptError.OutOfStack => Some (with_error rc (Some ReceiptError.Internal))
       | Some ReceiptError.Internal => None
       | _ => Some rc
       end).
Proof using HRok HPok.
  split; [intros b Hb; by apply (Block_ok pubkey_to_address proof_ok)|].
  intros rc Hrc. rw receipt_round; [done|]. destruct rc as [ro g bl lo e no]. by destruct e as [[]|].
Qed.

(** C20: Every block that is decoded is well typed: its numbers, hashes, byte
    strings and strings have the ranges of their types, no call goes to the
    storage address, and senders are those of the public keys.  So it survives
    its encoding. *)
Theorem decoded_block_typed (proof_range : forall r p, of_rlp r = Some p -> proof_ok p) (r : rlp) (b : Block (Proof_ := Proof_)) :
  of_rlp (Rlp := Rlp_Block pubkey_to_address) r = Some b ->
  block_ok pubkey_to_address proof_ok b /\
  of_rlp (Rlp := Rlp_Block pubkey_to_address) (to_rlp (Rlp := Rlp_Block pubkey_to_address) b) = Some b.
Proof using HRok HPok.
  intros H. pose proof (block_typed pubkey_to_address proof_ok proof_range r b H) as Hb. split; [done|].
  by apply (Block_ok pubkey_to_address proof_ok).
Qed.
End stored.

(** ** Witnesses *)
Abbreviation toy_reaches := (reaches (fun k => k) toy_proof_ok toy_proof_new toy_field_type tp_height toy_insert toy_check
  (D := kv) (AccountGasLimit := Z) (BloomGroup := unit)).

Lemma toy_run m c : (toy_dispatch m c).1 = Ok tt -> toy_dispatch m c = (Ok tt, (toy_dispatch m c).2).
Proof. destruct (toy_dispatch m c) as [o c']. cbn. by intros ->. Qed.

Lemma toy_reaches_c3 : toy_reaches toy_start toy_c3.
Proof.
  apply (reaches_message _ _ _ _ _ _ _ _ (Executed genesis_result) toy_c1); [apply toy_genesis_ok|apply toy_run; by vm_compute|].
  apply (reaches_message _ _ _ _ _ _ _ _ (BlockWithProof toy_b1 {| tp_height := 1 |}) toy_c2);
    [apply toy_enqueue_ok|apply toy_run; by vm_compute|].
  apply (reaches_message _ _ _ _ _ _ _ _ (Executed toy_result1) toy_c3); [apply toy_result1_ok|apply toy_run; by vm_compute|].
  apply reaches_refl.
Qed.


Lemma result_extends_chain_witness :
  wp (toy_dispatch (Executed toy_result1))
    (fun _ c' => toy_inv c' /\ (ready toy_c2 toy_result1 -> exists e, block_map toy_c2 !! 1 = Some e /\
       current_header c' = result_header (er_header toy_result1) (queued e) /\
       found (fun k => k) c' 1 (current_header c') (body (queued e))) /\
     (~ ready toy_c2 toy_result1 -> current_header c' = current_header toy_c2)) none toy_c2 /\ ready toy_c2 toy_result1.
Proof.
  split.
  - apply (result_extends_chain (fun k => k) toy_proof_ok toy_proof_new toy_field_type tp_height (fun _ => True) toy_insert toy_insert_ok
      toy_check toy_c2 toy_result1 toy_c2_inv toy_result1_ok). by vm_compute.
  - right. split; by vm_compute.
Defined.

Lemma executed_blocks_found_witness :
  get_current_height toy_c3 = 1 /\
  exists hdr b, number hdr = 1 /\ block_stored (fun k => k) (Proof_ := toy_proof) (db toy_c3) 1 hdr b /\
    found (fun k => k) (collect_garbage [IdHeaders 1; IdBodies 1] toy_c3) 1 hdr b.
Proof.
  split; [by vm_compute|].
  refine (proj1 (executed_blocks_found (fun k => k) toy_proof_ok toy_proof_new toy_c3 [IdHeaders 1; IdBodies 1] toy_c3_inv) 1 _).
  by vm_compute.
Defined.

Lemma restart_restores_witness :
  exists c', init_chain toy_proof_new (db toy_c3) 0 2 = Ok c' /\ current_header c' = current_header toy_c3 /\
    max_store_height c' = max_store_height toy_c3 /\ toy_inv c'.
Proof. exact (restart_restores (fun k => k) toy_proof_ok toy_proof_new toy_c3 0 toy_c3_inv). Defined.

Lemma sync_reply_exact_witness :
  wp (toy_dispatch (SyncRequest [1; 5] 3))
    (fun _ c' => ctx_pub c' = ctx_pub toy_c3 ++
       [SyncResponseMsg 3 [mkBlock (current_header toy_c3) (body toy_b1); proof_block {| tp_height := 1 |}]]) none toy_c3.
Proof.
  eapply wp_conseq; [apply (sync_reply_exact (fun k => k) toy_proof_ok toy_proof_new toy_field_type tp_height toy_insert toy_check
    toy_c3 [1; 5] 3 toy_c3_inv); by repeat constructor| |done].
  by intros u c' ->.
Defined.

(** The second receipt of the block with two transactions has its place and
    its gas. *)
Lemma localized_receipt_exact_witness :
  settles (fun k => k) (localized_receipt (fun k => k) (fun _ _ => []) 12)
    (fun o => exists r, o = Some r /\ lr_gas_used r = 20 /\ lr_transaction_index r = 1) False toy_c3.
Proof.
  assert (Ha : address_of toy_c3 12 = Some {| ta_block_hash := get_current_hash toy_c3; ta_index := 1 |}) by by vm_compute.
  assert (Hr : receipts_of toy_c3 (get_current_hash toy_c3) = Some [Some (toy_receipt 30 [toy_log 8; toy_log 9] None);
    Some (toy_receipt 50 [toy_log 8] (Some ReceiptError.BadJumpDestination))]) by by vm_compute.
  eapply settles_mono; [apply (localized_receipt_exact (fun k => k) toy_proof_ok toy_proof_new (fun _ _ => []) toy_c3 12 toy_c3_inv); fits_tac| |].
  - intros o [_ Ho]. revert Ho. rw Ha. intros (n & s & l & r & l' & _ & _ & Hl' & Hs & Hl & ->). cbn [ta_block_hash] in Hl'. rw Hr in Hl'. injection Hl' as <-.
    cbn [ta_index] in *. change (Z.to_nat 1) with 1%nat in *.
    apply Forall2_cons_inv_r in Hs as (r1 & l1 & H1 & (r2 & l2 & H2 & _ & ->)%Forall2_cons_inv_r & ->). injection Hl as <-.
    inversion_clear H1 as [x1 y1 E1|]. inversion_clear H2 as [x2 y2 E2|]. eexists. split; [done|]. split; [|done].
    pose proof (f_equal rc_gas_used (proj1 E1)) as G1. pose proof (f_equal rc_gas_used (proj1 E2)) as G2. cbn in G1, G2.
    cbn [localized lr_gas_used]. rw prior_gas_last. cbn. by rw G1 G2.
  - intros (a & l & rc & Ha' & Hl & Hrc & Hgas). rw Ha in Ha'. injection Ha' as <-. cbn [ta_block_hash ta_index] in *. rw Hr in Hl.
    injection Hl as <-. injection Hrc as <-. vm_compute in Hgas. done.
Defined.

Definition toy_filter : Chain.Filter :=
  {| f_from_block := Earliest; f_to_block := Latest; f_address := None; f_topics := [Some [8]]; f_limit := Some 1%nat |}.
Definition toy_mask (h : H256) : Z := 1.

Lemma toy_blooms_found : blooms_found toy_with_bloom toy_c3.
Proof.
  intros lookup p from to _ _ _. exists (seqZ from (to - from + 1)). split; [done|]. split.
  - apply Forall_forall. intros n Hn%elem_of_seqZ. lia.
  - intros n hdr Hn _ _ _. apply elem_of_seqZ. lia.
Qed.

Lemma logs_search_exact_witness :
  answers (fun k => k) (get_logs (fun k => k) toy_with_bloom (fun b h => Z.lor b 1) toy_filter)
    (fun l => ll_log_index <$> l = [2]) toy_c3.
Proof.
  eapply answers_impl; [apply (logs_search_exact (HU := toy_util) toy_hash_fits (fun k => k) toy_proof_ok toy_proof_new toy_with_bloom toy_mask
    (fun b h => Z.lor b 1) toy_mask (fun b h => Z.lor b 1) toy_filter 0 1 toy_c3);
    [apply toy_c3_inv|done|done|done|done|apply toy_blooms_found|by repeat constructor|done|done|done|by vm_compute|fits_tac|fits_tac|]|].
  - intros n Hn. assert (n = 0 \/ n = 1) as [->| ->] by lia; split.
    + intros hash l hs H. vm_compute in H. done.
    + intros hdr e _ He. vm_compute in He. by apply not_elem_of_nil in He.
    + intros hash l hs H. vm_compute in H. injection H as _ <- _. by repeat constructor.
    + intros hdr e Hh He. vm_compute in Hh. injection Hh as <-.
      assert (G : forall l b, b = 1 -> fold_left (fun b t => Z.lor b 1) (l : list Z) b = 1) by (induction l; [done|intros b ->; by apply IHl]).
      unfold log_entry_bloom. rw G; done.
  - intros l ->. by vm_compute.
Defined.

Lemma decoded_block_typed_witness :
  block_ok (fun k => k) toy_proof_ok toy_b1 /\
  of_rlp (Rlp := Rlp_Block (fun k => k)) (to_rlp (Rlp := Rlp_Block (fun k => k)) toy_b1) = Some toy_b1.
Proof.
  apply (decoded_block_typed (fun k => k) toy_proof_ok) with (r := to_rlp (Rlp := Rlp_Block (fun k => k)) toy_b1).
  - intros r p. cbn. intros (h & Hh & ->)%fmap_Some. exact (uint_range 64 r h Hh).
  - by apply (Block_ok (fun k => k) toy_proof_ok), toy_b1_ok.
Defined.

(** The block comes back, and the receipt that ran out of gas comes back with
    another error. *)
Lemma stored_data_round_trip_witness :
  of_rlp (Rlp := Rlp_Block (fun k => k)) (to_rlp (Rlp := Rlp_Block (fun k => k)) toy_b1) = Some toy_b1 /\
  of_rlp (to_rlp (toy_receipt 50 [toy_log 8] (Some ReceiptError.OutOfGas))) =
    Some (toy_receipt 50 [toy_log 8] (Some ReceiptError.BadJumpDestination)).
Proof.
  split.
  - apply (proj1 (stored_data_round_trip (fun k => k) toy_proof_ok)), toy_b1_ok.
  - apply (proj2 (stored_data_round_trip (fun k => k) toy_proof_ok) (toy_receipt 50 [toy_log 8] (Some ReceiptError.OutOfGas))).
    apply toy_receipt_ok; [fits_tac|]. repeat constructor; by vm_compute.
Defined.
