(* ===== verification/TraceTheorems.v ===== *)
(** * Theorems on traces

    What is recorded of a transaction, what the database of traces answers,
    and where it fails. *)

From S2P Require Import Prelude Evm Stack Instructions Interpreter Account NativeStorage NativeSpec Executive Block Codec CodecSpec ChainDb Chain ChainSpec ChainFilter.
From S2P Require Import Trace Tracer TracerSpec TraceSpec TraceDb TraceDbSpec TraceChain Samples ChainSamples.
From stdpp Require Import base gmap list sorting relations.
Import Trace.
Local Open Scope Z_scope.
Local Open Scope cita_scope.

(** ** Recording *)

(** What the tracers return of a run. *)
Lemma run_recorded (tracing vm_tracing : bool) (r : Run) : run_ok vm_tracing r ->
  transact_traces tracing vm_tracing (Some r) =
    Ok (if tracing then flats (trees 0 r) else [], if vm_tracing then head (vm_trees 0 r) else None).
Proof.
  intros Hok. unfold transact_traces, trace_transaction.
  assert (Hlast : last (vm_trees 0 r) = head (vm_trees 0 r)) by by destruct r.
  destruct tracing, vm_tracing.
  - pose proof (run_traced flats (fun t => t) true r 0 [] 0 [] [VMOperation_default] [] Hok ltac:(done)) as E.
    change (flats []) with ([] : ExecutiveTracer) in E. unfold toplevel. rw E. cbn. by rw Hlast.
  - pose proof (run_traced flats (fun _ => mkNoopVMTracer) false r 0 [] 0 [] [VMOperation_default] [] Hok ltac:(done)) as E.
    change (flats []) with ([] : ExecutiveTracer) in E. by rw E.
  - pose proof (run_traced (fun _ => mkNoopTracer) (fun t => t) true r 0 [] 0 [] [VMOperation_default] [] Hok ltac:(done)) as E.
    unfold toplevel. rw E. cbn. by rw Hlast.
  - pose proof (run_traced (fun _ => mkNoopTracer) (fun _ => mkNoopVMTracer) false r 0 [] 0 [] [VMOperation_default] [] Hok ltac:(done)) as E.
    by rw E.
Qed.


(** A copy of no bytes needs no memory, so the memory is not expanded for it.
    With the tracer of the machine on, the slice of the memory at the place it
    was to be copied to is taken nevertheless: beyond the end of the memory it
    panics.  Without the tracer the same run is recorded. *)
Theorem empty_copy_panics (tracing : bool) p code pc gas_cost off src (f : Finished) res :
  fi_stack f = VecStack.of_top [off; src; 0] [] -> fits 64 off -> zlen (fi_memory f) < off ->
  match res with inr gas_left => gas_left <= ActionParams.gas p | inl _ => True end ->
  let r := RunCode p code [mkStep pc Op.CALLDATACOPY gas_cost Quiet (Some f)] None res in
  transact_traces tracing true (Some r) = Panic /\
  transact_traces tracing false (Some r) = Ok (if tracing then flats (trees 0 r) else [], None).
Proof.
  intros Hs [Ho1 Ho2] Hm Hres r. split; [|by apply (run_recorded tracing false)].
  assert (Hd : mem_diff Op.CALLDATACOPY f = Panic).
  { assert (Hw : mem_written Op.CALLDATACOPY (fi_stack f) = Ok (Some (low_u64 off, 0))) by by rw Hs.
    unfold mem_diff. rw Hw low_u64_small; [by split|]. cbn [on_stack obind]. rw add_ok; [lia|]. cbn [obind]. unfold slice.
    rw (proj2 (Z.leb_gt (off + 0) _)); [lia|]. by rw andb_false_r. }
  unfold transact_traces, trace_transaction, r. cbn -[mem_diff]. rw Hd. by destruct tracing.
Qed.

(** The traces of a block, the traces of the machine and the groups of
    blooms survive their encoding. *)
Theorem traces_round_trip {HR : RlpLib} {HRok : RlpLibOk} :
  (forall l : FlatBlockTraces, block_traces_ok l -> of_rlp (to_rlp l) = Some l) /\
  (forall t : VMTrace, vm_ok t -> of_rlp (to_rlp t) = Some t) /\
  (forall g : BloomGroup, group_ok g -> of_rlp (to_rlp g) = Some g).
Proof. split_and!; intros; by apply rlp_round. Qed.

(** ** The database *)
Section database.
  Context {HU : Util} {HR : RlpLib} {HRok : RlpLibOk} {HB : RlpBytes} {HBok : RlpBytesOk} {D : Type} {HD : KvDb D} {HDok : KvDbOk D}.
  Context (mask : H256 -> Z) (from_bloomed : H256 -> Z) (with_bloomed : Z -> H256 -> Z).
  Context (with_ok : forall b h, with_bloomed b h = Z.lor b (mask h)) (from_ok : forall h, from_bloomed h = mask h).
  Context (mask_ok : forall h, mask h <> 0 /\ fits 2048 (mask h)).
  Context (chain_replace : BloomConfig -> Z * Z -> list Z -> ask (list (GroupPosition * BloomGroup))).
  Context (chain_filter : BloomConfig -> Z * Z -> list Z -> ask (list Z)).
  Context (represents : BloomConfig -> (GroupPosition -> option BloomGroup) -> (Z -> Z) -> Prop).
  Context (config : TraceConfig) {Hlib : BloomChainOk chain_replace chain_filter represents (tc_blooms config)}.
  Context (tracing : tc_enabled config = true) (genesis : H256) (genesis_fits : fits 256 genesis).
Abbreviation Tdb := (TraceDB (D := D)).
Abbreviation step := (tstep from_bloomed with_bloomed chain_replace config genesis (D := D)).

(** The databases of traces that can be: an empty database was opened, and
    then blocks were imported. *)
Definition tracedb_at (s : Tdb) (canon : list H256) : Prop :=
  exists d hashes s0, (forall k, db_get d COL_TRACE k = None) /\ hashes 0 = Some genesis /\
    tracedb_new config hashes d = Ok s0 /\ rtc step (s0, [genesis]) (s, canon).

Lemma tracedb_chain s canon : tracedb_at s canon -> chain_at from_bloomed with_bloomed represents config genesis s canon.
Proof using HDok HBok HRok Hlib tracing genesis_fits with_ok from_ok mask_ok.
  intros (d & hashes & s0 & Hd & Hg & E & Hr).
  eapply (reachable_chain from_bloomed with_bloomed chain_replace chain_filter represents config); [|exact tracing|exact genesis_fits|exact Hg|exact Hd|exact E|exact Hr].
  intros l. apply (block_bloom_fits mask); [done|done|]. intros h. apply mask_ok.
Qed.

(** C36: On a database of traces with tracing on, made by importing blocks one
    request at a time, with reorganisations, evictions from the caches and
    restarts between them, a search whose range lies inside the canonical
    chain, and whose blocks and transactions the chain knows, does not panic
    and returns exactly the traces of the blocks in its range for which
    TraceFilter::matches says yes (it says no to every failed creation, also
    for a filter without addresses), in the order of execution and with their
    blocks and transactions: the blooms hide none of them. Not covered: a
    range that goes past the chain, where the hash of a block is expected in
    vain, and a query between the import of a block and the writing of its
    batch, after which an old group of blooms stays in the cache. *)
Theorem trace_search_exact block_hash transaction_hash hash_of f s canon a b :
  tracedb_at s canon -> tf_range f = (a, b) -> 0 <= a -> b < zlen canon -> b < max_number ->
  (forall n, a <= n <= b -> extras_ok block_hash transaction_hash hash_of s canon n) ->
  exists s', filter_traces from_bloomed with_bloomed chain_filter block_hash transaction_hash f s =
      (Ok (concat (matching hash_of s canon f <$> seqZ a (b - a + 1))), s') /\
    chain_at from_bloomed with_bloomed represents config genesis s' canon.
Proof using HDok HBok HRok Hlib tracing genesis_fits with_ok from_ok mask_ok.
  intros Hat Hr Ha Hb Hm He. pose proof (tracedb_chain s canon Hat) as Hc.
  destruct (filter_reads from_bloomed with_bloomed chain_replace chain_filter represents config genesis block_hash transaction_hash
    hash_of mask with_ok from_ok (fun h => proj1 (mask_ok h)) f s canon a b Hc Hr Ha Hb Hm He) as (s' & E & Hs & Hg).
  exists s'. split; [exact E|]. by eapply chain_same.
Qed.

(** C38: If the traces of a transaction were recorded from a run of it, then the
    query for a trace by its address gives the call, creation or suicide at the
    end of that path in the tree of the run, and nothing when the path does not
    exist. *)
Theorem trace_query_exact block_hash transaction_hash hash_of s canon n h ts i vm r path :
  tracedb_at s canon -> 0 <= n -> canon !! Z.to_nat n = Some h -> known s h = Some ts ->
  extras_ok block_hash transaction_hash hash_of s canon n -> run_ok false r ->
  (exists txs v, transact_traces true vm (Some r) = Ok (txs, v) /\ ts !! i = Some txs) ->
  exists s', trace block_hash transaction_hash n i path s =
    (Ok ((fun t => localize (Z.of_nat i) (hash_of n (Z.of_nat i)) n h (node_flat path t)) <$> (head (trees 0 r) ≫= subtree path)), s').
Proof using HDok HBok HRok Hlib tracing genesis_fits with_ok from_ok mask_ok.
  intros Hat Hn Hh Hts He Hok (txs & v & Ht & Hi). pose proof (run_recorded true false r Hok) as E.
  rw (calls_recorded vm r txs v Ht) in E. injection E as ->.
  destruct (trace_reads from_bloomed with_bloomed represents config genesis block_hash transaction_hash hash_of s canon n h ts i path
    (tracedb_chain s canon Hat) Hn Hh Hts He) as (s' & E & _). exists s'. rw E Hi. cbn [mbind option_bind]. rw find_transaction.
  by destruct (head (trees 0 r) ≫= subtree path).
Qed.

(** The cached groups that an import changes are removed from the cache
    before the batch is written.  A query that reads such a group in between
    puts the old group back, and it stays: after the batch is written the
    database answers with the old group, and a search does not see the blooms
    of the blocks that were imported. *)
Theorem stale_group_cached s canon r b s1 p old new :
  tracedb_at s canon -> request_ok s canon r -> ir_enacted r <> [] ->
  import from_bloomed with_bloomed chain_replace [] r s = (Ok b, s1) -> small p ->
  group_at s p = Some old -> update_map from_bloomed with_bloomed chain_replace s r !! p = Some new ->
  exists s2 s3, trace_blooms_at p s1 = (Ok (Some old), s2) /\
    group_at (flush b s2) p = Some new /\ trace_blooms_at p (flush b s2) = (Ok (Some old), s3).
Proof using HDok HBok HRok Hlib tracing genesis_fits with_ok from_ok mask_ok.
  intros Hat Hr Hne E Hp Hold Hnew. destruct (tracedb_chain s canon Hat) as [[Hg Hen Hc [f Hst]] _]. destruct Hr as [Hr _ _].
  assert (Hbf : forall l, fits 2048 (block_bloom from_bloomed with_bloomed l)).
  { intros l. apply (block_bloom_fits mask); [done|done|]. intros h. apply mask_ok. }
  pose proof (cs_blooms _ _ _ _ _ _ _ Hst) as Hb. rw -Hc in Hb.
  pose proof (import_window from_bloomed with_bloomed chain_replace r s b s1 p old new Hg Hen Hr Hne E Hp Hold Hnew) as Hw.
  pose proof (import_groups from_bloomed with_bloomed chain_replace chain_filter represents Hbf r s f b s1 p Hg Hen Hr Hne
    ltac:(by rw Hc) Hb E Hp) as Hgr. rw Hnew in Hgr.
  do 2 eexists. split; [exact Hw|]. split; [exact Hgr|].
  unfold trace_blooms_at, sbind, sget, slift, smodify, sret, read_with_cache. rw from_small; [done|].
  cbn [flush with_tracesdb blooms_cache with_groups tracesdb]. by rw lookup_insert_eq.
Qed.
End database.

(** ** Instances

    A bloom library whose groups hold one bloom each, and a database of traces
    with the block of one transaction: a call of a contract that calls a plain
    account, creates a contract and commits suicide. *)

(** *** The bloom library *)
Definition toy_mask (h : H256) : Z := 2 ^ (h mod 16).
Definition toy_shift (b : Z) (h : H256) : Z := Z.lor b (toy_mask h).

Lemma toy_mask_ok h : toy_mask h <> 0 /\ fits 2048 (toy_mask h).
Proof.
  unfold toy_mask, fits. pose proof (Z.mod_pos_bound h 16 ltac:(lia)) as Hh. pose proof (Z.pow_pos_nonneg 2 (h mod 16)) as Hp.
  split; [lia|]. split; [lia|]. apply Z.pow_lt_mono_r; lia.
Qed.

Definition toy_replace (c : BloomConfig) (range : Z * Z) (bs : list Z) : ask (list (GroupPosition * BloomGroup)) :=
  Ret ((fun n => ((0, n), [replaced (fun _ => 0) range.1 range.2 bs n])) <$> seqZ range.1 (Z.max (range.1 + zlen bs) range.2 - range.1)).

Definition toy_hit (g : option BloomGroup) (ps : list Z) : bool :=
  match g with Some [b] => existsb (fun p => Z.land b p =? p) ps | _ => false end.

Fixpoint toy_scan (l ps acc : list Z) : ask (list Z) :=
  match l with
  | [] => Ret (reverse acc)
  | n :: l => Ask (0, n) (fun g => toy_scan l ps (if toy_hit g ps then n :: acc else acc))
  end.
Definition toy_filter (c : BloomConfig) (range : Z * Z) (ps : list Z) : ask (list Z) :=
  toy_scan (seqZ range.1 (range.2 - range.1 + 1)) ps [].

Definition toy_bloom (g : option BloomGroup) : Z := match g with Some [b] => b | _ => 0 end.
Definition toy_represents (c : BloomConfig) (L : GroupPosition -> option BloomGroup) (f : Z -> Z) : Prop :=
  forall n, 0 <= n < max_number -> f n = toy_bloom (L (0, n)).

Lemma toy_scan_answer L ps l : forall acc, answer L (toy_scan l ps acc) = reverse acc ++ filter (fun n => toy_hit (L (0, n)) ps = true) l.
Proof.
  induction l as [|n l IH]; intros acc; cbn [toy_scan answer]; [by rw app_nil_r|]. rw IH. rw filter_cons.
  case_decide as Hd; [rw Hd reverse_cons -app_assoc; done|]. by apply not_true_is_false in Hd as ->.
Qed.

Lemma toy_map_lookup (g : Z -> BloomGroup) l n :
  (list_to_map ((fun n => (((0, n) : GroupPosition), g n)) <$> l) : gmap GroupPosition BloomGroup) !! ((0, n) : GroupPosition) =
  if bool_decide (n ∈ l) then Some (g n) else None.
Proof.
  induction l as [|m l IH]; [done|]. cbn [fmap list_fmap list_to_map foldr fst snd]. destruct (decide (m = n)) as [->|Hne].
  - rw lookup_insert_eq. by rw bool_decide_eq_true_2; [left|].
  - rw lookup_insert_ne; [intros [= ?]; done|]. rw IH. case_bool_decide as H1; case_bool_decide as H2; [done| | |done].
    + by destruct H2; right.
    + by apply elem_of_cons in H2 as [->|H2].
Qed.

#[export] Instance toy_chain_ok c : BloomChainOk toy_replace toy_filter toy_represents c.
Proof.
  split.
  - intros L L' f HL Hf n Hn. rw Hf; [done|]. rw HL; [|done]. split; unfold fits; cbn [fst snd]; [lia|exact Hn].
  - intros n Hn. done.
  - intros L f a b bs Hf Hab Hb Hbs Hfit. cbn [toy_replace answer fst snd]. unfold max_number in *. split.
    + apply Forall_fmap, Forall_forall. intros n Hn%elem_of_seqZ. cbn [compose fst snd]. split; [split; unfold fits; cbn [fst snd]; lia|].
      apply Forall_singleton. unfold replaced. destruct ((a <=? n) && (n <? a + zlen bs)) eqn:E; [|by destruct ((a <=? n) && (n <? b))].
      apply andb_true_iff in E as [E1 E2]. apply Z.leb_le in E1. apply Z.ltb_lt in E2.
      destruct (lookup_lt_is_Some_2 bs (Z.to_nat (n - a))) as [x Hx]; [unfold zlen in *; lia|]. rw (list_lookup_total_correct _ _ _ Hx).
      by eapply Forall_lookup_1.
    + intros n Hn. unfold updated. rw toy_map_lookup. case_bool_decide as Hin.
      * apply elem_of_seqZ in Hin. cbn [toy_bloom]. unfold replaced. destruct (Z.leb_spec a n); [|lia]. cbn [andb].
        destruct (Z.ltb_spec n (a + zlen bs)); [done|]. by destruct (Z.ltb_spec n b); [|lia].
      * rw elem_of_seqZ in Hin. unfold replaced. destruct (Z.leb_spec a n); cbn [andb]; [|by apply Hf].
        destruct (Z.ltb_spec n (a + zlen bs)); [lia|]. destruct (Z.ltb_spec n b); [lia|]. by apply Hf.
  - intros L f a b ps Hf Ha Hb. unfold toy_filter. rw toy_scan_answer. cbn [reverse rev_append app fst snd]. split_and!.
    + pose proof (seqZ_sorted a (b - a + 1)) as Hs. pose proof (NoDup_seqZ a (b - a + 1)) as Hnd. revert Hs Hnd.
      generalize (seqZ a (b - a + 1)). intros l Hs. induction Hs as [|x l Hl IH Hx]; intros Hnd; [constructor|].
      apply NoDup_cons in Hnd as [Hni Hnd]. rw filter_cons. case_decide; [|by apply IH]. apply StronglySorted_cons. split; [|by apply IH].
      apply Forall_forall. intros y [_ Hy]%list_elem_of_filter. rw Forall_forall in Hx. specialize (Hx y Hy).
      assert (x <> y) by (intros ->; done). lia.
    + apply Forall_forall. intros n [_ Hn%elem_of_seqZ]%list_elem_of_filter. lia.
    + intros n p Hn Hp Hnz Hc. apply list_elem_of_filter. split; [|apply elem_of_seqZ; lia]. rw Hf in Hnz; [unfold max_number in *; lia|].
      rw Hf in Hc; [unfold max_number in *; lia|]. unfold toy_hit, toy_bloom in *. destruct (L (0, n)) as [[|x [|]]|]; [done| |done|done].
      apply existsb_exists. exists p. split; [by apply list_elem_of_In|]. by apply Z.eqb_eq.
Qed.

(** *** A transaction *)
Definition toy_finished (gas : Z) (stack : list Z) : Finished :=
  {| fi_gas_used := gas; fi_stack_push := [1]; fi_stack := VecStack.of_top stack []; fi_memory := [7; 8; 9] |}.

Definition toy_code : bytes := [96; 0].
Definition toy_run : Run :=
  RunCode (sample_params toy_code 1000) toy_code
    [mkStep 0 Op.CALL 700 (Sub (RunPlain (sample_params [] 100))) (Some (toy_finished 200 [700; 5; 0; 0; 0; 1; 2]));
     mkStep 1 Op.CREATE 100 (Sub (RunCreate (sample_params [1; 2] 80) [1; 2] [mkStep 0 1 3 Quiet None] None (inl (BadInstruction 2))))
       (Some (toy_finished 100 [0; 0; 2]));
     mkStep 2 Op.SUICIDE 0 (Suicides 5 0 6) (Some (toy_finished 100 [6]))]
    (Some [9]) (inr 100).

Lemma toy_run_ok vm : run_ok vm toy_run.
Proof.
  cbn. split_and!; try done; intros _ f [= <-]; (split; eexists; vm_compute; reflexivity).
Qed.

(** *** A database *)
Definition toy_config : TraceConfig :=
  {| tc_enabled := true; tc_blooms := {| levels := 3; elements_per_index := 16 |}; tc_pref_cache_size := 0; tc_max_cache_size := 0 |}.
Definition toy_hashes (n : Z) : option H256 := if n =? 0 then Some 100 else if n =? 1 then Some 101 else None.
Definition toy_tx_hash (n i : Z) : H256 := 1000 * n + i.
Definition toy_traces : FlatBlockTraces := [flats (trees 0 toy_run)].
Definition toy_request : ImportRequest :=
  {| ir_traces := toy_traces; ir_block_hash := 101; ir_block_number := 1; ir_enacted := [101]; ir_retracted := 0 |}.

Abbreviation toy_tracedb := (TraceDB (D := kv)).
Definition toy_import (r : ImportRequest) (s : toy_tracedb) : outcome void DBTransaction * toy_tracedb :=
  import toy_mask toy_shift toy_replace [] r s.
Definition batch_of (x : outcome void DBTransaction * toy_tracedb) : DBTransaction := match x.1 with Ok b => b | _ => [] end.

Definition went_well (x : outcome void DBTransaction * toy_tracedb) : bool := match x.1 with Ok _ => true | _ => false end.
Lemma batch_split x : went_well x = true -> x = (Ok (batch_of x), x.2).
Proof. by destruct x as [[b| |] s]. Qed.

Definition toy_t0 : toy_tracedb :=
  mkTraceDB ∅ ∅ (db_write (write (H := Rlp_FlatBlockTraces) COL_TRACE (key_traces 100) [] ++ [(COL_TRACE, version_key, TRACE_DB_VER)]) ∅)
    (tc_blooms toy_config) true.
Definition toy_t1 : toy_tracedb := let x := toy_import toy_request toy_t0 in flush (batch_of x) x.2.

Lemma toy_traces_ok : block_traces_ok toy_traces.
Proof.
  apply Forall_singleton. unfold toy_traces. cbn. repeat apply Forall_cons_2; [..|apply Forall_nil_2]; split; cbn;
    first [done | by repeat constructor | idtac].
  all: try (split; cbn; first [done|by repeat constructor]).
Qed.

Lemma toy_request_ok : request_ok toy_t0 [100] toy_request.
Proof.
  split; [split|by split|apply (bool_decide_unpack _); by vm_compute].
  - done.
  - apply toy_traces_ok.
  - done.
  - done.
  - done.
  - done.
  - apply Forall_singleton. split; [done|]. by exists toy_traces.
Qed.

(** The block is replaced by one without transactions. *)
Definition toy_request2 : ImportRequest :=
  {| ir_traces := []; ir_block_hash := 102; ir_block_number := 1; ir_enacted := [102]; ir_retracted := 1 |}.

Lemma toy_request2_ok : request_ok toy_t1 [100; 101] toy_request2.
Proof.
  split; [split|by split|apply (bool_decide_unpack _); by vm_compute].
  - done.
  - apply Forall_nil_2.
  - done.
  - done.
  - done.
  - done.
  - apply Forall_singleton. split; [done|]. by exists [].
Qed.

Lemma toy_step1 : tstep toy_mask toy_shift toy_replace toy_config 100 (toy_t0, [100]) (toy_t1, [100; 101]).
Proof.
  apply (st_import toy_mask toy_shift toy_replace toy_config 100 toy_t0 [100] toy_request (batch_of (toy_import toy_request toy_t0))
    (toy_import toy_request toy_t0).2 toy_request_ok). by apply batch_split; vm_compute.
Qed.


Lemma empty_copy_panics_witness :
  transact_traces true true (Some (RunCode (sample_params toy_code 1000) toy_code
    [mkStep 0 Op.CALLDATACOPY 3 Quiet (Some (toy_finished 900 [100; 0; 0]))] None (inr 900))) = Panic.
Proof.
  apply (empty_copy_panics true (sample_params toy_code 1000) toy_code 0 3 100 0 (toy_finished 900 [100; 0; 0]) (inr 900)); [reflexivity|by split|reflexivity|done].
Defined.

Lemma traces_round_trip_witness : of_rlp (to_rlp toy_traces) = Some toy_traces.
Proof. apply (proj1 (@traces_round_trip toy_rlp toy_rlp_ok)). exact toy_traces_ok. Defined.

Abbreviation toy_at := (tracedb_at toy_mask toy_shift toy_replace toy_config 100 (D := kv)).

Lemma toy_t1_at : toy_at toy_t1 [100; 101].
Proof.
  exists ∅, toy_hashes, toy_t0. split_and!; [intros k; apply lookup_empty|done|done|]. apply rtc_once, toy_step1.
Qed.

Lemma toy_extras n : 0 <= n <= 1 -> extras_ok toy_hashes (fun n i => Some (toy_tx_hash n i)) toy_tx_hash toy_t1 [100; 101] n.
Proof.
  intros Hn. assert (n = 0 \/ n = 1) as [->| ->] by lia; split; done.
Qed.

Lemma toy_known : known toy_t1 101 = Some toy_traces.
Proof. by vm_compute. Qed.

(** The search for calls from the sender finds the two calls, not the failed
    creation. *)
Definition toy_trace_filter : TraceFilter := {| tf_range := (0, 1); tf_from_address := [7]; tf_to_address := [] |}.

Lemma trace_search_exact_witness : exists s',
  filter_traces toy_mask toy_shift toy_filter toy_hashes (fun n i => Some (toy_tx_hash n i)) toy_trace_filter toy_t1 =
    (Ok (concat (matching toy_tx_hash toy_t1 [100; 101] toy_trace_filter <$> seqZ 0 (1 - 0 + 1))), s') /\
  chain_at toy_mask toy_shift toy_represents toy_config 100 s' [100; 101].
Proof.
  refine (trace_search_exact toy_mask toy_mask toy_shift _ _ toy_mask_ok toy_replace toy_filter toy_represents toy_config _ 100 _
    toy_hashes (fun n i => Some (toy_tx_hash n i)) toy_tx_hash toy_trace_filter toy_t1 [100; 101] 0 1 toy_t1_at _ _ _ _ toy_extras); done.
Defined.

Lemma trace_query_exact_witness : exists s',
  trace toy_hashes (fun n i => Some (toy_tx_hash n i)) 1 0 [1] toy_t1 =
    (Ok ((fun t => localize 0 (toy_tx_hash 1 0) 1 101 (node_flat [1] t)) <$> (head (trees 0 toy_run) ≫= subtree [1])), s').
Proof.
  refine (trace_query_exact toy_mask toy_mask toy_shift _ _ toy_mask_ok toy_replace toy_filter toy_represents toy_config _ 100 _
    toy_hashes (fun n i => Some (toy_tx_hash n i)) toy_tx_hash toy_t1 [100; 101] 1 101 toy_traces 0%nat false toy_run [1] toy_t1_at _ _ toy_known
    (toy_extras 1 _) (toy_run_ok false) _); [done..|].
  exists (flats (trees 0 toy_run)), None. by split; [apply run_recorded, toy_run_ok|].
Defined.

Lemma stale_group_cached_witness : exists s2 s3 old,
  trace_blooms_at (0, 1) (toy_import toy_request2 toy_t1).2 = (Ok (Some old), s2) /\
  group_at (flush (batch_of (toy_import toy_request2 toy_t1)) s2) (0, 1) = Some [0] /\
  trace_blooms_at (0, 1) (flush (batch_of (toy_import toy_request2 toy_t1)) s2) = (Ok (Some old), s3).
Proof.
  destruct (stale_group_cached toy_mask toy_mask toy_shift (fun _ _ => eq_refl) (fun _ => eq_refl) toy_mask_ok toy_replace toy_filter toy_represents
    toy_config eq_refl 100 ltac:(done) toy_t1 [100; 101] toy_request2 (batch_of (toy_import toy_request2 toy_t1)) (toy_import toy_request2 toy_t1).2
    (0, 1) [block_bloom toy_mask toy_shift toy_traces] [0] toy_t1_at toy_request2_ok ltac:(done) ltac:(by apply batch_split; vm_compute) ltac:(done)
    ltac:(by vm_compute) ltac:(by vm_compute)) as (s2 & s3 & H1 & H2 & H3).
  exists s2, s3, [block_bloom toy_mask toy_shift toy_traces]. exact (conj H1 (conj H2 H3)).
Defined.
