(* ===== verification/PollsTheorems.v ===== *)
(** * Replies and polling: properties

    Requests are answered from what is stored, and a client that polls a
    block filter in time is told every block once and in order. *)

From S2P Require Import Prelude Evm Account NativeStorage NativeSpec Executive Block Codec CodecSpec ChainDb Chain Forward.
From S2P Require Import ChainSpec ChainInv ChainReads ChainLogs ChainFilter ChainIndex ChainStep Samples ChainSamples.
From S2P Require Import Polls PollsSpec.
From stdpp Require Import base gmap list sorting.
Local Open Scope Z_scope.
Local Open Scope cita_scope.

Section theorems.
  Context {HR : RlpLib} {HRok : RlpLibOk} {HU : Util} {HB : RlpBytes} {HBok : RlpBytesOk}.
  Context (hash_fits : forall b, fits 256 (crypt_hash b)) (pubkey_to_address : Z -> Address).
  Context {Proof_ : Type} {Proof_eq : EqDecision Proof_} {HP : Rlp Proof_} (proof_ok : Proof_ -> Prop).
  Context {HPok : RlpOk Proof_ proof_ok} (Proof_new : Proof_).
  Context (get_field_type : Proof_ -> ProofType) (tendermint_height : Proof_ -> Z).
  Context {D : Type} {HD : KvDb D} {HDok : KvDbOk D} {AccountGasLimit : Type}.
  Context {BloomGroup : Type} {HG : Rlp BloomGroup} (group_ok : BloomGroup -> Prop) {HGok : RlpOk BloomGroup group_ok}.
Abbreviation Lookup := (Z * Z -> outcome void (option BloomGroup)).
  Context (bloom_insert : Lookup -> Z -> Z -> outcome void (list ((Z * Z) * BloomGroup))).
  Context (insert_ok : forall (lookup : Lookup) n bloom,
    (forall q, position_ok q -> exists o, lookup q = Ok o) -> 0 <= n < 2 ^ 32 -> fits 2048 bloom ->
    exists l, bloom_insert lookup n bloom = Ok l /\ blooms_ok group_ok l).
Abbreviation Blk := (Block (Proof_ := Proof_)).
  Context (check_hash : Blk -> bool) (encode_address_nonce : Address -> U256 -> bytes).
  Context (with_bloom : Lookup -> Z -> Z -> Z -> outcome void (list Z)) (shift_bloomed : Z -> H256 -> Z).
  Context (bloom_total : forall (lookup : Lookup) p from to,
    (forall q, position_ok q -> exists o, lookup q = Ok o) -> fits 64 from -> fits 64 to ->
    exists l, with_bloom lookup from to p = Ok l /\ Forall (fits 64) l).
  Context {P : Type} {HT : Transient PollFilter P} {HTok : TransientOk PollFilter P}.
Abbreviation Ch := (Chain (Proof_ := Proof_) (D := D) (AccountGasLimit := AccountGasLimit) (BloomGroup := BloomGroup)).
Abbreviation Sv := (Service (Proof_ := Proof_) (D := D) (AccountGasLimit := AccountGasLimit) (BloomGroup := BloomGroup) (P := P)).
Abbreviation inv := (chain_inv pubkey_to_address proof_ok Proof_new (Proof_ := Proof_) (D := D)
  (AccountGasLimit := AccountGasLimit) (BloomGroup := BloomGroup)).
Abbreviation sinv := (service_inv pubkey_to_address proof_ok Proof_new (P := P) (D := D) (AccountGasLimit := AccountGasLimit)
  (BloomGroup := BloomGroup)).
Abbreviation acceptable := (acceptable pubkey_to_address proof_ok Proof_new (Proof_ := Proof_) (D := D)
  (AccountGasLimit := AccountGasLimit) (BloomGroup := BloomGroup)).
Abbreviation block_stored := (block_stored pubkey_to_address (Proof_ := Proof_) (D := D)).
Abbreviation history_kept := (history_kept pubkey_to_address (Proof_ := Proof_) (D := D)).
Abbreviation dispatch := (dispatch_msg pubkey_to_address Proof_new get_field_type tendermint_height bloom_insert check_hash (D := D)
  (AccountGasLimit := AccountGasLimit) (BloomGroup := BloomGroup)).
Abbreviation reply_request := (reply_request pubkey_to_address encode_address_nonce with_bloom shift_bloomed (P := P) (D := D)
  (AccountGasLimit := AccountGasLimit) (BloomGroup := BloomGroup)).
Abbreviation answer_right := (answer_right pubkey_to_address encode_address_nonce with_bloom shift_bloomed).

(** ** Requests *)

(** C35: A request is answered with one message and without a panic if its
    parameters can be read where the code insists on them, hashes and heights
    have their widths, a block is not asked for by one of the internal
    constants as its hash, the receipt asked for has no less cumulative gas
    than the one before it, and filter ids are left. A block, a transaction or
    a receipt is the stored one with its place, logs are those of a search on
    the present chain, new filters get the next id and start at the current
    height, removed ones are gone. The chain itself does not change (only what
    its caches hold), the invariant of the service holds again, and filters of
    other clients that were used within their lifetime stay as they are. *)
Theorem requests_answered now s r : sinv s -> request_ok s r ->
  wp (reply_request now (Some r))
    (fun _ s' => sinv s' /\
       (exists k, sv_chain s' = with_db (db (sv_chain s)) k (sv_chain s)) /\
       (exists a, sv_out s' = sv_out s ++ [a] /\ answer_right now s r a s') /\
       (forall id f t, installed s id f t -> now - t < POLL_LIFETIME -> asks r <> Some id -> installed s' id f t)) none s.
Proof using HRok hash_fits bloom_total.
  intros Hs Hr. eapply wp_conseq; [by apply (reply_request_serves hash_fits pubkey_to_address proof_ok Proof_new)| |done].
  intros [] s' (a & s1 & [Hi (k & Hk & _) Ho Hp] & Ha & ->). split_and!.
  - split; apply Hi.
  - by exists k.
  - exists a. split; [cbn; by rw Ho|done].
  - done.
Qed.

(** ** Block filters *)

(** The time of filter [id] after it was created at [t0]: messages reach the
    chain, its caches are collected, requests come, and the filter is polled
    with the answers [l], the last time at [t].  No request is later than the
    lifetime after a poll. *)
Inductive watched (id t0 : Z) (s0 : Sv) : list FilterChanges -> Z -> Sv -> Prop :=
| watched_start : watched id t0 s0 [] t0 s0
| watched_message l t s m c : watched id t0 s0 l t s -> acceptable (sv_chain s) m -> dispatch m (sv_chain s) = (Ok tt, c) ->
    watched id t0 s0 l t (with_chain c s)
| watched_evict l t s ids : watched id t0 s0 l t s -> watched id t0 s0 l t (with_chain (collect_garbage ids (sv_chain s)) s)
| watched_request l t s r now s1 : watched id t0 s0 l t s -> asks r <> Some id -> now - t < POLL_LIFETIME -> request_ok s r ->
    reply_request now (Some r) s = (Ok tt, s1) -> watched id t0 s0 l t s1
| watched_poll l t s now s1 a : watched id t0 s0 l t s -> now - t < POLL_LIFETIME ->
    reply_request now (Some (QFilterChanges id)) s = (Ok tt, s1) -> sv_out s1 = sv_out s ++ [RFilterChanges a] ->
    watched id t0 s0 (l ++ [a]) now s1.

(** [h] is the hash of the executed block [n]. *)
Definition executed_hash (c : Ch) (n : Z) (h : H256) : Prop :=
  exists hdr b, block_stored (db c) n hdr b /\ h = header_hash rlp_out hdr.

Lemma hash_at_executed c n : inv c -> 0 < n <= get_current_height c -> exists h, hash_at c n = Some h /\ executed_hash c n h.
Proof using.
  intros Hc Hn. destruct (ix_block _ _ _ (ci_index _ _ _ _ Hc) n Hn) as (hdr & b & Hb). exists (header_hash rlp_out hdr).
  split; [|by exists hdr, b]. unfold hash_at.
  rw (header_at_stored _ _ _ c (header_hash rlp_out hdr) n Hc (bs_plain _ _ _ _ _ Hb) (bs_hash _ _ _ _ _ Hb)) (bs_header _ _ _ _ _ Hb). done.
Qed.

Lemma omap_Forall2 {A B} (f : A -> option B) (R : A -> B -> Prop) l :
  Forall (fun x => exists y, f x = Some y /\ R x y) l -> Forall2 R l (omap f l).
Proof using. induction 1 as [|x l (y & Hy & HR') Hl IH]; cbn; [done|]. rw Hy. by constructor. Qed.

Lemma hashes_executed c n : inv c -> 0 < n ->
  Forall2 (executed_hash c) (seqZ n (get_current_height c + 1 - n)) (omap (hash_at c) (seqZ n (get_current_height c + 1 - n))).
Proof using.
  intros Hc Hn. apply omap_Forall2, Forall_forall. intros m Hm%elem_of_seqZ. apply hash_at_executed; [done|lia].
Qed.

(** The state of a block filter that was created at height [h0]. *)
Record told (id h0 : Z) (l : list FilterChanges) (t : Z) (s : Sv) : Prop := {
  to_inv : sinv s;
  to_answers : exists n hss, installed s id (PBlock n) t /\ h0 <= n <= get_current_height (sv_chain s) + 1 /\ l = Hashes <$> hss /\
    Forall2 (executed_hash (sv_chain s)) (seqZ h0 (n - h0)) (concat hss);
}.

(** More blocks do not change what was told. *)
Lemma told_chain id h0 l t s s' : 0 < h0 -> told id h0 l t s -> sinv s' ->
  get_current_height (sv_chain s) <= get_current_height (sv_chain s') ->
  history_kept (db (sv_chain s)) (db (sv_chain s')) (get_current_height (sv_chain s)) ->
  (forall f, installed s id f t -> installed s' id f t) -> told id h0 l t s'.
Proof using.
  intros H0 [_ (n & hss & Hi & Hn & Hl & Hf)] Hs' Hh Hk Hp. split; [done|]. exists n, hss. split_and!; [by apply Hp|lia|lia|done|].
  apply Forall2_same_length_lookup. split; [by eapply Forall2_length|]. intros i m h Hm Hx.
  destruct (Forall2_lookup_lr _ _ _ _ _ _ Hf Hm Hx) as (hdr & b & Hb & ->). exists hdr, b. split; [|done]. apply Hk; [|done].
  apply lookup_seqZ in Hm. lia.
Qed.

Lemma told_poll id h0 l t s now : 0 < h0 -> told id h0 l t s -> now - t < POLL_LIFETIME ->
  wp (reply_request now (Some (QFilterChanges id)))
    (fun _ s' => exists a, sv_out s' = sv_out s ++ [RFilterChanges a] /\ told id h0 (l ++ [a]) now s' /\
       get_current_height (sv_chain s') = get_current_height (sv_chain s) /\
       installed s' id (PBlock (get_current_height (sv_chain s') + 1)) now) none s.
Proof using HRok hash_fits bloom_total.
  intros H0 [Hs (n & hss & Hi & Hn & -> & Hf)] Ht.
  eapply wp_conseq; [by apply (reply_request_serves hash_fits pubkey_to_address proof_ok Proof_new)| |done].
  intros [] s' (a & s1 & [Hi1 (k & Hk & _) Ho _] & (x & -> & Hx & _) & ->). destruct (Hx _ t Hi Ht) as (f' & Hf' & -> & ->).
  assert (Hh : get_current_height (sv_chain s1) = get_current_height (sv_chain s)) by by rw Hk.
  eexists. split_and!; [cbn; by rw Ho| |done|cbn; by rw Hh]. split; [split; apply Hi1|]. cbn [sv_chain reply].
  exists (get_current_height (sv_chain s) + 1). eexists (hss ++ [_]). rw Hh fmap_app. split_and!; [exact Hf'|lia|lia|done|].
  rw concat_app /= app_nil_r. replace (get_current_height (sv_chain s) + 1 - h0) with ((n - h0) + (get_current_height (sv_chain s) + 1 - n)) by lia.
  rw seqZ_app; [lia..|]. replace (h0 + (n - h0)) with n by lia. rw Hk.
  eapply (Forall2_impl (executed_hash (sv_chain s))); [|done]. apply Forall2_app; [exact Hf|]. apply hashes_executed; [apply Hs|lia].
Qed.

Lemma watched_told id h0 t0 s0 l t s : 0 < h0 -> told id h0 [] t0 s0 -> watched id t0 s0 l t s -> told id h0 l t s.
Proof using HRok HDok HBok HPok HGok insert_ok hash_fits bloom_total.
  intros H0 Hstart. induction 1 as [|l t s m c Hw IH Ha Hm|l t s ids Hw IH|l t s r now s1 Hw IH Hr Ht Hok Hq|l t s now s1 a Hw IH Ht Hq Ho].
  - done.
  - pose proof (dispatch_msg_step pubkey_to_address proof_ok Proof_new get_field_type tendermint_height group_ok bloom_insert insert_ok
      check_hash m (sv_chain s) (si_chain _ _ _ _ (to_inv _ _ _ _ _ IH)) Ha) as Hs. unfold wp in Hs. rw Hm in Hs.
    destruct (step_height _ _ _ (sv_chain s) m c (si_chain _ _ _ _ (to_inv _ _ _ _ _ IH)) Hs) as [Hh Hk].
    eapply told_chain; [done|exact IH| |cbn; lia|done|done]. split; [by eapply chain_step_inv|apply IH].
  - eapply told_chain; [done|exact IH| |done|by intros ?|done]. split; [apply collect_garbage_inv; apply IH|apply IH].
  - pose proof (reply_request_serves hash_fits pubkey_to_address proof_ok Proof_new encode_address_nonce with_bloom shift_bloomed bloom_total
      now s r (to_inv _ _ _ _ _ IH) Hok) as Hs. unfold wp in Hs. rw Hq in Hs. destruct Hs as (a & s2 & [Hi (k & Hk & _) _ Hp] & _ & ->).
    eapply told_chain; [done|exact IH|split; apply Hi|cbn; by rw Hk|cbn; rw Hk; by intros ?|]. intros f Hf. by apply Hp.
  - pose proof (told_poll id h0 l t s now H0 IH Ht) as Hs. unfold wp in Hs. rw Hq in Hs. destruct Hs as (a' & Ho' & Hs & _).
    rw Ho in Ho'. apply app_inv_head in Ho'. by injection Ho' as <-.
Qed.

(** C34: A client creates a block filter while the height is above 0, and
    polls it, never later than the lifetime after the last time; meanwhile the
    chain handles acceptable messages (see executed_blocks_kept: no block at
    or below the current height, no late result of height 0), caches are
    collected, and other clients send requests that can be answered and that
    neither poll nor uninstall this filter. Then every poll is answered with
    hashes, and with the answer to the next poll the client has been told the
    hash of every executed block from the height at the creation, that block
    included, up to the current one, each once and in the order of the chain.
    (The comment on the filter calls its number that of the last block told;
    it is that of the next one to tell.) *)
Theorem block_filter_tells_all s0 t0 s1 id l t s now : sinv s0 -> 0 < get_current_height (sv_chain s0) ->
  fits 64 (next_available_id (sv_polls s0) + 1) ->
  reply_request t0 (Some QNewBlockFilter) s0 = (Ok tt, s1) -> sv_out s1 = sv_out s0 ++ [RFilterId id] ->
  watched id t0 s1 l t s -> now - t < POLL_LIFETIME ->
  wp (reply_request now (Some (QFilterChanges id)))
    (fun _ s' => exists hss hs, l = Hashes <$> hss /\ sv_out s' = sv_out s ++ [RFilterChanges (Hashes hs)] /\
       let h0 := get_current_height (sv_chain s0) in
       Forall2 (executed_hash (sv_chain s')) (seqZ h0 (get_current_height (sv_chain s') - h0 + 1)) (concat (hss ++ [hs]))) none s.
Proof using HRok HDok HBok HPok HGok insert_ok hash_fits bloom_total.
  intros Hs0 H0 Hid Hnew Ho1 Hw Ht. set (h0 := get_current_height (sv_chain s0)) in *.
  assert (Hstart : told id h0 [] t0 s1).
  { pose proof (reply_request_serves hash_fits pubkey_to_address proof_ok Proof_new encode_address_nonce with_bloom shift_bloomed bloom_total
      t0 s0 QNewBlockFilter Hs0 Hid) as Hs. unfold wp in Hs. rw Hnew in Hs. destruct Hs as (a & s2 & [Hi (k & Hk & _) Ho _] & [-> Hin] & ->).
    cbn in Ho1. rw Ho in Ho1. apply app_inv_head in Ho1. injection Ho1 as <-. split; [split; apply Hi|]. exists h0, [].
    split_and!; [exact Hin|lia|cbn; rw Hk /h0 /get_current_height /=; lia|done|]. rw Z.sub_diag. constructor. }
  eapply wp_conseq; [apply (told_poll id h0 l t s now H0); [by eapply watched_told|done]| |done].
  intros [] s' (a & Ho & [_ (n & hss & Hi & Hn & Hl & Hf)] & Hh & Hi'). unfold installed in Hi, Hi'. rw Hi in Hi'. injection Hi' as Hn'. subst n.
  destruct hss as [|hs hss _] using rev_ind; [by destruct l|]. rw fmap_app in Hl. apply app_inj_2 in Hl as [-> [= ->]]; [|done].
  exists hss, hs. split_and!; [done|done|]. cbv zeta. rw -Z.add_sub_swap. exact Hf.
Qed.

(** ** Log filters *)
Lemma limit_newest l limit : limit_logs (newest limit l) limit = newest limit l.
Proof using.
  destruct limit as [k|]; [|done]. unfold newest, limit_logs. cbn [from_option]. rw length_drop. case_match eqn:Hk; [|done].
  rw (_ : (length l - (length l - k) - k)%nat = 0%nat); [lia|]. apply drop_0.
Qed.

(** A poll of a log filter in time is answered with exactly the logs that
    match its addresses and topics in the blocks from the one it stands at up
    to the current one, in the order of the chain, or the newest ones up to the
    limit; the filter then stands at the next block.  The block range that was
    asked for when the filter was created does not matter. *)
Theorem log_poll_exact mask from_bloomed with_bloomed s id n previous f t now :
  sinv s -> installed s id (PLogs n previous f) t -> now - t < POLL_LIFETIME ->
  (forall b h, shift_bloomed b h = Z.lor b (mask h)) -> (forall b h, with_bloomed b h = Z.lor b (mask h)) ->
  (forall h, from_bloomed h = mask h) -> (forall h, mask h <> 0) ->
  let c := sv_chain s in
  let h := get_current_height c in
  blooms_found with_bloom c -> topics_given (into_filter f) ->
  (forall m, n <= m <= h -> complete pubkey_to_address c m /\ blooms_cover pubkey_to_address from_bloomed with_bloomed c m) ->
  wp (reply_request now (Some (QFilterChanges id)))
    (fun _ s' =>
       sv_out s' = sv_out s ++
         [RFilterChanges (Logs (newest (rf_limit f) (filter (fun e => filter_matches (into_filter f) (ll_entry e) = true)
                                                       (concat (logs_at pubkey_to_address c <$> seqZ n (h - n + 1))))))] /\
       installed s' id (PLogs (h + 1) previous f) now) none s.
Proof using HRok hash_fits bloom_total.
  intros Hs Hi Ht H1 H2 H3 H4 c h Hbf Htg Hm. pose proof (si_chain _ _ _ _ Hs) as Hc.
  destruct (si_polls _ _ _ _ Hs _ _ _ Hi) as [[Hn _] _].
  assert (Ha : answers pubkey_to_address (get_logs pubkey_to_address with_bloom shift_bloomed (poll_search n f))
    (fun l => l = newest (rf_limit f) (filter (fun e => filter_matches (into_filter f) (ll_entry e) = true)
                                         (concat (logs_at pubkey_to_address c <$> seqZ n (h - n + 1))))) c).
  { apply (get_logs_answers pubkey_to_address hash_fits with_bloom mask shift_bloomed from_bloomed with_bloomed H1 H2 H3 H4
      (poll_search n f) n h h c); try done; [apply Hc|apply Hc|by eapply inv_top]. }
  eapply wp_conseq; [by apply (reply_request_serves hash_fits pubkey_to_address proof_ok Proof_new)| |done].
  intros [] s' (a & s1 & [_ _ Ho _] & (x & -> & Hx & _) & ->). destruct (Hx _ t Hi Ht) as (f' & Hf' & -> & l & Hl & ->).
  split; [|exact Hf']. cbn. rw Ho. do 4 f_equal. unfold answers, wp in Ha. fold c in Hl. destruct (get_logs _ _ _ _ c) as [[l'| |] c']; [|done..].
  destruct Ha as [_ ->]. cbn in Hl. injection Hl as <-. apply limit_newest.
Qed.
End theorems.

(** ** Samples *)

(** A map of entries with the times of their use. *)
#[export] Instance toy_transient : Transient PollFilter (gmap Z (PollFilter * Z)) := {
  t_prune now p := filter (fun e => now - e.2.2 <= POLL_LIFETIME) p;
  t_insert now id f p := <[id := (f, now)]> p;
  t_get now id p := (fst <$> p !! id, alter (fun e => (e.1, now)) id p);
  t_set id f p := alter (fun e => (f, e.2)) id p;
  t_remove id p := delete id p;
}.

#[export] Instance toy_transient_ok : TransientOk PollFilter (gmap Z (PollFilter * Z)).
Proof.
  refine {| entries p := p |}; try done.
  - intros now p. apply map_filter_subseteq.
  - intros now p id f t Hi Ht. apply map_lookup_filter_Some. split; [done|cbn; lia].
  - intros now p id f t Hi Ht. apply map_lookup_filter_None. right. intros e He. cbn. rw Hi in He. injection He as <-. cbn. lia.
Defined.

Lemma toy_bloom_total (lookup : Z * Z -> outcome void (option unit)) p from to :
  (forall q, position_ok q -> exists o, lookup q = Ok o) -> fits 64 from -> fits 64 to ->
  exists l, toy_with_bloom lookup from to p = Ok l /\ Forall (fits 64) l.
Proof.
  intros _ Hf Ht. eexists. split; [done|]. apply Forall_forall. intros n Hn%elem_of_seqZ. unfold fits in *. lia.
Qed.

(** A second block, without transactions. *)
Definition toy_header2 : Header := mkHeader (get_current_hash toy_c3) 102 2 2 0 0 0 0 1000 {| tp_height := 1 |} 0.
Definition toy_b2 : toy_block := mkBlock toy_header2 [].
Definition toy_result2 := toy_result (toy_result_header 2 (get_current_hash toy_c3) 0 0) [].

Abbreviation toy_service := (Service (Proof_ := toy_proof) (D := kv) (AccountGasLimit := Z) (BloomGroup := unit)
  (P := gmap Z (PollFilter * Z))).
Abbreviation toy_reply := (reply_request (fun k => k) (fun _ _ => []) toy_with_bloom Z.lor (Proof_ := toy_proof) (D := kv)
  (AccountGasLimit := Z) (BloomGroup := unit) (P := gmap Z (PollFilter * Z))).

(** At height 1: a filter at time 0, a poll at 10, then block 2 and its result. *)
Definition toy_s0 : toy_service := mkService toy_c3 (mkPollManager ∅ 0) [].
Definition toy_s1 : toy_service := (toy_reply 0 (Some QNewBlockFilter) toy_s0).2.
Definition toy_s2 : toy_service := (toy_reply 10 (Some (QFilterChanges 0)) toy_s1).2.
Definition toy_c4 : toy_chain := (toy_dispatch (BlockWithProof toy_b2 {| tp_height := 2 |}) (sv_chain toy_s2)).2.
Definition toy_c5 : toy_chain := (toy_dispatch (Executed toy_result2) toy_c4).2.
Definition toy_s3 : toy_service := with_chain toy_c5 (with_chain toy_c4 toy_s2).

Lemma toy_s0_inv : service_inv (fun k => k) toy_proof_ok toy_proof_new toy_s0.
Proof. split; [apply toy_c3_inv|]. intros id f t Hi. unfold installed in Hi. cbn in Hi. by rw lookup_empty in Hi. Qed.

Lemma toy_b2_storable : storable_block (fun k => k) toy_proof_ok toy_b2.
Proof. split; [split|fits_tac]; [split; fits_tac|by apply Forall_nil]. Qed.

Lemma toy_b2_ok : acceptable (fun k => k) toy_proof_ok toy_proof_new (sv_chain toy_s2) (BlockWithProof toy_b2 {| tp_height := 2 |}).
Proof. split; [split; [apply toy_b2_storable|by vm_compute]|fits_tac]. Qed.

Lemma toy_result2_ok : acceptable (fun k => k) toy_proof_ok toy_proof_new toy_c4 (Executed toy_result2).
Proof.
  split; [done|]. split; [done|]. intros _ e He _.
  assert (queued e = toy_b2) as ->.
  { vm_compute in He. injection He as <-. by vm_compute. }
  split; [|left; by vm_compute|done]. split; [| |apply toy_b2_storable|fits_tac|by apply Forall_nil].
  - split; fits_tac.
  - split_and!; [apply toy_hash_fits|by vm_compute..].
Qed.

Lemma call_ran {S} (x : outcome void unit * S) : match x.1 with Ok _ => true | _ => false end = true -> x = (Ok tt, x.2).
Proof. by destruct x as [[[]| |] s]. Qed.

Ltac ran_tac := match goal with |- ?x = _ => refine (call_ran x _); vm_compute; reflexivity end.

Lemma requests_answered_witness :
  wp (toy_reply 5 (Some (QBlockByHeight (Some (Height 1, true)))))
    (fun _ s' => service_inv (fun k => k) toy_proof_ok toy_proof_new s' /\
       (exists k, sv_chain s' = with_db (db toy_c3) k toy_c3) /\
       (exists a, sv_out s' = [a] /\
          answer_right (fun k => k) (fun _ _ => []) toy_with_bloom Z.lor 5 toy_s0 (QBlockByHeight (Some (Height 1, true))) a s') /\
       (forall id f t, installed toy_s0 id f t -> 5 - t < POLL_LIFETIME -> None <> Some id -> installed s' id f t)) none toy_s0.
Proof.
  apply (requests_answered (HU := toy_util) toy_hash_fits (fun k => k) toy_proof_ok toy_proof_new (fun _ _ => []) toy_with_bloom Z.lor toy_bloom_total
    5 toy_s0 (QBlockByHeight (Some (Height 1, true)))); [exact toy_s0_inv|].
  exists (Height 1), true. split; [reflexivity|]. split; [lia|]. vm_compute. reflexivity.
Defined.

Abbreviation toy_executed_hash := (executed_hash (fun k => k) (Proof_ := toy_proof) (D := kv) (AccountGasLimit := Z) (BloomGroup := unit)).

Abbreviation toy_watching := (watched (fun k => k) toy_proof_ok toy_proof_new toy_field_type tp_height toy_insert toy_check
  (fun _ _ => []) toy_with_bloom Z.lor 0 0 toy_s1).
Definition toy_told : FilterChanges := Hashes [get_current_hash toy_c3].

Lemma toy_polled : toy_watching [toy_told] 10 toy_s2.
Proof.
  assert (H0 : toy_watching [] 0 toy_s1) by apply watched_start.
  assert (H1 : toy_reply 10 (Some (QFilterChanges 0)) toy_s1 = (Ok tt, toy_s2)) by ran_tac.
  assert (H2 : sv_out toy_s2 = sv_out toy_s1 ++ [RFilterChanges toy_told]) by (vm_compute; reflexivity).
  assert (H3 : 10 - 0 < POLL_LIFETIME) by (vm_compute; reflexivity).
  exact (watched_poll _ _ _ _ _ _ _ _ _ _ _ _ _ [] 0 toy_s1 10 toy_s2 toy_told H0 H3 H1 H2).
Qed.

Lemma toy_two l t s m1 m2 c1 c2 : toy_watching l t s ->
  acceptable (fun k => k) toy_proof_ok toy_proof_new (sv_chain s) m1 -> toy_dispatch m1 (sv_chain s) = (Ok tt, c1) ->
  acceptable (fun k => k) toy_proof_ok toy_proof_new c1 m2 -> toy_dispatch m2 c1 = (Ok tt, c2) ->
  toy_watching l t (with_chain c2 (with_chain c1 s)).
Proof. intros Hw A1 D1 A2 D2. eapply watched_message; [by eapply watched_message|exact A2|exact D2]. Qed.

Lemma toy_watched : toy_watching [toy_told] 10 toy_s3.
Proof.
  assert (H1 : toy_dispatch (BlockWithProof toy_b2 {| tp_height := 2 |}) (sv_chain toy_s2) = (Ok tt, toy_c4)) by ran_tac.
  assert (H2 : toy_dispatch (Executed toy_result2) toy_c4 = (Ok tt, toy_c5)) by ran_tac.
  exact (toy_two _ _ toy_s2 _ _ toy_c4 toy_c5 toy_polled toy_b2_ok H1 toy_result2_ok H2).
Qed.

Lemma block_filter_tells_all_witness :
  wp (toy_reply 60 (Some (QFilterChanges 0)))
    (fun _ s' => exists hss hs, [toy_told] = Hashes <$> hss /\ sv_out s' = sv_out toy_s3 ++ [RFilterChanges (Hashes hs)] /\
       Forall2 (toy_executed_hash (sv_chain s')) (seqZ 1 (get_current_height (sv_chain s') - 1 + 1)) (concat (hss ++ [hs]))) none toy_s3.
Proof.
  apply (block_filter_tells_all (HU := toy_util) toy_hash_fits (fun k => k) toy_proof_ok toy_proof_new toy_field_type tp_height (fun _ => True) toy_insert
    toy_insert_ok toy_check (fun _ _ => []) toy_with_bloom Z.lor toy_bloom_total toy_s0 0 toy_s1 0 [toy_told] 10 toy_s3 60).
  - exact toy_s0_inv.
  - vm_compute. reflexivity.
  - split; [vm_compute; discriminate|vm_compute; reflexivity].
  - ran_tac.
  - vm_compute. reflexivity.
  - exact toy_watched.
  - vm_compute. reflexivity.
Defined.
