(* ===== verification/ExecutorSamples.v ===== *)
(** * Concrete instances for the executor

    A store that keeps everything in memory, an account manager that answers
    with one address, and an executor started on a first block. *)

From S2P Require Import Prelude Lru Evm SharedCache Account State Executive Block NativeStorage Codec CodecSpec ChainDb Chain ChainSpec SysConfig.
From S2P Require Import CheckpointSpec Executor Threads Instance ExecutorSpec InstanceSpec Samples ChainSamples.
From stdpp Require Import base gmap list strings.
Local Open Scope Z_scope.
Local Open Scope cita_scope.

(** ** The store

    The values and the last state database; no era is ever old enough to be
    forgotten. *)
Record toy_store : Type := ToyStore { ts_kv : kv; ts_state : toy_db }.

#[export] Instance toy_store_kv : KvDb toy_store := {
  db_get s c k := db_get (ts_kv s) c k;
  db_put c k v s := ToyStore (db_put c k v (ts_kv s)) (ts_state s);
}.
#[export] Instance toy_store_kv_ok : KvDbOk toy_store.
Proof. intros d c k v c' k'. apply (toy_kv_ok (ts_kv d)). Qed.

#[export] Instance toy_state_store : StateStore toy_store toy_db := {
  state_db := ts_state;
  journal_under d _ _ s := ToyStore (ts_kv s) d;
  latest_era _ := None;
  earliest_era _ := None;
  mark_canonical _ _ s := s;
}.
#[export] Instance toy_state_store_ok : StateStoreOk toy_store toy_db.
Proof. by split. Qed.

(** ** The system contracts

    They answer every call with a list of the address 5. *)
Definition toy_manager : NativeContract := fun X _ params => sret (NeedsReturn (ActionParams.gas params) (abi_addresses [5])).
Definition toy_natives : NativeFactory :=
  list_to_map ((fun a => (a, toy_manager)) <$> [Executor.account_manager; Executor.node_manager; Executor.quota_manager; Executor.param_constant]).
Definition first_db : toy_db := ToyDb {[ (None, 1) := ∅ ]} ∅ 2.

(** Every number of the configuration is 8, every check is off. *)
Fixpoint toy_token (p : ParamType) : Token :=
  match p with PUint _ => TokUint 8 | PAddress => TokAddress 5 | PBool => TokBool false | PArray p => TokArray [toy_token p] end.
Definition toy_abi (l : list ParamType) (_ : bytes) : option (list Token) := Some (toy_token <$> l).
Definition toy_root (l : list bytes) : H256 := toy_hash (concat l).
Definition toy_serialize (l : list GlobalSysConfig) : bytes := [zlen l].

(** ** An executor *)
Abbreviation toy_ex := (Executor.t (Proof_ := toy_proof) (S := toy_store) (J := gmap Z BitSet)).
Abbreviation toy_inst := (Inst (Proof_ := toy_proof) (S := toy_store) (J := gmap Z BitSet) (D := toy_db) (L := gmap Z Z)).
Abbreviation toy_closed := (Executor.ClosedBlock (Proof_ := toy_proof) (D := toy_db) (L := gmap Z Z)).
Abbreviation toy_executor_msg := (Msg (Proof_ := toy_proof)).

Definition first_header : Header := mkHeader 0 100 0 2 1 0 0 0 1000000 {| tp_height := 0 |} 0.
Definition first_store : toy_store := Executor.write_block first_header first_db (ToyStore ∅ first_db).

Definition no_result : ExecutedResult (AccountGasLimit := AccountGasLimit) :=
  {| er_header := {| eh_prevhash := 0; eh_timestamp := 0; eh_height := 0; eh_state_root := 0; eh_transactions_root := 0;
                     eh_receipts_root := 0; eh_log_bloom := 0; eh_gas_used := 0; eh_gas_limit := 0 |};
     er_receipts := []; er_nodes := []; er_block_gas_limit := 0;
     er_account_gas_limit := {| common_gas_limit := 0; specific_gas_limit := ∅ |} |}.
Definition bare : toy_ex := Executor.mk first_header false false 0 ∅ Idle first_store ∅ [] no_result 2 [].

Definition started : outcome void toy_ex :=
  Executor.init_executor (L := gmap Z Z) toy_hash toy_encode_nonce 1000 toy_natives toy_serialize (fun _ => None) [] toy_hash toy_abi
    toy_proof_new first_store (Executor.mkGenesis [] 0 100) 2.
Definition ok_or {A} (a : A) (r : outcome void A) : A := match r with Ok x => x | _ => a end.
Definition toy_executor : toy_ex := ok_or bare started.
Definition toy_instance : toy_inst := mkInst toy_executor None None [] [].

(** ** Blocks

    Two proposals for the first block with different transactions, and the
    blocks with their proofs. *)
Definition exec_tx (gas : Z) : SignedTx :=
  {| s_transaction := {| u_unsigned := {| t_nonce := from_bytes [97]; t_gas_price := 1; t_gas := gas; t_action := ActCall Executor.node_manager;
                                          t_value := 0; t_data := [1; 2]; t_block_limit := 9 |};
                         u_signature := [5]; u_crypto_type := SECP; u_hash := 11 |};
     s_sender := 21; s_public := 21; s_account_nonce := 0 |}.

Definition next_block (root time height gas : Z) : Block (Proof_ := toy_proof) :=
  mkBlock (mkHeader (header_hash rlp_out first_header) time 1 root 0 0 0 0 1000000 {| tp_height := height |} 0) [exec_tx gas].
Definition proposal_a := next_block 7 101 0 30000.
Definition proposal_b := next_block 8 102 0 40000.
Definition block_a := next_block 7 101 1 30000.
Definition block_b := next_block 8 102 1 40000.
Definition proof_1 : toy_proof := {| tp_height := 1 |}.

(** ** Programs *)
Definition toy_distribute (m : toy_executor_msg) : prog toy_inst unit :=
  distribute_msg (D := toy_db) (L := gmap Z Z) toy_hash toy_encode_nonce 1000 toy_natives toy_proof_new toy_field_type [] tp_height
    (fun _ => true) m.
Definition toy_execute (n : Z) : prog toy_inst unit :=
  execute_block (D := toy_db) (L := gmap Z Z) toy_hash toy_encode_nonce 1000 toy_natives (fun h => h) Z.lor toy_root toy_serialize []
    toy_hash toy_abi tp_height (fun _ _ _ => true) 10 n.
Definition toy_receive (m : toy_executor_msg) (i : toy_inst) : toy_inst := (run (toy_distribute m) i).2.
Definition toy_run_block (i : toy_inst) : toy_inst := (run (toy_execute 1) i).2.

(** The block without a proposal, and after its proposal. *)
Definition direct_queued := toy_receive (BlockWithProof block_a proof_1) toy_instance.
Definition direct_done := toy_run_block direct_queued.
Definition ahead_queued := toy_receive (SignedProposal proposal_a) toy_instance.
Definition ahead_executed := toy_run_block ahead_queued.
Definition ahead_received := toy_receive (BlockWithProof block_a proof_1) ahead_executed.
Definition ahead_done := toy_run_block ahead_received.

Lemma ran {A} (p : prog toy_inst A) i a : (run p i).1 = Ok a -> run p i = (Ok a, (run p i).2).
Proof. destruct (run p i) as [r i']. cbn. by intros ->. Qed.
Lemma ran_message m i : (run (toy_distribute m) i).1 = Ok tt -> run (toy_distribute m) i = (Ok tt, toy_receive m i).
Proof. apply (ran (toy_distribute m)). Qed.
Lemma ran_block i : (run (toy_execute 1) i).1 = Ok tt -> run (toy_execute 1) i = (Ok tt, toy_run_block i).
Proof. apply (ran (toy_execute 1)). Qed.

(** ** A run of the process: the block arrives and is executed *)
Definition toy_step (arrives : toy_executor_msg -> Prop) : process -> process -> Prop :=
  step (D := toy_db) (L := gmap Z Z) toy_hash toy_encode_nonce 1000 toy_natives (fun h => h) Z.lor toy_proof_new toy_field_type toy_root
    toy_serialize [] toy_hash toy_abi tp_height (fun _ _ _ => true) (fun _ => true) 10 arrives.
Definition one_block (m : toy_executor_msg) : Prop := m = BlockWithProof block_a proof_1.
Definition after_block : toy_inst := toy_run_block (take_number direct_queued []).

Lemma receives arrives (i i' : toy_inst) p r r' : rtc pstep (i, r) (i', r') ->
  rtc (toy_step arrives) (mkProcess i p r) (mkProcess i' p r').
Proof.
  intros H. remember (i, r) as x eqn:Ex. remember (i', r') as y eqn:Ey. revert i r Ex.
  induction H as [x|x [j q] y Hs _ IH]; intros i r ->; [by injection Ey as -> ->|].
  eapply rtc_l; [by apply step_receive|]. by apply IH.
Qed.

Lemma executes arrives (i i' : toy_inst) p p' r : rtc pstep (i, p) (i', p') ->
  rtc (toy_step arrives) (mkProcess i p r) (mkProcess i' p' r).
Proof.
  intros H. remember (i, p) as x eqn:Ex. remember (i', p') as y eqn:Ey. revert i p Ex.
  induction H as [x|x [j q] y Hs _ IH]; intros i p ->; [by injection Ey as -> ->|].
  eapply rtc_l; [by apply step_execute|]. by apply IH.
Qed.

Lemma one_block_run : rtc (toy_step one_block) (mkProcess toy_instance (Ret tt) (Ret tt)) (mkProcess after_block (Ret tt) (Ret tt)).
Proof.
  eapply rtc_l; [by apply (step_message _ _ _ _ _ _ _ _ _ _ _ _ _ _ _ _ _ one_block toy_instance (Ret tt) (BlockWithProof block_a proof_1))|].
  etransitivity; [apply receives, run_psteps, (ran (toy_distribute _)); by vm_compute|].
  eapply rtc_l; [apply step_next with (n := 1) (rest := []); by vm_compute|].
  apply executes, run_psteps, (ran (toy_execute 1)). by vm_compute.
Qed.
