(* ===== verification/ExecutorTheorems.v ===== *)
(** * Theorems on the executor

    What holds of the executor process whatever its two threads do at the same
    time, when executing a proposal ahead makes no difference, where it goes
    wrong, and how the executor and the chain service agree. *)

From S2P Require Import Prelude Lru Evm SharedCache Account State Executive Block NativeStorage Codec CodecSpec ChainDb Chain Forward.
From S2P Require Import ChainSpec ChainInv ChainReads ChainIndex ChainStep SysConfig Executor Threads Instance ExecutorSpec InstanceSpec InstanceRun.
From S2P Require Import Samples ChainSamples ExecutorSamples.
From stdpp Require Import base gmap list strings.
Local Open Scope Z_scope.
Local Open Scope cita_scope.

Section process.
  Context {HU : Util} {HR : RlpLib} {HRok : RlpLibOk} {HB : RlpBytes} {HBok : RlpBytesOk}.
  Context (hash_fits : forall b, fits 256 (crypt_hash b)).
  Context {L : Type} {HL : LruCache Z L} {D : Type} {HD : Backend D} {J : Type} {HJ : LruCache BitSet J}.
  Context (sha3 : bytes -> H256) (encode_address_nonce : Address -> U256 -> bytes).
  Context (LOCAL_STACK_SIZE : Z) (native_factory : NativeFactory).
  Context (from_bloomed : H256 -> Z) (with_bloomed : Z -> H256 -> Z).
  Context {Proof_ : Type} {Proof_eq : EqDecision Proof_} {HP : Rlp Proof_} (proof_ok : Proof_ -> Prop) {HPok : RlpOk Proof_ proof_ok}.
  Context (Proof_new : Proof_) (get_field_type : Proof_ -> ProofType).
  Context {S : Type} {HS : KvDb S} {HSok : KvDbOk S} {HSS : StateStore S D} {HSSok : StateStoreOk S D}.
  Context (complete_merkle_root : list bytes -> H256) (bin_serialize : list GlobalSysConfig -> bytes).
  Context (Signature_default : bytes) (sha3_256 : bytes -> H256) (abi_decode : list ParamType -> bytes -> option (list Token)).
  Context (tendermint_height : Proof_ -> Z) (proof_check : Proof_ -> Z -> list Address -> bool).
  Context (check_hash : Block (Proof_ := Proof_) -> bool) (prune_fuel : nat).
Abbreviation Hdr := (Header (Proof_ := Proof_)).
Abbreviation Blk := (Block (Proof_ := Proof_)).
Abbreviation Closed := (Executor.ClosedBlock (Proof_ := Proof_) (D := D) (L := L)).
Abbreviation I := (Inst (Proof_ := Proof_) (S := S) (J := J) (D := D) (L := L)).
Abbreviation current i := (Executor.current_header (ext i)).
Abbreviation step := (step (D := D) (L := L) sha3 encode_address_nonce LOCAL_STACK_SIZE native_factory from_bloomed with_bloomed Proof_new
  get_field_type complete_merkle_root bin_serialize Signature_default sha3_256 abi_decode tendermint_height proof_check check_hash prune_fuel).
Abbreviation execute_block := (execute_block (D := D) (L := L) sha3 encode_address_nonce LOCAL_STACK_SIZE native_factory
  from_bloomed with_bloomed complete_merkle_root bin_serialize Signature_default sha3_256 abi_decode tendermint_height proof_check prune_fuel).

(** A process whose threads wait for work; its header is in the store. *)
Definition fresh (i : I) : process := mkProcess i (Ret tt) (Ret tt).

Lemma fresh_ok Link h i : records (Executor.store (ext i)) h -> current i = h -> fine Link i -> process_ok Link h (fresh i).
Proof using.
  intros Hr Hc Hf. assert (Hs : settled Link h h i) by by split; [|..|apply rtc_refl|].
  split; [by eapply settled_sound| |done]. intros i' Hi. exists h. by eapply settled_rely.
Qed.

(** C10: Whatever the threads of the executor do and whichever messages arrive,
    the store always has a current header under its hash and its number, so
    that a restart finds it.  When the executing thread waits for work, this
    is the header the executor works with. *)
Theorem executor_restarts arrives i p :
  records (Executor.store (ext i)) (current i) -> rtc (step arrives) (fresh i) p ->
  (exists h', records (Executor.store (ext (shared p))) h' /\
     (header_ok proof_ok h' -> Executor.get_current_header (Executor.store (ext (shared p))) = Ok (Some h'))) /\
  (executing p = Ret tt -> records (Executor.store (ext (shared p))) (current (shared p))).
Proof using HRok HBok HPok HSok HSSok hash_fits.
  intros Hr Hst. set (Link := fun _ _ : Hdr => True).
  assert (Hp : process_ok Link (current i) p).
  { eapply steps_ok; cycle 4; [exact Hst|apply fresh_ok; [done|done|by split; left]|done|done|done|]. by intros [] _. }
  destruct Hp as [[(h' & H1 & _) _] He _]. split.
  - exists h'. split; [done|]. intros Hh. by apply (records_read hash_fits proof_ok).
  - intros Eq. rw Eq in He. destruct (idle_somewhere Link (current i) _ He) as [h1 [A1 A2 _ _]]. by rw A2.
Qed.

Definition no_proposal (m : Msg (Proof_ := Proof_)) : Prop := match m with SignedProposal _ => False | _ => True end.

(** C11: As long as no proposals arrive, the headers of the executor form a
    chain, whatever its threads do: every header has the number after the one
    before and names its hash as the parent, and the store has the current
    header or the next one of the chain. *)
Theorem executor_chain arrives i p :
  (forall m, arrives m -> no_proposal m) ->
  records (Executor.store (ext i)) (current i) -> (forall n b, Executor.block_map (ext i) !! n <> Some (Executor.Proposal b)) ->
  closed_block i = None -> rtc (step arrives) (fresh i) p ->
  rtc linked (current i) (current (shared p)) /\
  exists h, records (Executor.store (ext (shared p))) h /\ (h = current (shared p) \/ linked (current (shared p)) h).
Proof using HSok HSSok.
  intros Ha Hr Hq Hc Hst.
  assert (Hp : process_ok linked (current i) p).
  { eapply steps_ok; cycle 4; [exact Hst|apply fresh_ok; [done|done|by split; right]|done|done|done|]. intros m Hm%Ha. by destruct m. }
  by destruct Hp as [[Hd Hl] _ _].
Qed.

(** ** Proposals *)
Abbreviation distribute_msg := (distribute_msg (D := D) (L := L) (S := S) (J := J) sha3 encode_address_nonce LOCAL_STACK_SIZE native_factory
  Proof_new get_field_type Signature_default tendermint_height check_hash).
Abbreviation after_proposal := (after_proposal (D := D) (L := L) sha3 encode_address_nonce LOCAL_STACK_SIZE native_factory bin_serialize
  Signature_default sha3_256 abi_decode prune_fuel).

(** A block from consensus can get lost.  It comes with other transactions
    while a proposal is executed, and interrupts it; but the proposal has just
    been executed to the end.  Then the executing thread takes back the
    interrupt, finds itself in the wrong stage when the block is due, and goes
    on without executing it: nothing is stored, sent or left to do. *)
Theorem consensus_block_lost (b b0 : Blk) p (cb : Closed) (i : I) :
  let n := number (header b) in
  Executor.stage (ext i) = ExecutingProposal -> Executor.is_interrupted (ext i) = false -> write_channel i = [] ->
  Executor.block_map (ext i) !! n = Some (Executor.Proposal b0) -> transactions_root (header b0) <> transactions_root (header b) ->
  linked (current i) (header b) -> n < 2 ^ 64 ->
  exists i1 i2 i3,
    run (distribute_msg (BlockWithProof b p)) i = (Ok tt, i1) /\
    run (after_proposal n cb) i1 = (Ok tt, i2) /\ write_channel i2 = [n] /\
    run (execute_block n) (take_number i2 []) = (Ok tt, i3) /\
    current i3 = current i /\ Executor.store (ext i3) = Executor.store (ext i) /\ ctx_pub i3 = ctx_pub i /\
    Executor.stage (ext i3) = Idle /\ write_channel i3 = [].
Proof using.
  intros n Hst Hi Hw Hm Hr Hl Hlt. cbn [Instance.distribute_msg].
  assert (H1 := run_consensus_proposed b b0 p i Hl Hlt (or_introl Hst) Hm). rw (proj2 (Z.eqb_neq _ _) Hr) run_send_block in H1.
  eexists. set (i1 := write_send _ _) in H1. exists (with_ext (Executor.set_interrupted false (ext i1)) i1).
  set (i2 := with_ext _ i1). eexists. split; [exact H1|]. split; [unfold Instance.after_proposal; by rw run_get|].
  split; [cbn; by rw Hw|].
  rw (run_execute_consensus sha3 encode_address_nonce LOCAL_STACK_SIZE native_factory from_bloomed with_bloomed complete_merkle_root
    bin_serialize Signature_default sha3_256 abi_decode tendermint_height proof_check prune_fuel n b p); [cbn; by rw lookup_insert_eq|done|done|].
  unfold run_consensus_block. rw run_bind. unfold sbind. rw run_get. cbn. rw Hst. by cbn.
Qed.

(** A superseded proposal can be finalized in place of the block.  A
    proposal was executed and waits; another one with other transactions
    arrives, and the block with these transactions, before the executing
    thread turns to them.  Then it finalizes what it executed: the new header
    has the timestamp and the proof of the block, and the transactions and the
    state of the superseded proposal. *)
Theorem superseded_proposal_finalized (b1 b2 b3 : Blk) p (cb : Closed) (i : I) :
  let n := number (header b3) in
  Executor.stage (ext i) = WaitFinalized -> closed_block i = Some cb -> Executor.is_interrupted (ext i) = false ->
  Executor.is_sync (ext i) = false -> write_channel i = [] ->
  Executor.block_map (ext i) !! n = Some (Executor.Proposal b1) -> transactions_root (header b1) <> transactions_root (header b2) ->
  transactions_root (header b2) = transactions_root (header b3) -> linked (current i) (header b2) -> linked (current i) (header b3) ->
  n < 2 ^ 64 ->
  exists i1 i2, run (distribute_msg (SignedProposal b2)) i = (Ok tt, i1) /\ run (distribute_msg (BlockWithProof b3 p)) i1 = (Ok tt, i2) /\
    write_channel i2 = [n; n] /\
    forall i3, run (execute_block n) (take_number i2 [n]) = (Ok tt, i3) -> current i3 = Executor.cb_header (finalized cb b3).
Proof using.
  intros n Hst Hcb Hi Hy Hw Hm Hr Hr3 Hl2 Hl3 Hlt. assert (number (header b2) = n) as Hn by (destruct Hl2, Hl3; subst n; lia).
  cbn [Instance.distribute_msg]. rw run_get Hy.
  assert (H1 := run_proposal_sent b2 i Hl2 ltac:(lia) ltac:(right; split; [done|]; exists b1; by rw Hn)). rw run_send_proposal Hn in H1.
  eexists. set (i1 := write_send _ _) in H1. assert (H2 := run_consensus_proposed b3 b2 p i1 Hl3 Hlt (or_intror Hst)).
  rw (proj2 (Z.eqb_eq _ _) Hr3) run_send_block in H2. eexists. split; [exact H1|]. split; [apply H2; cbn; by rw lookup_insert_eq|].
  split; [cbn; by rw Hw|]. set (i2 := write_send _ (with_ext _ i1)). intros i3.
  rw (run_execute_consensus sha3 encode_address_nonce LOCAL_STACK_SIZE native_factory from_bloomed with_bloomed complete_merkle_root
    bin_serialize Signature_default sha3_256 abi_decode tendermint_height proof_check prune_fuel n b3 p); [cbn; by rw lookup_insert_eq|done|done|].
  assert (Es : Executor.stage (ext (take_number i2 [n])) = WaitFinalized) by done. rw Es. apply run_completed. intros [] i4.
  rw (run_waiting _ _ _ _ _ _ _ _ _ _ _ _ b3 cb); [done|done|]. apply run_finalize.
Qed.

(** C12: Executing a proposal ahead makes no difference in this case: the
    executor is idle, neither interrupted nor syncing; the proposal for the
    next block is executed to its end; then the block arrives, with the
    transactions and the header of the proposal and a proof, and nothing else
    has come in between. Then the executor ends up with the header it has when
    the block comes without the proposal, provided that the same configuration
    is in force at the height seen before the block arrives and at its own
    height, and that all the steps return. Not covered: a block that arrives
    while the proposal is being executed, and other proposals in between,
    after which a superseded proposal can be finalized. *)
Theorem execution_ahead_transparent (b b' : Blk) p conf (i i1 iA j1 j2 j3 iB : I) :
  let n := number (header b) in
  Executor.stage (ext i) = Idle -> Executor.is_interrupted (ext i) = false -> Executor.is_sync (ext i) = false ->
  linked (current i) (header b) -> n < 2 ^ 64 -> same_execution b b' ->
  get_current_sys_conf (Executor.sys_configs (ext i)) (Executor.max_height (ext i)) = Ok conf ->
  get_current_sys_conf (Executor.sys_configs (ext i)) n = Ok conf ->
  run (distribute_msg (BlockWithProof b' p)) i = (Ok tt, i1) -> run (execute_block n) i1 = (Ok tt, iA) ->
  run (distribute_msg (SignedProposal b)) i = (Ok tt, j1) -> run (execute_block n) j1 = (Ok tt, j2) ->
  run (distribute_msg (BlockWithProof b' p)) j2 = (Ok tt, j3) -> run (execute_block n) j3 = (Ok tt, iB) ->
  current iB = current iA.
Proof using.
  intros n Hst Hi Hy Hl Hlt Hse Hc Hcn. assert (number (header b') = n) as Hn by apply Hse.
  assert (Hl' : linked (current i) (header b')) by (destruct Hl, Hse; split; congruence). cbn [Instance.distribute_msg].
  rw (run_consensus_idle b' p i Hl' ltac:(lia) Hst) run_send_block Hn. intros [= <-]. set (i1' := write_send n _).
  rw (run_execute_consensus sha3 encode_address_nonce LOCAL_STACK_SIZE native_factory from_bloomed with_bloomed complete_merkle_root
    bin_serialize Signature_default sha3_256 abi_decode tendermint_height proof_check prune_fuel n b' p i1'); [cbn; by rw lookup_insert_eq|done|lia|].
  assert (Es : Executor.stage (ext i1') = Idle) by done. rw Es. intros HA.
  rw run_get Hy (run_proposal_sent b i Hl Hlt (or_introl Hst)) run_send_proposal. intros [= <-]. set (j1' := write_send _ _).
  intros (cb & j & Hcb & ->)%(run_ahead _ _ _ _ _ _ _ _ _ _ _ _ _ _ n b conf j1'); [|done|done|cbn; by rw lookup_insert_eq].
  set (j2' := with_ext _ _). assert (Hroot : transactions_root (header b) = transactions_root (header b')) by (symmetry; apply Hse).
  rw (run_consensus_proposed b' b p j2' Hl' ltac:(lia) (or_intror eq_refl)); [rw Hn; cbn; by rw lookup_insert_eq|].
  rw (proj2 (Z.eqb_eq _ _) Hroot) run_send_block Hn. intros [= <-]. set (j3' := write_send n _).
  rw (run_execute_consensus sha3 encode_address_nonce LOCAL_STACK_SIZE native_factory from_bloomed with_bloomed complete_merkle_root
    bin_serialize Signature_default sha3_256 abi_decode tendermint_height proof_check prune_fuel n b' p j3'); [cbn; by rw lookup_insert_eq|done|lia|].
  assert (Es3 : Executor.stage (ext j3') = WaitFinalized) by done. rw Es3. intros Hb.
  assert (Hb' : current iB = Executor.cb_header (finalized cb b')).
  { eapply run_completed; [|exact Hb]. intros [] i4. rw (run_waiting _ _ _ _ _ _ _ _ _ _ _ _ b' cb); [done|done|]. apply run_finalize. }
  rw Hb'. symmetry. eapply run_completed; [|exact HA]. intros [] i4. unfold run_consensus_block. rw run_get.
  cbn [ext i1' write_send with_ext Executor.is_interrupted Executor.set_max_height queued Executor.set_block_map]. rw Hi.
  unfold set_stage. rw run_put. set (i5 := with_ext _ _). intros (cb' & e & Hclose & ->)%(run_ext_execute _ _ _ _ _ _ _ _ _ _ _ _ b' conf i5); [|done|done].
  destruct (Executor.close_block _ _ _ _ _ _ _ conf b _ _ _ _) as [r e'] eqn:E in Hcb. cbn in Hcb. subst r.
  assert (Ht := E). eapply (close_transparent _ _ _ _ _ _ _ conf b b' _ _ _ _ (ext i5)) in Ht; [|exact Hse|done|done].
  assert (checks b' = checks b) as Hck by (unfold checks; by rw (se_body _ _ Hse)). rw Hck in Hclose. unfold Executor.current_state_root in *.
  rw Hclose in Ht. by injection Ht as ->.
Qed.
End process.

(** ** The hashes of the last blocks *)
Section hashes.
  Context {HU : Util} {HR : RlpLib} {HRok : RlpLibOk} {HB : RlpBytes} {HBok : RlpBytesOk} (hash_fits : forall b, fits 256 (crypt_hash b)).
  Context {L : Type} {HL : LruCache Z L} {D : Type} {HD : Backend D} {J : Type} {HJ : LruCache BitSet J}.
  Context {Proof_ : Type} {HP : Rlp Proof_}.
  Context {S : Type} {HS : KvDb S} {HSok : KvDbOk S} {HSS : StateStore S D} {HSSok : StateStoreOk S D}.
  Context (sha3 : bytes -> H256) (encode_address_nonce : Address -> U256 -> bytes).
  Context (LOCAL_STACK_SIZE : Z) (native_factory : NativeFactory).
  Context (from_bloomed : H256 -> Z) (with_bloomed : Z -> H256 -> Z).
  Context (complete_merkle_root : list bytes -> H256) (bin_serialize : list GlobalSysConfig -> bytes).
  Context (bin_deserialize : bytes -> option (list GlobalSysConfig)).
  Context (Signature_default : bytes) (sha3_256 : bytes -> H256) (abi_decode : list ParamType -> bytes -> option (list Token)).
  Context (prune_fuel : nat) (Proof_new : Proof_).
Abbreviation I := (Inst (Proof_ := Proof_) (S := S) (J := J) (D := D) (L := L)).
Abbreviation current i := (Executor.current_header (ext i)).
Abbreviation quiet_step := (quiet_step (D := D) (L := L) (J := J) sha3 encode_address_nonce LOCAL_STACK_SIZE native_factory from_bloomed
  with_bloomed complete_merkle_root bin_serialize Signature_default sha3_256 abi_decode prune_fuel).

End hashes.

(** ** Reads *)
Section reads.
  Context {HU : Util} {HR : RlpLib} {HB : RlpBytes}.
  Context {L : Type} {HL : LruCache Z L} {D : Type} {HD : Backend D} {J : Type} {HJ : LruCache BitSet J}.
  Context {Proof_ : Type} {HP : Rlp Proof_} {S : Type} {HS : KvDb S} {HSS : StateStore S D}.
  Context (sha3 : bytes -> H256) (encode_address_nonce : Address -> U256 -> bytes).
  Context (LOCAL_STACK_SIZE : Z) (native_factory : NativeFactory).
Abbreviation Ex := (Executor.t (Proof_ := Proof_) (S := S) (J := J)).
Abbreviation Call := (Executor.call (L := L) (Proof_ := Proof_) (S := S) (J := J) sha3 encode_address_nonce LOCAL_STACK_SIZE native_factory).

(** A call on an old block [k] spoils the hashes.  The call itself sees
    each block with the hash of the block after it; and when the next block is
    executed, [BLOCKHASH] of its parent gives the hash of [k]. *)
Theorem old_call_spoils_hashes hash n k stx h (e : Ex) info info' (x : env (L := L) (D := D) (J := J)) :
  0 < k < n -> fits 64 (n + 1) -> hashes_upto (Executor.store e) hash n -> Executor.last_hashes e = window hash n -> hash k <> hash n ->
  Executor.block_header (BidNumber k) e = Ok (Some h) -> number h = k ->
  (exists hashes, (Executor.build_last_hashes None k e).1 = Ok hashes /\ info = Executor.call_info h hashes) ->
  EnvInfo.number info' = n + 1 -> EnvInfo.last_hashes info' = Executor.last_hashes (Call stx (BidNumber k) e).2 ->
  env_blockhash info (k - 1) x = (Ok (hash k), x) /\ env_blockhash info' n x = (Ok (hash k), x).
Proof using.
  intros Hk Hf Hd Hl Hne Hh Hnum (hashes & Hb & ->) Hi.
  assert (Hd' : hashes_upto (Executor.store e) hash k) by (intros j Hj; apply Hd; lia).
  assert (Hw := build_window e hash None k ltac:(lia) Hd' (or_introl eq_refl)). rw Hl window_head in Hw; [lia|].
  specialize (Hw ltac:(congruence)). rw Hw in Hb. injection Hb as <-. rw (call_hashes sha3 encode_address_nonce LOCAL_STACK_SIZE native_factory
    stx (BidNumber k) h e Hh) Hnum Hw. cbn [snd Executor.last_hashes Executor.set_last_hashes]. intros Hi'. destruct Hf as [_ Hf]. split.
  - rw (blockhash_window hash _ k (k - 1) x); [done|cbn; rw Hnum; split; lia|cbn; lia|cbn; lia|].
    cbn [Executor.call_info EnvInfo.number]. unfold hash_at. by rw Hnum (_ : k - (k - (k - 1) - 1) = k) ?(proj2 (Z.leb_le _ _)); [lia..|].
  - rw (blockhash_window hash _ k n x Hi'); [rw Hi; split; lia|lia|lia|]. unfold hash_at.
    by rw Hi (_ : k - (n + 1 - n - 1) = k) ?(proj2 (Z.leb_le _ _)); [lia..|].
Qed.

(** The addresses in the answer of a system contract are the ones the
    contract encoded; no answer means no addresses. *)
Theorem addresses_round_trip (l : list Address) : Forall (fits 160) l -> zlen l < 2 ^ 64 ->
  Executor.parse_output_to_addresses (abi_addresses l) = Ok l /\ Executor.parse_output_to_addresses [] = Ok [].
Proof using. intros Hf Hl. split; [by apply parse_abi|done]. Qed.
End reads.

(** ** The executor and the chain service *)
Section agreement.
  Context {HR : RlpLib} {HRok : RlpLibOk} {HU : Util} {HB : RlpBytes} {HBok : RlpBytesOk} (pubkey_to_address : Z -> Address).
  Context {Proof_ : Type} {Proof_eq : EqDecision Proof_} {HP : Rlp Proof_} (proof_ok : Proof_ -> Prop).
  Context {HPok : RlpOk Proof_ proof_ok} (Proof_new : Proof_) (get_field_type : Proof_ -> ProofType) (tendermint_height : Proof_ -> Z).
  Context {K : Type} {HK : KvDb K} {HKok : KvDbOk K}.
  Context {BloomGroup : Type} {HG : Rlp BloomGroup} (group_ok : BloomGroup -> Prop) {HGok : RlpOk BloomGroup group_ok}.
  Context (bloom_insert : (Z * Z -> outcome void (option BloomGroup)) -> Z -> Z -> outcome void (list ((Z * Z) * BloomGroup))).
  Context (insert_ok : forall (lookup : Z * Z -> outcome void (option BloomGroup)) n bloom,
    (forall q, position_ok q -> exists o, lookup q = Ok o) -> 0 <= n < 2 ^ 32 -> fits 2048 bloom ->
    exists l, bloom_insert lookup n bloom = Ok l /\ blooms_ok group_ok l).
  Context (check_hash : Block (Proof_ := Proof_) -> bool) {D L AccountGasLimit : Type}.
Abbreviation Ch := (Chain (Proof_ := Proof_) (D := K) (AccountGasLimit := AccountGasLimit) (BloomGroup := BloomGroup)).

(** C13: The two services agree on the hashes of blocks.  The executor closed a
    block and sent the result; the chain service has the block in its queue.
    Then the header the chain service stores has the hash of the header the
    executor works with, provided that the proofs are the same, and that the
    version is 0 and the gas limit fits in 64 bits, which they do in every
    header made from a message. *)
Theorem services_agree (cb : Executor.ClosedBlock (Proof_ := Proof_) (D := D) (L := L)) (c : Ch) ret q :
  let h := Executor.cb_header cb in
  chain_inv pubkey_to_address proof_ok Proof_new c -> acceptable pubkey_to_address proof_ok Proof_new c (Executed ret) ->
  Executor.executed_header h = Ok (er_header ret) -> 0 < number h -> ready c ret ->
  Chain.block_map c !! number h = Some q -> proof (header (ChainStep.queued q)) = proof h -> version h = 0 -> fits 64 (gas_limit h) ->
  wp (dispatch_msg pubkey_to_address Proof_new get_field_type tendermint_height bloom_insert check_hash (Executed ret))
    (fun _ c' => Chain.get_current_hash c' = header_hash rlp_out h /\ Chain.get_current_height c' = number h) none c.
Proof using HRok HBok HPok HKok HGok insert_ok.
  intros h Hc Ha He Hn Hr Hq Hp Hv Hg. unfold Executor.executed_header in He. destruct (_ <? _); [|done]. cbn in He. injection He as He.
  assert (Hret : result_header (er_header ret) (ChainStep.queued q) = h).
  { rw -He. unfold result_header. cbn. unfold low_u64. rw wrap_small; [done|]. rw Hp -Hv. by destruct h. }
  assert (Hht : eh_height (er_header ret) = number h) by by rw -He.
  eapply wp_conseq; [by apply (dispatch_msg_step pubkey_to_address proof_ok Proof_new get_field_type tendermint_height
    group_ok bloom_insert insert_ok check_hash (Executed ret) c)| |done].
  intros u c' [[_ (b & Hb & [] & _)]|[Hnr _]]; [|done].
  destruct Hb as [(_ & e & He' & <-)|(H0 & _)]; [|rw Hht in H0; lia]. rw Hht in He'. assert (e = q) as -> by congruence.
  unfold Chain.get_current_hash, Chain.get_current_height. by rw ex_header Hret.
Qed.
End agreement.

(** ** Instances *)
Lemma first_recorded : records (Executor.store (ext toy_instance)) (Executor.current_header (ext toy_instance)).
Proof. split; by vm_compute. Qed.

(** After the block has come, the store has its header. *)
Lemma executor_restarts_witness :
  records (Executor.store (ext after_block)) (Executor.current_header (ext after_block)) /\ Executor.get_current_height (ext after_block) = 1.
Proof.
  split; [|by vm_compute].
  apply (executor_restarts (HU := toy_util) toy_hash_fits toy_hash toy_encode_nonce 1000 toy_natives (fun h => h) Z.lor toy_proof_ok
    toy_proof_new toy_field_type toy_root toy_serialize [] toy_hash toy_abi tp_height (fun _ _ _ => true) (fun _ => true) 10 one_block
    toy_instance (fresh after_block) first_recorded one_block_run). reflexivity.
Defined.

Lemma executor_chain_witness :
  rtc linked (Executor.current_header (ext toy_instance)) (Executor.current_header (ext after_block)) /\
  Executor.get_current_height (ext after_block) = 1.
Proof.
  split; [|by vm_compute].
  apply (executor_chain (HU := toy_util) toy_hash toy_encode_nonce 1000 toy_natives (fun h => h) Z.lor
    toy_proof_new toy_field_type toy_root toy_serialize [] toy_hash toy_abi tp_height (fun _ _ _ => true) (fun _ => true) 10 one_block
    toy_instance (fresh after_block)).
  - by intros m ->.
  - apply first_recorded.
  - intros n b. change (Executor.block_map (ext toy_instance)) with (Executor.block_map toy_executor).
    assert (Executor.block_map toy_executor = ∅) as -> by by vm_compute. by rw lookup_empty.
  - reflexivity.
  - exact one_block_run.
Defined.

(** A proposal that is being executed, and one that waits. *)
Definition some_closed (b : Block (Proof_ := toy_proof)) : toy_closed := Executor.mkClosed (header b) [] (sample_state store_code).
Definition in_stage (s : Stage) (cb : option toy_closed) : toy_inst :=
  mkInst (Executor.set_stage s (Executor.set_block_map {[ 1 := Executor.Proposal proposal_a ]} toy_executor)) cb None [] [].

Lemma next_linked root time height gas : linked (Executor.current_header (ext toy_instance)) (header (next_block root time height gas)).
Proof. split; by vm_compute. Qed.
Lemma stage_linked s cb root time height gas :
  linked (Executor.current_header (ext (in_stage s cb))) (header (next_block root time height gas)).
Proof. split; by vm_compute. Qed.

Lemma consensus_block_lost_witness :
  exists i1 i2 i3 : toy_inst, run (toy_distribute (BlockWithProof block_b proof_1)) (in_stage ExecutingProposal None) = (Ok tt, i1) /\
    run (toy_execute 1) (take_number i2 []) = (Ok tt, i3) /\ Executor.get_current_height (ext i3) = 0 /\ write_channel i3 = [].
Proof.
  destruct (consensus_block_lost (HU := toy_util) toy_hash toy_encode_nonce 1000 toy_natives (fun h => h) Z.lor toy_proof_new toy_field_type
    toy_root toy_serialize [] toy_hash toy_abi tp_height (fun _ _ _ => true) (fun _ => true) 10 block_b proposal_a proof_1
    (some_closed proposal_a) (in_stage ExecutingProposal None)) as (i1 & i2 & i3 & H1 & _ & _ & H3 & Hc & _ & _ & _ & Hw);
    [reflexivity|by vm_compute|reflexivity|reflexivity|done|apply stage_linked|reflexivity|].
  exists i1, i2, i3. split; [exact H1|]. split; [exact H3|]. split; [|exact Hw]. unfold Executor.get_current_height. rw Hc. by vm_compute.
Defined.

(** The header of block [b] gets the transactions root of proposal [a]. *)
Lemma superseded_proposal_finalized_witness :
  exists i1 i2 i3 : toy_inst,
    run (toy_distribute (SignedProposal proposal_b)) (in_stage WaitFinalized (Some (some_closed proposal_a))) = (Ok tt, i1) /\
    run (toy_distribute (BlockWithProof block_b proof_1)) i1 = (Ok tt, i2) /\
    run (toy_execute 1) (take_number i2 [1]) = (Ok tt, i3) /\ transactions_root (Executor.current_header (ext i3)) = 7 /\
    transactions_root (header block_b) = 8.
Proof.
  destruct (superseded_proposal_finalized (HU := toy_util) toy_hash toy_encode_nonce 1000 toy_natives (fun h => h) Z.lor toy_proof_new
    toy_field_type toy_root toy_serialize [] toy_hash toy_abi tp_height (fun _ _ _ => true) (fun _ => true) 10 proposal_a proposal_b block_b
    proof_1 (some_closed proposal_a) (in_stage WaitFinalized (Some (some_closed proposal_a)))) as (i1 & i2 & H1 & H2 & _ & H3);
    [reflexivity|reflexivity|by vm_compute|by vm_compute|reflexivity|reflexivity|done|reflexivity|apply stage_linked|apply stage_linked|reflexivity|].
  assert (E1 : i1 = toy_receive (SignedProposal proposal_b) (in_stage WaitFinalized (Some (some_closed proposal_a))))
    by exact (eq_sym (f_equal snd H1)).
  assert (E2 : i2 = toy_receive (BlockWithProof block_b proof_1) i1) by exact (eq_sym (f_equal snd H2)).
  assert (Hr : run (toy_execute 1) (take_number i2 [1]) = (Ok tt, toy_run_block (take_number i2 [1]))).
  { apply (ran (toy_execute 1)). rw E2 E1. by vm_compute. }
  exists i1, i2, (toy_run_block (take_number i2 [1])). split; [exact H1|]. split; [exact H2|]. split; [exact Hr|].
  split; [|reflexivity]. rw (H3 _ Hr). reflexivity.
Defined.

Lemma execution_ahead_transparent_witness :
  Executor.current_header (ext ahead_done) = Executor.current_header (ext direct_done) /\
  Executor.get_current_height (ext direct_done) = 1.
Proof.
  split; [|by vm_compute].
  apply (execution_ahead_transparent (HU := toy_util) toy_hash toy_encode_nonce 1000 toy_natives (fun h => h) Z.lor toy_proof_new toy_field_type
    toy_root toy_serialize [] toy_hash toy_abi tp_height (fun _ _ _ => true) (fun _ => true) 10 proposal_a block_a proof_1
    (ok_or GlobalSysConfig_new (get_current_sys_conf (Executor.sys_configs toy_executor) 0)) toy_instance direct_queued direct_done
    ahead_queued ahead_executed ahead_received ahead_done).
  - by vm_compute.
  - by vm_compute.
  - by vm_compute.
  - apply next_linked.
  - reflexivity.
  - split; reflexivity.
  - by vm_compute.
  - by vm_compute.
  - refine (ran_message (BlockWithProof block_a proof_1) toy_instance _). by vm_compute.
  - refine (ran_block direct_queued _). by vm_compute.
  - refine (ran_message (SignedProposal proposal_a) toy_instance _). by vm_compute.
  - refine (ran_block ahead_queued _). by vm_compute.
  - refine (ran_message (BlockWithProof block_a proof_1) ahead_executed _). by vm_compute.
  - refine (ran_block ahead_received _). by vm_compute.
Defined.

(** ** Hashes: block [k] has the hash [1000 + k] *)
Definition toy_hashes (k : Z) : H256 := 1000 + k.
Definition header_at (n : Z) : Header := mkHeader 0 100 n 2 1 0 0 0 1000000 {| tp_height := 0 |} 0.
Definition numbered_store : toy_store :=
  ToyStore (<[(COL_HEADERS, key_hash (toy_hashes 1)) := rlp_out (to_rlp (header_at 1))]>
    (list_to_map ((fun k => ((COL_EXTRA, key_number k), rlp_out (to_rlp (Rlp := Rlp_H256) (toy_hashes k)))) <$> [0; 1; 2; 3]))) first_db.
Definition at_height (n : Z) (l : list H256) : toy_ex :=
  Executor.mk (header_at n) false false n ∅ Idle numbered_store ∅ l no_result 2 [].

Lemma numbered n l : 0 <= n <= 3 -> hashes_upto (Executor.store (at_height n l)) toy_hashes n.
Proof. intros Hn k Hk. assert (k = 0 \/ k = 1 \/ k = 2 \/ k = 3) as [->|[->|[->| ->]]] by lia; by vm_compute. Qed.

Definition block_info (n : Z) (l : list H256) : EnvInfo.t :=
  {| EnvInfo.number := n; EnvInfo.author := 0; EnvInfo.timestamp := 1; EnvInfo.difficulty := 0;
     EnvInfo.gas_limit := 1000000; EnvInfo.last_hashes := l; EnvInfo.gas_used := 0; EnvInfo.account_gas_limit := 500000 |}.
Definition hash_env : env (L := gmap Z Z) (D := toy_db) (J := gmap Z BitSet) :=
  Env (World (sample_state store_code) ∅ Substate.new) InitContract 0 (OriginInfo.from (sample_params store_code 100)).

(** Started on the first block, one more: block 2 sees the hash of block 1. *)
Definition toy_execute_now (b : Block (Proof_ := toy_proof)) : prog toy_inst unit :=
  ext_execute_block (D := toy_db) (L := gmap Z Z) toy_hash toy_encode_nonce 1000 toy_natives (fun h => h) Z.lor toy_root toy_serialize []
    toy_hash toy_abi 10 b.
Abbreviation toy_quiet_step := (quiet_step (D := toy_db) (L := gmap Z Z) (S := toy_store) (J := gmap Z BitSet) toy_hash toy_encode_nonce 1000
  toy_natives (fun h => h) Z.lor toy_root toy_serialize [] toy_hash toy_abi 10).

Lemma toy_quiet (i : toy_inst) b : number (header b) = number (Executor.current_header (ext i)) + 1 -> fits 32 (number (header b)) ->
  (run (toy_execute_now b) i).1 = Ok tt -> rtc toy_quiet_step i (run (toy_execute_now b) i).2.
Proof. intros Hn Hf Hr. apply rtc_once. eapply quiet_execute; [exact Hn|exact Hf|]. by apply (ran (toy_execute_now b)). Qed.

Definition after_one : toy_inst := (run (toy_execute_now block_a) toy_instance).2.
Definition second_block : Block (Proof_ := toy_proof) :=
  mkBlock (mkHeader (header_hash rlp_out (Executor.current_header (ext after_one))) 103 2 9 0 0 0 0 1000000 {| tp_height := 2 |} 0) [].

Definition plain_conf : GlobalSysConfig := mkConfig ∅ ∅ [] 0 {| common_gas_limit := 0; specific_gas_limit := ∅ |} 0 0 false false.

Lemma opens {A} (r : outcome void A) : match r with Ok _ => true | _ => false end = true -> exists a, r = Ok a.
Proof. destruct r as [a|err|]; [by exists a|done|done]. Qed.

Lemma second_opens : exists o, Executor.open_block (D := toy_db) (L := gmap Z Z) plain_conf second_block 1
  (Executor.last_hashes (ext after_one)) (ext after_one) = Ok o.
Proof. apply opens. vm_compute. reflexivity. Qed.

Lemma one_quiet : rtc toy_quiet_step toy_instance after_one.
Proof. apply (toy_quiet toy_instance block_a); vm_compute; [reflexivity|by split|reflexivity]. Qed.

Lemma starts : started = Ok toy_executor.
Proof. destruct (opens started) as [e He]; [vm_compute; reflexivity|]. unfold toy_executor. by rw He. Qed.

Lemma one_number : number (Executor.current_header (ext after_one)) = 1.
Proof. vm_compute. reflexivity. Qed.

Lemma second_follows : number (header second_block) = number (Executor.current_header (ext after_one)) + 1.
Proof. vm_compute. reflexivity. Qed.


(** After a call on block 1, block 4 sees the hash of block 1 for block 3. *)
Lemma old_call_spoils_hashes_witness :
  let e := at_height 3 (window toy_hashes 3) in
  let e' := (Executor.call (L := gmap Z Z) toy_hash toy_encode_nonce 1000 toy_natives (exec_tx 30000) (BidNumber 1) e).2 in
  env_blockhash (block_info 4 (Executor.last_hashes e')) 3 hash_env = (Ok 1001, hash_env).
Proof.
  intros e e'. apply (old_call_spoils_hashes toy_hash toy_encode_nonce 1000 toy_natives toy_hashes 3 1 (exec_tx 30000) (header_at 1) e
    (Executor.call_info (header_at 1) (window toy_hashes 1))).
  - done.
  - done.
  - by apply numbered.
  - reflexivity.
  - done.
  - by vm_compute.
  - reflexivity.
  - exists (window toy_hashes 1). split; [by vm_compute|reflexivity].
  - reflexivity.
  - reflexivity.
Defined.

Lemma addresses_round_trip_witness : Executor.parse_output_to_addresses (abi_addresses [5; 2 ^ 160 - 1; 0]) = Ok [5; 2 ^ 160 - 1; 0].
Proof. apply (addresses_round_trip [5; 2 ^ 160 - 1; 0]); [by repeat constructor|done]. Defined.

(** The executed header of the chain's first block. *)
Definition agreed_header : Header := mkHeader (get_current_hash toy_c1) 101 1 2 1 3 1 50 1000 {| tp_height := 0 |} 0.

Lemma services_agree_witness :
  wp (toy_dispatch (Executed toy_result1))
    (fun _ c' => get_current_hash c' = header_hash rlp_out agreed_header /\ get_current_height c' = 1) none toy_c2.
Proof.
  apply (services_agree (fun k => k) toy_proof_ok toy_proof_new toy_field_type tp_height (fun _ => True) toy_insert toy_insert_ok toy_check
    (Executor.mkClosed (D := toy_db) (L := gmap Z Z) agreed_header [] (sample_state store_code)) toy_c2 toy_result1 (ConsensusBlock toy_b1 proof_1)).
  - exact toy_c2_inv.
  - exact toy_result1_ok.
  - reflexivity.
  - done.
  - right. split; by vm_compute.
  - by vm_compute.
  - reflexivity.
  - reflexivity.
  - fits_tac.
Defined.
